(* ===== verification/_CoqProject ===== *)
-Q . S2P
Prelude.v
F64.v
ValidatorSet.v
BftTypes.v
Evidence.v
Tendermint.v
Engine.v
EngineSafety.v
FeeMarket.v
Borsh.v
TxContext.v
TxSafety.v
TxEval.v
TxInvariant.v
Treasury.v
PassiveStake.v
DeveloperRewards.v
Governance.v
GovernanceSafety.v
AccountCache.v
FeeDistribution.v
Slashing.v
ActiveSet.v
StateRent.v
StorageAdapter.v
BftService.v
ConsensusNet.v
EpochRewards.v
RewardsDistribution.v
RewardsRecovery.v
