(* ===== verification/Prelude.v ===== *)
(** * TRv1: a verification library

    TRv1 is a validator derived from Agave: it replaces Tower BFT by a
    Tendermint-style engine, adds four built-in programs, a fee market, a
    tiered account store, slashing and a staking reward at a flat rate.  This
    library models those parts, and the parts of the inherited runtime they
    stand on, as executable Gallina functions, and proves what makes each
    correct.  Paths below are relative to src/.

    ** The program and its model

    Consensus.  A validator runs one [ConsensusService] (core/src/), which
    owns a [BftAdapter], which owns a [ConsensusEngine] (consensus-bft/src/).
    The service feeds messages and expired timers to the engine and sends out
    what the engine returns; a commit goes to the block producer, which makes
    a new bank.
    - ValidatorSet.v: validator_set.rs and proposer.rs.
    - BftTypes.v: types.rs, config.rs and timeout.rs.
    - Evidence.v: evidence.rs.
    - Engine.v: engine.rs; a handler is a function from an engine to an
      engine and an [EngineOutput].
    - Tendermint.v: the abstract protocol, an inductive step relation.
    - EngineSafety.v: the engine refines the protocol; agreement and the
      other theorems on one engine and on a network of engines.
    - BftService.v: consensus_service.rs, bft_adapter.rs, block_producer.rs
      and the banks and bank forks they touch.
    - ConsensusNet.v: consensus-net/src/: frames, connections, peers and the
      catch-up of missing blocks.

    Programs and runtime.  A message is a list of instructions; each runs a
    built-in program on borrowed accounts, between a push and a pop that
    check balances and ownership.
    - Borsh.v: what the programs rely on of the borsh and bincode crates.
    - TxContext.v: transaction-context/src/, and the paths of
      program-runtime/src/invoke_context.rs and svm/src/message_processor.rs
      that run built-in programs.  Programs are written in the monad [M].
    - TxSafety.v, TxEval.v, TxInvariant.v: the interfaces [SafeProgram] and
      [DataInvariant] between the runtime and the programs, and the lemmas
      that evaluate a program.
    - Treasury.v, PassiveStake.v, DeveloperRewards.v, Governance.v: the
      crates of programs/, every instruction handler; GovernanceSafety.v: the
      theorems on governance.

    Economics.
    - FeeMarket.v: fee-market/src/ and runtime/src/bank/trv1_fee_integration.rs.
    - FeeDistribution.v: runtime/src/bank/fee_distribution.rs,
      trv1_constants.rs and the rent states of svm/src/rent_calculator.rs.
    - EpochRewards.v: runtime/src/inflation_rewards/ and the calculation of
      runtime/src/bank/partitioned_epoch_rewards/; RewardsDistribution.v: the
      payment of what was calculated, one partition per block;
      RewardsRecovery.v: the recalculation after a restart, and the slashing
      state across restarts and forks (runtime/src/bank.rs).
    - Slashing.v: runtime/src/slashing.rs; ActiveSet.v:
      runtime/src/trv1_active_set.rs.  The jailed set of the former cuts the
      latter and the rewards.
    - F64.v: the binary64 arithmetic these use, with bounds on its rounding.

    Account storage (accounts-db/src/).
    - AccountCache.v: account_cache.rs, a doubly linked list in a vector.
    - StateRent.v: state_rent_expiry.rs, archival and revival.
    - StorageAdapter.v: trv1_storage_adapter.rs, trv1_maintenance.rs and the
      hooks in accounts_db.rs.

    This file: results and their notation, machine-width arithmetic, generic
    lemmas on lists, sums, maps and options, and the shared tactics and hints.

    ** What the theorems show

    - Consensus, for a finality threshold between 0.6667 and 0.999 and short
      of the timeout of the last round, where the counter wraps: engines of
      which at most a third of the stake is Byzantine commit one block hash
      per height if every claimed valid round is true; the claim is not
      checked and the services themselves make false claims, and both times a
      run to disagreement is given.  The hash does not cover the transactions.
      The engine refines the abstract protocol, a service never equivocates, a
      certificate is backed by a quorum (for every threshold), a quorum of
      precommits decides, and an idle service goes from round to round.
    - Runtime: a message conserves lamports whatever safe programs it calls.
    - Programs: the life of a position, a config and a proposal over
      arbitrary messages, well-formedness of the stored data, and the
      attacks and dead ends that the handlers allow.
    - Storage: the cache refines a plain LRU list and its eviction loop
      terminates; the adapter finds the right accounts on one fork (with slot 0
      when the cache hits) and not on several;
      an archived account comes back as it was, or its tampering is found.
    - Economics: the base fee is the EIP-1559 formula on every input; fees
      are conserved; the rewards of an epoch stay within what was minted for
      it, do not depend on how threads divide the work, and reach every vote
      account and every stake exactly once, the stakes also across a restart
      in an epoch with points if the slashing state survives it, which it does
      not; sentences of slashes and offline checks are served and jailed
      validators do not lead, but one fork's jails reach all others.
    - Network: frames are delivered in order and whole; requests in flight
      stay within their limit.

    ** Conventions

    A machine integer is a [Z] with the wrap-around, saturation or check of
    the source written out ([wrapping_add], [saturating_add], [checked_add]);
    plain operators wrap, as in the release profile.  [Result] is [result],
    a panic is [None] where the code can panic.  Clocks, the answers of the
    operating system and of the network are arguments.  A [HashMap] that is
    iterated goes through the class [HashMapIter] (some permutation of the
    entries), so that theorems hold for every order.

    Fuel: the read loop of a connection gets one unit more than the bytes of
    the stream, and each turn that goes on takes at least four bytes; the
    eviction loops of the cache get one unit per entry and one to see that the
    cache is empty, and the theorem on eviction shows that they end at the
    watermark, at the batch limit or with an empty cache.  All other recursion
    is structural.

    Code outside src/ is a parameter with named hypotheses: SHA-256, base58,
    borsh, bincode, the vote and stake state of the SDK, [Rent::is_exempt].
    Each such hypothesis is satisfied by a concrete instance in a witness.

    ** Not modelled

    - Threads, sockets and channels as such: one turn of a loop is a
      function, and what arrives is its argument.
    - Execution of transactions in the virtual machine, cross-program
      invocation, compute metering and logging; the programs modelled use
      none of them to change accounts.
    - The flushing, cleaning and shrinking of the accounts database, of which
      one fork is a map.
    - The cache of reward calculations per parent hash, the stake totals per
      vote account and the balance of the reward sysvar.
    - monitoring/, the RPC methods and the command lines (queries and I/O),
      and genesis and start-up (configuration and thread creation).
    - The rest of the inherited validator (ledger, gossip, turbine, banking
      stage), which TRv1 leaves as it is. *)

From stdpp Require Import base numbers list option gmap.
From Stdlib Require Import ZArith Lia.

Declare Scope trv1_scope.
Delimit Scope trv1_scope with trv1.
Local Open Scope Z_scope.

(** ** Results

    Rust's [Result<A, E>]; the [?] operator is the bind below. *)

Inductive result (A E : Type) : Type :=
  | Ok (a : A)
  | Err (e : E).
Arguments Ok {A E} a.
Arguments Err {A E} e.

Definition result_bind {A B E} (m : result A E) (k : A -> result B E) : result B E :=
  match m with
  | Ok a => k a
  | Err e => Err e
  end.

(** [opt.ok_or(e)] *)
Definition ok_or {A E} (o : option A) (e : E) : result A E :=
  match o with
  | Some a => Ok a
  | None => Err e
  end.

(** [r.map_err(f)] *)
Definition map_err {A E F} (f : E -> F) (r : result A E) : result A F :=
  match r with
  | Ok a => Ok a
  | Err e => Err (f e)
  end.

(** [r1.and(r2)], both sides already evaluated *)
Definition result_and {A B E} (r1 : result A E) (r2 : result B E) : result B E :=
  match r1 with
  | Ok _ => r2
  | Err e => Err e
  end.

Definition is_ok {A E} (r : result A E) : bool :=
  match r with Ok _ => true | Err _ => false end.

Notation "'let?' x ':=' m 'in' k" := (result_bind m (fun x => k))
  (at level 10, x pattern, m at level 100, k at level 200) : trv1_scope.

Lemma ok_or_Ok {A E} (o : option A) (e : E) a : ok_or o e = Ok a <-> o = Some a.
Proof. destruct o; simpl; split; congruence. Qed.

Lemma ok_or_Err {A E} (o : option A) (e e' : E) : ok_or o e = Err e' <-> o = None /\ e = e'.
Proof. destruct o; simpl; intuition congruence. Qed.

Lemma result_bind_Ok {A B E} (m : result A E) (k : A -> result B E) b :
  result_bind m k = Ok b <-> exists a, m = Ok a /\ k a = Ok b.
Proof. destruct m; simpl; split; [eauto|intros (? & [= <-] & ?); done|done|intros (? & ? & ?); congruence]. Qed.

(** ** Machine integers

    A [w]-bit unsigned integer is a [Z] between 0 and its [MAX]; the checked,
    saturating and wrapping operations take the type's bounds as parameters.
    Plain [+], [*] and [.sum()] wrap: the release profile of Cargo.toml does not
    set overflow-checks. *)

Abbreviation u8_max := 255.
Abbreviation u16_max := 65535.
Abbreviation u32_max := 4294967295.
Abbreviation u64_max := 18446744073709551615.
Abbreviation u128_max := 340282366920938463463374607431768211455.
Abbreviation i64_max := 9223372036854775807.
Abbreviation i64_min := (-9223372036854775808).
Abbreviation i128_max := 170141183460469231731687303715884105727.
Abbreviation i128_min := (-170141183460469231731687303715884105728).

Abbreviation in_u8 z := (0 <= z <= u8_max).
Abbreviation in_u16 z := (0 <= z <= u16_max).
Abbreviation in_u32 z := (0 <= z <= u32_max).
Abbreviation in_u64 z := (0 <= z <= u64_max).
Abbreviation in_i64 z := (i64_min <= z <= i64_max).

Definition checked_add (max a b : Z) : option Z :=
  if a + b <=? max then Some (a + b) else None.
Definition checked_sub (a b : Z) : option Z :=
  if b <=? a then Some (a - b) else None.
Definition checked_mul (max a b : Z) : option Z :=
  if a * b <=? max then Some (a * b) else None.
Definition checked_div (a b : Z) : option Z :=
  if b =? 0 then None else Some (a / b).

Definition saturating_add (max a b : Z) : Z := Z.min max (a + b).
Definition saturating_sub (a b : Z) : Z := Z.max 0 (a - b).
Definition saturating_mul (max a b : Z) : Z := Z.min max (a * b).

Definition wrapping_add (max a b : Z) : Z := (a + b) mod (max + 1).
Definition wrapping_mul (max a b : Z) : Z := (a * b) mod (max + 1).

(** signed operations, with both bounds *)
Definition in_range (min max z : Z) : bool := (min <=? z) && (z <=? max).
Definition checked_add_i (min max a b : Z) : option Z :=
  if in_range min max (a + b) then Some (a + b) else None.
Definition checked_mul_i (min max a b : Z) : option Z :=
  if in_range min max (a * b) then Some (a * b) else None.
Definition saturating_add_i (min max a b : Z) : Z := Z.max min (Z.min max (a + b)).
Definition saturating_sub_i (min max a b : Z) : Z := Z.max min (Z.min max (a - b)).

(** [x as i64] for an unsigned 64-bit [x] *)
Definition u64_as_i64 (z : Z) : Z := if z <=? i64_max then z else z - (u64_max + 1).

(** [u64::try_from(x)] for an unsigned wider [x] *)
Definition try_into_u64 (z : Z) : option Z := if z <=? u64_max then Some z else None.

(** [iter.sum::<u64>()], wrapping *)
Definition sum_u64 (l : list Z) : Z := foldl (wrapping_add u64_max) 0 l.

(** the mathematical sum *)
Definition zsum (l : list Z) : Z := foldr Z.add 0 l.

Ltac solve_checked :=
  case_match; split; intros; destruct_and?; simplify_eq; try congruence; try f_equal;
  solve [lia | split; lia | exfalso; lia].

Lemma checked_add_Some max a b c : checked_add max a b = Some c <-> c = a + b /\ a + b <= max.
Proof. unfold checked_add. solve_checked. Qed.
Lemma checked_sub_Some a b c : checked_sub a b = Some c <-> c = a - b /\ b <= a.
Proof. unfold checked_sub. solve_checked. Qed.
Lemma checked_mul_Some max a b c : checked_mul max a b = Some c <-> c = a * b /\ a * b <= max.
Proof. unfold checked_mul. solve_checked. Qed.
Lemma checked_div_Some a b c : checked_div a b = Some c <-> c = a / b /\ b <> 0.
Proof. unfold checked_div. solve_checked. Qed.
Lemma checked_add_None max a b : checked_add max a b = None <-> max < a + b.
Proof. unfold checked_add. solve_checked. Qed.
Lemma checked_sub_None a b : checked_sub a b = None <-> a < b.
Proof. unfold checked_sub. solve_checked. Qed.
Lemma checked_mul_None max a b : checked_mul max a b = None <-> max < a * b.
Proof. unfold checked_mul. solve_checked. Qed.
Lemma try_into_u64_Some z c : try_into_u64 z = Some c <-> c = z /\ z <= u64_max.
Proof. unfold try_into_u64. solve_checked. Qed.

Lemma wrapping_add_small max a b : 0 <= a -> 0 <= b -> a + b <= max ->
  wrapping_add max a b = a + b.
Proof. intros. unfold wrapping_add. apply Z.mod_small. lia. Qed.

(** ** Sums *)

Lemma zsum_app l1 l2 : zsum (l1 ++ l2) = zsum l1 + zsum l2.
Proof. induction l1; simpl; lia. Qed.

Lemma zsum_nonneg l : Forall (fun z => 0 <= z) l -> 0 <= zsum l.
Proof. induction 1; simpl; lia. Qed.

Lemma zsum_perm l1 l2 : Permutation l1 l2 -> zsum l1 = zsum l2.
Proof. induction 1; simpl; lia. Qed.

#[export] Instance zsum_Proper : Proper (Permutation ==> eq) zsum.
Proof. intros l1 l2 H. by apply zsum_perm. Qed.

Lemma zsum_le_elem l z : Forall (fun z => 0 <= z) l -> In z l -> z <= zsum l.
Proof.
  induction 1 as [|y l Hy Hl IH]; simpl; [done|].
  pose proof (zsum_nonneg l Hl). intros [->|Hin]; [lia|]. specialize (IH Hin). lia.
Qed.

Lemma sum_u64_foldl acc l : Forall (fun z => 0 <= z) l -> 0 <= acc -> acc + zsum l <= u64_max ->
  foldl (wrapping_add u64_max) acc l = acc + zsum l.
Proof.
  revert acc. induction l as [|z l IH]; intros acc Hl Hacc Hle; simpl in *; [lia|].
  inversion Hl as [|? ? Hz Hl']; subst. pose proof (zsum_nonneg l Hl').
  rewrite wrapping_add_small by lia. rewrite IH by (auto; lia). lia.
Qed.

(** A sum that fits in a [u64] does not wrap. *)
Lemma sum_u64_exact l : Forall (fun z => 0 <= z) l -> zsum l <= u64_max -> sum_u64 l = zsum l.
Proof. intros. unfold sum_u64. rewrite sum_u64_foldl; auto; lia. Qed.

(** ** Lists *)

Lemma filter_all {A} (P : A -> Prop) `{!forall x, Decision (P x)} (l : list A) :
  Forall P l -> filter P l = l.
Proof. induction 1 as [|x l Hx _ IH]; [done|]. by rewrite filter_cons_True, IH. Qed.

Lemma elem_of_snoc {A} (x y : A) l : x ∈ l ++ [y] <-> x ∈ l \/ x = y.
Proof. by rewrite elem_of_app, list_elem_of_singleton. Qed.

Lemma omap_rev {A B} (f : A -> option B) l : omap f (rev l) = rev (omap f l).
Proof.
  induction l as [|x l IH]; [done|]. simpl. rewrite omap_app, IH. simpl.
  destruct (f x); simpl; [done|by rewrite app_nil_r].
Qed.

(** ** Reflection of the boolean tests of the code *)

Create HintDb trv1.
Create Rewrite HintDb breflect.
#[export] Hint Rewrite Z.leb_le Z.ltb_lt Z.eqb_eq Z.leb_gt Z.ltb_ge Z.eqb_neq
  Nat.leb_le Nat.ltb_lt Nat.eqb_eq Nat.leb_gt Nat.ltb_ge Nat.eqb_neq
  andb_true_iff andb_false_iff orb_true_iff orb_false_iff negb_true_iff negb_false_iff
  bool_decide_eq_true bool_decide_eq_false : breflect.

(** Turn every boolean comparison in the context into a proposition. *)
Ltac breflect := autorewrite with breflect in *.

Lemma in_range_spec x y z : in_range x y z = true <-> x <= z <= y.
Proof. unfold in_range. breflect. done. Qed.

(** Case split on the outermost test of the goal or of a hypothesis. *)
Ltac case_if :=
  match goal with
  | |- context [if ?b then _ else _] => destruct b eqn:?
  | H : context [if ?b then _ else _] |- _ => destruct b eqn:?
  end.

(** Decompose checked arithmetic and error-monad facts in the context. *)
Ltac inv_checked :=
  repeat match goal with
  | H : checked_add _ _ _ = Some _ |- _ => apply checked_add_Some in H as [? ?]
  | H : checked_sub _ _ = Some _ |- _ => apply checked_sub_Some in H as [? ?]
  | H : checked_mul _ _ _ = Some _ |- _ => apply checked_mul_Some in H as [? ?]
  | H : checked_div _ _ = Some _ |- _ => apply checked_div_Some in H as [? ?]
  | H : checked_add _ _ _ = None |- _ => apply checked_add_None in H
  | H : checked_sub _ _ = None |- _ => apply checked_sub_None in H
  | H : checked_mul _ _ _ = None |- _ => apply checked_mul_None in H
  | H : try_into_u64 _ = Some _ |- _ => apply try_into_u64_Some in H as [? ?]
  | H : ok_or _ _ = Ok _ |- _ => apply ok_or_Ok in H
  | H : result_bind _ _ = Ok _ |- _ => apply result_bind_Ok in H as (? & ? & ?)
  | H : Ok _ = Ok _ |- _ => injection H as H
  | H : Err _ = Err _ |- _ => injection H as H
  | H : Some _ = Some _ |- _ => injection H as H
  | H : Ok _ = Err _ |- _ => discriminate H
  | H : Err _ = Ok _ |- _ => discriminate H
  end.

(** ** Keys

    [Pubkey], [Hash] and [Signature] are fixed-size byte arrays.  A 32-byte
    array is the number its bytes denote in big-endian order, so that Rust's
    lexicographic [Ord] on the array is the order of the numbers. *)

Definition Pubkey : Type := Z.
Definition Hash : Type := Z.
Definition Signature : Type := Z.
#[export] Instance Pubkey_eq_dec : EqDecision Pubkey := Z.eq_dec.
#[export] Instance Hash_eq_dec : EqDecision Hash := Z.eq_dec.
#[export] Instance Pubkey_countable : Countable Pubkey := Z_countable.
#[export] Instance Hash_countable : Countable Hash := Z_countable.

Definition in_pubkey (k : Pubkey) : Prop := 0 <= k < 2 ^ 256.

(** [Pubkey::default()], [Signature::default()]: all-zero arrays *)
Definition pubkey_default : Pubkey := 0.
Definition signature_default : Signature := 0.
