(* ===== verification/F64.v ===== *)
(** * Binary64 arithmetic

    The [f64] operations the sources use (quorum thresholds, slashing
    fractions, fee percentages), over the Standard Library's executable
    specification of IEEE 754 ([SpecFloat], precision 53, maximal exponent
    1024).  The lemmas bound the rounding error of the conversions and of the
    product; clients reason with rationals. *)

From stdpp Require Import base numbers list option.
From Stdlib Require Import ZArith Lia QArith Qround Qabs Qpower Lqa SpecFloat.
From S2P Require Import Prelude.
Local Open Scope Z_scope.

Definition f64 : Type := spec_float.

Definition f64_mul : f64 -> f64 -> f64 := SFmul 53 1024.
Definition f64_div : f64 -> f64 -> f64 := SFdiv 53 1024.
Definition f64_add : f64 -> f64 -> f64 := SFadd 53 1024.
Definition f64_sub : f64 -> f64 -> f64 := SFsub 53 1024.
Definition f64_ltb : f64 -> f64 -> bool := SFltb.

(** [z as f64] for an integer, rounded to nearest even *)
Definition f64_of_Z (z : Z) : f64 := binary_normalize 53 1024 z 0 false.

(** a decimal literal [n/d], correctly rounded *)
Definition f64_lit (n d : Z) : f64 := f64_div (f64_of_Z n) (f64_of_Z d).

(** [x.ceil()] *)
Definition f64_ceil (x : f64) : f64 :=
  match x with
  | S754_finite s m e =>
      if 0 <=? e then x
      else let v := if s then Z.neg m else Z.pos m in
           let q := - ((- v) / 2 ^ (- e)) in
           if q =? 0 then S754_zero s else f64_of_Z q
  | _ => x
  end.

(** [x.round()]: to nearest, halves away from zero *)
Definition f64_round (x : f64) : f64 :=
  match x with
  | S754_finite s m e =>
      if 0 <=? e then x
      else let q := (2 * Z.pos m + 2 ^ (- e)) / (2 * 2 ^ (- e)) in
           if q =? 0 then S754_zero s else f64_of_Z (if s then - q else q)
  | _ => x
  end.

(** [x as u64]: truncation, saturating at the bounds, [NaN] to 0 *)
Definition f64_as_u64 (x : f64) : Z :=
  match x with
  | S754_zero _ | S754_nan => 0
  | S754_infinity s => if s then 0 else u64_max
  | S754_finite true _ _ => 0
  | S754_finite false m e => Z.min u64_max (if 0 <=? e then Z.pos m * 2 ^ e else Z.pos m / 2 ^ (- e))
  end.

(** [x.min(y)] on non-NaN arguments; a NaN is ignored *)
Definition f64_min (x y : f64) : f64 :=
  match x, y with
  | S754_nan, _ => y
  | _, S754_nan => x
  | _, _ => if f64_ltb y x then y else x
  end.

(** ** Digits and shifts *)

Lemma digits2_pos_log2 p : Z.pos (digits2_pos p) = Z.log2 (Z.pos p) + 1.
Proof.
  assert (forall p, digits2_pos p = Pos.size p) as -> by (induction p0; simpl; congruence).
  destruct p; simpl; lia.
Qed.

Lemma Zdigits2_log2 m : 0 < m -> Zdigits2 m = Z.log2 m + 1.
Proof. destruct m; intros; try lia. apply digits2_pos_log2. Qed.

Lemma digits_bounds m : 0 < m -> 2 ^ (Zdigits2 m - 1) <= m < 2 ^ Zdigits2 m.
Proof.
  intros Hm. rewrite Zdigits2_log2 by done. replace (Z.log2 m + 1 - 1) with (Z.log2 m) by lia.
  pose proof (Z.log2_spec m Hm). rewrite <- Z.add_1_r in H. lia.
Qed.

Lemma digits_le m k : 0 < m -> 0 <= k -> m < 2 ^ k -> Zdigits2 m <= k.
Proof.
  intros Hm Hk Hlt. rewrite Zdigits2_log2 by done.
  pose proof (proj1 (Z.log2_lt_pow2 m k Hm) Hlt). lia.
Qed.

Lemma digits_ge m k : 0 <= k -> 2 ^ k <= m -> k + 1 <= Zdigits2 m.
Proof.
  intros Hk Hle. assert (0 < m) by (pose proof (Z.pow_pos_nonneg 2 k); lia).
  rewrite Zdigits2_log2 by done. pose proof (proj1 (Z.log2_le_pow2 m k ltac:(lia)) Hle). lia.
Qed.

Lemma iter_pos_nat {A} (f : A -> A) p x : iter_pos f p x = Nat.iter (Pos.to_nat p) f x.
Proof.
  assert (Happ : forall n k y, Nat.iter n f (Nat.iter k f y) = Nat.iter (n + k) f y)
    by (intros n k y; induction n; simpl; congruence).
  revert x. induction p as [p IH|p IH|]; intros x; cbn [iter_pos]; [| |done].
  - rewrite !IH. change (f x) with (Nat.iter 1 f x). rewrite !Happ, Pos2Nat.inj_xI. f_equal. lia.
  - rewrite !IH, Happ, Pos2Nat.inj_xO. f_equal. lia.
Qed.

Lemma shr_1_spec m r s : 0 <= m -> shr_1 (Build_shr_record m r s)
  = Build_shr_record (m / 2) (Z.odd m) (r || s).
Proof.
  destruct m as [|p|p]; intros; [done| |lia]. destruct p as [p|p|]; simpl.
  - f_equal. apply (Z.div_unique _ _ _ 1); lia.
  - f_equal. apply (Z.div_unique _ _ _ 0); lia.
  - done.
Qed.

(** After [n] one-bit shifts the record holds the quotient, the first dropped
    bit and whether any lower bit was set. *)
Lemma shr_iter_spec n m : 0 <= m ->
  Nat.iter (S n) shr_1 (Build_shr_record m false false)
  = Build_shr_record (m / 2 ^ (Z.of_nat n + 1)) (Z.odd (m / 2 ^ Z.of_nat n))
      (negb (m mod 2 ^ Z.of_nat n =? 0)).
Proof.
  intros Hm. induction n as [|n IH].
  - change (Nat.iter 1 shr_1 (Build_shr_record m false false))
      with (shr_1 (Build_shr_record m false false)).
    rewrite shr_1_spec by done. simpl Z.of_nat. by rewrite Z.div_1_r, Z.mod_1_r.
  - change (Nat.iter (S (S n)) shr_1 (Build_shr_record m false false))
      with (shr_1 (Nat.iter (S n) shr_1 (Build_shr_record m false false))).
    rewrite IH, shr_1_spec by (apply Z.div_pos; lia).
    replace (Z.of_nat n + 1) with (Z.of_nat (S n)) by lia.
    assert (Hp : 2 ^ Z.of_nat (S n) = 2 ^ Z.of_nat n * 2)
      by (rewrite Nat2Z.inj_succ, Z.pow_succ_r by lia; lia).
    assert (Hp' : 2 ^ (Z.of_nat (S n) + 1) = 2 ^ Z.of_nat (S n) * 2)
      by (rewrite Z.pow_add_r by lia; lia).
    rewrite Hp', Z.div_div by lia. f_equal.
    pose proof (Z.pow_pos_nonneg 2 (Z.of_nat n)) as Hpos.
    rewrite Hp, Z.rem_mul_r, Zmod_odd by lia.
    pose proof (Z.mod_pos_bound m (2 ^ Z.of_nat n)).
    destruct (Z.odd _), (Z.eqb_spec (m mod 2 ^ Z.of_nat n) 0) as [Hz|Hz]; simpl; symmetry;
      rewrite ?negb_true_iff, ?negb_false_iff, ?Z.eqb_neq, ?Z.eqb_eq; lia.
Qed.

(** Rounding to nearest is within half a unit of the last kept bit. *)
Lemma round_shift_error n m : 0 <= m ->
  let r := Nat.iter (S n) shr_1 (Build_shr_record m false false) in
  let q := round_nearest_even (shr_m r) (loc_of_shr_record r) in
  2 * Z.abs (q * 2 ^ Z.of_nat (S n) - m) <= 2 ^ Z.of_nat (S n).
Proof.
  intros Hm. rewrite shr_iter_spec by done.
  assert (Hp : 2 ^ (Z.of_nat n + 1) = 2 * 2 ^ Z.of_nat n) by (rewrite Z.pow_add_r by lia; lia).
  replace (Z.of_nat (S n)) with (Z.of_nat n + 1) by lia.
  pose proof (Z.pow_pos_nonneg 2 (Z.of_nat n) ltac:(lia) ltac:(lia)) as Hpos.
  set (P := 2 ^ Z.of_nat n) in *. rewrite Hp.
  pose proof (Z.div_mod m P ltac:(lia)) as E1. pose proof (Z.mod_pos_bound m P Hpos) as B1.
  pose proof (Z.div_mod (m / P) 2 ltac:(lia)) as E2.
  assert (E3 : m / (2 * P) = m / P / 2) by (rewrite Z.div_div by lia; f_equal; lia).
  rewrite Zmod_odd in E2. rewrite E3.
  set (a := m / P) in *. set (b := a / 2) in *. set (c := m mod P) in *. clearbody a b c.
  destruct (Z.odd a), (Z.eqb_spec c 0); simpl; try (destruct (Z.even b)); nia.
Qed.

(** ** Rounding of a normal number *)

Definition normal_range (m e : Z) : Prop := -1074 <= Zdigits2 m + e - 53 /\ Zdigits2 m + e <= 900.

Lemma fexp_normal d e : -1074 <= d + e - 53 -> fexp 53 1024 (d + e) = d + e - 53.
Proof. intros. unfold fexp, emin. lia. Qed.

Lemma shr_nonpos r e n : n <= 0 -> shr r e n = (r, e).
Proof. destruct n; simpl; intros; [done|lia|done]. Qed.

Lemma shr_pos r e n : 0 < n -> shr r e n = (Nat.iter (S (Z.to_nat (n - 1))) shr_1 r, e + n).
Proof.
  destruct n as [|p|p]; intros; try lia. unfold shr. rewrite iter_pos_nat. do 2 f_equal. lia.
Qed.

(** The second alignment of [binary_round_aux] keeps the value. *)
Lemma shr_fexp_exact q e : 0 < q <= 2 ^ 53 -> -1074 <= e ->
  exists m' d, shr_fexp 53 1024 q e loc_Exact = (Build_shr_record m' false false, e + d)
    /\ 0 <= d <= 1 /\ q = m' * 2 ^ d /\ 0 < m' /\ (2 ^ 52 <= q -> 2 ^ 52 <= m') /\ m' < 2 ^ 53.
Proof.
  intros [Hq Hq'] He. unfold shr_fexp, shr_record_of_loc.
  destruct (Z.eq_dec q (2 ^ 53)) as [->|Hne].
  - exists (2 ^ 52), 1. replace (Zdigits2 (2 ^ 53)) with 54 by reflexivity.
    rewrite fexp_normal by lia. replace (54 + e - 53 - e) with 1 by lia.
    repeat split; lia.
  - exists q, 0. assert (Zdigits2 q <= 53) by (apply digits_le; lia).
    rewrite shr_nonpos by (unfold fexp, emin; lia). rewrite Z.add_0_r. repeat split; lia.
Qed.

Lemma binary_round_aux_spec m e : 0 < m -> normal_range m e ->
  exists m' d, binary_round_aux 53 1024 false m e loc_Exact = S754_finite false m' (e + d)
    /\ 0 <= d /\ 2 ^ 53 * Z.abs (Z.pos m' * 2 ^ d - m) <= m
    /\ (2 ^ 52 <= m -> 2 ^ 52 <= Z.pos m') /\ Z.pos m' < 2 ^ 53.
Proof.
  intros Hm [Hlo Hhi]. unfold binary_round_aux. unfold shr_fexp at 1.
  rewrite fexp_normal by done. replace (Zdigits2 m + e - 53 - e) with (Zdigits2 m - 53) by lia.
  pose proof (digits_bounds m Hm) as [Hd1 Hd2].
  destruct (Z.leb_spec (Zdigits2 m - 53) 0) as [Hk|Hk].
  - rewrite shr_nonpos by done. simpl shr_record_of_loc. cbn [shr_m loc_of_shr_record round_nearest_even].
    assert (m < 2 ^ 53) by (pose proof (Z.pow_le_mono_r 2 (Zdigits2 m) 53); lia).
    destruct (shr_fexp_exact m e) as (m' & d & -> & Hd & Heq & Hm' & Hge & Hlt); [lia|lia|].
    simpl shr_m. destruct m' as [|m'|m']; try lia.
    replace (e + d <=? 1024 - 53) with true by (symmetry; apply Z.leb_le; pose proof (digits_ge m 0 ltac:(lia) ltac:(lia)); lia).
    exists m', d. rewrite <- Heq, Z.sub_diag. repeat split; lia.
  - rewrite shr_pos by done.
    set (n := Z.to_nat (Zdigits2 m - 53 - 1)). simpl shr_record_of_loc.
    pose proof (round_shift_error n m ltac:(lia)) as Herr. cbv zeta in Herr.
    set (r := Nat.iter (S n) shr_1 _) in *.
    set (q := round_nearest_even (shr_m r) (loc_of_shr_record r)) in *.
    assert (Hn : Z.of_nat (S n) = Zdigits2 m - 53) by lia. rewrite Hn in Herr.
    set (k := Zdigits2 m - 53) in *.
    assert (E1 : 2 ^ (Zdigits2 m - 1) = 2 ^ 52 * 2 ^ k) by (rewrite <- Z.pow_add_r by lia; f_equal; lia).
    assert (E2 : 2 ^ Zdigits2 m = 2 ^ 53 * 2 ^ k) by (rewrite <- Z.pow_add_r by lia; f_equal; lia).
    pose proof (Z.pow_pos_nonneg 2 k ltac:(lia) ltac:(lia)) as Hpk.
    assert (2 ^ 52 <= q <= 2 ^ 53) as Hq by (clearbody q k; nia).
    destruct (shr_fexp_exact q (e + k)) as (m' & d & Hs & Hd & Heq & Hm' & Hge & Hlt); [lia|lia|].
    rewrite Hs. simpl shr_m. destruct m' as [|m'|m']; try lia.
    replace (e + k + d <=? 1024 - 53) with true by (symmetry; apply Z.leb_le; lia).
    exists m', (k + d). rewrite Z.add_assoc. split; [done|]. split; [lia|].
    rewrite Z.pow_add_r by lia.
    replace (Z.pos m' * (2 ^ k * 2 ^ d)) with (q * 2 ^ k) by (rewrite Heq; ring).
    repeat split; clearbody q k; nia.
Qed.

(** ** Rational values *)

Definition pow2Q (e : Z) : Q := Qpower 2 e.
Definition qval (m e : Z) : Q := (inject_Z m * pow2Q e)%Q.

Definition f64_val (x : f64) : Q :=
  match x with
  | S754_finite s m e => qval (if s then Z.neg m else Z.pos m) e
  | _ => 0%Q
  end.

Lemma pow2Q_pos e : (0 < pow2Q e)%Q.
Proof. apply Qpower_0_lt. reflexivity. Qed.

Lemma pow2Q_add a b : (pow2Q (a + b) == pow2Q a * pow2Q b)%Q.
Proof. apply Qpower_plus. discriminate. Qed.

Lemma pow2Q_Z e : 0 <= e -> (pow2Q e == inject_Z (2 ^ e))%Q.
Proof. intros. unfold pow2Q. rewrite Zpower_Qpower by done. reflexivity. Qed.

Lemma pow2Q_neg e : (pow2Q (- e) * pow2Q e == 1)%Q.
Proof. rewrite <- pow2Q_add. replace (- e + e) with 0 by lia. reflexivity. Qed.

Lemma qval_shift m d e : 0 <= d -> (qval m (e + d) == qval (m * 2 ^ d) e)%Q.
Proof. intros. unfold qval. rewrite pow2Q_add, inject_Z_mult, (pow2Q_Z d) by done. ring. Qed.

Lemma qval_mult m1 e1 m2 e2 : (qval (m1 * m2) (e1 + e2) == qval m1 e1 * qval m2 e2)%Q.
Proof. unfold qval. rewrite pow2Q_add, inject_Z_mult. ring. Qed.

Lemma qval_le m m' e : m <= m' -> (qval m e <= qval m' e)%Q.
Proof.
  intros. unfold qval. apply Qmult_le_compat_r; [by rewrite <- Zle_Qle|].
  apply Qlt_le_weak, pow2Q_pos.
Qed.

(** [close a b]: [a] is [b] up to a relative error of 2^-53 *)
Definition close (a b : Q) : Prop :=
  (inject_Z (2 ^ 53 - 1) * b <= inject_Z (2 ^ 53) * a /\ inject_Z (2 ^ 53) * a <= inject_Z (2 ^ 53 + 1) * b)%Q.

#[export] Instance close_Proper : Proper (Qeq ==> Qeq ==> iff) close.
Proof. intros a a' Ha b b' Hb. unfold close. by rewrite Ha, Hb. Qed.

Lemma qval_scale k m e : (inject_Z k * qval m e == qval (k * m) e)%Q.
Proof. unfold qval. rewrite inject_Z_mult. ring. Qed.

Lemma close_qval R m e : 2 ^ 53 * Z.abs (R - m) <= m -> close (qval R e) (qval m e).
Proof. intros H. unfold close. rewrite !qval_scale. split; apply qval_le; lia. Qed.

(** ** Conversions and products *)

Lemma iter_xO p d : Z.pos (Pos.iter xO p d) = Z.pos p * 2 ^ Z.pos d.
Proof.
  induction d as [|d IH] using Pos.peano_ind.
  - simpl. lia.
  - rewrite Pos.iter_succ, Pos2Z.inj_xO, IH, Pos2Z.inj_succ, Z.pow_succ_r by lia. lia.
Qed.

Lemma shl_align_spec p : Z.pos p < 2 ^ 64 ->
  exists a b, shl_align p 0 (fexp 53 1024 (Zdigits2 (Z.pos p) + 0)) = (a, b)
    /\ Z.pos a = Z.pos p * 2 ^ (- b) /\ 2 ^ 52 <= Z.pos a < 2 ^ 64 /\ -52 <= b <= 0
    /\ (Z.pos p < 2 ^ 53 -> Z.pos a < 2 ^ 53).
Proof.
  intros Hp. pose proof (digits_bounds (Z.pos p) ltac:(lia)) as [Hb1 Hb2].
  pose proof (digits_ge (Z.pos p) 0 ltac:(lia) ltac:(lia)) as Hd1.
  rewrite fexp_normal by lia. unfold shl_align. rewrite Z.add_0_r, Z.sub_0_r.
  set (k := Zdigits2 (Z.pos p)) in *.
  destruct (k - 53) as [|d|d] eqn:Ed.
  1, 2: exists p, 0; rewrite Z.mul_1_r; pose proof (Z.pow_le_mono_r 2 52 (k - 1)); repeat split; lia.
  exists (Pos.iter xO p d), (Z.neg d). rewrite iter_xO. simpl (- Z.neg d).
  assert (E1 : 2 ^ 52 = 2 ^ (k - 1) * 2 ^ Z.pos d) by (rewrite <- Z.pow_add_r by lia; f_equal; lia).
  assert (E2 : 2 ^ 53 = 2 ^ k * 2 ^ Z.pos d) by (rewrite <- Z.pow_add_r by lia; f_equal; lia).
  pose proof (Z.pow_pos_nonneg 2 (Z.pos d) ltac:(lia) ltac:(lia)).
  assert (2 ^ 52 <= Z.pos p * 2 ^ Z.pos d < 2 ^ 53) by (clearbody k; nia).
  repeat split; lia.
Qed.

Lemma qval_unshift q b : b <= 0 -> (qval (q * 2 ^ (- b)) b == inject_Z q)%Q.
Proof.
  intros. rewrite <- qval_shift by lia. replace (b + - b) with 0 by lia. unfold qval.
  change (pow2Q 0) with 1%Q. ring.
Qed.

(** [z as f64]: exact below 2^53, within 2^-53 above. *)
Lemma f64_of_Z_spec z : 0 < z < 2 ^ 64 ->
  exists m e, f64_of_Z z = S754_finite false m e
    /\ 2 ^ 52 <= Z.pos m < 2 ^ 53 /\ -52 <= e <= 64
    /\ close (qval (Z.pos m) e) (inject_Z z)
    /\ (z < 2 ^ 53 -> (qval (Z.pos m) e == inject_Z z)%Q).
Proof.
  intros [Hz Hz']. destruct z as [|p|p]; try lia. unfold f64_of_Z, binary_normalize, binary_round.
  change (Z.pos (digits2_pos p)) with (Zdigits2 (Z.pos p)).
  destruct (shl_align_spec p Hz') as (a & b & -> & Ha & Hr & Hb & Hsmall).
  pose proof (digits_ge (Z.pos a) 52 ltac:(lia) ltac:(lia)).
  assert (Zdigits2 (Z.pos a) <= 64) by (apply digits_le; lia).
  destruct (binary_round_aux_spec (Z.pos a) b) as (m & d & -> & Hd & Herr & Hge & Hlt); [lia|split; lia|].
  exists m, (b + d). specialize (Hge ltac:(lia)).
  assert (d <= 64).
  { destruct (Z.leb_spec d 64); [done|]. exfalso.
    pose proof (Z.pow_le_mono_r 2 65 d ltac:(lia) ltac:(lia)). nia. }
  rewrite (qval_shift _ d) by done. rewrite <- (qval_unshift (Z.pos p) b), <- Ha by lia.
  split; [done|]. split; [lia|]. split; [lia|]. split; [by apply close_qval|].
  intros Hs. replace (Z.pos m * 2 ^ d) with (Z.pos a) by lia. reflexivity.
Qed.

(** The product of two normal numbers is correctly rounded. *)
Lemma f64_mul_spec m1 e1 m2 e2 :
  2 ^ 52 <= Z.pos m1 < 2 ^ 53 -> 2 ^ 52 <= Z.pos m2 < 2 ^ 53 -> -900 <= e1 + e2 <= 700 ->
  exists m e, f64_mul (S754_finite false m1 e1) (S754_finite false m2 e2) = S754_finite false m e
    /\ 2 ^ 52 <= Z.pos m < 2 ^ 53 /\ e1 + e2 <= e
    /\ close (qval (Z.pos m) e) (qval (Z.pos m1) e1 * qval (Z.pos m2) e2)%Q.
Proof.
  intros H1 H2 He. unfold f64_mul, SFmul. simpl xorb.
  assert (Hprod : Z.pos (m1 * m2) = Z.pos m1 * Z.pos m2) by lia.
  assert (Hb : 2 ^ 104 <= Z.pos (m1 * m2) < 2 ^ 106) by (rewrite Hprod; nia).
  pose proof (digits_ge (Z.pos (m1 * m2)) 104 ltac:(lia) ltac:(lia)).
  assert (Zdigits2 (Z.pos (m1 * m2)) <= 106) by (apply digits_le; lia).
  destruct (binary_round_aux_spec (Z.pos (m1 * m2)) (e1 + e2)) as (m & d & -> & Hd & Herr & Hge & Hlt); [lia|split; lia|].
  exists m, (e1 + e2 + d). split; [done|]. split; [split; [apply Hge|]; lia|]. split; [lia|].
  rewrite qval_shift by done. rewrite <- qval_mult, <- Hprod. by apply close_qval.
Qed.

Lemma f64_as_u64_floor m e :
  f64_as_u64 (S754_finite false m e) = Z.min u64_max (Qfloor (qval (Z.pos m) e)).
Proof.
  unfold f64_as_u64. f_equal. destruct (Z.leb_spec 0 e).
  - rewrite <- (Qfloor_Z (Z.pos m * 2 ^ e)). apply Qfloor_comp.
    unfold qval. by rewrite inject_Z_mult, pow2Q_Z.
  - unfold Qfloor.
    assert (E : (qval (Z.pos m) e == inject_Z (Z.pos m) / inject_Z (2 ^ (- e)))%Q).
    { unfold qval. rewrite <- pow2Q_Z by lia. unfold pow2Q. rewrite Qpower_opp. field.
      pose proof (pow2Q_pos e). unfold pow2Q in *. intros Hc. rewrite Hc in *. discriminate. }
    fold (Qfloor (qval (Z.pos m) e)). rewrite E. rewrite Zdiv_Qdiv. reflexivity.
Qed.

Lemma f64_as_u64_nonneg x : 0 <= f64_as_u64 x.
Proof.
  destruct x as [| [] | | [] m e]; simpl; try lia. apply Z.min_glb; [lia|]. destruct (0 <=? e) eqn:E.
  - apply Z.leb_le in E. pose proof (Z.pow_nonneg 2 e). lia.
  - apply Z.leb_gt in E. apply Z.div_pos; [lia|]. apply Z.pow_pos_nonneg; lia.
Qed.
Lemma f64_as_u64_exact m e z : 0 <= z <= u64_max -> (qval (Z.pos m) e == inject_Z z)%Q ->
  f64_as_u64 (S754_finite false m e) = z.
Proof. intros Hz Hq. rewrite f64_as_u64_floor, Hq, Qfloor_Z. lia. Qed.

(** [x.ceil() as u64] is the ceiling of the value. *)
Lemma f64_ceil_spec m e : Z.pos m < 2 ^ 53 -> -1000 <= e <= 11 ->
  Qceiling (qval (Z.pos m) e) <= u64_max ->
  f64_as_u64 (f64_ceil (S754_finite false m e)) = Qceiling (qval (Z.pos m) e).
Proof.
  intros Hm He Hmax. unfold f64_ceil. destruct (Z.leb_spec 0 e).
  - assert (E : (qval (Z.pos m) e == inject_Z (Z.pos m * 2 ^ e))%Q)
      by (unfold qval; rewrite inject_Z_mult, pow2Q_Z by done; reflexivity).
    rewrite E, Qceiling_Z in Hmax |- *. apply f64_as_u64_exact; [|done].
    pose proof (Z.pow_pos_nonneg 2 e). nia.
  - set (P := 2 ^ (- e)). assert (HP : 2 <= P) by (change 2 with (2 ^ 1) at 1; apply Z.pow_le_mono_r; lia).
    assert (E : Qceiling (qval (Z.pos m) e) = - ((- Z.pos m) / P)).
    { unfold Qceiling. f_equal. rewrite Zdiv_Qdiv. apply Qfloor_comp. unfold P, qval.
      rewrite <- pow2Q_Z by lia. unfold pow2Q. rewrite Qpower_opp, inject_Z_opp. field.
      pose proof (pow2Q_pos e). unfold pow2Q in *. intros Hc. rewrite Hc in *. discriminate. }
    rewrite E in *. set (q := - (- Z.pos m / P)) in *.
    assert (Hq : 0 < q < 2 ^ 53).
    { unfold q. pose proof (Z.div_mod (- Z.pos m) P ltac:(lia)) as Hdm.
      pose proof (Z.mod_pos_bound (- Z.pos m) P ltac:(lia)). nia. }
    replace (q =? 0) with false by (symmetry; apply Z.eqb_neq; lia).
    destruct (f64_of_Z_spec q) as (m' & e' & -> & _ & _ & _ & Hex); [lia|].
    apply f64_as_u64_exact; [lia|]. apply Hex. lia.
Qed.

(** A normal number below 2^64 has exponent at most 11. *)
Lemma exponent_bound m e : 2 ^ 52 <= m -> (qval m e < inject_Z (2 ^ 64))%Q -> e <= 11.
Proof.
  intros Hm Hlt. destruct (Z.leb_spec e 11); [done|]. exfalso. apply (Qlt_not_le _ _ Hlt).
  replace e with (12 + (e - 12)) by lia. rewrite qval_shift by lia.
  change (inject_Z (2 ^ 64)) with (qval (2 ^ 52) 12).
  apply qval_le. pose proof (Z.pow_pos_nonneg 2 (e - 12) ltac:(lia) ltac:(lia)). nia.
Qed.

Lemma qval_pos m e : 0 < m -> (0 < qval m e)%Q.
Proof.
  intros. unfold qval. apply Qmult_lt_0_compat; [by rewrite <- (Zlt_Qlt 0)|apply pow2Q_pos].
Qed.

(** [z as f64 * p], within a relative error of 2^-51 *)
Lemma f64_scale_spec z m2 e2 : 0 < z < 2 ^ 64 -> 2 ^ 52 <= Z.pos m2 < 2 ^ 53 -> -800 <= e2 <= 600 ->
  exists m e, f64_mul (f64_of_Z z) (S754_finite false m2 e2) = S754_finite false m e
    /\ 2 ^ 52 <= Z.pos m < 2 ^ 53 /\ -852 <= e
    /\ (inject_Z (2 ^ 51 - 1) * (inject_Z z * qval (Z.pos m2) e2) <= inject_Z (2 ^ 51) * qval (Z.pos m) e)%Q
    /\ (inject_Z (2 ^ 51) * qval (Z.pos m) e <= inject_Z (2 ^ 51 + 1) * (inject_Z z * qval (Z.pos m2) e2))%Q.
Proof.
  intros Hz Hm He. destruct (f64_of_Z_spec z Hz) as (m1 & e1 & -> & Hm1 & He1 & [Ha Hb] & _).
  destruct (f64_mul_spec m1 e1 m2 e2 Hm1 Hm) as (m & e & -> & Hm' & He' & [Hc Hd]); [lia|].
  exists m, e. split; [done|]. split; [done|]. split; [lia|].
  pose proof (qval_pos (Z.pos m2) e2 ltac:(lia)) as Hp. revert Ha Hb Hc Hd Hp. generalize (qval (Z.pos m2) e2) as p.
  generalize (qval (Z.pos m1) e1) as y. generalize (qval (Z.pos m) e) as x. generalize (inject_Z z) as zq.
  intros zq x y p Ha Hb Hc Hd Hp.
  apply (Qmult_le_compat_r _ _ p) in Ha; [|by apply Qlt_le_weak]. apply (Qmult_le_compat_r _ _ p) in Hb; [|by apply Qlt_le_weak].
  assert (inject_Z (2 ^ 53) * y * p == inject_Z (2 ^ 53) * (y * p))%Q as E1 by ring.
  assert (forall k, inject_Z k * zq * p == inject_Z k * (zq * p))%Q as E2 by (intros; ring).
  rewrite E1, E2 in Ha. rewrite E1, E2 in Hb. revert Ha Hb Hc Hd. generalize (y * p)%Q (zq * p)%Q. intros u w.
  change (inject_Z (2 ^ 53 - 1)) with (9007199254740991 # 1)%Q. change (inject_Z (2 ^ 53 + 1)) with (9007199254740993 # 1)%Q.
  change (inject_Z (2 ^ 53)) with (9007199254740992 # 1)%Q. change (inject_Z (2 ^ 51 - 1)) with (2251799813685247 # 1)%Q.
  change (inject_Z (2 ^ 51 + 1)) with (2251799813685249 # 1)%Q. change (inject_Z (2 ^ 51)) with (2251799813685248 # 1)%Q.
  intros. split; lra.
Qed.

(** [x.round() as u64] is the nearest integer. *)
Lemma f64_round_spec m e : Z.pos m < 2 ^ 53 -> -1000 <= e <= 11 ->
  f64_as_u64 (f64_round (S754_finite false m e)) = Z.min u64_max (Qfloor (qval (Z.pos m) e + (1 # 2))).
Proof.
  intros Hm He. unfold f64_round. destruct (Z.leb_spec 0 e).
  - rewrite f64_as_u64_floor. f_equal.
    assert (E : (qval (Z.pos m) e == inject_Z (Z.pos m * 2 ^ e))%Q)
      by (unfold qval; rewrite inject_Z_mult, pow2Q_Z by done; reflexivity).
    rewrite E, Qfloor_Z. unfold Qfloor, Qplus, inject_Z. simpl. rewrite <- (Z.div_unique _ 2 (Z.pos m * 2 ^ e) 1); lia.
  - set (P := 2 ^ (- e)). assert (HP : 2 <= P) by (change 2 with (2 ^ 1) at 1; apply Z.pow_le_mono_r; lia).
    assert (E : Qfloor (qval (Z.pos m) e + (1 # 2)) = (2 * Z.pos m + P) / (2 * P)).
    { rewrite Zdiv_Qdiv. apply Qfloor_comp. unfold P, qval. rewrite inject_Z_plus, !inject_Z_mult.
      rewrite <- pow2Q_Z by lia. unfold pow2Q. rewrite Qpower_opp. field.
      pose proof (pow2Q_pos e). unfold pow2Q in *. intros Hc. rewrite Hc in *. discriminate. }
    rewrite E. set (q := (2 * Z.pos m + P) / (2 * P)) in *.
    assert (Hq : 0 <= q < 2 ^ 53).
    { unfold q. split; [apply Z.div_pos; lia|]. apply Z.div_lt_upper_bound; nia. }
    destruct (Z.eqb_spec q 0) as [->|Hne]; [done|].
    destruct (f64_of_Z_spec q) as (m' & e' & -> & _ & _ & _ & Hex); [lia|].
    rewrite (f64_as_u64_exact _ _ q); [lia|lia|]. apply Hex. lia.
Qed.

(** ** Quotients *)

Lemma round_nearest_even_range m l : m <= round_nearest_even m l <= m + 1.
Proof. destruct l as [|[]]; simpl; try lia. destruct (Z.even m); lia. Qed.

(** the significand after the alignment, whatever was dropped before *)
Lemma shr_fexp_loc m e l : 2 ^ 52 <= m < 2 ^ 54 -> normal_range m e ->
  exists r, shr_fexp 53 1024 m e l = (r, e + (Zdigits2 m - 53)) /\ 2 ^ 52 <= shr_m r < 2 ^ 53.
Proof.
  intros Hm [Hlo Hhi]. unfold shr_fexp. rewrite fexp_normal by done. replace (Zdigits2 m + e - 53 - e) with (Zdigits2 m - 53) by lia.
  assert (shr_m (shr_record_of_loc m l) = m) as Em by (by destruct l as [|[]]).
  pose proof (digits_ge m 52 ltac:(lia) ltac:(lia)). assert (Zdigits2 m <= 54) by (apply digits_le; lia).
  pose proof (digits_bounds m ltac:(lia)) as [Hd1 Hd2]. assert (Zdigits2 m = 53 \/ Zdigits2 m = 54) as [E|E] by lia; rewrite E in *.
  - exists (shr_record_of_loc m l). rewrite Em. simpl. split; [by rewrite Z.add_0_r|lia].
  - exists (shr_1 (shr_record_of_loc m l)). split; [done|]. destruct (shr_record_of_loc m l) as [m0 r0 s0]. simpl in Em. subst m0.
    rewrite shr_1_spec by lia. cbn [shr_m]. split; [apply Z.div_le_lower_bound; lia|apply Z.div_lt_upper_bound; lia].
Qed.

Lemma binary_round_aux_ge m e l : 2 ^ 52 <= m < 2 ^ 54 -> normal_range m e ->
  exists m' e', binary_round_aux 53 1024 false m e l = S754_finite false m' e'
    /\ 2 ^ 52 <= Z.pos m' < 2 ^ 53 /\ e + (Zdigits2 m - 53) <= e'.
Proof.
  intros Hm Hr. unfold binary_round_aux. destruct (shr_fexp_loc m e l Hm Hr) as (r & -> & Hs).
  pose proof (round_nearest_even_range (shr_m r) (loc_of_shr_record r)) as Hq. destruct Hr as [Hlo Hhi].
  destruct (shr_fexp_exact (round_nearest_even (shr_m r) (loc_of_shr_record r)) (e + (Zdigits2 m - 53))) as (m' & d & -> & Hd & Heq & Hm' & Hge & Hlt); [lia|lia|].
  simpl shr_m. destruct m' as [|m'|m']; try lia.
  replace (e + (Zdigits2 m - 53) + d <=? 1024 - 53) with true by (symmetry; apply Z.leb_le; lia).
  exists m', (e + (Zdigits2 m - 53) + d). split; [done|]. lia.
Qed.

(** a quotient of normal numbers, the first no smaller than the second, is at least 1 *)
Lemma f64_div_ge_one m1 e1 m2 e2 : 2 ^ 52 <= Z.pos m1 < 2 ^ 53 -> 2 ^ 52 <= Z.pos m2 < 2 ^ 53 -> -100 <= e1 - e2 <= 500 ->
  (e2 < e1 \/ (e1 = e2 /\ Z.pos m2 <= Z.pos m1)) ->
  exists m e, f64_div (S754_finite false m1 e1) (S754_finite false m2 e2) = S754_finite false m e
    /\ 2 ^ 52 <= Z.pos m < 2 ^ 53 /\ -52 <= e.
Proof.
  intros H1 H2 He Hge. unfold f64_div, SFdiv. simpl xorb. unfold SFdiv_core_binary.
  assert (forall p, 2 ^ 52 <= Z.pos p < 2 ^ 53 -> Zdigits2 (Z.pos p) = 53) as Hdig.
  { intros p Hp. pose proof (digits_ge (Z.pos p) 52 ltac:(lia) ltac:(lia)). pose proof (digits_le (Z.pos p) 53 ltac:(lia) ltac:(lia) ltac:(lia)). lia. }
  rewrite !Hdig by done. replace (53 + e1 - (53 + e2)) with (53 + (e1 - e2 - 53)) by lia. rewrite fexp_normal by lia.
  replace (Z.min (53 + (e1 - e2 - 53) - 53) (e1 - e2)) with (e1 - e2 - 53) by lia.
  replace (e1 - e2 - (e1 - e2 - 53)) with 53 by lia.
  rewrite Z.shiftl_mul_pow2 by lia. pose proof (Z.div_mod (Z.pos m1 * 2 ^ 53) (Z.pos m2) ltac:(lia)) as Hdm.
  pose proof (Z.mod_pos_bound (Z.pos m1 * 2 ^ 53) (Z.pos m2) ltac:(lia)) as Hr.
  unfold Z.div, Z.modulo in Hdm, Hr. destruct (Z.div_eucl _ _) as [q r].
  assert (2 ^ 52 <= q < 2 ^ 54) as Hq by nia. pose proof (digits_ge q 52 ltac:(lia) ltac:(lia)).
  assert (Zdigits2 q <= 54) by (apply digits_le; lia).
  destruct (binary_round_aux_ge q (e1 - e2 - 53) (new_location (Z.pos m2) r)) as (m & e & -> & Hm & Hee); [done|split; lia|].
  exists m, e. split; [done|]. split; [done|]. destruct Hge as [Hlt|[-> Hle]]; [lia|].
  pose proof (digits_ge q 53 ltac:(lia) ltac:(nia)). lia.
Qed.

(** [x.min(1.0)] is 1.0 for a normal number from 1 up *)
Lemma f64_min_finite m e p k : Z.pos p <= Z.pos m -> k <= e ->
  f64_min (S754_finite false m e) (S754_finite false p k) = S754_finite false p k.
Proof.
  intros Hm He. unfold f64_min, f64_ltb, SFltb, SFcompare. destruct (Z.compare_spec k e) as [E|E|E]; [|done|lia]. subst.
  change (Pos.compare_cont Eq p m) with (Pos.compare p m). destruct (Pos.compare_spec p m) as [<-|E|E]; [done|done|lia].
Qed.
Lemma f64_min_one m e : 2 ^ 52 <= Z.pos m -> -52 <= e -> f64_min (S754_finite false m e) (f64_of_Z 1) = f64_of_Z 1.
Proof. apply f64_min_finite. Qed.
