(* ===== verification/ValidatorSet.v ===== *)
(** * The weighted validator set and proposer selection

    Models consensus-bft/src/validator_set.rs and consensus-bft/src/proposer.rs:
    the canonical ordering of the set, its index, quorum stake, updates, and
    the stake-weighted round robin.  The theorems show that the set does not
    depend on the order of its input, that lookups agree with the list, that a
    quorum is always more than two thirds of the stake and never more than all
    of it, and that over any window of [total_stake] consecutive heights each
    validator proposes exactly [stake] times. *)

From stdpp Require Import base numbers list option gmap sorting.
From Stdlib Require Import ZArith Lia QArith Qround Lqa SpecFloat.
From S2P Require Import Prelude F64.
Local Open Scope Z_scope.

(** ** Data *)

Record ValidatorInfo := { pubkey : Pubkey; stake : Z }.

#[export] Instance ValidatorInfo_eq_dec : EqDecision ValidatorInfo.
Proof. solve_decision. Defined.

Record ValidatorSet := {
  validators : list ValidatorInfo;
  index : gmap Pubkey nat;
  total_stake : Z
}.

(** ** Operations *)

(** The comparator [b.stake.cmp(&a.stake).then_with(|| a.pubkey.cmp(&b.pubkey))],
    as "not greater". *)
Definition vi_le (a b : ValidatorInfo) : Prop :=
  stake b < stake a \/ (stake a = stake b /\ pubkey a <= pubkey b).
#[export] Instance vi_le_dec a b : Decision (vi_le a b).
Proof. unfold vi_le. apply _. Defined.

(** [iter().enumerate().map(|(i, v)| (v.pubkey, i)).collect()]: a later entry
    replaces an earlier one *)
Definition build_index (l : list ValidatorInfo) : gmap Pubkey nat :=
  snd (foldl (fun '(i, m) v => (S i, <[pubkey v := i]> m)) (0%nat, ∅) l).

(** the common tail of [new] and [upsert]: sort, total, index *)
Definition rebuild (infos : list ValidatorInfo) : ValidatorSet :=
  let l := merge_sort vi_le infos in
  {| validators := l; index := build_index l; total_stake := sum_u64 (map stake l) |}.

Definition ValidatorSet_new (vs : list (Pubkey * Z)) : ValidatorSet :=
  rebuild (map (fun '(k, s) => {| pubkey := k; stake := s |})
               (filter (fun p => 0 < p.2) vs)).

Definition vs_is_empty (vs : ValidatorSet) : bool :=
  match validators vs with [] => true | _ => false end.

(** [self.index.get(pubkey).map(|&i| &self.validators[i])] *)
Definition get_by_pubkey (vs : ValidatorSet) (k : Pubkey) : option ValidatorInfo :=
  i ← index vs !! k; validators vs !! i.

Definition stake_of (vs : ValidatorSet) (k : Pubkey) : Z :=
  match get_by_pubkey vs k with Some v => stake v | None => 0 end.

Definition vs_contains (vs : ValidatorSet) (k : Pubkey) : bool :=
  bool_decide (is_Some (index vs !! k)).

Definition quorum_stake (vs : ValidatorSet) (threshold : f64) : Z :=
  let q := f64_as_u64 (f64_ceil (f64_mul (f64_of_Z (total_stake vs)) threshold)) in
  Z.max q 1.

Definition vs_pubkeys (vs : ValidatorSet) : list Pubkey := map pubkey (validators vs).

Definition upsert (vs : ValidatorSet) (k : Pubkey) (s : Z) : ValidatorSet :=
  let kept := filter (fun v => pubkey v <> k) (validators vs) in
  rebuild (if 0 <? s then kept ++ [{| pubkey := k; stake := s |}] else kept).

Definition vs_remove (vs : ValidatorSet) (k : Pubkey) : ValidatorSet := upsert vs k 0.

(** the accumulation loop of [proposer_for_round] *)
Fixpoint proposer_walk (l : list ValidatorInfo) (accumulated target : Z) : option Pubkey :=
  match l with
  | [] => None
  | v :: l' =>
      let accumulated := saturating_add u64_max accumulated (stake v) in
      if target <? accumulated then Some (pubkey v) else proposer_walk l' accumulated target
  end.

Definition proposer_for_round (vs : ValidatorSet) (height round : Z) : option Pubkey :=
  if vs_is_empty vs || (total_stake vs =? 0) then None
  else
    let seed := wrapping_add u64_max height round in
    let target := seed mod total_stake vs in
    match proposer_walk (validators vs) 0 target with
    | Some p => Some p
    | None => pubkey <$> head (validators vs)
    end.

Definition is_proposer (vs : ValidatorSet) (identity : Pubkey) (height round : Z) : bool :=
  match proposer_for_round vs height round with
  | Some p => bool_decide (p = identity)
  | None => false
  end.

(** ** Well-formedness *)

(** The invariant of every set whose input has distinct keys and a total
    stake that fits in a [u64]. *)
Record wf (vs : ValidatorSet) : Prop := {
  wf_sorted : StronglySorted vi_le (validators vs);
  wf_nodup : NoDup (map pubkey (validators vs));
  wf_pos : Forall (fun v => 0 < stake v) (validators vs);
  wf_index : index vs = build_index (validators vs);
  wf_total : total_stake vs = zsum (map stake (validators vs));
  wf_fits : total_stake vs <= u64_max
}.

(** ** The canonical order *)

#[export] Instance vi_le_trans : Transitive vi_le.
Proof. intros a b c. unfold vi_le. lia. Qed.
#[export] Instance vi_le_total : Total vi_le.
Proof. intros a b. unfold vi_le. lia. Qed.
#[export] Instance vi_le_antisymm : AntiSymm (=) vi_le.
Proof. intros [] []. unfold vi_le. simpl. intros. f_equal; lia. Qed.

Lemma rebuild_perm l1 l2 : l1 ≡ₚ l2 -> rebuild l1 = rebuild l2.
Proof.
  intros H. unfold rebuild.
  assert (E : merge_sort vi_le l1 = merge_sort vi_le l2); [|by rewrite E].
  apply (StronglySorted_unique vi_le); [apply (StronglySorted_merge_sort vi_le)..|].
  by rewrite !(merge_sort_Permutation vi_le).
Qed.

Lemma rebuild_validators l : validators (rebuild l) ≡ₚ l.
Proof. apply merge_sort_Permutation. Qed.

(** ** The index *)

Lemma build_index_app l v :
  build_index (l ++ [v]) = <[pubkey v := length l]> (build_index l).
Proof.
  unfold build_index. rewrite foldl_app. simpl.
  assert (H : forall l i (m : gmap Pubkey nat), (foldl (fun '(i, m) v => (S i, <[pubkey v := i]> m)) (i, m) l).1
              = (i + length l)%nat).
  { clear. induction l; intros; simpl; [lia|]. rewrite IHl. lia. }
  specialize (H l 0%nat (∅ : gmap Pubkey nat)). destruct (foldl _ _ l) as [i m]. simpl in *. by subst.
Qed.

Lemma build_index_Some l k i :
  build_index l !! k = Some i -> exists v, l !! i = Some v /\ pubkey v = k.
Proof.
  induction l as [|v l IH] using rev_ind; [done|].
  rewrite build_index_app, lookup_insert_Some. intros [[<- <-]|[Hne H]].
  - exists v. by rewrite list_lookup_middle.
  - destruct (IH H) as (w & Hw & <-). exists w. split; [|done]. by apply lookup_app_l_Some.
Qed.

Lemma build_index_None l k : build_index l !! k = None <-> k ∉ map pubkey l.
Proof.
  induction l as [|v l IH] using rev_ind; [set_solver|].
  rewrite build_index_app, lookup_insert_None, IH, map_app, elem_of_app. simpl.
  rewrite list_elem_of_singleton. split; [intros [? ?] [?|?]|intros Hk; split; [|intros ?; apply Hk]]; auto.
Qed.

Lemma get_by_pubkey_Some vs k v : wf vs ->
  get_by_pubkey vs k = Some v <-> v ∈ validators vs /\ pubkey v = k.
Proof.
  intros W. unfold get_by_pubkey. rewrite (wf_index vs W). split.
  - intros (i & Hi & Hv)%bind_Some. destruct (build_index_Some _ _ _ Hi) as (w & Hw & <-).
    simplify_eq. eauto using list_elem_of_lookup_2.
  - intros [Hin <-]. destruct (build_index (validators vs) !! pubkey v) as [i|] eqn:E.
    + simpl. destruct (build_index_Some _ _ _ E) as (w & Hw & Hk). rewrite Hw. f_equal.
      apply list_elem_of_lookup in Hin as [j Hj].
      assert (i = j); [|congruence]. eapply (NoDup_lookup (map pubkey (validators vs)));
        [apply wf_nodup, W|rewrite list_lookup_fmap, Hw; done|rewrite list_lookup_fmap, Hj; simpl; congruence].
    + apply build_index_None in E. destruct E. by apply list_elem_of_fmap_2.
Qed.

Lemma get_by_pubkey_None vs k : wf vs -> get_by_pubkey vs k = None <-> k ∉ vs_pubkeys vs.
Proof.
  intros W. split.
  - intros H (v & -> & Hv)%list_elem_of_fmap.
    pose proof (proj2 (get_by_pubkey_Some vs (pubkey v) v W)). naive_solver.
  - intros H. destruct (get_by_pubkey vs k) eqn:E; [|done].
    apply get_by_pubkey_Some in E as [Hin <-]; [|done]. destruct H. by apply list_elem_of_fmap_2.
Qed.

Lemma stake_of_Some vs v : wf vs -> v ∈ validators vs -> stake_of vs (pubkey v) = stake v.
Proof.
  intros W Hv. unfold stake_of. by rewrite (proj2 (get_by_pubkey_Some vs (pubkey v) v W)).
Qed.

Lemma stake_of_None vs k : wf vs -> k ∉ vs_pubkeys vs -> stake_of vs k = 0.
Proof. intros W Hk. unfold stake_of. by rewrite (proj2 (get_by_pubkey_None vs k W)). Qed.

Lemma stake_of_nonneg vs k : wf vs -> 0 <= stake_of vs k.
Proof.
  intros W. unfold stake_of. case_match; [|lia].
  apply get_by_pubkey_Some in H as [Hin _]; [|done].
  pose proof (proj1 (Forall_forall _ _) (wf_pos vs W) _ Hin). simpl in *. lia.
Qed.

Lemma vs_contains_spec vs k : wf vs -> vs_contains vs k = true <-> k ∈ vs_pubkeys vs.
Proof.
  intros W. unfold vs_contains. rewrite bool_decide_eq_true, (wf_index vs W).
  destruct (build_index _ !! k) as [i|] eqn:E.
  - destruct (build_index_Some _ _ _ E) as (w & Hw & <-). split; [|by eauto].
    intros _. eapply list_elem_of_fmap_2, list_elem_of_lookup_2, Hw.
  - apply build_index_None in E. split; [intros [? ?]; done|done].
Qed.

(** ** Every constructed set is well formed *)

Lemma rebuild_wf l : NoDup (map pubkey l) -> Forall (fun v => 0 < stake v) l ->
  zsum (map stake l) <= u64_max -> wf (rebuild l).
Proof.
  intros Hnd Hpos Hle. pose proof (rebuild_validators l) as Hp. simpl in Hp.
  assert (Ht : total_stake (rebuild l) = zsum (map stake l)).
  { simpl. rewrite sum_u64_exact; rewrite ?Hp; try done.
    apply Forall_map. eapply Forall_impl; [done|]. simpl. lia. }
  split; simpl in *.
  - apply (StronglySorted_merge_sort vi_le).
  - by rewrite Hp.
  - by rewrite Hp.
  - done.
  - by rewrite Ht, Hp.
  - by rewrite Ht.
Qed.

Definition to_info (p : Pubkey * Z) : ValidatorInfo := {| pubkey := p.1; stake := p.2 |}.

Lemma new_rebuild l : ValidatorSet_new l = rebuild (map to_info (filter (fun p => 0 < p.2) l)).
Proof. unfold ValidatorSet_new. f_equal. apply map_ext. by intros []. Qed.

Lemma to_info_pubkeys l : map pubkey (map to_info l) = l.*1.
Proof. rewrite map_map. done. Qed.

Lemma zsum_filter_pos (l : list (Pubkey * Z)) : Forall (fun p => 0 <= p.2) l ->
  zsum (filter (fun p => 0 < p.2) l).*2 = zsum l.*2.
Proof.
  induction 1 as [|[k s] l Hs Hl IH]; [done|]. rewrite filter_cons. simpl in Hs.
  case_decide as Hd; rewrite ?fmap_cons; unfold zsum in *; simpl in *; rewrite IH; lia.
Qed.

Lemma new_wf l : NoDup l.*1 -> Forall (fun p => 0 <= p.2) l -> zsum l.*2 <= u64_max ->
  wf (ValidatorSet_new l).
Proof.
  intros Hnd Hpos Hle. rewrite new_rebuild. apply rebuild_wf.
  - rewrite to_info_pubkeys. eapply sublist_NoDup; [done|]. by apply fmap_sublist, sublist_filter.
  - apply Forall_map, Forall_forall. intros x Hx%list_elem_of_filter. simpl. tauto.
  - rewrite map_map. simpl. change (map _ ?x) with x.*2. by rewrite zsum_filter_pos.
Qed.

(** ** Updates *)

Lemma filter_keys_NoDup k (l : list ValidatorInfo) :
  NoDup (map pubkey l) -> NoDup (map pubkey (filter (fun v => pubkey v <> k) l)).
Proof. intros H. eapply sublist_NoDup; [exact H|]. by apply fmap_sublist, sublist_filter. Qed.

Lemma filter_keys_notin k (l : list ValidatorInfo) :
  k ∉ map pubkey (filter (fun v => pubkey v <> k) l).
Proof. intros (v & -> & [Hne _]%list_elem_of_filter)%list_elem_of_fmap. done. Qed.

(** the stake of the entries with key [k] *)
Lemma zsum_remove_key k (l : list ValidatorInfo) : NoDup (map pubkey l) ->
  zsum (map stake l) = zsum (map stake (filter (fun v => pubkey v <> k) l))
                       + match list_find (fun v => pubkey v = k) l with
                         | Some (_, v) => stake v | None => 0 end.
Proof.
  induction l as [|v l IH]; intros Hnd; simpl; [done|].
  apply NoDup_cons in Hnd as [Hnin Hnd]. rewrite filter_cons.
  destruct (decide (pubkey v = k)) as [Heq|Hne].
  - rewrite decide_False by auto. rewrite filter_all; [lia|].
    apply Forall_forall. intros w Hw Hk. apply Hnin. subst. rewrite <- Hk. by apply list_elem_of_fmap_2.
  - rewrite decide_True by auto. simpl. rewrite IH by done.
    destruct (list_find _ l) as [[? ?]|]; simpl; lia.
Qed.

Lemma find_stake_of vs k : wf vs ->
  match list_find (fun v => pubkey v = k) (validators vs) with Some (_, v) => stake v | None => 0 end
  = stake_of vs k.
Proof.
  intros W. destruct (list_find _ _) as [[i v]|] eqn:E.
  - apply list_find_Some in E as (Hi & <- & _). symmetry.
    apply stake_of_Some; eauto using list_elem_of_lookup_2.
  - apply list_find_None in E. symmetry. apply stake_of_None; [done|].
    intros (v & -> & Hv)%list_elem_of_fmap. by eapply Forall_forall in E; [apply E|].
Qed.

(** the list [upsert] hands to [rebuild] *)
Definition upserted (vs : ValidatorSet) (k : Pubkey) (s : Z) : list ValidatorInfo :=
  let kept := filter (fun v => pubkey v <> k) (validators vs) in
  if 0 <? s then kept ++ [{| pubkey := k; stake := s |}] else kept.

Lemma upserted_elem vs k s v : v ∈ upserted vs k s <->
  (pubkey v <> k /\ v ∈ validators vs) \/ (0 < s /\ v = {| pubkey := k; stake := s |}).
Proof.
  unfold upserted. destruct (Z.ltb_spec 0 s).
  - rewrite elem_of_app, list_elem_of_filter, list_elem_of_singleton. intuition.
  - rewrite list_elem_of_filter. intuition lia.
Qed.

Lemma upserted_wf vs k s : wf vs -> 0 <= s -> total_stake vs - stake_of vs k + s <= u64_max ->
  wf (rebuild (upserted vs k s)) /\
  total_stake (rebuild (upserted vs k s)) = total_stake vs - stake_of vs k + s.
Proof.
  intros W Hs Hle.
  assert (Hsum : zsum (map stake (upserted vs k s)) = total_stake vs - stake_of vs k + s).
  { rewrite (wf_total vs W), (zsum_remove_key k (validators vs) (wf_nodup vs W)), (find_stake_of vs k W).
    unfold upserted. destruct (Z.ltb_spec 0 s); rewrite ?map_app, ?zsum_app; simpl; lia. }
  assert (Hwf : wf (rebuild (upserted vs k s))).
  { apply rebuild_wf; [| |lia].
    - pose proof (filter_keys_NoDup k _ (wf_nodup vs W)). unfold upserted. case_if; [|done].
      rewrite map_app. apply NoDup_app. split; [done|]. split; [|apply NoDup_singleton].
      simpl. intros x Hx ->%list_elem_of_singleton. by apply filter_keys_notin in Hx.
    - apply Forall_forall. intros v [[_ Hv]|[? ->]]%upserted_elem; [|done].
      by apply (proj1 (Forall_forall _ _) (wf_pos vs W)). }
  split; [done|]. rewrite (wf_total _ Hwf), <- Hsum. apply zsum_perm, Permutation_map, rebuild_validators.
Qed.

(** ** Quorums *)

(** A threshold between 0.6667 and 0.999; the default 0.667 is one. *)
Definition threshold_ok (t : f64) : bool :=
  match t with
  | S754_finite false m e =>
      (2 ^ 52 <=? Z.pos m) && (Z.pos m <? 2 ^ 53) && (e =? -53) &&
      (6667 * 2 ^ 53 <=? 10000 * Z.pos m) && (1000 * Z.pos m <=? 999 * 2 ^ 53)
  | _ => false
  end.

Lemma threshold_value m : 6667 * 2 ^ 53 <= 10000 * Z.pos m -> 1000 * Z.pos m <= 999 * 2 ^ 53 ->
  (6667 # 10000 <= qval (Z.pos m) (-53) /\ qval (Z.pos m) (-53) <= 999 # 1000)%Q.
Proof.
  intros H1 H2. unfold qval, inject_Z, Qmult, Qle. change (pow2Q (-53)) with (1 # 2 ^ 53).
  cbn [Qnum Qden]. lia.
Qed.

(** the product [total as f64 * threshold] lies strictly above two thirds of the total *)
Lemma quorum_product T m : 0 < T <= u64_max ->
  threshold_ok (S754_finite false m (-53)) = true ->
  exists m' e', f64_mul (f64_of_Z T) (S754_finite false m (-53)) = S754_finite false m' e'
    /\ Z.pos m' < 2 ^ 53 /\ -1000 <= e' <= 11
    /\ (inject_Z (2 * T) < 3 * qval (Z.pos m') e' /\ qval (Z.pos m') e' <= inject_Z T)%Q.
Proof.
  intros HT Hok. unfold threshold_ok in Hok. breflect. destruct_and!.
  destruct (threshold_value m) as [Hlo Hhi]; [done..|].
  destruct (f64_of_Z_spec T) as (m1 & e1 & -> & Hm1 & He1 & [Hx1 Hx2] & _); [lia|].
  destruct (f64_mul_spec m1 e1 m (-53)) as (m' & e' & -> & Hm' & He' & [Hp1 Hp2]); [done|done|lia|].
  pose proof (qval_pos (Z.pos m1) e1 ltac:(lia)) as Hxpos.
  set (X := qval (Z.pos m1) e1) in *. set (V := qval (Z.pos m) (-53)) in *.
  assert (HXlo : (X * (6667 # 10000) <= X * V)%Q) by (rewrite !(Qmult_comm X); apply Qmult_le_compat_r; lra).
  assert (HXhi : (X * V <= X * (999 # 1000))%Q) by (rewrite !(Qmult_comm X); apply Qmult_le_compat_r; lra).
  set (P := qval (Z.pos m') e') in *. change (2 ^ 53 - 1) with 9007199254740991 in *.
  change (2 ^ 53 + 1) with 9007199254740993 in *. change (2 ^ 53) with 9007199254740992 in *.
  unfold inject_Z in Hx1, Hx2, Hp1, Hp2.
  assert (HTpos : (0 < T # 1)%Q) by (unfold Qlt; simpl; lia).
  assert (Hlow : (inject_Z (2 * T) < 3 * P)%Q).
  { rewrite inject_Z_mult. unfold inject_Z. lra. }
  assert (Hhigh : (P <= inject_Z T)%Q) by (unfold inject_Z; lra).
  exists m', e'. repeat split; try done; try lia.
  apply (exponent_bound (Z.pos m')); [lia|]. eapply Qle_lt_trans; [apply Hhigh|].
  rewrite <- Zlt_Qlt. lia.
Qed.

Lemma quorum_stake_spec vs t : threshold_ok t = true -> 0 < total_stake vs <= u64_max ->
  2 * total_stake vs < 3 * quorum_stake vs t /\ 1 <= quorum_stake vs t <= total_stake vs.
Proof.
  intros Ht HT. destruct t as [| | |[] m e]; try done.
  assert (e = -53) as -> by (unfold threshold_ok in Ht; breflect; lia).
  unfold quorum_stake. destruct (quorum_product _ m HT Ht) as (m' & e' & -> & Hm & He & Hlo & Hhi).
  pose proof (Qceiling_resp_le _ _ Hhi) as Hc. rewrite Qceiling_Z in Hc.
  rewrite f64_ceil_spec by lia.
  assert (2 * total_stake vs < 3 * Qceiling (qval (Z.pos m') e')).
  { rewrite Zlt_Qlt, (inject_Z_mult 3). eapply Qlt_le_trans; [apply Hlo|].
    pose proof (Qle_ceiling (qval (Z.pos m') e')). unfold inject_Z in *. lra. }
  lia.
Qed.

(** ** The round robin *)

(** how many elements of a list satisfy a boolean test *)
Definition count {A} (g : A -> bool) (l : list A) : Z := zsum (map (fun x => if g x then 1 else 0) l).

Lemma count_app {A} (g : A -> bool) l1 l2 : count g (l1 ++ l2) = count g l1 + count g l2.
Proof. unfold count. by rewrite map_app, zsum_app. Qed.

Lemma count_const {A} (g : A -> bool) b l : (forall x, x ∈ l -> g x = b) ->
  count g l = if b then Z.of_nat (length l) else 0.
Proof.
  unfold count. induction l as [|x l IH]; intros H; simpl; [by destruct b|].
  rewrite IH by set_solver. rewrite H by set_solver. destruct b; lia.
Qed.

Lemma count_ext {A} (g g' : A -> bool) l : (forall x, x ∈ l -> g x = g' x) -> count g l = count g' l.
Proof.
  unfold count. induction l as [|x l IH]; intros H; simpl; [done|].
  rewrite IH by set_solver. by rewrite H by set_solver.
Qed.

Lemma count_fmap {A B} (g : B -> bool) (f : A -> B) l : count g (f <$> l) = count (fun x => g (f x)) l.
Proof. unfold count. induction l; simpl; [done|]. by f_equal. Qed.

Lemma length_filter_count {A} (P : A -> Prop) `{!forall x, Decision (P x)} (g : A -> bool) l :
  (forall x, x ∈ l -> P x <-> g x = true) -> Z.of_nat (length (filter P l)) = count g l.
Proof.
  induction l as [|x l IH]; intros Hg; [done|]. rewrite filter_cons. unfold count in *. simpl.
  rewrite <- IH by (intros; apply Hg; by right). pose proof (Hg x ltac:(by left)) as [H1 H2].
  case_decide as HP.
  - rewrite (H1 HP). simpl. lia.
  - destruct (g x); [by destruct HP; apply H2|simpl; lia].
Qed.

Lemma seqZ_snoc a n : 0 < n -> seqZ a n = seqZ a (n - 1) ++ [a + n - 1].
Proof.
  intros. replace n with ((n - 1) + 1) at 1 by lia. rewrite seqZ_app by lia. f_equal.
  unfold seqZ. simpl. f_equal. lia.
Qed.

(** A window of [n] consecutive numbers covers every residue once. *)
Lemma count_window (g : Z -> bool) n a : 0 < n -> 0 <= a ->
  count (fun t => g (t mod n)) (seqZ a n) = count g (seqZ 0 n).
Proof.
  intros Hn. revert a. refine (natlike_ind _ _ _).
  - apply count_ext. intros x Hx%elem_of_seqZ. by rewrite Z.mod_small by lia.
  - intros a Ha IH. rewrite <- IH. unfold Z.succ.
    rewrite (seqZ_snoc (a + 1) n), (seqZ_cons a n) by lia. unfold Z.succ. replace (Z.pred n) with (n - 1) by lia.
    change (a :: seqZ (a + 1) (n - 1)) with ([a] ++ seqZ (a + 1) (n - 1)). rewrite !count_app.
    unfold count at 2 3. cbn [map zsum foldr].
    replace (a + 1 + n - 1) with (a + 1 * n) by lia. rewrite Z.mod_add by lia. lia.
Qed.

Lemma proposer_walk_elem l acc t p : proposer_walk l acc t = Some p -> p ∈ map pubkey l.
Proof.
  revert acc. induction l as [|v l IH]; intros acc H; simpl in *; [done|].
  case_match; simplify_eq; [by left|]. right. eauto.
Qed.

Lemma proposer_walk_hit l acc t : Forall (fun v => 0 < stake v) l -> 0 <= acc <= t ->
  acc + zsum (map stake l) <= u64_max -> t < acc + zsum (map stake l) ->
  is_Some (proposer_walk l acc t).
Proof.
  intros Hl. revert acc. induction Hl as [|v l Hv Hl IH]; intros acc Ha Hle Ht; simpl in *; [lia|].
  pose proof (zsum_nonneg (map stake l)) as Hnn. rewrite Forall_map in Hnn.
  assert (Forall ((fun z => 0 <= z) ∘ stake) l) by (eapply Forall_impl; [apply Hl|simpl; lia]).
  unfold saturating_add. rewrite Z.min_r by (specialize (Hnn ltac:(done)); lia).
  destruct (Z.ltb_spec t (acc + stake v)); [by eexists|]. apply IH; lia.
Qed.

Definition stake_in (l : list ValidatorInfo) (k : Pubkey) : Z :=
  match list_find (fun v => pubkey v = k) l with Some (_, v) => stake v | None => 0 end.

Lemma stake_in_notin l k : k ∉ map pubkey l -> stake_in l k = 0.
Proof.
  intros Hk. unfold stake_in. destruct (list_find _ _) as [[i v]|] eqn:E; [|done].
  apply list_find_Some in E as (Hi & <- & _). destruct Hk.
  eauto using list_elem_of_fmap_2, list_elem_of_lookup_2.
Qed.

(** The targets on which the walk stops at [k] are as many as [k]'s stake. *)
Lemma proposer_walk_count l k acc : NoDup (map pubkey l) -> Forall (fun v => 0 < stake v) l ->
  0 <= acc -> acc + zsum (map stake l) <= u64_max ->
  count (fun t => bool_decide (proposer_walk l acc t = Some k)) (seqZ acc (zsum (map stake l)))
  = stake_in l k.
Proof.
  intros Hnd Hl. revert acc. induction Hl as [|v l Hv Hl IH]; intros acc Ha Hle; [done|].
  apply NoDup_cons in Hnd as [Hnin Hnd]. cbn [map zsum foldr] in *. fold (zsum (map stake l)) in *.
  assert (0 <= zsum (map stake l)).
  { apply zsum_nonneg, Forall_map. eapply Forall_impl; [apply Hl|]. simpl. lia. }
  rewrite seqZ_app, count_app by lia. cbn [proposer_walk]. unfold saturating_add.
  rewrite (Z.min_r u64_max (acc + stake v)) by lia.
  rewrite (count_const _ (bool_decide (pubkey v = k)) (seqZ acc (stake v))).
  2: { intros t Ht%elem_of_seqZ. destruct (Z.ltb_spec t (acc + stake v)); [|lia].
       apply bool_decide_ext. split; congruence. }
  rewrite (count_ext _ (fun t => bool_decide (proposer_walk l (acc + stake v) t = Some k))).
  2: { intros t Ht%elem_of_seqZ. destruct (Z.ltb_spec t (acc + stake v)); [lia|done]. }
  rewrite IH by (done || lia). rewrite length_seqZ. unfold stake_in at 2. simpl.
  destruct (decide (pubkey v = k)) as [<-|Hne].
  - rewrite bool_decide_true, stake_in_notin by done. lia.
  - rewrite bool_decide_false by done. unfold stake_in. by destruct (list_find _ l) as [[? ?]|].
Qed.

Lemma proposer_seed vs h r : wf vs -> 0 < total_stake vs -> 0 <= h -> 0 <= r -> h + r <= u64_max ->
  proposer_for_round vs h r = proposer_walk (validators vs) 0 ((h + r) mod total_stake vs).
Proof.
  intros W HT Hh Hr Hle. unfold proposer_for_round.
  replace (vs_is_empty vs) with false.
  2: { unfold vs_is_empty. pose proof (wf_total vs W). destruct (validators vs); simpl in *; [lia|done]. }
  destruct (Z.eqb_spec (total_stake vs) 0); [lia|]. simpl. rewrite wrapping_add_small by lia.
  pose proof (Z.mod_pos_bound (h + r) (total_stake vs) ltac:(lia)) as Hm.
  destruct (proposer_walk_hit (validators vs) 0 ((h + r) mod total_stake vs)) as [p ->]; try done; try lia.
  - by apply wf_pos.
  - rewrite <- (wf_total vs W). pose proof (wf_fits vs W). lia.
  - rewrite <- (wf_total vs W). lia.
Qed.

(** ** The stake of a set of validators *)

Definition stake_where (vs : ValidatorSet) (P : Pubkey -> bool) : Z :=
  zsum (map stake (filter (fun v => P (pubkey v) = true) (validators vs))).

Lemma stake_where_nonneg vs P : wf vs -> 0 <= stake_where vs P.
Proof.
  intros W. apply zsum_nonneg, Forall_map, Forall_forall. intros v [_ Hv]%list_elem_of_filter.
  pose proof (proj1 (Forall_forall _ _) (wf_pos vs W) _ Hv). simpl in *. lia.
Qed.

(** Inclusion-exclusion, with [T] for the whole set. *)
Lemma stake_where_union vs P Q : wf vs ->
  stake_where vs P + stake_where vs Q
  = stake_where vs (fun k => P k || Q k) + stake_where vs (fun k => P k && Q k).
Proof.
  intros _. unfold stake_where. induction (validators vs) as [|v l IH]; [done|].
  rewrite !filter_cons. destruct (P (pubkey v)), (Q (pubkey v)); simpl; lia.
Qed.

Lemma stake_where_mono vs P Q : wf vs -> (forall k, P k = true -> Q k = true) ->
  stake_where vs P <= stake_where vs Q.
Proof.
  intros W HPQ. unfold stake_where. pose proof (wf_pos vs W) as Hpos.
  induction Hpos as [|v l Hv Hl IH]; [done|]. rewrite !filter_cons. specialize (HPQ (pubkey v)).
  destruct (P (pubkey v)), (Q (pubkey v)); simpl; lia.
Qed.

Lemma stake_where_ext vs P Q : wf vs -> (forall k, P k = true <-> Q k = true) ->
  stake_where vs P = stake_where vs Q.
Proof. intros W HPQ. apply Z.le_antisymm; apply stake_where_mono; auto; apply HPQ. Qed.

Lemma stake_where_total vs P : wf vs -> stake_where vs P <= total_stake vs.
Proof.
  intros W. rewrite (wf_total vs W), <- (filter_all (fun v => (fun _ => true) (pubkey v) = true) (validators vs)).
  - by apply (stake_where_mono vs P (fun _ => true)).
  - by apply Forall_true.
Qed.

Lemma stake_where_single vs a : wf vs -> stake_where vs (fun k => bool_decide (k = a)) = stake_of vs a.
Proof.
  intros W. rewrite <- (find_stake_of vs a W).
  pose proof (zsum_remove_key a (validators vs) (wf_nodup vs W)) as Hz.
  assert (Hs : zsum (map stake (validators vs)) = stake_where vs (fun k => bool_decide (k = a))
          + zsum (map stake (filter (fun v => pubkey v <> a) (validators vs)))).
  { clear. unfold stake_where. induction (validators vs) as [|v l IH]; [done|]. rewrite !filter_cons.
    destruct (decide (pubkey v = a)) as [Heq|Hne].
    - rewrite (bool_decide_true (pubkey v = a)), !decide_True, decide_False by auto. simpl. lia.
    - rewrite (bool_decide_false (pubkey v = a)), decide_False, decide_True by auto. simpl. lia. }
  lia.
Qed.

Lemma stake_where_empty vs P : (forall k, P k = false) -> stake_where vs P = 0.
Proof.
  intros HP. unfold stake_where. induction (validators vs) as [|v l IH]; [done|].
  rewrite filter_cons, decide_False; [done|]. by rewrite HP.
Qed.

(** Summing [stake_of] over distinct keys is the stake of those keys. *)
Lemma zsum_stake_of vs ks : wf vs -> NoDup ks ->
  zsum (map (stake_of vs) ks) = stake_where vs (fun k => bool_decide (k ∈ ks)).
Proof.
  intros W Hnd. induction Hnd as [|a ks Hnin Hnd IH]; simpl.
  - by rewrite stake_where_empty.
  - rewrite IH, <- (stake_where_single vs a W), (stake_where_union vs _ _ W).
    rewrite (stake_where_empty vs (fun k => _ && _)).
    2: { intros k. apply andb_false_iff. rewrite !bool_decide_eq_false.
         destruct (decide (k = a)) as [->|]; auto. }
    rewrite Z.add_0_r. apply stake_where_ext; [done|]. intros k.
    by rewrite orb_true_iff, !bool_decide_eq_true, elem_of_cons.
Qed.

(** Two sets of more than two thirds of the stake share a validator outside
    any set of at most one third. *)
Lemma quorum_intersection vs P Q B q : wf vs ->
  2 * total_stake vs < 3 * q -> q <= stake_where vs P -> q <= stake_where vs Q ->
  3 * stake_where vs B <= total_stake vs ->
  exists v, v ∈ validators vs /\ P (pubkey v) = true /\ Q (pubkey v) = true /\ B (pubkey v) = false.
Proof.
  intros W Hq HP HQ HB.
  destruct (list_find (fun v => P (pubkey v) && Q (pubkey v) && negb (B (pubkey v)) = true) (validators vs))
    as [[i v]|] eqn:E.
  - apply list_find_Some in E as (Hi & Hv & _). exists v.
    rewrite !andb_true_iff, negb_true_iff in Hv. split; [by eauto using list_elem_of_lookup_2|tauto].
  - apply list_find_None in E. exfalso.
    pose proof (stake_where_union vs P Q W). pose proof (stake_where_total vs (fun k => P k || Q k) W).
    assert (Hle : stake_where vs (fun k => P k && Q k) <= stake_where vs B).
    { unfold stake_where. clear -E W. pose proof (wf_pos vs W) as Hpos.
      induction Hpos as [|v l Hv Hl IH]; [done|]. apply Forall_cons in E as [Ev El]. rewrite !filter_cons.
      specialize (IH El). destruct (P (pubkey v)), (Q (pubkey v)), (B (pubkey v)); simpl in *; try lia; done. }
    lia.
Qed.

(** ** Properties *)

(** Every node that builds the set from the same (pubkey, stake) pairs, in
    whatever order it received them, gets the same set: the same canonical
    list, index and total, and so the same proposer for every height and
    round. *)
Theorem new_order_independent l1 l2 : l1 ≡ₚ l2 ->
  ValidatorSet_new l1 = ValidatorSet_new l2
  /\ StronglySorted vi_le (validators (ValidatorSet_new l1))
  /\ forall h r, proposer_for_round (ValidatorSet_new l1) h r = proposer_for_round (ValidatorSet_new l2) h r.
Proof.
  intros H. assert (E : ValidatorSet_new l1 = ValidatorSet_new l2).
  { rewrite !new_rebuild. apply rebuild_perm. by rewrite H. }
  split; [done|]. split; [apply (StronglySorted_merge_sort vi_le)|by rewrite E].
Qed.

Lemma new_order_independent_witness :
  ValidatorSet_new [(1, 100); (2, 300); (3, 0); (4, 300)] = ValidatorSet_new [(4, 300); (3, 0); (2, 300); (1, 100)].
Proof.
  refine (proj1 (new_order_independent [(1, 100); (2, 300); (3, 0); (4, 300)]
                                       [(4, 300); (3, 0); (2, 300); (1, 100)] _)).
  change [(4, 300); (3, 0); (2, 300); (1, 100)] with (reverse [(1, 100); (2, 300); (3, 0); (4, 300)] : list (Pubkey * Z)).
  symmetry. apply reverse_Permutation.
Defined.

(** [upsert] is the update of a finite map from keys to stakes: it
    keeps the set well formed (sorted, duplicate free, positive stakes, index
    in agreement with the list), changes the stake of the given key only, adds
    or removes the key as the stake is positive or zero, and moves the total
    by the difference. *)
Theorem upsert_refines_map vs k s : wf vs -> 0 <= s ->
  total_stake vs - stake_of vs k + s <= u64_max ->
  wf (upsert vs k s)
  /\ (forall k', stake_of (upsert vs k s) k' = if decide (k' = k) then s else stake_of vs k')
  /\ (forall k', vs_contains (upsert vs k s) k' = if decide (k' = k) then 0 <? s else vs_contains vs k')
  /\ total_stake (upsert vs k s) = total_stake vs - stake_of vs k + s.
Proof.
  intros W Hs Hle. destruct (upserted_wf vs k s W Hs Hle) as [W' Ht].
  change (rebuild (upserted vs k s)) with (upsert vs k s) in *.
  assert (Hel : forall v, v ∈ validators (upsert vs k s) <->
    (pubkey v <> k /\ v ∈ validators vs) \/ (0 < s /\ v = {| pubkey := k; stake := s |})).
  { intros v. rewrite <- upserted_elem. unfold upsert. by rewrite (rebuild_validators (upserted vs k s)). }
  assert (Hkey : forall k', k' ∈ vs_pubkeys (upsert vs k s) <-> if decide (k' = k) then 0 < s else k' ∈ vs_pubkeys vs).
  { intros k'. unfold vs_pubkeys. setoid_rewrite list_elem_of_fmap. setoid_rewrite Hel.
    case_decide; split.
    - intros (v & -> & [[? _]|[? _]]); [done|lia].
    - intros ?. exists {| pubkey := k; stake := s |}. split; [done|by right].
    - intros (v & -> & [[_ ?]|[_ ->]]); [by apply list_elem_of_fmap_2|done].

    - intros (v & -> & ?)%list_elem_of_fmap. exists v. split; [done|by left]. }
  split; [done|]. split; [|split; [|done]].
  - intros k'. case_decide as Hk.
    + subst. destruct (Z.ltb_spec 0 s).
      * change k with (pubkey {| pubkey := k; stake := s |}) at 2. rewrite stake_of_Some; auto. apply Hel. auto.
      * rewrite stake_of_None; [lia|done|]. rewrite Hkey, decide_True by done. lia.
    + destruct (get_by_pubkey vs k') as [v|] eqn:E.
      * apply get_by_pubkey_Some in E as [Hv <-]; [|done]. rewrite !stake_of_Some; auto. apply Hel. auto.
      * apply get_by_pubkey_None in E; [|done]. rewrite !stake_of_None; auto.
        by rewrite Hkey, decide_False.
  - intros k'. apply eq_bool_prop_intro. rewrite !Is_true_true, (vs_contains_spec _ _ W'), Hkey.
    case_decide; [by rewrite Z.ltb_lt|by rewrite vs_contains_spec].
Qed.

Definition sample_set : ValidatorSet := ValidatorSet_new [(1, 100); (2, 300); (3, 200)].

Lemma sample_set_wf : wf sample_set.
Proof. apply new_wf; [by apply (bool_decide_eq_true_1 _)|repeat constructor; simpl; lia|done]. Qed.

Lemma upsert_refines_map_witness :
  stake_of (upsert sample_set 3 450) 3 = 450 /\ stake_of (upsert sample_set 3 450) 2 = 300.
Proof.
  destruct (upsert_refines_map sample_set 3 450 sample_set_wf) as (_ & H & _);
    [done|vm_compute; congruence|].
  split; rewrite H; vm_compute; reflexivity.
Defined.

(** C23. For a threshold such as the default 0.667 the quorum computed in
    floating point is, for every possible total stake, strictly more than two
    thirds of it, at least 1 and never more than all of it; so two quorums
    overlap in more than one third of the stake and a quorum can be reached. *)
Theorem quorum_stake_bounds vs t : threshold_ok t = true -> 0 < total_stake vs <= u64_max ->
  2 * total_stake vs < 3 * quorum_stake vs t /\ 1 <= quorum_stake vs t <= total_stake vs.
Proof. apply quorum_stake_spec. Qed.

Lemma quorum_stake_bounds_witness :
  threshold_ok (f64_lit 667 1000) = true /\ quorum_stake sample_set (f64_lit 667 1000) = 401
  /\ 2 * total_stake sample_set < 3 * quorum_stake sample_set (f64_lit 667 1000).
Proof.
  split; [reflexivity|]. split; [reflexivity|].
  apply (quorum_stake_bounds sample_set (f64_lit 667 1000)); vm_compute; [reflexivity|split; congruence].
Defined.

(** C35. Proposer selection is exactly proportional to stake: over any window
    of [total_stake] consecutive heights (at any fixed round, as long as the
    seed does not wrap) a validator is the proposer of exactly [stake]
    heights, and a key outside the set of none. *)
Theorem proposer_fair vs k h0 r : wf vs -> 0 < total_stake vs -> 0 <= h0 -> 0 <= r ->
  h0 + total_stake vs + r <= u64_max ->
  Z.of_nat (length (filter (fun h => is_proposer vs k h r = true) (seqZ h0 (total_stake vs)))) = stake_of vs k.
Proof.
  intros W HT Hh Hr Hle.
  rewrite <- (find_stake_of vs k W). fold (stake_in (validators vs) k).
  rewrite <- (proposer_walk_count (validators vs) k 0 (wf_nodup vs W) (wf_pos vs W)) by
    (try rewrite <- (wf_total vs W); pose proof (wf_fits vs W); lia).
  rewrite <- (wf_total vs W), <- (count_window _ _ (h0 + r)) by lia.
  rewrite Z.add_comm, <- fmap_add_seqZ, count_fmap. apply length_filter_count.
  intros h Hh'%elem_of_seqZ. unfold is_proposer. rewrite proposer_seed by (done || lia).
  rewrite (Z.add_comm r h). case_match; simpl; rewrite ?bool_decide_eq_true; split; congruence.
Qed.

Lemma proposer_fair_witness :
  Z.of_nat (length (filter (fun h => is_proposer sample_set 2 h 1 = true) (seqZ 7 600))) = 300.
Proof. apply (proposer_fair sample_set 2 7 1 sample_set_wf); vm_compute; congruence. Defined.
