(* ===== verification/BftTypes.v ===== *)
(** * Types, configuration and timeouts of the consensus protocol

    Models consensus-bft/src/types.rs, config.rs and timeout.rs: messages,
    blocks and the per-height state, the parameters of the protocol, and the
    timeout scheduler.  SHA-256 and the transaction type come from other
    crates and are parameters ([Sha256], [Tx]).  The iteration order of a
    [HashMap], which Rust leaves unspecified, is the class [HashMapIter]. *)

From stdpp Require Import base numbers list option gmap.
From Stdlib Require Import ZArith Lia SpecFloat.
From coqutil Require Import Byte Word.LittleEndianList.
From S2P Require Import Prelude F64.
Local Open Scope Z_scope.

(** ** Interfaces to code outside the sources *)

(** [solana_sha256_hasher::hashv] *)
Class Sha256 := hashv : list (list Byte.byte) -> Hash.

(** [HashMap] iteration: every entry once, in some order *)
Class HashMapIter := {
  hm_iter : forall {K} `{Countable K} {V}, gmap K V -> list (K * V);
  hm_iter_perm : forall {K} `{Countable K} {V} (m : gmap K V), hm_iter m ≡ₚ map_to_list m
}.

(** the order of the model's own maps, an order like any other *)
#[export] Instance hm_iter_canonical : HashMapIter | 100.
Proof. by refine {| hm_iter := fun K _ _ V m => map_to_list m |}. Defined.

(** [to_le_bytes] of a 64-bit integer, signed or unsigned *)
Definition le_bytes64 (z : Z) : list Byte.byte := le_split 8 z.

(** the bytes of a 32-byte array *)
Definition key_bytes (k : Z) : list Byte.byte := rev (le_split 32 k).

(** ** Steps *)

Inductive ConsensusStep := NewRound | Propose | Prevote | Precommit | Commit.

#[export] Instance ConsensusStep_eq_dec : EqDecision ConsensusStep.
Proof. solve_decision. Defined.

(** [impl Ord for ConsensusStep] *)
Definition step_ord (s : ConsensusStep) : Z :=
  match s with NewRound => 0 | Propose => 1 | Prevote => 2 | Precommit => 3 | Commit => 4 end.

Definition step_leb (a b : ConsensusStep) : bool := step_ord a <=? step_ord b.
Definition step_ltb (a b : ConsensusStep) : bool := step_ord a <? step_ord b.

(** ** Blocks and messages *)

Record ProposedBlock (Tx : Type) := {
  parent_hash : Hash;
  block_height : Z;
  timestamp : Z;
  transactions : list Tx;
  state_root : Hash;
  block_proposer : Pubkey
}.
Arguments parent_hash {Tx}. Arguments block_height {Tx}. Arguments timestamp {Tx}.
Arguments transactions {Tx}. Arguments state_root {Tx}. Arguments block_proposer {Tx}.

(** what [ProposedBlock::hash] feeds to SHA-256 *)
Definition hash_input {Tx} (b : ProposedBlock Tx) : list (list Byte.byte) :=
  [key_bytes (parent_hash b); le_bytes64 (block_height b); le_bytes64 (timestamp b);
   key_bytes (state_root b); key_bytes (block_proposer b)].

Definition block_hash_of `{Sha256} {Tx} (b : ProposedBlock Tx) : Hash := hashv (hash_input b).

Record CommittedBlock (Tx : Type) := {
  committed : ProposedBlock Tx;
  commit_signatures : list (Pubkey * Signature);
  commit_round : Z
}.
Arguments committed {Tx}. Arguments commit_signatures {Tx}. Arguments commit_round {Tx}.

Inductive ConsensusMessage (Tx : Type) :=
  | MProposal (height round : Z) (block : ProposedBlock Tx) (proposer : Pubkey)
      (signature : Signature) (valid_round : option Z)
  | MPrevote (height round : Z) (block_hash : option Hash) (voter : Pubkey) (signature : Signature)
  | MPrecommit (height round : Z) (block_hash : option Hash) (voter : Pubkey) (signature : Signature).
Arguments MProposal {Tx}. Arguments MPrevote {Tx}. Arguments MPrecommit {Tx}.

Definition msg_height {Tx} (m : ConsensusMessage Tx) : Z :=
  match m with MProposal h _ _ _ _ _ | MPrevote h _ _ _ _ | MPrecommit h _ _ _ _ => h end.
Definition msg_round {Tx} (m : ConsensusMessage Tx) : Z :=
  match m with MProposal _ r _ _ _ _ | MPrevote _ r _ _ _ | MPrecommit _ r _ _ _ => r end.
Definition msg_sender {Tx} (m : ConsensusMessage Tx) : Pubkey :=
  match m with MProposal _ _ _ p _ _ => p | MPrevote _ _ _ v _ | MPrecommit _ _ _ v _ => v end.
Definition msg_signature {Tx} (m : ConsensusMessage Tx) : Signature :=
  match m with MProposal _ _ _ _ s _ | MPrevote _ _ _ _ s | MPrecommit _ _ _ _ s => s end.

(** ** Consensus state *)

Record ConsensusState (Tx : Type) := {
  height : Z;
  round : Z;
  step : ConsensusStep;
  locked_value : option Hash;
  locked_round : option Z;
  valid_value : option Hash;
  valid_round : option Z;
  prevotes : gmap Pubkey (option Hash);
  precommits : gmap Pubkey (option Hash);
  proposal : option (ProposedBlock Tx)
}.
Arguments Build_ConsensusState {Tx}.
Arguments height {Tx}. Arguments round {Tx}. Arguments step {Tx}. Arguments locked_value {Tx}.
Arguments locked_round {Tx}. Arguments valid_value {Tx}. Arguments valid_round {Tx}.
Arguments prevotes {Tx}. Arguments precommits {Tx}. Arguments proposal {Tx}.

Definition ConsensusState_new {Tx} (h : Z) : ConsensusState Tx :=
  {| height := h; round := 0; step := NewRound; locked_value := None; locked_round := None;
     valid_value := None; valid_round := None; prevotes := ∅; precommits := ∅; proposal := None |}.

Definition advance_round {Tx} (s : ConsensusState Tx) (new_round : Z) : ConsensusState Tx :=
  {| height := height s; round := new_round; step := NewRound;
     locked_value := locked_value s; locked_round := locked_round s;
     valid_value := valid_value s; valid_round := valid_round s;
     prevotes := ∅; precommits := ∅; proposal := None |}.

(** field assignments *)
Definition set_step {Tx} (s : ConsensusState Tx) (v : ConsensusStep) : ConsensusState Tx :=
  let 'Build_ConsensusState h r _ lv lr vv vr pv pc p := s in Build_ConsensusState h r v lv lr vv vr pv pc p.
Definition set_proposal {Tx} (s : ConsensusState Tx) (v : option (ProposedBlock Tx)) : ConsensusState Tx :=
  let 'Build_ConsensusState h r st lv lr vv vr pv pc _ := s in Build_ConsensusState h r st lv lr vv vr pv pc v.
Definition insert_prevote {Tx} (s : ConsensusState Tx) (k : Pubkey) (v : option Hash) : ConsensusState Tx :=
  let 'Build_ConsensusState h r st lv lr vv vr pv pc p := s in
  Build_ConsensusState h r st lv lr vv vr (<[k := v]> pv) pc p.
Definition insert_precommit {Tx} (s : ConsensusState Tx) (k : Pubkey) (v : option Hash) : ConsensusState Tx :=
  let 'Build_ConsensusState h r st lv lr vv vr pv pc p := s in
  Build_ConsensusState h r st lv lr vv vr pv (<[k := v]> pc) p.
(** [valid_value], [valid_round], [locked_value] and [locked_round] set together on a polka *)
Definition set_lock {Tx} (s : ConsensusState Tx) (hash : Hash) : ConsensusState Tx :=
  let 'Build_ConsensusState h r st _ _ _ _ pv pc p := s in
  Build_ConsensusState h r st (Some hash) (Some r) (Some hash) (Some r) pv pc p.

(** ** Configuration *)

Record BftConfig := {
  block_time_ms : Z;
  prevote_timeout_ms : Z;
  precommit_timeout_ms : Z;
  finality_threshold : f64;
  max_rounds_per_height : Z;
  propose_timeout_base_ms : Z;
  propose_timeout_delta_ms : Z
}.

Definition BftConfig_default : BftConfig :=
  {| block_time_ms := 1000; prevote_timeout_ms := 1000; precommit_timeout_ms := 1000;
     finality_threshold := f64_lit 667 1000; max_rounds_per_height := 5;
     propose_timeout_base_ms := 3000; propose_timeout_delta_ms := 500 |}.

Inductive ConfigError := InvalidBlockTime | InvalidFinalityThreshold (t : f64) | InvalidMaxRounds.

Definition propose_timeout_ms (c : BftConfig) (r : Z) : Z :=
  wrapping_add u64_max (propose_timeout_base_ms c) (wrapping_mul u64_max (propose_timeout_delta_ms c) r).

Definition BftConfig_validate (c : BftConfig) : result unit ConfigError :=
  if block_time_ms c =? 0 then Err InvalidBlockTime
  else if f64_ltb (finality_threshold c) (f64_lit 1 2) || f64_ltb (f64_of_Z 1) (finality_threshold c)
  then Err (InvalidFinalityThreshold (finality_threshold c))
  else if max_rounds_per_height c =? 0 then Err InvalidMaxRounds
  else Ok tt.

(** ** Timeouts

    An [Instant] and a [Duration] are numbers of nanoseconds; the clock is
    read where the code calls [Instant::now] or [elapsed]. *)

Record TimeoutScheduler := {
  ts_config : BftConfig;
  started_at : option Z;
  active_step : option ConsensusStep;
  current_round : Z
}.

Definition TimeoutScheduler_new (c : BftConfig) : TimeoutScheduler :=
  {| ts_config := c; started_at := None; active_step := None; current_round := 0 |}.

Definition ts_start (t : TimeoutScheduler) (now : Z) (s : ConsensusStep) (r : Z) : TimeoutScheduler :=
  {| ts_config := ts_config t; started_at := Some now; active_step := Some s; current_round := r |}.

Definition ts_cancel (t : TimeoutScheduler) : TimeoutScheduler :=
  {| ts_config := ts_config t; started_at := None; active_step := None; current_round := current_round t |}.

Definition timeout_duration (t : TimeoutScheduler) (s : ConsensusStep) (r : Z) : Z :=
  let ms := match s with
    | Propose | NewRound => propose_timeout_ms (ts_config t) r
    | Prevote => prevote_timeout_ms (ts_config t)
    | Precommit => precommit_timeout_ms (ts_config t)
    | Commit => 0
    end in
  ms * 1000000.

(** [Instant::elapsed] is zero when the clock reads earlier than the start *)
Definition elapsed (start now : Z) : Z := Z.max 0 (now - start).

Definition check_expired (t : TimeoutScheduler) (now : Z) : option ConsensusStep :=
  start ← started_at t;
  s ← active_step t;
  if timeout_duration t s (current_round t) <=? elapsed start now then Some s else None.

Definition remaining (t : TimeoutScheduler) (now : Z) : option Z :=
  start ← started_at t;
  s ← active_step t;
  Some (saturating_sub (timeout_duration t s (current_round t)) (elapsed start now)).

Definition ts_update_config (t : TimeoutScheduler) (c : BftConfig) : TimeoutScheduler :=
  {| ts_config := c; started_at := started_at t; active_step := active_step t; current_round := current_round t |}.

(** ** Block hashes *)

Lemma le_bytes64_inj x y : le_bytes64 x = le_bytes64 y -> x mod 2 ^ 64 = y mod 2 ^ 64.
Proof.
  unfold le_bytes64. intros H. change 64 with (Z.of_nat 8 * 8). rewrite <- !le_combine_split. by rewrite H.
Qed.

Lemma key_bytes_inj x y : in_pubkey x -> in_pubkey y -> key_bytes x = key_bytes y -> x = y.
Proof.
  unfold key_bytes, in_pubkey. intros Hx Hy H%(f_equal (@rev _)). rewrite !rev_involutive in H.
  rewrite <- (Z.mod_small x (2 ^ (Z.of_nat 32 * 8))), <- (Z.mod_small y (2 ^ (Z.of_nat 32 * 8))) by lia.
  rewrite <- !le_combine_split. by rewrite H.
Qed.

Lemma length_le_bytes64 z : length (le_bytes64 z) = 8%nat.
Proof. apply length_le_split. Qed.
Lemma length_key_bytes k : length (key_bytes k) = 32%nat.
Proof. unfold key_bytes. rewrite length_rev. apply length_le_split. Qed.
#[local] Opaque le_bytes64 key_bytes.

(** the fields of a block are in the range of their types *)
Definition block_ok {Tx} (b : ProposedBlock Tx) : Prop :=
  in_pubkey (parent_hash b) /\ in_u64 (block_height b) /\ in_i64 (timestamp b)
  /\ in_pubkey (state_root b) /\ in_pubkey (block_proposer b).

(** The concatenated bytes hashed by [ProposedBlock::hash] determine every header field
    (no two headers share an encoding, so equal hashes of different headers
    are a SHA-256 collision), and nothing else: the transactions enter only
    through [state_root]. *)
Theorem block_hash_binds_header {Tx} (b1 b2 : ProposedBlock Tx) : block_ok b1 -> block_ok b2 ->
  concat (hash_input b1) = concat (hash_input b2) <->
  parent_hash b1 = parent_hash b2 /\ block_height b1 = block_height b2 /\ timestamp b1 = timestamp b2
  /\ state_root b1 = state_root b2 /\ block_proposer b1 = block_proposer b2.
Proof.
  unfold block_ok, hash_input. intros (? & ? & ? & ? & ?) (? & ? & ? & ? & ?). simpl. split.
  - rewrite !app_nil_r. intros [Hp H']%app_inj_1; [|by rewrite !length_key_bytes].
    apply app_inj_1 in H' as [Hh%le_bytes64_inj H']; [|by rewrite !length_le_bytes64].
    apply app_inj_1 in H' as [Ht%le_bytes64_inj H']; [|by rewrite !length_le_bytes64].
    apply app_inj_1 in H' as [Hs Hpr]; [|by rewrite !length_key_bytes].
    rewrite !Z.mod_small in Hh by lia. repeat split; auto using key_bytes_inj.
    pose proof (Z.div_mod (timestamp b1) (2 ^ 64) ltac:(lia)).
    pose proof (Z.div_mod (timestamp b2) (2 ^ 64) ltac:(lia)).
    pose proof (Z.mod_pos_bound (timestamp b1) (2 ^ 64) ltac:(lia)). nia.
  - intros (-> & -> & -> & -> & ->). done.
Qed.

Lemma block_hash_binds_header_witness :
  let b ts := {| parent_hash := 7; block_height := 1; timestamp := ts; transactions := [] : list nat;
                 state_root := 9; block_proposer := 3 |} in
  concat (hash_input (b (-1))) <> concat (hash_input (b 1)).
Proof.
  intros b H. apply (block_hash_binds_header (b (-1)) (b 1)) in H;
    [|unfold block_ok, in_pubkey; simpl; lia..].
  destruct H as (_ & _ & H & _). discriminate H.
Defined.

(** The scheduler reports a timeout exactly when no time remains, and the
    remaining time never exceeds the configured duration. *)
Theorem check_expired_remaining t now s :
  check_expired t now = Some s <-> remaining t now = Some 0 /\ active_step t = Some s.
Proof.
  unfold check_expired, remaining, saturating_sub. destruct (started_at t) as [st|], (active_step t) as [a|]; simpl.
  2-4: split; [done|intros [? ?]; done].
  destruct (Z.leb_spec (timeout_duration t a (current_round t)) (elapsed st now)).
  - rewrite Z.max_l by lia. split; [by intros [= ->]|by intros [_ ?]].
  - split; [done|]. intros [[= ?] _]. lia.
Qed.
