(* ===== verification/Evidence.v ===== *)
(** * Double-sign evidence

    Models consensus-bft/src/evidence.rs: the first vote seen for each
    (height, round, voter, kind) is kept, and a later vote for another value
    under the same key is recorded as evidence.  The main theorem says that
    evidence against a validator exists exactly when two conflicting votes of
    it were received. *)

From stdpp Require Import base numbers list option gmap countable.
From Stdlib Require Import ZArith Lia.
From S2P Require Import Prelude F64 BftTypes.
Local Open Scope Z_scope.

Inductive EvidenceKind := ConflictingPrevote | ConflictingPrecommit.
Inductive VoteType := VtPrevote | VtPrecommit.

Record VoteKey := { vk_height : Z; vk_round : Z; vk_voter : Pubkey; vk_kind : VoteType }.

#[export] Instance VoteType_eq_dec : EqDecision VoteType.
Proof. solve_decision. Defined.
#[export] Instance VoteKey_eq_dec : EqDecision VoteKey.
Proof. solve_decision. Defined.
#[export] Instance VoteType_countable : Countable VoteType.
Proof.
  refine (inj_countable' (fun v => match v with VtPrevote => true | VtPrecommit => false end)
            (fun b : bool => if b then VtPrevote else VtPrecommit) _). by intros [].
Defined.
#[export] Instance VoteKey_countable : Countable VoteKey.
Proof.
  refine (inj_countable' (fun k => (vk_height k, vk_round k, vk_voter k, vk_kind k))
            (fun '(h, r, v, t) => {| vk_height := h; vk_round := r; vk_voter := v; vk_kind := t |}) _).
  by intros [].
Defined.

Record StoredVote := { sv_block_hash : option Hash; sv_signature : Signature }.

Record DoubleSignEvidence := {
  ev_validator : Pubkey;
  ev_height : Z;
  ev_round : Z;
  ev_kind : EvidenceKind;
  vote_a : option Hash * Signature;
  vote_b : option Hash * Signature
}.

Record EvidenceCollector := {
  ec_votes : gmap VoteKey StoredVote;
  ec_evidence : list DoubleSignEvidence;
  min_height : Z
}.

Definition EvidenceCollector_new : EvidenceCollector :=
  {| ec_votes := ∅; ec_evidence := []; min_height := 0 |}.

(** the first [match] of [check_and_record]; a proposal is not a vote *)
Definition vote_of {Tx} (msg : ConsensusMessage Tx) : option (VoteKey * StoredVote) :=
  match msg with
  | MPrevote h r bh v s =>
      Some ({| vk_height := h; vk_round := r; vk_voter := v; vk_kind := VtPrevote |},
            {| sv_block_hash := bh; sv_signature := s |})
  | MPrecommit h r bh v s =>
      Some ({| vk_height := h; vk_round := r; vk_voter := v; vk_kind := VtPrecommit |},
            {| sv_block_hash := bh; sv_signature := s |})
  | MProposal _ _ _ _ _ _ => None
  end.

Definition check_and_record {Tx} (c : EvidenceCollector) (msg : ConsensusMessage Tx)
    : option DoubleSignEvidence * EvidenceCollector :=
  match vote_of msg with
  | None => (None, c)
  | Some (key, current_vote) =>
      if vk_height key <? min_height c then (None, c)
      else match ec_votes c !! key with
        | Some existing =>
            if decide (sv_block_hash existing <> sv_block_hash current_vote) then
              let ev := {| ev_validator := vk_voter key;
                           ev_height := vk_height key;
                           ev_round := vk_round key;
                           ev_kind := match vk_kind key with
                                      | VtPrevote => ConflictingPrevote
                                      | VtPrecommit => ConflictingPrecommit
                                      end;
                           vote_a := (sv_block_hash existing, sv_signature existing);
                           vote_b := (sv_block_hash current_vote, sv_signature current_vote) |} in
              (Some ev, {| ec_votes := ec_votes c; ec_evidence := ec_evidence c ++ [ev]; min_height := min_height c |})
            else (None, c)
        | None =>
            (None, {| ec_votes := <[key := current_vote]> (ec_votes c);
                      ec_evidence := ec_evidence c; min_height := min_height c |})
        end
  end.

Definition prune (c : EvidenceCollector) (mh : Z) : EvidenceCollector :=
  {| ec_votes := filter (fun kv => mh <= vk_height kv.1) (ec_votes c);
     ec_evidence := ec_evidence c; min_height := mh |}.

(** [std::mem::take] of the evidence *)
Definition drain_evidence (c : EvidenceCollector) : list DoubleSignEvidence * EvidenceCollector :=
  (ec_evidence c, {| ec_votes := ec_votes c; ec_evidence := []; min_height := min_height c |}).

Definition tracked_votes (c : EvidenceCollector) : nat := size (ec_votes c).

Definition has_evidence_against (c : EvidenceCollector) (v : Pubkey) : bool :=
  existsb (fun e => bool_decide (ev_validator e = v)) (ec_evidence c).

(** a stream of messages *)
Definition record_all {Tx} (c : EvidenceCollector) (ms : list (ConsensusMessage Tx)) : EvidenceCollector :=
  foldl (fun c m => (check_and_record c m).2) c ms.

(** ** Detection *)

(** Two votes of [v] in [ms] for the same height, round and kind, and
    different values. *)
Definition conflicting {Tx} (ms : list (ConsensusMessage Tx)) (v : Pubkey) : Prop :=
  exists m1 m2 key a b, m1 ∈ ms /\ m2 ∈ ms /\ vote_of m1 = Some (key, a) /\ vote_of m2 = Some (key, b)
    /\ vk_voter key = v /\ sv_block_hash a <> sv_block_hash b.

Section detection.
Context {Tx : Type}.
Implicit Types (ms : list (ConsensusMessage Tx)) (m : ConsensusMessage Tx).

Lemma has_evidence_elem c v :
  has_evidence_against c v = true <-> exists e, e ∈ ec_evidence c /\ ev_validator e = v.
Proof.
  unfold has_evidence_against. rewrite existsb_exists. setoid_rewrite bool_decide_eq_true.
  by setoid_rewrite list_elem_of_In.
Qed.

(** what the collector knows after the messages [ms] *)
Record collected (ms : list (ConsensusMessage Tx)) (c : EvidenceCollector) : Prop := {
  col_min : min_height c = 0;
  col_votes : forall key a, ec_votes c !! key = Some a -> exists m, m ∈ ms /\ vote_of m = Some (key, a);
  col_known : forall m key a, m ∈ ms -> vote_of m = Some (key, a) -> is_Some (ec_votes c !! key);
  col_sound : forall e, e ∈ ec_evidence c -> conflicting ms (ev_validator e);
  col_complete : forall m key a b, m ∈ ms -> vote_of m = Some (key, b) -> ec_votes c !! key = Some a ->
    sv_block_hash a <> sv_block_hash b -> exists e, e ∈ ec_evidence c /\ ev_validator e = vk_voter key
}.

Lemma conflicting_mono ms m v : conflicting ms v -> conflicting (ms ++ [m]) v.
Proof.
  intros (m1 & m2 & key & a & b & H1 & H2 & ?). exists m1, m2, key, a, b.
  rewrite !elem_of_app. tauto.
Qed.

Lemma collected_step ms c m : collected ms c ->
  (forall key a, vote_of m = Some (key, a) -> 0 <= vk_height key) ->
  collected (ms ++ [m]) (check_and_record c m).2.
Proof.
  intros [Hmin Hv Hk Hs Hc] Hh. unfold check_and_record.
  assert (Hv' : forall key a, ec_votes c !! key = Some a -> exists m0, m0 ∈ ms ++ [m] /\ vote_of m0 = Some (key, a)).
  { intros key a (m0 & ? & ?)%Hv. exists m0. rewrite elem_of_snoc. auto. }
  assert (Hs' : forall e, e ∈ ec_evidence c -> conflicting (ms ++ [m]) (ev_validator e))
    by auto using conflicting_mono.
  destruct (vote_of m) as [[key cur]|] eqn:Em.
  2: { split; auto; [intros m0 key a|intros m0 key a b]; intros [?| ->]%elem_of_snoc; eauto; congruence. }
  specialize (Hh _ _ eq_refl). destruct (Z.ltb_spec (vk_height key) (min_height c)); [lia|].
  destruct (ec_votes c !! key) as [ex|] eqn:Eex; [case_decide as Hne|]; split; simpl; auto.
  - intros m0 ? ? [?| ->]%elem_of_snoc ?; [by eauto|]. simplify_eq. eauto.
  - intros e [?| ->]%elem_of_snoc; [by eauto|]. simpl.
    destruct (Hv _ _ Eex) as (m1 & Hm1 & E1).
    exists m1, m, key, ex, cur. rewrite !elem_of_snoc. auto 10.
  - intros m0 key0 a b [Hm0| ->]%elem_of_snoc E0 Ea Hab.
    + destruct (Hc _ _ _ _ Hm0 E0 Ea Hab) as (e & ? & ?). exists e. rewrite elem_of_snoc. auto.
    + simplify_eq. eexists. rewrite elem_of_snoc. eauto.
  - intros m0 ? ? [?| ->]%elem_of_snoc ?; [by eauto|]. simplify_eq. eauto.
  - intros m0 key0 a b [Hm0| ->]%elem_of_snoc E0 Ea Hab; simplify_eq; eauto.
  - intros key0 a [[<- <-]|[_ ?]]%lookup_insert_Some; [|by auto].
    exists m. rewrite elem_of_snoc. auto.
  - intros m0 key0 ? [?| ->]%elem_of_snoc ?.
    + destruct (decide (key0 = key)) as [->|]; [rewrite lookup_insert_eq; eauto|rewrite lookup_insert_ne by done; eauto].
    + simplify_eq. rewrite lookup_insert_eq. eauto.
  - intros m0 key0 a b [Hm0| ->]%elem_of_snoc E0 [[<- <-]|[? Ea]]%lookup_insert_Some Hab.
    + destruct (Hk _ _ _ Hm0 E0). congruence.
    + by eauto.
    + simplify_eq.
    + congruence.
Qed.

Lemma collected_all ms :
  (forall m key a, m ∈ ms -> vote_of m = Some (key, a) -> 0 <= vk_height key) ->
  collected ms (record_all EvidenceCollector_new ms).
Proof.
  induction ms as [|m ms IH] using rev_ind; intros Hh.
  - split; simpl; [done|..]; intros *; rewrite ?lookup_empty; intros H; try inversion H.
  - unfold record_all. rewrite foldl_app. apply collected_step.
    + apply IH. intros m0 key a Hm0. apply Hh. rewrite elem_of_snoc. auto.
    + intros key a. apply Hh. rewrite elem_of_snoc. auto.
Qed.

End detection.

(** C36. Double-sign detection is sound and complete: after any stream of
    messages, there is evidence against a validator exactly when the stream
    holds two votes of it for the same height, round and kind with different
    values (nil included), in whatever order and with whatever else between
    them. *)
Theorem evidence_iff_conflict {Tx} (ms : list (ConsensusMessage Tx)) v :
  (forall m key a, m ∈ ms -> vote_of m = Some (key, a) -> 0 <= vk_height key) ->
  has_evidence_against (record_all EvidenceCollector_new ms) v = true <-> conflicting ms v.
Proof.
  intros Hh. pose proof (collected_all ms Hh) as [_ Hv Hk Hs Hc]. rewrite has_evidence_elem. split.
  - intros (e & He & <-). auto.
  - intros (m1 & m2 & key & a & b & H1 & H2 & E1 & E2 & <- & Hab).
    destruct (Hk _ _ _ H1 E1) as [w Hw].
    destruct (decide (sv_block_hash w = sv_block_hash a)) as [Ea|Ea].
    + eapply (Hc m2); eauto. congruence.
    + eapply (Hc m1); eauto.
Qed.

Lemma evidence_iff_conflict_witness :
  let m h := MPrevote (Tx := nat) 5 1 h 42 0 in
  has_evidence_against (record_all EvidenceCollector_new [m None; m None; m (Some 9)]) 42 = true
  /\ conflicting [m None; m None; m (Some 9)] 42.
Proof.
  intros m. split; [reflexivity|].
  apply (evidence_iff_conflict [m None; m None; m (Some 9)] 42); [|reflexivity].
  intros m0 key a. rewrite !elem_of_cons. intros [->|[->|[->|[]%not_elem_of_nil]]] [= <- _]; simpl; lia.
Defined.
