(* ===== verification/Tendermint.v ===== *)
(** * The abstract protocol

    The specification the engine is checked against: the voting rules of a
    Tendermint-style protocol at one height, as a step relation on what a node
    remembers (round, lock, collected votes, which votes it has sent) together
    with the list of votes sent so far.  The invariants by rule induction on
    this relation give agreement: two quorums of precommits, in whatever
    rounds, are for the same value. *)

From stdpp Require Import base numbers list option gmap relations.
From Stdlib Require Import ZArith Lia.
From S2P Require Import Prelude F64 ValidatorSet BftTypes Evidence.
Local Open Scope Z_scope.

(** a vote: height, round, voter and kind, and the value voted for *)
Definition vote : Type := VoteKey * option Hash.

Definition pvkey (h r : Z) (k : Pubkey) : VoteKey :=
  {| vk_height := h; vk_round := r; vk_voter := k; vk_kind := VtPrevote |}.
Definition pckey (h r : Z) (k : Pubkey) : VoteKey :=
  {| vk_height := h; vk_round := r; vk_voter := k; vk_kind := VtPrecommit |}.

(** what a node remembers within a height *)
Record pstate := {
  p_round : Z;
  p_locked : option (Hash * Z);
  p_prevotes : gmap Pubkey (option Hash);
  p_precommits : gmap Pubkey (option Hash);
  p_sent_prevote : bool;
  p_sent_precommit : bool
}.

(** ** Rules *)

Section protocol.
Context (vs : ValidatorSet) (q h : Z).

(** [n] may prevote [v]: nil always; a value when not locked, when locked on
    it, or when a polka for it is claimed at or after the locked round. *)
Definition may_prevote (claim : Hash -> Z -> Prop) (p : pstate) (v : option Hash) : Prop :=
  match v, p_locked p with
  | Some b, Some (w, lr) => w = b \/ exists vr, lr <= vr /\ claim b vr
  | _, _ => True
  end.

Definition value_quorum (votes : gmap Pubkey (option Hash)) (b : Hash) : Prop :=
  q <= stake_where vs (fun k => bool_decide (votes !! k = Some (Some b))).

(** One rule of node [n]; [ext] are the votes it may receive, [claim] the
    polkas a proposal may claim. *)
Inductive pstep (n : Pubkey) (ext : vote -> Prop) (claim : Hash -> Z -> Prop) :
    pstate * list vote -> pstate * list vote -> Prop :=
  | ps_advance p V r : p_round p < r ->
      pstep n ext claim (p, V)
        ({| p_round := r; p_locked := p_locked p; p_prevotes := ∅; p_precommits := ∅;
            p_sent_prevote := false; p_sent_precommit := false |}, V)
  | ps_recv_prevote p V k v : ext (pvkey h (p_round p) k, v) ->
      pstep n ext claim (p, V)
        ({| p_round := p_round p; p_locked := p_locked p; p_prevotes := <[k := v]> (p_prevotes p);
            p_precommits := p_precommits p; p_sent_prevote := p_sent_prevote p;
            p_sent_precommit := p_sent_precommit p |}, V)
  | ps_recv_precommit p V k v : ext (pckey h (p_round p) k, v) ->
      pstep n ext claim (p, V)
        ({| p_round := p_round p; p_locked := p_locked p; p_prevotes := p_prevotes p;
            p_precommits := <[k := v]> (p_precommits p); p_sent_prevote := p_sent_prevote p;
            p_sent_precommit := p_sent_precommit p |}, V)
  | ps_prevote p V v : p_sent_prevote p = false -> may_prevote claim p v ->
      pstep n ext claim (p, V)
        ({| p_round := p_round p; p_locked := p_locked p; p_prevotes := <[n := v]> (p_prevotes p);
            p_precommits := p_precommits p; p_sent_prevote := true;
            p_sent_precommit := p_sent_precommit p |}, (pvkey h (p_round p) n, v) :: V)
  | ps_lock p V b : value_quorum (p_prevotes p) b ->
      pstep n ext claim (p, V)
        ({| p_round := p_round p; p_locked := Some (b, p_round p); p_prevotes := p_prevotes p;
            p_precommits := p_precommits p; p_sent_prevote := p_sent_prevote p;
            p_sent_precommit := p_sent_precommit p |}, V)
  | ps_precommit p V v : p_sent_precommit p = false ->
      match v with Some b => value_quorum (p_prevotes p) b /\ p_locked p = Some (b, p_round p) | None => True end ->
      pstep n ext claim (p, V)
        ({| p_round := p_round p; p_locked := p_locked p; p_prevotes := p_prevotes p;
            p_precommits := <[n := v]> (p_precommits p); p_sent_prevote := p_sent_prevote p;
            p_sent_precommit := true |}, (pckey h (p_round p) n, v) :: V).

(** ** A node never contradicts itself *)

Record votes_inv (n : Pubkey) (p : pstate) (V : list vote) : Prop := {
  vi_prevote : forall r v, (pvkey h r n, v) ∈ V -> r < p_round p \/ (r = p_round p /\ p_sent_prevote p = true);
  vi_precommit : forall r v, (pckey h r n, v) ∈ V -> r < p_round p \/ (r = p_round p /\ p_sent_precommit p = true);
  vi_uniq : forall key v v', vk_voter key = n -> (key, v) ∈ V -> (key, v') ∈ V -> v = v';
  vi_height : forall key v, vk_voter key = n -> (key, v) ∈ V -> vk_height key = h
}.

Lemma votes_inv_other n p V x : votes_inv n p V -> vk_voter x.1 <> n -> votes_inv n p (x :: V).
Proof.
  intros [H1 H2 H3 H4] Hx. split.
  - intros r v [<-|?]%elem_of_cons; [done|eauto].
  - intros r v [<-|?]%elem_of_cons; [done|eauto].
  - intros key v v' Hk [<-|?]%elem_of_cons [Heq|?]%elem_of_cons; simpl in *; try done; [|eauto].
    by rewrite <- Heq in Hx.
  - intros key v Hk [<-|?]%elem_of_cons; [done|eauto].
Qed.

Lemma votes_inv_step n ext claim p V p' V' :
  votes_inv n p V -> pstep n ext claim (p, V) (p', V') -> votes_inv n p' V'.
Proof.
  intros [H1 H2 H3 H4] Hs. inversion Hs; subst; clear Hs; split; simpl; try done; auto.
  - intros r0 v Hin. destruct (H1 _ _ Hin) as [?|[-> _]]; left; lia.
  - intros r0 v Hin. destruct (H2 _ _ Hin) as [?|[-> _]]; left; lia.
  - intros r0 v0 [[= -> ->]|Hin]%elem_of_cons; [by auto|]. destruct (H1 _ _ Hin) as [?|[-> ?]]; auto.
  - intros r0 v0 [[=]|Hin]%elem_of_cons. eauto.
  - intros key v0 v' Hk [Heq|Hin]%elem_of_cons [Heq'|Hin']%elem_of_cons;
      [congruence|injection Heq as -> ->|injection Heq' as -> ->|by eauto];
      [destruct (H1 _ _ Hin')|destruct (H1 _ _ Hin)]; intuition (lia || congruence).
  - intros key v0 Hk [[= -> ->]|Hin]%elem_of_cons; eauto.
  - intros r0 v0 [[=]|Hin]%elem_of_cons. eauto.
  - intros r0 v0 [[= -> ->]|Hin]%elem_of_cons; [by auto|]. destruct (H2 _ _ Hin) as [?|[-> ?]]; auto.
  - intros key v0 v' Hk [Heq|Hin]%elem_of_cons [Heq'|Hin']%elem_of_cons;
      [congruence|injection Heq as -> ->|injection Heq' as -> ->|by eauto];
      [destruct (H2 _ _ Hin')|destruct (H2 _ _ Hin)]; intuition (lia || congruence).
  - intros key v0 Hk [[= -> ->]|Hin]%elem_of_cons; eauto.
Qed.

(** ** Locks

    [byz k] marks the validators that may send anything; the others send only
    what is in [V], newest first. *)

Context (byz : Pubkey -> bool).

Definition polka (V : list vote) (b : Hash) (r : Z) : Prop :=
  q <= stake_where vs (fun k => byz k || bool_decide ((pvkey h r k, Some b) ∈ V)).
Definition commit_quorum (V : list vote) (b : Hash) (r : Z) : Prop :=
  q <= stake_where vs (fun k => byz k || bool_decide ((pckey h r k, Some b) ∈ V)).

(** votes that can reach a node: those sent, and whatever a Byzantine
    validator makes up in its own name *)
Definition authentic (V : list vote) (x : vote) : Prop := byz (vk_voter x.1) = true \/ x ∈ V.

Record node_inv (n : Pubkey) (p : pstate) (V : list vote) : Prop := {
  ni_votes : votes_inv n p V;
  ni_prevotes : forall k v, byz k = false -> p_prevotes p !! k = Some v -> (pvkey h (p_round p) k, v) ∈ V;
  ni_precommits : forall k v, byz k = false -> p_precommits p !! k = Some v -> (pckey h (p_round p) k, v) ∈ V;
  ni_locked : forall w lr, p_locked p = Some (w, lr) -> polka V w lr /\ lr <= p_round p;
  ni_sent_lock : forall r b, (pckey h r n, Some b) ∈ V ->
    polka V b r /\ exists w lr, p_locked p = Some (w, lr) /\ r <= lr;
  ni_order : forall V1 V2 r' b' r b, V = V1 ++ (pvkey h r' n, Some b') :: V2 -> (pckey h r n, Some b) ∈ V ->
    r < r' -> exists vr, r <= vr /\ polka V2 b' vr
}.

Context (W : wf vs).

Lemma polka_mono V V' b r : (forall x, x ∈ V -> x ∈ V') -> polka V b r -> polka V' b r.
Proof.
  intros HV Hp. unfold polka in *. etrans; [exact Hp|]. apply stake_where_mono; [done|].
  intros k. rewrite !orb_true_iff, !bool_decide_eq_true. intros [?|?]; auto.
Qed.

Lemma commit_quorum_mono V V' b r : (forall x, x ∈ V -> x ∈ V') -> commit_quorum V b r -> commit_quorum V' b r.
Proof.
  intros HV Hp. unfold commit_quorum in *. etrans; [exact Hp|]. apply stake_where_mono; [done|].
  intros k. rewrite !orb_true_iff, !bool_decide_eq_true. intros [?|?]; auto.
Qed.

Lemma polka_cons V x b r : polka V b r -> polka (x :: V) b r.
Proof. apply polka_mono. intros y Hy. by right. Qed.
#[local] Hint Resolve polka_cons : core.

(** A node that sees a quorum in its map has seen a polka. *)
Lemma value_quorum_polka n p V b : node_inv n p V -> value_quorum (p_prevotes p) b -> polka V b (p_round p).
Proof.
  intros HI Hq. unfold value_quorum, polka in *. etrans; [exact Hq|]. apply stake_where_mono; [done|].
  intros k. rewrite orb_true_iff, !bool_decide_eq_true. intros Hk.
  destruct (byz k) eqn:Hb; [auto|]. right. by apply (ni_prevotes n p V HI).
Qed.

Lemma value_quorum_commit n p V b : node_inv n p V ->
  value_quorum (p_precommits p) b -> commit_quorum V b (p_round p).
Proof.
  intros HI Hq. unfold value_quorum, commit_quorum in *. etrans; [exact Hq|]. apply stake_where_mono; [done|].
  intros k. rewrite orb_true_iff, !bool_decide_eq_true. intros Hk.
  destruct (byz k) eqn:Hb; [auto|]. right. by apply (ni_precommits n p V HI).
Qed.

(** Votes of other nodes do not disturb a node. *)
Lemma node_inv_other n p V x : node_inv n p V -> vk_voter x.1 <> n -> node_inv n p (x :: V).
Proof.
  intros [Hv Hpv Hpc Hl Hsl Ho] Hx. split.
  - by apply votes_inv_other.
  - intros k v Hb Hk. right. auto.
  - intros k v Hb Hk. right. auto.
  - intros w lr [? ?]%Hl. auto.
  - intros r b [<-|Hin]%elem_of_cons; [done|]. destruct (Hsl _ _ Hin). auto.
  - intros V1 V2 r' b' r b Heq [<-|Hin]%elem_of_cons Hr; [done|].
    destruct V1 as [|y V1]; simplify_list_eq. by eapply Ho.
Qed.

Lemma node_inv_others n p V U : node_inv n p V -> Forall (fun x => vk_voter x.1 <> n) U -> node_inv n p (U ++ V).
Proof. intros HI. induction 1; simpl; auto using node_inv_other. Qed.

Lemma node_inv_step n V0 p V p' V' : byz n = false -> node_inv n p V -> (forall x, x ∈ V0 -> x ∈ V) ->
  pstep n (authentic V0) (polka V0) (p, V) (p', V') -> node_inv n p' V'.
Proof.
  intros Hn HI HV0 Hs. pose proof (votes_inv_step _ _ _ _ _ _ _ (ni_votes _ _ _ HI) Hs) as Hv'.
  assert (Hauth : forall key v, authentic V0 (key, v) -> byz (vk_voter key) = false -> (key, v) ∈ V).
  { intros key v [?|?] ?; simpl in *; [congruence|auto]. }
  pose proof HI as [[Hvp Hvc _ _] Hpv Hpc Hl Hsl Ho]. inversion Hs; subst; clear Hs; split; simpl; try done.
  - intros w lr [? ?]%Hl. split; [done|lia].
  - intros k0 v0 Hb [[<- <-]|[_ ?]]%lookup_insert_Some; auto.
  - intros k0 v0 Hb [[<- <-]|[_ ?]]%lookup_insert_Some; auto.
  - intros k v0 Hb [[<- <-]|[_ ?]]%lookup_insert_Some; [by left|right; auto].
  - intros k v0 Hb Hk. right. auto.
  - intros w lr [? ?]%Hl. auto.
  - intros r b [[=]|Hin]%elem_of_cons. destruct (Hsl _ _ Hin). auto.
  - (* the new prevote: justified by the lock or by the claim *)
    intros V1 V2 r' b' r b Heq [[=]|Hin]%elem_of_cons Hr.
    destruct V1 as [|y V1]; injection Heq as ? ?; subst; [|by eapply Ho].
    destruct (Hsl _ _ Hin) as (_ & w & lr & Elock & Hle). destruct (Hl _ _ Elock) as [Hpol _].
    match goal with Hm : may_prevote _ _ _ |- _ => rename Hm into Hmay end.
    unfold may_prevote in Hmay. rewrite Elock in Hmay. destruct Hmay as [->|(vr & ? & Hc)]; [by eauto|].
    exists vr. split; [lia|]. by eapply polka_mono.
  - intros w lr [= <- <-]. split; [|lia]. by eapply value_quorum_polka.
  - intros r b0 Hin. destruct (Hsl _ _ Hin) as (? & w & lr & ? & ?). split; [done|].
    exists b, (p_round p). split; [done|]. destruct (Hvc _ _ Hin) as [?|[? _]]; lia.
  - intros k v0 Hb Hk. right. auto.
  - intros k v0 Hb [[<- <-]|[_ ?]]%lookup_insert_Some; [by left|right; auto].
  - intros w lr [? ?]%Hl. auto.
  - intros r b [[= -> <-]|Hin]%elem_of_cons; [|destruct (Hsl _ _ Hin); by auto].
    match goal with Hm : _ /\ p_locked p = _ |- _ => destruct Hm as [Hq Elock] end.
    split; [|by eauto using Z.le_refl]. apply polka_cons. by eapply value_quorum_polka.
  - intros [|y V1] V2 r' b' r b Heq [[= -> <-]|Hin]%elem_of_cons Hr; simplify_list_eq; [|by eapply Ho].
    destruct (Hvp r' (Some b')) as [?|[-> _]]; [|lia..]. rewrite elem_of_app. right. by left.
Qed.

(** A node's own votes extend the list. *)
Lemma pstep_extends n ext claim x y : pstep n ext claim x y ->
  exists U, y.2 = U ++ x.2 /\ Forall (fun v => vk_voter v.1 = n) U.
Proof.
  inversion 1; subst; simpl; try (by exists []); [exists [(pvkey h (p_round p) n, v)]|exists [(pckey h (p_round p) n, v)]];
    (split; [done|by repeat constructor]).
Qed.

Lemma node_inv_steps n p V p' V' : byz n = false -> node_inv n p V ->
  rtc (pstep n (authentic V) (polka V)) (p, V) (p', V') ->
  node_inv n p' V' /\ exists U, V' = U ++ V /\ Forall (fun v => vk_voter v.1 = n) U.
Proof.
  intros Hn HI Hrtc. 
  refine (rtc_ind_r (fun s => node_inv n s.1 s.2 /\ exists U, s.2 = U ++ V /\ Forall (fun v => vk_voter v.1 = n) U)
            _ _ _ _ Hrtc); [split; [done|by exists []]|].
  intros [p1 V1] [p2 V2] _ Hs (HI1 & U & HV1 & HU). simpl in *. split.
  - eapply node_inv_step; [done|exact HI1| |exact Hs]. intros x Hx. rewrite HV1, elem_of_app. auto.
  - destruct (pstep_extends _ _ _ _ _ Hs) as (U' & HV2 & HU'). exists (U' ++ U). simpl in HV2.
    rewrite <- app_assoc, <- HV1, Forall_app. auto.
Qed.

(** ** Agreement *)

Section agreement.
Context (V : list vote).
Context (Hq : 2 * total_stake vs < 3 * q) (Hbyz : 3 * stake_where vs byz <= total_stake vs).
Context (Hnodes : forall x, x ∈ V -> exists p, node_inv (vk_voter x.1) p V).

Lemma honest_in_both (P Q : Pubkey -> vote) :
  q <= stake_where vs (fun k => byz k || bool_decide (P k ∈ V)) ->
  q <= stake_where vs (fun k => byz k || bool_decide (Q k ∈ V)) ->
  exists k, P k ∈ V /\ Q k ∈ V.
Proof.
  intros HP HQ. destruct (quorum_intersection vs _ _ byz q W Hq HP HQ Hbyz) as (v & _ & H1 & H2 & Hb).
  exists (pubkey v). rewrite Hb in H1, H2. by apply bool_decide_eq_true in H1, H2.
Qed.

Lemma polka_unique b b' r : polka V b r -> polka V b' r -> b = b'.
Proof.
  intros H1 H2. destruct (honest_in_both _ _ H1 H2) as (k & Hk1 & Hk2).
  destruct (Hnodes _ Hk1) as [p HI]. simpl in HI.
  pose proof (vi_uniq _ _ _ (ni_votes _ _ _ HI) (pvkey h r k) _ _ eq_refl Hk1 Hk2). congruence.
Qed.

Lemma commit_quorum_polka b r : commit_quorum V b r -> polka V b r.
Proof.
  intros Hc. destruct (honest_in_both _ _ Hc Hc) as (k & Hk & _).
  destruct (Hnodes _ Hk) as [p HI]. by destruct (ni_sent_lock _ _ _ HI _ _ Hk).
Qed.

(** Once a value has a quorum of precommits in round [r], no other value gets
    a polka in a round from [r] on. *)
Lemma committed_blocks_polkas b r : commit_quorum V b r ->
  forall N U V' b' r', (length V' < N)%nat -> V = U ++ V' -> r <= r' -> polka V' b' r' -> b' = b.
Proof.
  intros Hc. pose proof (commit_quorum_polka _ _ Hc) as Hpb.
  induction N as [|N IH]; [lia|]. intros U V' b' r' HN HV Hr Hp.
  assert (Hp' : polka V b' r') by (eapply polka_mono; [|exact Hp]; intros x Hx; rewrite HV, elem_of_app; auto).
  destruct (decide (r' = r)) as [->|Hne]; [by eapply polka_unique|].
  destruct (quorum_intersection vs _ _ byz q W Hq Hc Hp Hbyz) as (v & _ & H1 & H2 & Hb).
  rewrite Hb in H1, H2. apply bool_decide_eq_true in H1, H2. set (k := pubkey v) in *.
  destruct (Hnodes _ H1) as [p HI]. simpl in HI. apply list_elem_of_split in H2 as (V1 & V2 & HV').
  destruct (ni_order _ _ _ HI (U ++ V1) V2 r' b' r b) as (vr & Hvr & Hpol); [|done|lia|].
  { by rewrite HV, HV', app_assoc. }
  apply (IH (U ++ V1 ++ [(pvkey h r' k, Some b')]) V2 b' vr); [|by rewrite HV, HV', <- !app_assoc|done..].
  rewrite HV', length_app in HN. simpl in HN. unfold vote in *. lia.
Qed.

Lemma agreement_core b b' r r' : commit_quorum V b r -> commit_quorum V b' r' -> b = b'.
Proof.
  intros H1 H2. destruct (Z.le_ge_cases r r').
  - symmetry. apply (committed_blocks_polkas b r H1 (S (length V)) [] V b' r'); [apply Nat.lt_succ_diag_r|done|done|].
    by apply commit_quorum_polka.
  - apply (committed_blocks_polkas b' r' H2 (S (length V)) [] V b r); [apply Nat.lt_succ_diag_r|done|lia|].
    by apply commit_quorum_polka.
Qed.
End agreement.
End protocol.
