(* ===== verification/Engine.v ===== *)
(** * The consensus engine

    Models consensus-bft/src/engine.rs: every public handler of
    [ConsensusEngine] and the internal steps it is composed of, as functions
    from an engine to an engine and an [EngineOutput].  The lemmas relate the
    vote counting (wrapping sums over maps iterated in an unspecified order)
    to the stake of the set of voters, and describe what each handler sends,
    locks and commits. *)

From stdpp Require Import base numbers list option gmap.
From Stdlib Require Import ZArith Lia.
From S2P Require Import Prelude F64 ValidatorSet BftTypes Evidence.
Local Open Scope Z_scope.

Record EngineOutput (Tx : Type) := {
  messages : list (ConsensusMessage Tx);
  committed_block : option (CommittedBlock Tx)
}.
Arguments Build_EngineOutput {Tx}. Arguments messages {Tx}. Arguments committed_block {Tx}.

Definition output_empty {Tx} : EngineOutput Tx := {| messages := []; committed_block := None |}.
Definition with_messages {Tx} (ms : list (ConsensusMessage Tx)) : EngineOutput Tx :=
  {| messages := ms; committed_block := None |}.
Definition with_commit {Tx} (b : CommittedBlock Tx) : EngineOutput Tx :=
  {| messages := []; committed_block := Some b |}.

Record ConsensusEngine (Tx : Type) := {
  config : BftConfig;
  identity : Pubkey;
  validator_set : ValidatorSet;
  state : ConsensusState Tx;
  evidence : EvidenceCollector;
  sent_prevote : bool;
  sent_precommit : bool
}.
Arguments Build_ConsensusEngine {Tx}.
Arguments config {Tx}. Arguments identity {Tx}. Arguments validator_set {Tx}. Arguments state {Tx}.
Arguments evidence {Tx}. Arguments sent_prevote {Tx}. Arguments sent_precommit {Tx}.

(** field assignments *)
Definition set_state {Tx} (e : ConsensusEngine Tx) (s : ConsensusState Tx) : ConsensusEngine Tx :=
  let 'Build_ConsensusEngine c i v _ ev sp sc := e in Build_ConsensusEngine c i v s ev sp sc.
Definition set_evidence {Tx} (e : ConsensusEngine Tx) (x : EvidenceCollector) : ConsensusEngine Tx :=
  let 'Build_ConsensusEngine c i v s _ sp sc := e in Build_ConsensusEngine c i v s x sp sc.
Definition set_sent {Tx} (e : ConsensusEngine Tx) (pv pc : bool) : ConsensusEngine Tx :=
  let 'Build_ConsensusEngine c i v s ev _ _ := e in Build_ConsensusEngine c i v s ev pv pc.

Definition ConsensusEngine_new {Tx} (c : BftConfig) (i : Pubkey) (vs : ValidatorSet) : ConsensusEngine Tx :=
  {| config := c; identity := i; validator_set := vs; state := ConsensusState_new 0;
     evidence := EvidenceCollector_new; sent_prevote := false; sent_precommit := false |}.

Section engine.
Context {Tx : Type} `{Sha256} `{HashMapIter}.
Implicit Types (e : ConsensusEngine Tx) (m : ConsensusMessage Tx) (o : EngineOutput Tx).

Definition quorum e : Z := quorum_stake (validator_set e) (finality_threshold (config e)).

(** ** Vote counting *)

(** the stake of the votes for a value, as [has_quorum_prevotes] and
    [has_quorum_precommits] sum it *)
Definition votes_stake e (votes : gmap Pubkey (option Hash)) (value : option Hash) : Z :=
  sum_u64 (map (fun kv => stake_of (validator_set e) kv.1)
               (filter (fun kv => kv.2 = value) (hm_iter votes))).

Definition has_quorum_prevotes e (value : option Hash) : bool :=
  quorum e <=? votes_stake e (prevotes (state e)) value.

Definition has_quorum_precommits e (value : option Hash) : bool :=
  quorum e <=? votes_stake e (precommits (state e)) value.

(** [stake_by_hash.entry(hash).or_default() += stake] for every vote *)
Definition tally e (votes : gmap Pubkey (option Hash)) : gmap (option Hash) Z :=
  foldl (fun acc kv => <[kv.2 := wrapping_add u64_max (default 0 (acc !! kv.2))
                                              (stake_of (validator_set e) kv.1)]> acc)
        ∅ (hm_iter votes).

(** the second loop of [find_quorum_*_hash] *)
Fixpoint find_quorum (q : Z) (l : list (option Hash * Z)) : option Hash :=
  match l with
  | [] => None
  | (Some h, s) :: l' => if q <=? s then Some h else find_quorum q l'
  | (None, _) :: l' => find_quorum q l'
  end.

Definition find_quorum_prevote_hash e : option Hash :=
  find_quorum (quorum e) (hm_iter (tally e (prevotes (state e)))).

Definition find_quorum_precommit_hash e : option Hash :=
  find_quorum (quorum e) (hm_iter (tally e (precommits (state e)))).

Definition has_any_quorum_prevotes e : bool :=
  quorum e <=? sum_u64 (map (fun kv => stake_of (validator_set e) kv.1) (hm_iter (prevotes (state e)))).

Definition has_quorum_nil_precommits e : bool := has_quorum_precommits e None.

(** ** Messages *)

Definition make_prevote e (bh : option Hash) : ConsensusMessage Tx :=
  MPrevote (height (state e)) (round (state e)) bh (identity e) signature_default.
Definition make_precommit e (bh : option Hash) : ConsensusMessage Tx :=
  MPrecommit (height (state e)) (round (state e)) bh (identity e) signature_default.

(** ** Internal steps *)

Definition start_round e (r : Z) : ConsensusEngine Tx * EngineOutput Tx :=
  (set_sent (set_state e (set_step (advance_round (state e) r) Propose)) false false, output_empty).

Definition determine_prevote e (bh : Hash) (vr : option Z) : option Hash :=
  match locked_value (state e) with
  | Some locked_hash =>
      if decide (locked_hash = bh) then Some bh
      else match vr, locked_round (state e) with
        | Some vr, Some lr => if lr <=? vr then Some bh else None
        | _, _ => None
        end
  | None => Some bh
  end.

(** [if !self.sent_precommit { ... output.messages.push(precommit) }] *)
Definition send_precommit e o (bh : option Hash) : ConsensusEngine Tx * EngineOutput Tx :=
  if sent_precommit e then (e, o)
  else
    let e := set_sent e (sent_prevote e) true in
    let precommit := make_precommit e bh in
    (set_state e (insert_precommit (state e) (identity e) bh),
     {| messages := messages o ++ [precommit]; committed_block := committed_block o |}).

Definition try_advance_from_prevotes e o : ConsensusEngine Tx * EngineOutput Tx :=
  match find_quorum_prevote_hash e with
  | Some hash =>
      let e := set_state e (set_step (set_lock (state e) hash) Precommit) in
      send_precommit e o (Some hash)
  | None =>
      if has_any_quorum_prevotes e then
        if step_ltb (step (state e)) Precommit then
          send_precommit (set_state e (set_step (state e) Precommit)) o None
        else (e, o)
      else (e, o)
  end.

Definition try_commit e : ConsensusEngine Tx * EngineOutput Tx :=
  match find_quorum_precommit_hash e with
  | Some hash =>
      match proposal (state e) with
      | Some p =>
          if decide (block_hash_of p = hash) then
            let e' := set_state e (set_step (state e) Commit) in
            let commit_sigs := map (fun kv => (kv.1, signature_default))
                                 (filter (fun kv => kv.2 = Some hash) (hm_iter (precommits (state e)))) in
            (e', with_commit {| committed := p; commit_signatures := commit_sigs;
                                commit_round := round (state e) |})
          else (e, output_empty)
      | None => (e, output_empty)
      end
  | None => (e, output_empty)
  end.

(** ** Handlers *)

Definition start_new_height e (h : Z) : ConsensusEngine Tx * EngineOutput Tx :=
  let e := set_sent (set_state e (ConsensusState_new h)) false false in
  let e := set_evidence e (prune (evidence e) (saturating_sub h 100)) in
  start_round e 0.

Definition on_proposal e m : ConsensusEngine Tx * EngineOutput Tx :=
  match m with
  | MProposal h r block proposer _ vr =>
      if negb (h =? height (state e)) then (e, output_empty)
      else if r <? round (state e) then (e, output_empty)
      else if decide (proposer_for_round (validator_set e) h r <> Some proposer) then (e, output_empty)
      else if negb (vs_contains (validator_set e) proposer) then (e, output_empty)
      else
        let e := if round (state e) <? r
                 then set_sent (set_state e (advance_round (state e) r)) false false else e in
        let e := set_state e (set_step (set_proposal (state e) (Some block)) Propose) in
        let our_prevote := determine_prevote e (block_hash_of block) vr in
        let e := set_state e (set_step (state e) Prevote) in
        if sent_prevote e then (e, output_empty)
        else
          let e := set_sent e true (sent_precommit e) in
          let prevote := make_prevote e our_prevote in
          let e := set_state e (insert_prevote (state e) (identity e) our_prevote) in
          try_advance_from_prevotes e (with_messages [prevote])
  | _ => (e, output_empty)
  end.

Definition on_prevote e m : ConsensusEngine Tx * EngineOutput Tx :=
  match m with
  | MPrevote h r bh voter _ =>
      if negb (h =? height (state e)) then (e, output_empty)
      else
        let e := set_evidence e (check_and_record (evidence e) m).2 in
        if r <? round (state e) then (e, output_empty)
        else if negb (vs_contains (validator_set e) voter) then (e, output_empty)
        else if round (state e) <? r then (e, output_empty)
        else try_advance_from_prevotes (set_state e (insert_prevote (state e) voter bh)) output_empty
  | _ => (e, output_empty)
  end.

Definition on_precommit e m : ConsensusEngine Tx * EngineOutput Tx :=
  match m with
  | MPrecommit h r bh voter _ =>
      if negb (h =? height (state e)) then (e, output_empty)
      else
        let e := set_evidence e (check_and_record (evidence e) m).2 in
        if r <? round (state e) then (e, output_empty)
        else if negb (vs_contains (validator_set e) voter) then (e, output_empty)
        else if round (state e) <? r then (e, output_empty)
        else try_commit (set_state e (insert_precommit (state e) voter bh))
  | _ => (e, output_empty)
  end.

Definition on_timeout_propose e : ConsensusEngine Tx * EngineOutput Tx :=
  if step_leb (step (state e)) Propose then
    let e := set_state e (set_step (state e) Prevote) in
    if sent_prevote e then (e, output_empty)
    else
      let e := set_sent e true (sent_precommit e) in
      let prevote := make_prevote e None in
      (set_state e (insert_prevote (state e) (identity e) None), with_messages [prevote])
  else (e, output_empty).

Definition on_timeout e (s : ConsensusStep) : ConsensusEngine Tx * EngineOutput Tx :=
  match s with
  | Propose | NewRound => on_timeout_propose e
  | Prevote =>
      if step_leb (step (state e)) Prevote then
        let e := set_state e (set_step (state e) Precommit) in
        if sent_precommit e then (e, output_empty)
        else
          let e := set_sent e (sent_prevote e) true in
          let precommit := make_precommit e None in
          (set_state e (insert_precommit (state e) (identity e) None), with_messages [precommit])
      else (e, output_empty)
  | Precommit => start_round e (wrapping_add u32_max (round (state e)) 1)
  | Commit => (e, output_empty)
  end.

Definition engine_is_proposer e (h r : Z) : bool := is_proposer (validator_set e) (identity e) h r.

Definition update_validator_set e (vs : ValidatorSet) : ConsensusEngine Tx :=
  let 'Build_ConsensusEngine c i _ s ev sp sc := e in Build_ConsensusEngine c i vs s ev sp sc.

(** An input of the engine: a message handed to the handler of its kind, or a
    timeout. *)
Inductive Event :=
  | EvMessage (m : ConsensusMessage Tx)
  | EvTimeout (s : ConsensusStep).

Definition handle e (ev : Event) : ConsensusEngine Tx * EngineOutput Tx :=
  match ev with
  | EvMessage (MProposal _ _ _ _ _ _ as m) => on_proposal e m
  | EvMessage (MPrevote _ _ _ _ _ as m) => on_prevote e m
  | EvMessage (MPrecommit _ _ _ _ _ as m) => on_precommit e m
  | EvTimeout s => on_timeout e s
  end.

Fixpoint run e (evs : list Event) : ConsensusEngine Tx * list (EngineOutput Tx) :=
  match evs with
  | [] => (e, [])
  | ev :: evs' =>
      let '(e1, o) := handle e ev in
      let '(e2, os) := run e1 evs' in (e2, o :: os)
  end.
End engine.
Arguments Event : clear implicits.

(** ** Counting votes *)

(** the stake of the voters for a value in a map of votes *)
Definition value_stake (vs : ValidatorSet) (votes : gmap Pubkey (option Hash)) (value : option Hash) : Z :=
  stake_where vs (fun k => bool_decide (votes !! k = Some value)).

Section counting.
Context {Tx : Type} `{!Sha256} `{!HashMapIter}.
Implicit Types (e : ConsensusEngine Tx) (votes : gmap Pubkey (option Hash)).

Lemma hm_iter_keys votes : NoDup (hm_iter votes).*1.
Proof. rewrite hm_iter_perm. apply NoDup_fst_map_to_list. Qed.

Lemma hm_iter_elem {K V} `{Countable K} (m : gmap K V) k v : (k, v) ∈ hm_iter m <-> m !! k = Some v.
Proof. rewrite hm_iter_perm. apply elem_of_map_to_list. Qed.

Lemma zsum_votes vs votes (P : Pubkey * option Hash -> Prop) `{!forall x, Decision (P x)} : wf vs ->
  zsum (map (fun kv => stake_of vs kv.1) (filter P (hm_iter votes)))
  = stake_where vs (fun k => match votes !! k with Some v => bool_decide (P (k, v)) | None => false end).
Proof.
  intros W. rewrite <- (map_map fst (stake_of vs)). rewrite zsum_stake_of; [|done|].
  - apply stake_where_ext; [done|]. intros k. rewrite bool_decide_eq_true, list_elem_of_fmap. split.
    + intros ([k' v] & -> & [HP Hkv]%list_elem_of_filter). apply hm_iter_elem in Hkv. simpl.
      rewrite Hkv. by apply bool_decide_true.
    + destruct (votes !! k) as [v|] eqn:Hv; [|done]. intros HP%bool_decide_eq_true.
      exists (k, v). rewrite list_elem_of_filter, hm_iter_elem. auto.
  - eapply sublist_NoDup; [apply hm_iter_keys|]. by apply fmap_sublist, sublist_filter.
Qed.

Lemma zsum_value vs votes value : wf vs ->
  zsum (map (fun kv => stake_of vs kv.1) (filter (fun kv => kv.2 = value) (hm_iter votes)))
  = value_stake vs votes value.
Proof.
  intros W. rewrite zsum_votes by done. apply stake_where_ext; [done|]. intros k. simpl.
  destruct (votes !! k); rewrite ?bool_decide_eq_true; [|done]. split; congruence.
Qed.

Lemma value_stake_bounds vs votes value : wf vs -> 0 <= value_stake vs votes value <= u64_max.
Proof.
  intros W. unfold value_stake. pose proof (wf_fits vs W).
  pose proof (stake_where_total vs (fun k => bool_decide (votes !! k = Some value)) W).
  pose proof (stake_where_nonneg vs (fun k => bool_decide (votes !! k = Some value)) W). lia.
Qed.

Lemma votes_stake_spec e votes value : wf (validator_set e) ->
  votes_stake e votes value = value_stake (validator_set e) votes value.
Proof.
  intros W. unfold votes_stake. pose proof (value_stake_bounds (validator_set e) votes value W).
  rewrite sum_u64_exact; rewrite ?zsum_value by done; [done| |lia].
  apply Forall_map, Forall_true. intros ?. by apply stake_of_nonneg.
Qed.

(** the fold of [tally], for any list of votes *)
Lemma tally_fold vs (l : list (Pubkey * option Hash)) acc value : 0 <= default 0 (acc !! value) <= u64_max ->
  default 0 (foldl (fun (acc : gmap (option Hash) Z) kv =>
      <[kv.2 := wrapping_add u64_max (default 0 (acc !! kv.2)) (stake_of vs kv.1)]> acc) acc l !! value)
  = (default 0 (acc !! value) + zsum (map (fun kv => stake_of vs kv.1) (filter (fun kv => kv.2 = value) l)))
    mod (u64_max + 1).
Proof.
  revert acc. induction l as [|[k v] l IH]; intros acc Hacc.
  - simpl. rewrite Z.add_0_r, Z.mod_small by lia. done.
  - simpl foldl. rewrite filter_cons. simpl. destruct (decide (v = value)) as [->|Hne].
    + rewrite IH by (rewrite lookup_insert_eq; simpl; unfold wrapping_add;
        pose proof (Z.mod_pos_bound (default 0 (acc !! value) + stake_of vs k) (u64_max + 1)); lia).
      rewrite lookup_insert_eq. simpl. unfold wrapping_add. rewrite Z.add_mod_idemp_l by lia. f_equal. lia.
    + rewrite IH by (by rewrite lookup_insert_ne). by rewrite lookup_insert_ne.
Qed.

Lemma tally_spec e votes value : wf (validator_set e) ->
  default 0 (tally e votes !! value) = value_stake (validator_set e) votes value.
Proof.
  intros W. unfold tally. pose proof (value_stake_bounds (validator_set e) votes value W).
  rewrite tally_fold by (rewrite lookup_empty; simpl; lia).
  rewrite lookup_empty, zsum_value by done. simpl. apply Z.mod_small. lia.
Qed.

Lemma find_quorum_Some q l h : find_quorum q l = Some h -> exists s, (Some h, s) ∈ l /\ q <= s.
Proof.
  induction l as [|[[h'|] s] l IH]; simpl; [done| |].
  - destruct (Z.leb_spec q s).
    + intros [= <-]. exists s. split; [by left|done].
    + intros (s' & ? & ?)%IH. exists s'. split; [by right|done].
  - intros (s' & ? & ?)%IH. exists s'. split; [by right|done].
Qed.

Lemma find_quorum_None q l h s : find_quorum q l = None -> (Some h, s) ∈ l -> s < q.
Proof.
  induction l as [|[[h'|] s'] l IH]; simpl; [by intros _ ?%not_elem_of_nil| |].
  - destruct (Z.leb_spec q s'); [done|]. intros Hn [[= -> ->]|?]%elem_of_cons; [lia|auto].
  - intros Hn [?|?]%elem_of_cons; [done|auto].
Qed.

(** two values cannot both gather more than half of the stake *)
Lemma value_stake_disjoint vs votes v1 v2 : wf vs -> v1 <> v2 ->
  value_stake vs votes v1 + value_stake vs votes v2 <= total_stake vs.
Proof.
  intros W Hne. unfold value_stake. rewrite (stake_where_union vs _ _ W).
  rewrite (stake_where_empty vs (fun k => _ && _)).
  - pose proof (stake_where_total vs (fun k => bool_decide (votes !! k = Some v1) || bool_decide (votes !! k = Some v2)) W). lia.
  - intros k. apply andb_false_iff. rewrite !bool_decide_eq_false.
    destruct (decide (votes !! k = Some v1)) as [->|]; [right; congruence|auto].
Qed.

(** The engine's parameters are sound: a well-formed set with stake and a
    threshold such as the default. *)
Definition engine_ok e : Prop :=
  wf (validator_set e) /\ 0 < total_stake (validator_set e)
  /\ threshold_ok (finality_threshold (config e)) = true.

Lemma quorum_ok e : engine_ok e ->
  2 * total_stake (validator_set e) < 3 * quorum e /\ 1 <= quorum e <= total_stake (validator_set e).
Proof. intros (W & HT & Ht). pose proof (wf_fits _ W). by apply quorum_stake_spec. Qed.

(** A value the search returns has a quorum, for every threshold. *)
Lemma find_quorum_holds e votes h : wf (validator_set e) ->
  find_quorum (quorum e) (hm_iter (tally e votes)) = Some h -> quorum e <= value_stake (validator_set e) votes (Some h).
Proof.
  intros W (s & Hs%hm_iter_elem & Hle)%find_quorum_Some. by rewrite <- tally_spec, Hs.
Qed.

(** The search returns a value exactly when that value has a quorum, in
    whatever order the maps are iterated. *)
Lemma find_quorum_spec e votes h : engine_ok e ->
  find_quorum (quorum e) (hm_iter (tally e votes)) = Some h
  <-> quorum e <= value_stake (validator_set e) votes (Some h).
Proof.
  intros Hok. pose proof (quorum_ok e Hok) as [Hq1 Hq2]. destruct Hok as (W & HT & _).
  assert (Hin : forall h s, (Some h, s) ∈ hm_iter (tally e votes) -> s = value_stake (validator_set e) votes (Some h)).
  { intros h' s Hs%hm_iter_elem. rewrite <- tally_spec, Hs by done. done. }
  split.
  - by apply find_quorum_holds.
  - intros Hle. destruct (find_quorum _ _) as [h'|] eqn:E.
    + apply find_quorum_Some in E as (s & Hs & Hle'). apply Hin in Hs. subst s.
      destruct (decide (h' = h)) as [->|Hne]; [done|].
      pose proof (value_stake_disjoint (validator_set e) votes (Some h') (Some h) W ltac:(congruence)). lia.
    + pose proof (tally_spec e votes (Some h) W) as Ht.
      destruct (tally e votes !! Some h) as [s|] eqn:Es; simpl in Ht; [|lia].
      apply (find_quorum_None _ _ h s) in E; [lia|]. by apply hm_iter_elem.
Qed.

Lemma any_quorum_spec e : wf (validator_set e) ->
  has_any_quorum_prevotes e
  = (quorum e <=? stake_where (validator_set e) (fun k => bool_decide (is_Some (prevotes (state e) !! k)))).
Proof.
  intros W. unfold has_any_quorum_prevotes. f_equal.
  assert (Hz : zsum (map (fun kv => stake_of (validator_set e) kv.1) (hm_iter (prevotes (state e))))
    = stake_where (validator_set e) (fun k => bool_decide (is_Some (prevotes (state e) !! k)))).
  { rewrite <- (filter_all (fun _ => True) (hm_iter (prevotes (state e)))) at 1 by (by apply Forall_true).
    rewrite zsum_votes by done. apply stake_where_ext; [done|]. intros k.
    destruct (_ !! k); rewrite !bool_decide_eq_true; [by split|]. by split; [|intros [? ?]]. }
  rewrite sum_u64_exact; rewrite ?Hz; [done| |].
  - apply Forall_map, Forall_true. intros ?. by apply stake_of_nonneg.
  - etrans; [by apply stake_where_total|by apply wf_fits].
Qed.
End counting.
