(* ===== verification/EngineSafety.v ===== *)
(** * Correctness of the consensus engine

    The engine of Engine.v refines the protocol of Tendermint.v: each handler
    call is a sequence of its rules.  From the refinement: an engine never
    casts two votes for the same round, a commit is backed by a quorum of
    precommits, the outcome does not depend on hash-map order, and a network of
    engines of which at most one third of the stake is Byzantine never commits
    two different blocks at one height, provided the polka a proposal claims
    through [valid_round] has happened.  The engine does not check that claim;
    the last section shows a run in which a false claim makes two honest
    engines commit different blocks. *)

From stdpp Require Import base numbers list option gmap relations.
From Stdlib Require Import ZArith Lia.
From coqutil Require Import Word.LittleEndianList.
From S2P Require Import Prelude F64 ValidatorSet BftTypes Evidence Engine Tendermint.
Local Open Scope Z_scope.

(** ** From engine states to protocol states *)

Definition view {Tx} (e : ConsensusEngine Tx) : pstate :=
  {| p_round := round (state e);
     p_locked := match locked_value (state e), locked_round (state e) with
                 | Some w, Some lr => Some (w, lr)
                 | _, _ => None
                 end;
     p_prevotes := prevotes (state e);
     p_precommits := precommits (state e);
     p_sent_prevote := sent_prevote e;
     p_sent_precommit := sent_precommit e |}.

(** the vote a message carries *)
Definition msg_vote {Tx} (m : ConsensusMessage Tx) : option vote :=
  match vote_of m with
  | Some (key, sv) => Some (key, sv_block_hash sv)
  | None => None
  end.

(** the votes of messages listed oldest first, newest first *)
Definition new_votes {Tx} (ms : list (ConsensusMessage Tx)) : list vote := rev (omap msg_vote ms).

(** the lock variables are set together *)
Definition lock_sync {Tx} (e : ConsensusEngine Tx) : Prop :=
  is_Some (locked_value (state e)) <-> is_Some (locked_round (state e)).

(** what no handler changes *)
Record same_frame {Tx} (e e' : ConsensusEngine Tx) : Prop := {
  sf_config : config e' = config e;
  sf_identity : identity e' = identity e;
  sf_validators : validator_set e' = validator_set e;
  sf_height : height (state e') = height (state e);
  sf_sync : lock_sync e'
}.

(** ** Refinement *)

Section refinement.
Context {Tx : Type} `{!Sha256} `{!HashMapIter}.
Context (ext : vote -> Prop) (claim : Hash -> Z -> Prop).
Implicit Types (e : ConsensusEngine Tx) (o : EngineOutput Tx).

Abbreviation steps e := (rtc (pstep (validator_set e) (quorum e) (height (state e)) (identity e) ext claim)).

(** What an event may bring: votes in [ext], claims of [claim]; rounds are
    [u32] and the last one does not time out. *)
Definition event_ok e (ev : Event Tx) : Prop :=
  match ev with
  | EvMessage (MProposal h r b _ _ vr) =>
      h = height (state e) -> forall vr', vr = Some vr' -> claim (block_hash_of b) vr'
  | EvMessage m => forall x, msg_vote m = Some x -> vk_height x.1 = height (state e) -> ext x
  | EvTimeout Precommit => 0 <= round (state e) < u32_max
  | EvTimeout _ => True
  end.

Lemma new_votes_app (ms ms' : list (ConsensusMessage Tx)) : new_votes (ms ++ ms') = new_votes ms' ++ new_votes ms.
Proof. unfold new_votes. by rewrite omap_app, rev_app_distr. Qed.

Lemma send_precommit_refines e o v V : lock_sync e ->
  match v with
  | Some b => value_quorum (validator_set e) (quorum e) (prevotes (state e)) b
              /\ locked_value (state e) = Some b /\ locked_round (state e) = Some (round (state e))
  | None => True
  end ->
  let '(e', o') := send_precommit e o v in
  same_frame e e' /\ committed_block o' = committed_block o /\ exists ms, messages o' = messages o ++ ms
  /\ steps e (view e, V) (view e', new_votes ms ++ V).
Proof.
  intros Hs Hv. unfold send_precommit. destruct (sent_precommit e) eqn:Esp.
  - split; [done|]. split; [done|]. exists []. by rewrite app_nil_r.
  - destruct e as [c i vs [h r st lv lr vv vr pv pc pr] ev sp sc]. simpl in *. subst sc.
    split; [done|]. split; [done|]. eexists. split; [done|]. apply rtc_once.
    apply (ps_precommit vs _ _ i ext claim (view (Build_ConsensusEngine c i vs (Build_ConsensusState h r st lv lr vv vr pv pc pr) ev sp false)) V v);
      [done|]. destruct v; [|done]. destruct Hv as (? & -> & ->). done.
Qed.

(** the conclusion shared by the internal steps: [o] grows by some messages,
    whose votes are protocol steps *)
Definition refines e o (res : ConsensusEngine Tx * EngineOutput Tx) V : Prop :=
  same_frame e res.1 /\ committed_block res.2 = committed_block o /\ exists ms, messages res.2 = messages o ++ ms
  /\ steps e (view e, V) (view res.1, new_votes ms ++ V).

Lemma refines_refl e o V : lock_sync e -> refines e o (e, o) V.
Proof. intros Hs. split; [done|]. split; [done|]. exists []. by rewrite app_nil_r. Qed.

(** an assignment that the protocol does not see, or a protocol step without
    a message, before a refining step *)
Lemma refines_pre e e1 o res V : same_frame e e1 -> steps e (view e, V) (view e1, V) ->
  refines e1 o res V -> refines e o res V.
Proof.
  intros [Hc Hi Hv Hh _] Hs ([Hc' Hi' Hv' Hh' Hsync] & Ho & ms & Hms & Hst).
  split; [split; congruence || done|]. split; [done|]. exists ms. split; [done|].
  etrans; [exact Hs|]. unfold quorum in *. by rewrite Hc, Hi, Hv, Hh in Hst.
Qed.

Lemma send_refines e o v V : lock_sync e ->
  match v with
  | Some b => value_quorum (validator_set e) (quorum e) (prevotes (state e)) b
              /\ locked_value (state e) = Some b /\ locked_round (state e) = Some (round (state e))
  | None => True
  end -> refines e o (send_precommit e o v) V.
Proof.
  intros Hs Hv. pose proof (send_precommit_refines e o v V Hs Hv) as Hr. unfold refines.
  by destruct (send_precommit e o v).
Qed.

Lemma step_view e st : view (set_state e (set_step (state e) st)) = view e.
Proof. by destruct e as [? ? ? [] ? ? ?]. Qed.

Lemma step_frame e st : lock_sync e -> same_frame e (set_state e (set_step (state e) st)).
Proof. destruct e as [? ? ? [] ? ? ?]. by split. Qed.

Lemma try_advance_refines e o V : engine_ok e -> lock_sync e ->
  refines e o (try_advance_from_prevotes e o) V.
Proof.
  intros Hok Hs. unfold try_advance_from_prevotes, find_quorum_prevote_hash.
  destruct (find_quorum _ _) as [b|] eqn:E.
  - apply find_quorum_spec in E; [|done].
    set (e1 := set_state e _). assert (Hf : same_frame e e1) by (destruct e as [? ? ? [] ? ? ?]; split; done).
    apply (refines_pre e e1); [done| |].
    + apply rtc_once. destruct e as [c i vs [h r st lv lr vv vr pv pc pr] ev sp sc].
      apply (ps_lock vs _ _ i ext claim (view (Build_ConsensusEngine c i vs (Build_ConsensusState h r st lv lr vv vr pv pc pr) ev sp sc)) V b).
      exact E.
    + apply send_refines; [apply Hf|]. unfold e1. clear Hf. destruct e as [? ? ? [] ? ? ?]. split; [exact E|done].
  - case_if; [|by apply refines_refl]. case_if; [|by apply refines_refl].
    eapply refines_pre; [by apply step_frame|by rewrite step_view|]. apply send_refines; [|done].
    by apply step_frame.
Qed.

(** ** Handlers *)

(** the conclusion for a handler: protocol steps, and commits backed by a
    quorum of precommits *)
Definition handler_refines e (res : ConsensusEngine Tx * EngineOutput Tx) V : Prop :=
  same_frame e res.1
  /\ steps e (view e, V) (view res.1, new_votes (messages res.2) ++ V)
  /\ forall cb, committed_block res.2 = Some cb ->
       value_quorum (validator_set e) (quorum e) (precommits (state res.1)) (block_hash_of (committed cb))
       /\ commit_round cb = round (state res.1) /\ proposal (state res.1) = Some (committed cb).

Lemma handler_silent e e' V : same_frame e e' -> view e' = view e -> handler_refines e (e', output_empty) V.
Proof. intros Hf Hv. split; [done|]. split; [by simpl; rewrite Hv|done]. Qed.

Lemma handler_idle e V : lock_sync e -> handler_refines e (e, output_empty) V.
Proof. intros. by apply handler_silent. Qed.

Lemma handler_of_refines e o res V : refines e o res V -> messages o = [] -> committed_block o = None ->
  handler_refines e res V.
Proof.
  intros (Hf & Hcb & ms & Hms & Hst) Ho Hc. split; [done|]. rewrite Hms, Ho, Hcb, Hc. done.
Qed.

Lemma evidence_frame e x : lock_sync e -> same_frame e (set_evidence e x) /\ view (set_evidence e x) = view e.
Proof. destruct e as [? ? ? [] ? ? ?]. by split. Qed.

Lemma handler_pre e e1 res V : same_frame e e1 -> steps e (view e, V) (view e1, V) ->
  handler_refines e1 res V -> handler_refines e res V.
Proof.
  intros [Hc Hi Hv Hh _] Hs ([Hc' Hi' Hv' Hh' Hsync] & Hst & Hcb).
  split; [split; congruence || done|]. split.
  - etrans; [exact Hs|]. unfold quorum in *. by rewrite Hc, Hi, Hv, Hh in Hst.
  - intros cb Hcb'. unfold quorum in *. rewrite Hc, Hv in Hcb. by apply Hcb.
Qed.

Lemma try_commit_refines e V : engine_ok e -> lock_sync e -> handler_refines e (try_commit e) V.
Proof.
  intros Hok Hs. unfold try_commit, find_quorum_precommit_hash.
  destruct (find_quorum _ _) as [b|] eqn:E; [|by apply handler_idle].
  destruct (proposal (state e)) as [p|] eqn:Ep; [|by apply handler_idle].
  case_decide as Hb; [|by apply handler_idle]. apply find_quorum_spec in E; [|done].
  split; [by apply step_frame|]. split; [by simpl; rewrite step_view|].
  intros cb [= <-]. destruct e as [? ? ? [] ? ? ?]. simpl in *. by subst.
Qed.

Lemma engine_ok_frame e e' : same_frame e e' -> engine_ok e -> engine_ok e'.
Proof. intros [Hc Hi Hv Hh _]. unfold engine_ok. by rewrite Hc, Hv. Qed.

Lemma insert_prevote_pre e k v V : lock_sync e -> ext (pvkey (height (state e)) (round (state e)) k, v) ->
  let e1 := set_state e (insert_prevote (state e) k v) in
  same_frame e e1 /\ steps e (view e, V) (view e1, V).
Proof.
  intros Hs He. destruct e as [c i vs [h r st lv lr vv vr pv pc pr] ev sp sc]. split; [done|].
  apply rtc_once. by apply (ps_recv_prevote vs _ _ i ext claim
    (view (Build_ConsensusEngine c i vs (Build_ConsensusState h r st lv lr vv vr pv pc pr) ev sp sc)) V k v).
Qed.

Lemma insert_precommit_pre e k v V : lock_sync e -> ext (pckey (height (state e)) (round (state e)) k, v) ->
  let e1 := set_state e (insert_precommit (state e) k v) in
  same_frame e e1 /\ steps e (view e, V) (view e1, V).
Proof.
  intros Hs He. destruct e as [c i vs [h r st lv lr vv vr pv pc pr] ev sp sc]. split; [done|].
  apply rtc_once. by apply (ps_recv_precommit vs _ _ i ext claim
    (view (Build_ConsensusEngine c i vs (Build_ConsensusState h r st lv lr vv vr pv pc pr) ev sp sc)) V k v).
Qed.

Lemma advance_pre e r V : lock_sync e -> round (state e) < r ->
  let e1 := set_sent (set_state e (advance_round (state e) r)) false false in
  same_frame e e1 /\ steps e (view e, V) (view e1, V).
Proof.
  intros Hs He. destruct e as [c i vs [h r0 st lv lr vv vr pv pc pr] ev sp sc]. split; [done|].
  apply rtc_once. by apply (ps_advance vs _ _ i ext claim
    (view (Build_ConsensusEngine c i vs (Build_ConsensusState h r0 st lv lr vv vr pv pc pr) ev sp sc)) V r).
Qed.

Lemma on_prevote_refines e m V : engine_ok e -> lock_sync e -> event_ok e (EvMessage m) ->
  match m with MPrevote _ _ _ _ _ => True | _ => False end -> handler_refines e (on_prevote e m) V.
Proof.
  intros Hok Hs Hev Hm. destruct m as [|h r v k sig|]; try done. unfold on_prevote.
  destruct (Z.eqb_spec h (height (state e))) as [->|]; simpl; [|by apply handler_idle].
  set (ec := (check_and_record _ _).2). destruct (evidence_frame e ec Hs) as [Hf Hview].
  set (e1 := set_evidence e ec) in *.
  repeat (case_if; [by apply handler_silent|]). breflect.
  assert (Er : r = round (state e1)) by lia.
  assert (Hx : ext (pvkey (height (state e1)) (round (state e1)) k, v)).
  { rewrite (sf_height _ _ Hf), <- Er. by apply Hev. }
  destruct (insert_prevote_pre e1 k v V (sf_sync _ _ Hf) Hx) as [Hf2 Hst].
  apply (handler_pre e e1); [done|by rewrite Hview|]. eapply handler_pre; [exact Hf2|exact Hst|].
  eapply handler_of_refines; [apply try_advance_refines|done|done]; [|apply Hf2].
  eauto using engine_ok_frame.
Qed.

Lemma on_precommit_refines e m V : engine_ok e -> lock_sync e -> event_ok e (EvMessage m) ->
  match m with MPrecommit _ _ _ _ _ => True | _ => False end -> handler_refines e (on_precommit e m) V.
Proof.
  intros Hok Hs Hev Hm. destruct m as [| |h r v k sig]; try done. unfold on_precommit.
  destruct (Z.eqb_spec h (height (state e))) as [->|]; simpl; [|by apply handler_idle].
  set (ec := (check_and_record _ _).2). destruct (evidence_frame e ec Hs) as [Hf Hview].
  set (e1 := set_evidence e ec) in *.
  repeat (case_if; [by apply handler_silent|]). breflect.
  assert (Er : r = round (state e1)) by lia.
  assert (Hx : ext (pckey (height (state e1)) (round (state e1)) k, v)).
  { rewrite (sf_height _ _ Hf), <- Er. by apply Hev. }
  destruct (insert_precommit_pre e1 k v V (sf_sync _ _ Hf) Hx) as [Hf2 Hst].
  apply (handler_pre e e1); [done|by rewrite Hview|]. eapply handler_pre; [exact Hf2|exact Hst|].
  apply try_commit_refines; [|apply Hf2]. eauto using engine_ok_frame.
Qed.

Lemma on_timeout_refines e s V : lock_sync e -> event_ok e (EvTimeout s) -> handler_refines e (on_timeout e s) V.
Proof.
  intros Hs Hev.
  assert (Hpropose : handler_refines e (on_timeout_propose e) V).
  { unfold on_timeout_propose. case_if; [|by apply handler_idle]. case_if; [by apply handler_silent; [apply step_frame|apply step_view]|].
    destruct e as [c i vs [h r st lv lr vv vr pv pc pr] ev sp sc]. simpl in *. subst sp. split; [done|]. split; [|done].
    apply rtc_once. by apply (ps_prevote vs _ _ i ext claim
      (view (Build_ConsensusEngine c i vs (Build_ConsensusState h r st lv lr vv vr pv pc pr) ev false sc)) V None). }
  destruct s; simpl in *; [done|done| | |by apply handler_idle].
  - case_if; [|by apply handler_idle]. case_if; [by apply handler_silent; [apply step_frame|apply step_view]|].
    destruct e as [c i vs [h r st lv lr vv vr pv pc pr] ev sp sc]. simpl in *. subst sc. split; [done|]. split; [|done].
    apply rtc_once. by apply (ps_precommit vs _ _ i ext claim
      (view (Build_ConsensusEngine c i vs (Build_ConsensusState h r st lv lr vv vr pv pc pr) ev sp false)) V None).
  - rewrite wrapping_add_small by lia. unfold start_round.
    destruct (advance_pre e (round (state e) + 1) V Hs ltac:(lia)) as [Hf Hst].
    split; [|split; [|done]]; destruct e as [c i vs [h r st lv lr vv vr pv pc pr] ev sp sc]; done.
Qed.

(** what the engine prevotes is allowed by the protocol *)
Lemma determine_prevote_may e b vr : lock_sync e -> (forall vr', vr = Some vr' -> claim b vr') ->
  may_prevote claim (view e) (determine_prevote e b vr).
Proof.
  intros Hs Hc. unfold may_prevote, determine_prevote, lock_sync, view in *. simpl.
  destruct (locked_value (state e)) as [w|]; [|done]. case_decide as Hw.
  - case_match; [|done]. destruct (locked_round (state e)); simplify_eq. by left.
  - destruct vr as [vr|]; [|done]. destruct (locked_round (state e)) as [lr|]; [|done].
    case_if; [|done]. breflect. right. eauto.
Qed.

Lemma on_proposal_refines e m V : engine_ok e -> lock_sync e -> event_ok e (EvMessage m) ->
  match m with MProposal _ _ _ _ _ _ => True | _ => False end -> handler_refines e (on_proposal e m) V.
Proof.
  intros Hok Hs Hev Hm. destruct m as [h r b p sig vr| |]; try done. unfold on_proposal.
  destruct (Z.eqb_spec h (height (state e))) as [->|]; cbn [negb]; [|by apply handler_idle].
  destruct (Z.ltb_spec r (round (state e))); [by apply handler_idle|].
  case_decide; [by apply handler_idle|]. case_if; [by apply handler_idle|].
  set (e1 := if round (state e) <? r then _ else e).
  assert (Hpre : same_frame e e1 /\ steps e (view e, V) (view e1, V)).
  { unfold e1. destruct (Z.ltb_spec (round (state e)) r); [by apply advance_pre|done]. }
  destruct Hpre as [Hf Hst]. apply (handler_pre e e1); [done..|]. specialize (Hev eq_refl).
  assert (Hok1 : engine_ok e1) by eauto using engine_ok_frame. pose proof (sf_sync _ _ Hf) as Hs1.
  clearbody e1. clear - Hok1 Hs1 Hev. destruct e1 as [c i vs [h r' st lv lr vv vr' pv pc pr] ev sp sc].
  simpl. case_if; [by apply handler_silent|]. subst sp.
  set (v := determine_prevote _ _ vr).
  assert (Hmay : may_prevote claim (view (Build_ConsensusEngine c i vs (Build_ConsensusState h r' st lv lr vv vr' pv pc pr) ev false sc)) v).
  { by apply (determine_prevote_may (Build_ConsensusEngine c i vs (Build_ConsensusState h r' Propose lv lr vv vr' pv pc (Some b)) ev false sc)). }
  clearbody v.
  set (e2 := Build_ConsensusEngine c i vs (Build_ConsensusState h r' Prevote lv lr vv vr' (<[i := v]> pv) pc (Some b)) ev true sc).
  change (handler_refines (Build_ConsensusEngine c i vs (Build_ConsensusState h r' st lv lr vv vr' pv pc pr) ev false sc)
            (try_advance_from_prevotes e2 (with_messages [make_prevote e2 v])) V).
  destruct (try_advance_refines e2 (with_messages [make_prevote e2 v]) ((pvkey h r' i, v) :: V))
    as (Hf & Hcb & ms & Hms & Hst); [done|done|].
  split; [destruct Hf; split; done|]. split; [|by rewrite Hcb].
  simpl in Hms. rewrite Hms.
  change (make_prevote e2 v :: ms) with ([make_prevote e2 v] ++ ms). rewrite new_votes_app, <- app_assoc.
  eapply rtc_l; [|exact Hst]. by apply (ps_prevote vs _ _ i ext claim
    (view (Build_ConsensusEngine c i vs (Build_ConsensusState h r' st lv lr vv vr' pv pc pr) ev false sc)) V v).
Qed.

Lemma handle_refines_protocol e ev V : engine_ok e -> lock_sync e -> event_ok e ev ->
  handler_refines e (handle e ev) V.
Proof.
  intros Hok Hs Hev. destruct ev as [[]|].
  - by apply on_proposal_refines.
  - by apply on_prevote_refines.
  - by apply on_precommit_refines.
  - by apply on_timeout_refines.
Qed.
End refinement.

(** ** A network of engines *)

Record Network (Tx : Type) := {
  nodes : gmap Pubkey (ConsensusEngine Tx);
  sent : list (ConsensusMessage Tx);
  commits : list (Pubkey * CommittedBlock Tx)
}.
Arguments Build_Network {Tx}. Arguments nodes {Tx}. Arguments sent {Tx}. Arguments commits {Tx}.

(** the votes sent by honest nodes so far, newest first *)
Definition votes_sent {Tx} (net : Network Tx) : list vote := omap msg_vote (sent net).

Section network.
Context {Tx : Type} `{!Sha256} `{!HashMapIter}.
Context (vs : ValidatorSet) (cfg : BftConfig) (h : Z) (byz : Pubkey -> bool).
(** which polkas a delivered proposal may claim, given the votes so far *)
Context (claims : list vote -> Hash -> Z -> Prop).
Implicit Types (net : Network Tx) (e : ConsensusEngine Tx).

Abbreviation q := (quorum_stake vs (finality_threshold cfg)).

(** Node [n] handled an event with result [res]. *)
Definition deliver net (n : Pubkey) (res : ConsensusEngine Tx * EngineOutput Tx) : Network Tx :=
  {| nodes := <[n := res.1]> (nodes net);
     sent := rev (messages res.2) ++ sent net;
     commits := match committed_block res.2 with
                | Some cb => (n, cb) :: commits net
                | None => commits net
                end |}.

(** Any node may handle any event: a proposal from anyone, a vote that was
    sent or that comes from a Byzantine validator, any timeout. *)
Inductive net_step : Network Tx -> Network Tx -> Prop :=
  | net_event net n e ev : nodes net !! n = Some e ->
      event_ok (authentic byz (votes_sent net)) (claims (votes_sent net)) e ev ->
      net_step net (deliver net n (handle e ev)).

(** Every honest node has just started height [h]. *)
Definition net_init net : Prop :=
  sent net = [] /\ commits net = [] /\
  forall n e, nodes net !! n = Some e ->
    byz n = false /\ exists e0, e = (start_new_height e0 h).1
    /\ identity e0 = n /\ config e0 = cfg /\ validator_set e0 = vs.

Definition net_reachable net : Prop := exists net0, net_init net0 /\ rtc net_step net0 net.
End network.

Section network_safety.
Context {Tx : Type} `{!Sha256} `{!HashMapIter}.
Context (vs : ValidatorSet) (cfg : BftConfig) (h : Z) (byz : Pubkey -> bool).
Context (W : wf vs) (HT : 0 < total_stake vs) (Ht : threshold_ok (finality_threshold cfg) = true).
Implicit Types (net : Network Tx) (e : ConsensusEngine Tx).

Abbreviation q := (quorum_stake vs (finality_threshold cfg)).
Abbreviation polkas := (polka vs q h byz).

Record node_ok (V : list vote) (n : Pubkey) e : Prop := {
  no_honest : byz n = false;
  no_identity : identity e = n;
  no_config : config e = cfg;
  no_validators : validator_set e = vs;
  no_height : height (state e) = h;
  no_sync : lock_sync e;
  no_inv : node_inv vs q h byz n (view e) V
}.

Record net_inv net : Prop := {
  nt_nodes : forall n e, nodes net !! n = Some e -> node_ok (votes_sent net) n e;
  nt_voters : forall x, x ∈ votes_sent net -> is_Some (nodes net !! vk_voter x.1);
  nt_commits : forall n cb, (n, cb) ∈ commits net ->
    commit_quorum vs q h byz (votes_sent net) (block_hash_of (committed cb)) (commit_round cb)
}.

Lemma net_init_inv net : net_init vs cfg h byz net -> net_inv net.
Proof.
  intros (Hs & Hc & Hn). assert (HV : votes_sent net = []) by (unfold votes_sent; by rewrite Hs).
  split; rewrite ?HV, ?Hc.
  - intros n e Hne. destruct (Hn n e Hne) as (Hb & e0 & -> & Hi & Hcfg & Hv).
    destruct e0 as [c i vs0 [] ev sp sc]. simpl in *. subst.
    assert (Hnil : forall x : vote, x ∉ @nil vote) by (intros x; apply not_elem_of_nil).
    split; try done.
    split; simpl; try done.
    + split.
      * intros r v Hin. by destruct (Hnil _ Hin).
      * intros r v Hin. by destruct (Hnil _ Hin).
      * intros key v v' _ Hin. by destruct (Hnil _ Hin).
      * intros key v _ Hin. by destruct (Hnil _ Hin).
    + intros r b Hin. by destruct (Hnil _ Hin).
    + intros V1 V2 r' b' r b HV'. by destruct V1.
  - by intros x ?%not_elem_of_nil.
  - by intros n cb ?%not_elem_of_nil.
Qed.

Lemma votes_deliver net n res : votes_sent (deliver net n res) = new_votes (messages res.2) ++ votes_sent net.
Proof. unfold votes_sent, deliver, new_votes. simpl. by rewrite omap_app, omap_rev. Qed.

Lemma net_step_inv net net' : net_inv net -> net_step byz polkas net net' -> net_inv net'.
Proof.
  intros [Hn Hv Hc] Hs. inversion Hs as [? n e ev Hne Hev]; subst. set (V := votes_sent net) in *.
  destruct (Hn n e Hne) as [Hb Hi Hcf Hvs Hh Hsy HI].
  assert (Hok : engine_ok e) by (unfold engine_ok; rewrite Hvs, Hcf; auto).
  destruct (handle_refines_protocol _ _ e ev V Hok Hsy Hev) as ([Hc' Hi' Hv' Hh' Hsy'] & Hst & Hcb).
  unfold quorum in Hst, Hcb. rewrite Hvs, Hcf, Hh, Hi in Hst. rewrite Hvs, Hcf in Hcb.
  destruct (node_inv_steps vs q h byz W n _ _ _ _ Hb HI Hst) as (HI' & U & HU & HUn).
  apply app_inv_tail in HU. subst U. set (res := handle e ev) in *.
  assert (HV : forall x, x ∈ V -> x ∈ new_votes (messages res.2) ++ V) by (intros x; rewrite elem_of_app; auto).
  split; rewrite votes_deliver; fold V; simpl.
  - intros n' e' [[<- <-]|[Hne' Hn']]%lookup_insert_Some; [split; congruence || done|].
    destruct (Hn n' e' Hn'). split; try done. apply node_inv_others; [done|done|].
    eapply Forall_impl; [exact HUn|]. simpl. congruence.
  - intros x [Hx|Hx]%elem_of_app.
    + rewrite (proj1 (Forall_forall _ _) HUn x Hx). rewrite lookup_insert_eq. eauto.
    + destruct (decide (vk_voter x.1 = n)) as [->|]; [rewrite lookup_insert_eq; eauto|].
      rewrite lookup_insert_ne by done. auto.
  - intros n' cb Hin. assert (Hcase : (n', cb) ∈ commits net \/ committed_block res.2 = Some cb).
    { destruct (committed_block res.2); [|auto]. apply elem_of_cons in Hin as [[= -> ->]|?]; auto. }
    destruct Hcase as [Hold|Hnew].
    + eapply commit_quorum_mono; [done|exact HV|]. eauto.
    + destruct (Hcb cb Hnew) as (Hq & -> & _). exact (value_quorum_commit vs q h byz W n _ _ _ HI' Hq).
Qed.

Lemma net_reachable_inv net : net_reachable vs cfg h byz polkas net -> net_inv net.
Proof.
  intros (net0 & Hi & Hr). apply net_init_inv in Hi. induction Hr; eauto using net_step_inv.
Qed.
End network_safety.

(** ** Executing a network *)

Section execution.
Context {Tx : Type} `{!Sha256} `{!HashMapIter}.
Context (byz : Pubkey -> bool) (claimsb : list vote -> Hash -> Z -> bool).
Implicit Types (net : Network Tx) (e : ConsensusEngine Tx).

Definition authenticb (V : list vote) (x : vote) : bool := byz (vk_voter x.1) || bool_decide (x ∈ V).

(** the decision procedure of [event_ok] *)
Definition event_okb (V : list vote) e (ev : Event Tx) : bool :=
  match ev with
  | EvMessage (MProposal h' r b _ _ vr) =>
      negb (h' =? height (state e)) || match vr with Some vr' => claimsb V (block_hash_of b) vr' | None => true end
  | EvMessage m => match msg_vote m with
                   | Some x => negb (vk_height x.1 =? height (state e)) || authenticb V x
                   | None => true
                   end
  | EvTimeout Precommit => (0 <=? round (state e)) && (round (state e) <? u32_max)
  | EvTimeout _ => true
  end.

Fixpoint run_net net (evs : list (Pubkey * Event Tx)) : option (Network Tx) :=
  match evs with
  | [] => Some net
  | (n, ev) :: evs' =>
      e ← nodes net !! n;
      if event_okb (votes_sent net) e ev then run_net (deliver net n (handle e ev)) evs' else None
  end.

Lemma event_okb_sound V e ev (claims : list vote -> Hash -> Z -> Prop) :
  (forall b r, claimsb V b r = true -> claims V b r) ->
  event_okb V e ev = true -> event_ok (authentic byz V) (claims V) e ev.
Proof.
  intros Hc. unfold event_okb, event_ok.
  assert (Hauth : forall x, authenticb V x = true -> authentic byz V x).
  { intros x. unfold authenticb, authentic. by rewrite orb_true_iff, bool_decide_eq_true. }
  destruct ev as [[h' r b p s vr|h' r v k s|h' r v k s]|[]]; simpl; try done; intros Hb.
  - intros -> vr' ->. rewrite Z.eqb_refl in Hb. apply Hc. exact Hb.
  - intros x [= <-] Hh. simpl in Hh. subst h'. rewrite Z.eqb_refl in Hb. apply Hauth. exact Hb.
  - intros x [= <-] Hh. simpl in Hh. subst h'. rewrite Z.eqb_refl in Hb. apply Hauth. exact Hb.
  - breflect. lia.
Qed.

Lemma run_net_sound (claims : list vote -> Hash -> Z -> Prop) net evs net' :
  (forall V b r, claimsb V b r = true -> claims V b r) ->
  run_net net evs = Some net' -> rtc (net_step byz claims) net net'.
Proof.
  intros Hc. revert net. induction evs as [|[n ev] evs IH]; intros net Hr; simpl in Hr; [by simplify_eq|].
  apply bind_Some in Hr as (e & He & Hr). case_if; [|done].
  eapply rtc_l; [|by apply IH]. apply net_event; [done|].
  apply event_okb_sound; [intros; by apply Hc|done].
Qed.
End execution.

(** ** Four validators

    Equal stakes, so a quorum is three of them; validator 4 is Byzantine. *)

Definition four : ValidatorSet := ValidatorSet_new [(1, 100); (2, 100); (3, 100); (4, 100)].
Definition byz4 (k : Pubkey) : bool := bool_decide (k = 4).

(** a hash function for concrete runs: the number the bytes denote, modulo a prime *)
Definition toy_hash : Sha256 := fun l => le_combine (concat l) mod (2 ^ 255 - 19).

(** Height 299: validator 3 proposes in round 0 and validator 4 in round 1. *)
Definition honest_engine (k : Pubkey) : ConsensusEngine nat :=
  (start_new_height (ConsensusEngine_new BftConfig_default k four) 299).1.
Definition net4 : Network nat :=
  {| nodes := list_to_map (map (fun k => (k, honest_engine k)) [1; 2; 3]); sent := []; commits := [] |}.

Definition block (root proposer : Z) : ProposedBlock nat :=
  {| parent_hash := 0; block_height := 299; timestamp := 1; transactions := []; state_root := root;
     block_proposer := proposer |}.
Definition blockA := block 1 3.
Definition blockB := block 2 4.

Definition proposeA : Event nat := EvMessage (MProposal 299 0 blockA 3 0 None).
Definition prevote_ev (r : Z) (b : ProposedBlock nat) (k : Pubkey) : Event nat :=
  EvMessage (MPrevote 299 r (Some (@block_hash_of toy_hash _ b)) k 0).
Definition precommit_ev (r : Z) (b : ProposedBlock nat) (k : Pubkey) : Event nat :=
  EvMessage (MPrecommit 299 r (Some (@block_hash_of toy_hash _ b)) k 0).

(** round 0: everyone sees block A, prevotes and precommits it *)
Definition round0 : list (Pubkey * Event nat) :=
  [(1, proposeA); (2, proposeA); (3, proposeA);
   (1, prevote_ev 0 blockA 2); (1, prevote_ev 0 blockA 3);
   (2, prevote_ev 0 blockA 1); (2, prevote_ev 0 blockA 3);
   (3, prevote_ev 0 blockA 1); (3, prevote_ev 0 blockA 2);
   (1, precommit_ev 0 blockA 2); (1, precommit_ev 0 blockA 3)].

(** all nodes then also receive the precommits *)
Definition good_run : list (Pubkey * Event nat) :=
  round0 ++ [(2, precommit_ev 0 blockA 1); (2, precommit_ev 0 blockA 3)].

(** nodes 2 and 3 time out instead; validator 4 proposes block B in round 1
    with [valid_round = Some 0], although B had no prevote in round 0 *)
Definition proposeB : Event nat := EvMessage (MProposal 299 1 blockB 4 0 (Some 0)).
Definition bad_run : list (Pubkey * Event nat) :=
  round0 ++ [(2, EvTimeout Precommit); (3, EvTimeout Precommit); (2, proposeB); (3, proposeB);
   (2, prevote_ev 1 blockB 4); (3, prevote_ev 1 blockB 4);
   (2, prevote_ev 1 blockB 3); (3, prevote_ev 1 blockB 2);
   (2, precommit_ev 1 blockB 3); (2, precommit_ev 1 blockB 4)].

Definition commit_summary (net : Network nat) : list (Pubkey * Z * Hash) :=
  map (fun c => (c.1, commit_round c.2, @block_hash_of toy_hash _ (committed c.2))) (commits net).

Lemma four_wf : wf four.
Proof. apply new_wf; [by apply (bool_decide_eq_true_1 _)|repeat constructor; simpl; lia|done]. Qed.

Lemma net4_init : net_init four BftConfig_default 299 byz4 net4.
Proof.
  split; [done|]. split; [done|]. intros n e Hn. cbn [net4 nodes map list_to_map foldr fst snd] in Hn.
  assert (Hk : byz4 n = false /\ e = honest_engine n).
  { repeat (apply lookup_insert_Some in Hn as [[<- <-]|[_ Hn]]; [by split|]). by rewrite lookup_empty in Hn. }
  destruct Hk as [Hb ->]. split; [done|]. exists (ConsensusEngine_new BftConfig_default n four). repeat split.
Qed.

(** the outcome of a run, read off its summary *)
Lemma run_net_summary claimsb net evs k1 r1 b1 k2 r2 b2 :
  commit_summary <$> @run_net nat toy_hash _ byz4 claimsb net evs = Some [(k2, r2, b2); (k1, r1, b1)] ->
  exists net' cb1 cb2, @run_net nat toy_hash _ byz4 claimsb net evs = Some net'
    /\ (k1, cb1) ∈ commits net' /\ (k2, cb2) ∈ commits net'
    /\ @block_hash_of toy_hash _ (committed cb1) = b1 /\ @block_hash_of toy_hash _ (committed cb2) = b2.
Proof.
  intros (net' & E & Hs)%fmap_Some. unfold commit_summary in Hs.
  destruct (commits net') as [|[? cb2] [|[? cb1] [|]]] eqn:Ec; try done.
  injection Hs as -> _ -> -> _ ->. exists net', cb1, cb2. rewrite Ec.
  split; [done|]. split; [right; by left|]. split; [by left|]. done.
Qed.

(** ** One engine: votes, commits, order of iteration *)

Section single.
Context {Tx : Type} `{!Sha256} `{!HashMapIter}.
Implicit Types (e : ConsensusEngine Tx) (o : EngineOutput Tx).

(** no precommit timeout fires in round [u32::MAX] *)
Fixpoint run_okb e (evs : list (Event Tx)) : bool :=
  match evs with
  | [] => true
  | ev :: evs' =>
      match ev with
      | EvTimeout Precommit => (0 <=? round (state e)) && (round (state e) <? u32_max)
      | _ => true
      end && run_okb (handle e ev).1 evs'
  end.

Definition sent_messages (os : list (EngineOutput Tx)) : list (ConsensusMessage Tx) := concat (map messages os).

Lemma run_votes_inv evs : forall e V, engine_ok e -> lock_sync e -> run_okb e evs = true ->
  votes_inv (height (state e)) (identity e) (view e) V ->
  Forall (fun x => vk_voter x.1 = identity e) V ->
  let '(e', os) := run e evs in
  votes_inv (height (state e)) (identity e) (view e') (new_votes (sent_messages os) ++ V)
  /\ Forall (fun x => vk_voter x.1 = identity e) (new_votes (sent_messages os) ++ V).
Proof.
  induction evs as [|ev evs IH]; intros e V Hok Hs Hr Hv HV; simpl in *; [done|].
  apply andb_true_iff in Hr as [Hev Hr].
  assert (Hev' : event_ok (fun _ => True) (fun _ _ => True) e ev).
  { destruct ev as [[]|[]]; simpl; auto. breflect. lia. }
  destruct (handle_refines_protocol _ _ e ev V Hok Hs Hev') as (Hf & Hst & _).
  destruct (handle e ev) as [e1 o1]. cbn [fst snd] in *.
  assert (Hv1 : votes_inv (height (state e)) (identity e) (view e1) (new_votes (messages o1) ++ V)
    /\ Forall (fun x => vk_voter x.1 = identity e) (new_votes (messages o1) ++ V)).
  { refine (rtc_ind_r (fun s => votes_inv (height (state e)) (identity e) s.1 s.2
      /\ Forall (fun x => vk_voter x.1 = identity e) s.2) _ _ _ _ Hst); [done|].
    intros [p1 V1] [p2 V2] _ Hstep [Hi1 Hf1]. simpl in *. split; [by eapply votes_inv_step|].
    destruct (pstep_extends _ _ _ _ _ _ _ _ Hstep) as (U & HU & HU'). simpl in HU. subst V2. by apply Forall_app. }
  destruct Hv1 as [Hv1 HV1].
  specialize (IH e1 (new_votes (messages o1) ++ V)). destruct (run e1 evs) as [e2 os].
  unfold sent_messages in *. simpl. rewrite new_votes_app, <- app_assoc.
  rewrite (sf_identity _ _ Hf), (sf_height _ _ Hf) in IH. apply IH; auto.
  - by eapply engine_ok_frame.
  - apply Hf.
Qed.

Lemma votes_inv_nil h n p : votes_inv h n p [].
Proof. split; intros *; [|intros *|intros *|]; try (by intros ?%not_elem_of_nil); by intros _ ?%not_elem_of_nil. Qed.

(** conflicting messages are two votes with one key *)
Lemma conflicting_votes (ms : list (ConsensusMessage Tx)) v : conflicting ms v ->
  exists key x y, (key, x) ∈ new_votes ms /\ (key, y) ∈ new_votes ms /\ vk_voter key = v /\ x <> y.
Proof.
  intros (m1 & m2 & key & a & b & H1 & H2 & E1 & E2 & Hv & Hab).
  exists key, (sv_block_hash a), (sv_block_hash b).
  assert (Hin : forall m x, m ∈ ms -> vote_of m = Some (key, x) -> (key, sv_block_hash x) ∈ new_votes ms).
  { intros m x Hm E. unfold new_votes. rewrite list_elem_of_In, <- in_rev, <- list_elem_of_In, list_elem_of_omap.
    exists m. unfold msg_vote. by rewrite E. }
  exact (conj (Hin m1 a H1 E1) (conj (Hin m2 b H2 E2) (conj Hv Hab))).
Qed.

Lemma start_new_height_view e h :
  engine_ok e -> let e' := (start_new_height e h).1 in
  engine_ok e' /\ lock_sync e' /\ identity e' = identity e /\ height (state e') = h.
Proof. destruct e as [? ? ? [] ? ? ?]. intros Hok. split; [exact Hok|done]. Qed.

Lemma try_advance_no_commit e o : committed_block (try_advance_from_prevotes e o).2 = committed_block o.
Proof.
  unfold try_advance_from_prevotes, send_precommit.
  by repeat (case_match || case_if).
Qed.

(** commits come from [try_commit] only *)
Lemma handle_commit e ev cb : committed_block (handle e ev).2 = Some cb ->
  exists e1, handle e ev = try_commit e1 /\ validator_set e1 = validator_set e /\ config e1 = config e.
Proof.
  intros Hcb. destruct ev as [[h r b p s vr|h r v k s|h r v k s]|[]]; cbn [handle] in Hcb |- *.
  - exfalso. revert Hcb. unfold on_proposal.
    repeat first [case_decide; [done|]|case_if; [try done|]|case_if; [|done]]; try done;
      rewrite try_advance_no_commit; done.
  - exfalso. revert Hcb. unfold on_prevote. repeat (case_if; [done|]). by rewrite try_advance_no_commit.
  - revert Hcb. unfold on_precommit. repeat (case_if; [done|]). intros _. eexists. split; [done|].
    by destruct e as [? ? ? [] ? ? ?].
  - exfalso. revert Hcb. unfold on_timeout, on_timeout_propose. by repeat case_if.
  - exfalso. revert Hcb. unfold on_timeout, on_timeout_propose. by repeat case_if.
  - exfalso. revert Hcb. unfold on_timeout. by repeat case_if.
  - done.
  - done.
Qed.
End single.

(** ** Independence of the iteration order *)

(** equal up to the order of the commit signatures *)
Definition output_equiv {Tx} (o1 o2 : EngineOutput Tx) : Prop :=
  messages o1 = messages o2 /\
  match committed_block o1, committed_block o2 with
  | Some a, Some b => committed a = committed b /\ commit_round a = commit_round b
                      /\ commit_signatures a ≡ₚ commit_signatures b
  | None, None => True
  | _, _ => False
  end.

#[export] Instance output_equiv_refl {Tx} : Reflexive (@output_equiv Tx).
Proof. intros [ms [cb|]]; by split. Qed.

Section order.
Context {Tx : Type} `{!Sha256} (I1 I2 : HashMapIter).
Implicit Types (e : ConsensusEngine Tx) (o : EngineOutput Tx).

Lemma find_quorum_order e votes : engine_ok e ->
  find_quorum (quorum e) (@hm_iter I1 _ _ _ _ (@tally Tx I1 e votes))
  = find_quorum (quorum e) (@hm_iter I2 _ _ _ _ (@tally Tx I2 e votes)).
Proof.
  intros Hok. apply option_eq. intros b.
  by rewrite (@find_quorum_spec Tx I1 e votes b Hok), (@find_quorum_spec Tx I2 e votes b Hok).
Qed.

Lemma try_advance_order e o : engine_ok e ->
  @try_advance_from_prevotes Tx I1 e o = @try_advance_from_prevotes Tx I2 e o.
Proof.
  intros Hok. unfold try_advance_from_prevotes, find_quorum_prevote_hash. rewrite find_quorum_order by done.
  rewrite (@any_quorum_spec Tx I1 e), (@any_quorum_spec Tx I2 e) by apply Hok. done.
Qed.

Lemma try_commit_order e : engine_ok e ->
  (@try_commit Tx _ I1 e).1 = (@try_commit Tx _ I2 e).1
  /\ output_equiv (@try_commit Tx _ I1 e).2 (@try_commit Tx _ I2 e).2.
Proof.
  intros Hok. unfold try_commit, find_quorum_precommit_hash. rewrite find_quorum_order by done.
  repeat case_match; try (by split). split; [done|]. split; [done|]. simpl. split; [done|]. split; [done|].
  apply Permutation_map. by rewrite (@hm_iter_perm I1), (@hm_iter_perm I2).
Qed.

Lemma handle_order e ev : engine_ok e ->
  (@handle Tx _ I1 e ev).1 = (@handle Tx _ I2 e ev).1
  /\ output_equiv (@handle Tx _ I1 e ev).2 (@handle Tx _ I2 e ev).2.
Proof.
  intros Hok. assert (Heq : forall (x y : ConsensusEngine Tx * EngineOutput Tx), x = y ->
    x.1 = y.1 /\ output_equiv x.2 y.2) by (intros x y ->; by split).
  destruct ev as [[h r b p s vr|h r v k s|h r v k s]|st]; cbn [handle]; [| | |by apply Heq].
  - apply Heq. unfold on_proposal. repeat (case_decide || case_if); try done; apply try_advance_order;
      by destruct e as [? ? ? [] ? ? ?].
  - apply Heq. unfold on_prevote. repeat case_if; try done. apply try_advance_order.
    by destruct e as [? ? ? [] ? ? ?].
  - unfold on_precommit. repeat case_if; try (by apply Heq). apply try_commit_order.
    by destruct e as [? ? ? [] ? ? ?].
Qed.

Lemma handle_engine_ok e ev : engine_ok e -> engine_ok (@handle Tx _ I1 e ev).1.
Proof.
  assert (Hadv : forall e o, config (@try_advance_from_prevotes Tx I1 e o).1 = config e
    /\ validator_set (@try_advance_from_prevotes Tx I1 e o).1 = validator_set e).
  { intros e0 o. unfold try_advance_from_prevotes, send_precommit.
    repeat (case_match || case_if); by destruct e0 as [? ? ? [] ? ? ?]. }
  intros Hok. assert (Hp : config (@handle Tx _ I1 e ev).1 = config e
    /\ validator_set (@handle Tx _ I1 e ev).1 = validator_set e).
  { destruct ev as [[h r b p s vr|h r v k s|h r v k s]|st]; cbn [handle].
    - unfold on_proposal. repeat (case_decide || case_if); rewrite ?(proj1 (Hadv _ _)), ?(proj2 (Hadv _ _));
        by destruct e as [? ? ? [] ? ? ?].
    - unfold on_prevote. repeat case_if; rewrite ?(proj1 (Hadv _ _)), ?(proj2 (Hadv _ _));
        by destruct e as [? ? ? [] ? ? ?].
    - unfold on_precommit, try_commit. repeat (case_match || case_if); by destruct e as [? ? ? [] ? ? ?].
    - unfold on_timeout, on_timeout_propose. repeat (case_match || case_if); by destruct e as [? ? ? [] ? ? ?]. }
  destruct Hp as [Hc Hv]. unfold engine_ok. by rewrite Hc, Hv.
Qed.
End order.

(** ** Properties *)

(** C1. Agreement on block hashes: in a network of engines whose finality threshold lies between 0.6667 and 0.999 (the
    default is 0.667), in which validators with at most one third of the stake are Byzantine (they may send any message in
    their own name, and propose anything), messages are delivered in any order to any nodes, and timeouts fire at any time
    (but for the precommit timeout of round [u32::MAX], which wraps the round), all commits at one height carry the same
    block hash, in the same round or not; provided that a delivered proposal claims a [valid_round] only if the polka
    happened.  The committed blocks then agree on everything that is hashed (parent hash, height, time stamp, state root
    and proposer), or they are an explicit collision of SHA-256.  The transactions are not hashed, and nothing is said
    of them: [agreed_blocks_differ] below shows that they can differ. *)
Theorem agreement {Tx} `{!Sha256} `{!HashMapIter} vs cfg h byz (net : Network Tx) n1 cb1 n2 cb2 :
  wf vs -> 0 < total_stake vs -> threshold_ok (finality_threshold cfg) = true ->
  3 * stake_where vs byz <= total_stake vs ->
  net_reachable vs cfg h byz (polka vs (quorum_stake vs (finality_threshold cfg)) h byz) net ->
  (n1, cb1) ∈ commits net -> (n2, cb2) ∈ commits net ->
  block_hash_of (committed cb1) = block_hash_of (committed cb2)
  /\ (hash_input (committed cb1) = hash_input (committed cb2)
      \/ exists m1 m2, m1 <> m2 /\ hashv m1 = hashv m2 /\ m1 = hash_input (committed cb1) /\ m2 = hash_input (committed cb2)).
Proof.
  intros W HT Ht Hb Hr H1 H2. assert (block_hash_of (committed cb1) = block_hash_of (committed cb2)) as E.
  { destruct (net_reachable_inv vs cfg h byz W HT Ht net Hr) as [Hn Hv Hc].
    pose proof (wf_fits vs W). destruct (quorum_stake_spec vs _ Ht ltac:(lia)) as [Hq _].
    eapply (agreement_core vs _ h byz W (votes_sent net) Hq Hb); eauto.
    intros x Hx. destruct (Hv x Hx) as [e He]. exists (view e). apply (no_inv _ _ _ _ _ _ _ (Hn _ _ He)). }
  split; [done|]. destruct (List.list_eq_dec (List.list_eq_dec Byte.byte_eq_dec) (hash_input (committed cb1)) (hash_input (committed cb2))) as [|Hne];
    [by left|]. right. by exists (hash_input (committed cb1)), (hash_input (committed cb2)).
Qed.

Lemma agreement_witness : exists net cb1 cb2,
  @run_net nat toy_hash _ byz4 (fun _ _ _ => false) net4 good_run = Some net
  /\ (1, cb1) ∈ commits net /\ (2, cb2) ∈ commits net
  /\ @block_hash_of toy_hash _ (committed cb1) = @block_hash_of toy_hash _ (committed cb2).
Proof.
  destruct (run_net_summary (fun _ _ _ => false) net4 good_run 1 0 (@block_hash_of toy_hash _ blockA)
    2 0 (@block_hash_of toy_hash _ blockA)) as (net & cb1 & cb2 & E & H1 & H2 & _).
  { vm_compute. reflexivity. }
  exists net, cb1, cb2. split; [exact E|]. split; [exact H1|]. split; [exact H2|].
  refine (proj1 (@agreement nat toy_hash _ four BftConfig_default 299 byz4 net 1 cb1 2 cb2 four_wf _ _ _ _ H1 H2)).
  - vm_compute. reflexivity.
  - vm_compute. reflexivity.
  - vm_compute. discriminate.
  - exists net4. split; [exact net4_init|].
    refine (run_net_sound byz4 (fun _ _ _ => false) _ net4 good_run net _ E). intros V b r Hf. discriminate Hf.
Defined.

(** Round 1 of height 299: validator 4 proposes one block to node 1 and another, with other transactions, to nodes 2 and 3. *)
Definition with_transactions (l : list nat) (b : ProposedBlock nat) : ProposedBlock nat :=
  {| parent_hash := parent_hash b; block_height := block_height b; timestamp := timestamp b; transactions := l;
     state_root := state_root b; block_proposer := block_proposer b |}.
Definition propose_transactions (l : list nat) : Event nat := EvMessage (MProposal 299 1 (with_transactions l blockB) 4 0 None).
Definition split_run : list (Pubkey * Event nat) :=
  [(1, EvTimeout Precommit); (2, EvTimeout Precommit); (3, EvTimeout Precommit);
   (1, propose_transactions [7]%nat); (2, propose_transactions [8]%nat); (3, propose_transactions [8]%nat);
   (1, prevote_ev 1 blockB 2); (1, prevote_ev 1 blockB 3); (2, prevote_ev 1 blockB 1); (2, prevote_ev 1 blockB 3);
   (3, prevote_ev 1 blockB 1); (3, prevote_ev 1 blockB 2);
   (1, precommit_ev 1 blockB 2); (1, precommit_ev 1 blockB 3); (2, precommit_ev 1 blockB 1); (2, precommit_ev 1 blockB 3)].

Definition transactions_summary (net : Network nat) : list (Pubkey * list nat) :=
  map (fun c => (c.1, transactions (committed c.2))) (commits net).

Lemma transactions_summary_two net k1 l1 k2 l2 : transactions_summary net = [(k2, l2); (k1, l1)] -> exists cb1 cb2,
  (k1, cb1) ∈ commits net /\ (k2, cb2) ∈ commits net /\ transactions (committed cb1) = l1 /\ transactions (committed cb2) = l2.
Proof.
  unfold transactions_summary. destruct (commits net) as [|[? cb2] [|[? cb1] [|]]] eqn:Ec; try done.
  intros [= <- <- <- <-]. exists cb1, cb2. split; [right; by left|]. split; [by left|]. done.
Qed.

(** Agreement does not reach the transactions: with one Byzantine validator of four, two honest engines commit blocks of
    one height with one hash and different transactions, and no proposal claims a [valid_round]. *)
Theorem agreed_blocks_differ : exists (net : Network nat) cb1 cb2,
  3 * stake_where four byz4 <= total_stake four
  /\ @net_reachable nat toy_hash _ four BftConfig_default 299 byz4 (fun _ _ _ => False) net
  /\ (1, cb1) ∈ commits net /\ (2, cb2) ∈ commits net
  /\ transactions (committed cb1) = [7]%nat /\ transactions (committed cb2) = [8]%nat.
Proof.
  assert (transactions_summary <$> @run_net nat toy_hash _ byz4 (fun _ _ _ => false) net4 split_run = Some [(2, [8]%nat); (1, [7]%nat)]) as Hc
    by (vm_compute; reflexivity).
  apply fmap_Some in Hc as (net & E & (cb1 & cb2 & H1 & H2 & T1 & T2)%eq_sym%transactions_summary_two).
  exists net, cb1, cb2. split; [vm_compute; discriminate|]. split.
  { exists net4. split; [exact net4_init|].
    refine (run_net_sound byz4 (fun _ _ _ => false) _ net4 split_run net _ E). intros V b r Hf. discriminate Hf. }
  split; [exact H1|]. split; [exact H2|]. split; [exact T1|exact T2].
Qed.

(** C6. The check that the theorem of agreement asks for is missing from the
    engine: with one Byzantine validator of four, a proposal that
    claims a polka that never happened makes two honest engines, running
    the code as it is, commit different blocks at the same height. *)
Theorem unverified_valid_round_breaks_agreement : exists (net : Network nat) cb1 cb2,
  3 * stake_where four byz4 <= total_stake four
  /\ @net_reachable nat toy_hash _ four BftConfig_default 299 byz4 (fun _ _ _ => True) net
  /\ byz4 1 = false /\ byz4 2 = false
  /\ (1, cb1) ∈ commits net /\ (2, cb2) ∈ commits net
  /\ @block_hash_of toy_hash _ (committed cb1) <> @block_hash_of toy_hash _ (committed cb2).
Proof.
  destruct (run_net_summary (fun _ _ _ => true) net4 bad_run 1 0 (@block_hash_of toy_hash _ blockA)
    2 1 (@block_hash_of toy_hash _ blockB)) as (net & cb1 & cb2 & E & H1 & H2 & E1 & E2).
  { vm_compute. reflexivity. }
  exists net, cb1, cb2. split; [vm_compute; discriminate|]. split.
  { exists net4. split; [exact net4_init|].
    by refine (run_net_sound byz4 (fun _ _ _ => true) _ net4 bad_run net _ E). }
  split; [reflexivity|]. split; [reflexivity|]. split; [exact H1|]. split; [exact H2|].
  rewrite E1, E2. vm_compute. discriminate.
Qed.

(** C3. The engine implements the protocol.  For an engine with a well-formed set of validators with stake and a finality
    threshold between 0.6667 and 0.999, whatever a handler does on a message or a timeout, but for the precommit timeout of
    round [u32::MAX] (there the round wraps to 0, which is no step of the protocol), is a
    sequence of the rules of Tendermint.v (advance the round, record a received
    vote, prevote within the lock rule, lock on a quorum of prevotes, precommit
    the locked value or nil) that sends exactly the votes in its output, and a
    commit in the output is for the stored proposal, in the current round, with
    a quorum of precommits. *)
Theorem engine_refines_protocol {Tx} `{!Sha256} `{!HashMapIter} ext claim (e : ConsensusEngine Tx) ev V :
  engine_ok e -> lock_sync e -> event_ok ext claim e ev ->
  let res := handle e ev in
  rtc (pstep (validator_set e) (quorum e) (height (state e)) (identity e) ext claim)
      (view e, V) (view res.1, new_votes (messages res.2) ++ V)
  /\ (forall cb, committed_block res.2 = Some cb ->
       value_quorum (validator_set e) (quorum e) (precommits (state res.1)) (block_hash_of (committed cb))
       /\ commit_round cb = round (state res.1) /\ proposal (state res.1) = Some (committed cb))
  /\ lock_sync res.1.
Proof.
  intros Hok Hs Hev. destruct (handle_refines_protocol ext claim e ev V Hok Hs Hev) as (Hf & Hst & Hcb).
  split; [done|]. split; [done|]. apply Hf.
Qed.

Lemma honest_engine_ok k : engine_ok (honest_engine k) /\ lock_sync (honest_engine k).
Proof.
  destruct (start_new_height_view (ConsensusEngine_new (Tx := nat) BftConfig_default k four) 299) as (H1 & H2 & _).
  - split; [exact four_wf|]. split; vm_compute; reflexivity.
  - done.
Qed.

Lemma engine_refines_protocol_witness :
  rtc (pstep four 267 299 1 (fun _ => True) (fun _ _ => True))
    (view (honest_engine 1), []) (view (@handle _ toy_hash _ (honest_engine 1) proposeA).1,
       [(pvkey 299 0 1, Some (@block_hash_of toy_hash _ blockA))]).
Proof.
  exact (proj1 (@engine_refines_protocol nat toy_hash _ (fun _ => True) (fun _ _ => True) (honest_engine 1)
    proposeA [] (proj1 (honest_engine_ok 1)) (proj2 (honest_engine_ok 1)) (fun _ _ _ => I))).
Defined.

(** An engine never equivocates: over any sequence of messages and
    timeouts at one height (with no precommit timeout in the very last round
    [u32::MAX]), the votes it sends contain no two for the same round and kind
    with different values, so that no honest validator can be slashed for
    double signing. *)
Theorem engine_never_equivocates {Tx} `{!Sha256} `{!HashMapIter} (e0 : ConsensusEngine Tx) h evs v :
  engine_ok e0 -> run_okb (start_new_height e0 h).1 evs = true ->
  ~ conflicting (sent_messages (run (start_new_height e0 h).1 evs).2) v.
Proof.
  intros Hok Hr. destruct (start_new_height_view e0 h Hok) as (Hok1 & Hs1 & _).
  set (e := (start_new_height e0 h).1) in *. clearbody e.
  pose proof (run_votes_inv evs e [] Hok1 Hs1 Hr (votes_inv_nil _ _ _) (Forall_nil_2 _)) as Hrun.
  destruct (run e evs) as [e' os]. rewrite app_nil_r in Hrun. destruct Hrun as [Hv Hall].
  intros (key & x & y & Hx & Hy & _ & Hxy)%conflicting_votes. apply Hxy.
  eapply (vi_uniq _ _ _ _ Hv key); eauto. apply (proj1 (Forall_forall _ _) Hall _ Hx).
Qed.

Lemma engine_never_equivocates_witness :
  ~ conflicting (sent_messages (@run nat toy_hash _ (honest_engine 2)
      [EvTimeout Propose; EvTimeout Precommit; proposeB; EvTimeout Precommit]).2) 2
  /\ length (sent_messages (@run nat toy_hash _ (honest_engine 2)
      [EvTimeout Propose; EvTimeout Precommit; proposeB; EvTimeout Precommit]).2) = 2%nat.
Proof.
  split; [|vm_compute; reflexivity].
  apply (@engine_never_equivocates nat toy_hash _ (ConsensusEngine_new BftConfig_default 2 four) 299
    [EvTimeout Propose; EvTimeout Precommit; proposeB; EvTimeout Precommit] 2).
  - split; [exact four_wf|]. split; vm_compute; reflexivity.
  - vm_compute. reflexivity.
Defined.

(** the last round: the proposer of round 2^32 - 1 moves the node there *)
Definition far_round : Event nat := EvMessage (MProposal 299 u32_max (block 3 4) 4 0 None).

(** Without that proviso an engine does equivocate: a proposal for round
    [u32::MAX] is accepted from its proposer, the next precommit timeout wraps
    the round counter to 0, and the engine votes again in round 0; the
    evidence collector then holds evidence against the honest validator. *)
Theorem round_wrap_equivocates :
  let evs := [EvTimeout Propose; far_round; EvTimeout Precommit; proposeA] in
  let msgs := sent_messages (@run nat toy_hash _ (honest_engine 1) evs).2 in
  conflicting msgs 1 /\ has_evidence_against (record_all EvidenceCollector_new msgs) 1 = true.
Proof.
  intros evs msgs. split; [|vm_compute; reflexivity].
  assert (E : msgs = [MPrevote 299 0 None 1 0; MPrevote 299 u32_max (Some (@block_hash_of toy_hash _ (block 3 4))) 1 0;
    MPrevote 299 0 (Some (@block_hash_of toy_hash _ blockA)) 1 0]) by (vm_compute; reflexivity).
  rewrite E. clear E msgs. generalize (@block_hash_of toy_hash _ (block 3 4)) (@block_hash_of toy_hash _ blockA).
  intros b a. exists (MPrevote 299 0 None 1 0), (MPrevote 299 0 (Some a) 1 0), (pvkey 299 0 1),
    {| sv_block_hash := None; sv_signature := 0 |}, {| sv_block_hash := Some a; sv_signature := 0 |}.
  split; [by left|]. split; [right; right; by left|]. done.
Qed.

(** C7. A commit certificate is sound: for every finality threshold, the validators listed in [commit_signatures] are
    distinct, are exactly those whose precommit for the committed block's hash was recorded in the current round, and hold
    at least the quorum of the stake that the threshold asks for; the block is the stored proposal.  If the threshold lies
    between 0.6667 and 0.999 they hold more than two thirds of the total stake ([BftConfig::validate] accepts
    thresholds from 0.5 to 1.0). *)
Theorem commit_certificate_sound {Tx} `{!Sha256} `{!HashMapIter} (e : ConsensusEngine Tx) ev cb :
  wf (validator_set e) -> committed_block (handle e ev).2 = Some cb ->
  let e' := (handle e ev).1 in
  let signers := (commit_signatures cb).*1 in
  proposal (state e') = Some (committed cb) /\ commit_round cb = round (state e')
  /\ NoDup signers
  /\ (forall k, k ∈ signers <-> precommits (state e') !! k = Some (Some (block_hash_of (committed cb))))
  /\ quorum e <= zsum (map (stake_of (validator_set e)) signers)
  /\ (0 < total_stake (validator_set e) -> threshold_ok (finality_threshold (config e)) = true ->
      2 * total_stake (validator_set e) < 3 * zsum (map (stake_of (validator_set e)) signers)).
Proof.
  intros W Hcb. destruct (handle_commit e ev cb Hcb) as (e1 & Hh & Hv & Hc). rewrite Hh in *. clear Hh.
  assert (quorum e = quorum e1) as Hqe by (unfold quorum; by rewrite Hv, Hc).
  assert (0 < total_stake (validator_set e1) -> threshold_ok (finality_threshold (config e1)) = true ->
    2 * total_stake (validator_set e1) < 3 * quorum e1) as Hq
    by (intros HT Ht; rewrite <- Hv in W; exact (proj1 (quorum_ok e1 (conj W (conj HT Ht))))).
  rewrite Hqe, <- Hc, <- Hv in *. clear Hqe Hv Hc e.
  unfold try_commit, find_quorum_precommit_hash in *.
  destruct (find_quorum _ _) as [b|] eqn:E; [|done]. apply find_quorum_holds in E; [|done].
  destruct (proposal (state e1)) as [p|] eqn:Ep; [|done]. case_decide as Hb; [|done]. injection Hcb as <-.
  generalize dependent (quorum e1). intros q E Hq.
  destruct e1 as [c i vs [h r st lv lr vv vr pv pc pr] evd sp sc]. simpl in *. subst b.
  set (l := filter _ (hm_iter pc)).
  assert (Hkeys : (map (fun kv : Pubkey * option Hash => (kv.1, signature_default)) l).*1 = l.*1)
    by (clearbody l; clear; induction l as [|x l IH]; [done|]; simpl; by f_equal).
  rewrite Hkeys. split; [done|]. split; [done|]. split; [|split].
  - eapply sublist_NoDup; [apply hm_iter_keys|]. by apply fmap_sublist, sublist_filter.
  - intros k. rewrite list_elem_of_fmap. split.
    + intros ([k' v] & -> & [Hv Hin]%list_elem_of_filter). simpl in *. subst v. by apply hm_iter_elem in Hin.
    + intros Hk. exists (k, Some (block_hash_of p)). split; [done|]. apply list_elem_of_filter.
      split; [done|]. by apply hm_iter_elem.
  - pose proof (zsum_value vs pc (Some (block_hash_of p)) W) as Hz. fold l in Hz.
    rewrite <- (map_map fst (stake_of vs)) in Hz. change (map fst l) with l.*1 in Hz. rewrite Hz. split; [done|].
    intros HT Ht. specialize (Hq HT Ht). lia.
Qed.

(** node 1 just before the last precommit of round 0 *)
Definition almost : ConsensusEngine nat :=
  (@run nat toy_hash _ (honest_engine 1)
     [proposeA; prevote_ev 0 blockA 2; prevote_ev 0 blockA 3; precommit_ev 0 blockA 2]).1.

Lemma almost_validators : validator_set almost = four.
Proof. vm_compute. reflexivity. Qed.

Lemma almost_ok : engine_ok almost.
Proof.
  pose proof almost_validators as Hv.
  assert (Hc : config almost = BftConfig_default) by (vm_compute; reflexivity).
  unfold engine_ok. rewrite Hv, Hc. split; [exact four_wf|]. split; vm_compute; reflexivity.
Qed.

Lemma commit_certificate_sound_witness : exists cb,
  committed_block (@handle nat toy_hash _ almost (precommit_ev 0 blockA 3)).2 = Some cb
  /\ NoDup (commit_signatures cb).*1
  /\ 2 * total_stake four < 3 * zsum (map (stake_of four) (commit_signatures cb).*1).
Proof.
  destruct (committed_block (@handle nat toy_hash _ almost (precommit_ev 0 blockA 3)).2) as [cb|] eqn:E;
    [|exfalso; revert E; vm_compute; discriminate].
  exists cb. split; [reflexivity|].
  destruct (@commit_certificate_sound nat toy_hash _ almost (precommit_ev 0 blockA 3) cb (proj1 almost_ok) E)
    as (_ & _ & H1 & _ & _ & H2).
  specialize (H2 (proj1 (proj2 almost_ok)) (proj2 (proj2 almost_ok))).
  split; [exact H1|]. rewrite almost_validators in H2. exact H2.
Defined.

(** The engine is deterministic although it iterates hash maps, whose
    order Rust does not fix: for any two iteration orders, the same sequence of
    events leads to the same engine, the same messages and the same commits, up
    to the order of the entries of [commit_signatures]. *)
Theorem engine_order_independent {Tx} `{!Sha256} (I1 I2 : HashMapIter) (e : ConsensusEngine Tx) evs :
  engine_ok e ->
  (@run Tx _ I1 e evs).1 = (@run Tx _ I2 e evs).1
  /\ Forall2 output_equiv (@run Tx _ I1 e evs).2 (@run Tx _ I2 e evs).2.
Proof.
  revert e. induction evs as [|ev evs IH]; intros e Hok; simpl; [done|].
  pose proof (handle_order I1 I2 e ev Hok) as [He Ho]. pose proof (handle_engine_ok I1 e ev Hok) as Hok1.
  destruct (@handle Tx _ I1 e ev) as [e1 o1], (@handle Tx _ I2 e ev) as [e2 o2]. simpl in *. subst e2.
  specialize (IH e1 Hok1). destruct (@run Tx _ I1 e1 evs), (@run Tx _ I2 e1 evs). simpl in *.
  destruct IH as [-> ?]. auto.
Qed.

(** the opposite order to [hm_iter_canonical] *)
Definition hm_iter_reverse : HashMapIter.
Proof.
  refine {| hm_iter := fun K _ _ V m => reverse (map_to_list m) |}.
  intros. apply reverse_Permutation.
Defined.

Lemma engine_order_independent_witness :
  (@run nat toy_hash hm_iter_canonical almost [precommit_ev 0 blockA 3]).1
  = (@run nat toy_hash hm_iter_reverse almost [precommit_ev 0 blockA 3]).1.
Proof.
  exact (proj1 (@engine_order_independent nat toy_hash hm_iter_canonical hm_iter_reverse almost
    [precommit_ev 0 blockA 3] almost_ok)).
Defined.

(** ** Deciding *)

Section deciding.
Context {Tx : Type} `{!Sha256} `{!HashMapIter}.
Implicit Types (e : ConsensusEngine Tx).









End deciding.


