(* ===== verification/FeeMarket.v ===== *)
(** * The dynamic fee market

    Models the fee-market crate (config.rs, state.rs, calculator.rs, error.rs)
    and its integration in the bank
    (runtime/src/bank/trv1_fee_integration.rs).  The theorems: the 128-bit and
    saturating arithmetic computes the EIP-1559 formula exactly on every
    input, the base fee stays within its bounds and moves in the right
    direction by a bounded amount, the validation accepts exactly the
    transactions that can pay, and what usage a block's base fee is
    derived from. *)

From stdpp Require Import base numbers list option.
From Stdlib Require Import ZArith Lia String.
From S2P Require Import Prelude F64.
Local Open Scope Z_scope.

(** ** Data *)

Record FeeMarketConfig := {
  min_base_fee : Z;
  max_base_fee : Z;
  target_utilization_pct : Z;
  max_block_compute_units : Z;
  base_fee_change_denominator : Z;
  min_priority_fee : Z
}.

Definition FeeMarketConfig_default : FeeMarketConfig :=
  {| min_base_fee := 5000; max_base_fee := 50000000; target_utilization_pct := 50;
     max_block_compute_units := 48000000; base_fee_change_denominator := 8; min_priority_fee := 0 |}.

Record BlockFeeState := {
  base_fee_per_cu : Z;
  parent_gas_used : Z;
  current_gas_used : Z;
  fee_height : Z
}.

Record TransactionFee := { base_fee : Z; priority_fee : Z; total_fee : Z }.

(** which check of [validate_config] failed stands for its message *)
Inductive InvalidReason := MinAboveMax | ZeroDenominator | TargetAbove100.

Inductive FeeError :=
  | InsufficientFee (offered required base_fee_per_cu compute_units : Z)
  | PriorityFeeTooLow (offered minimum : Z)
  | InvalidConfig (reason : InvalidReason)
  | ComputeUnitsExceedMax (requested max_block_cu : Z)
  | FeeOverflow.

(** ** Operations *)

Definition target_gas (c : FeeMarketConfig) : Z :=
  saturating_mul u64_max (max_block_compute_units c) (target_utilization_pct c) / 100.

Definition genesis (initial_base_fee : Z) : BlockFeeState :=
  {| base_fee_per_cu := initial_base_fee; parent_gas_used := 0; current_gas_used := 0; fee_height := 0 |}.

Definition record_gas (s : BlockFeeState) (cu : Z) : BlockFeeState :=
  {| base_fee_per_cu := base_fee_per_cu s; parent_gas_used := parent_gas_used s;
     current_gas_used := saturating_add u64_max (current_gas_used s) cu; fee_height := fee_height s |}.

Definition next_block (s : BlockFeeState) (next_base_fee next_height : Z) : BlockFeeState :=
  {| base_fee_per_cu := next_base_fee; parent_gas_used := current_gas_used s;
     current_gas_used := 0; fee_height := next_height |}.

Definition utilization (s : BlockFeeState) (max_block_cu : Z) : f64 :=
  if max_block_cu =? 0 then f64_of_Z 0
  else f64_div (f64_of_Z (current_gas_used s)) (f64_of_Z max_block_cu).

Definition clamp (value min max : Z) : Z :=
  if value <? min then min else if max <? value then max else value.

Definition calculate_next_base_fee (c : FeeMarketConfig) (s : BlockFeeState) : Z :=
  let target := target_gas c in
  if target =? 0 then
    if 0 <? parent_gas_used s then max_base_fee c
    else clamp (base_fee_per_cu s) (min_base_fee c) (max_base_fee c)
  else
    let current := base_fee_per_cu s in
    let next :=
      if parent_gas_used s =? target then current
      else if target <? parent_gas_used s then
        let excess := saturating_sub (parent_gas_used s) target in
        let numerator := saturating_mul u128_max current excess in
        let denominator := saturating_mul u128_max target (base_fee_change_denominator c) in
        let delta := if denominator =? 0 then current
                     else Z.min (Z.max (numerator / denominator) 1) u64_max in
        saturating_add u64_max current delta
      else
        let deficit := saturating_sub target (parent_gas_used s) in
        let numerator := saturating_mul u128_max current deficit in
        let denominator := saturating_mul u128_max target (base_fee_change_denominator c) in
        let delta := if denominator =? 0 then 0 else Z.min (numerator / denominator) u64_max in
        saturating_sub current delta in
    clamp next (min_base_fee c) (max_base_fee c).

Definition calculate_transaction_fee (base_fee_per_cu priority_fee_per_cu compute_units_used : Z) : TransactionFee :=
  let b := saturating_mul u64_max base_fee_per_cu compute_units_used in
  let p := saturating_mul u64_max priority_fee_per_cu compute_units_used in
  {| base_fee := b; priority_fee := p; total_fee := saturating_add u64_max b p |}.

Definition validate_transaction_fee (offered priority_per_cu base_per_cu requested_cu : Z) (c : FeeMarketConfig)
    : result TransactionFee FeeError :=
  if max_block_compute_units c <? requested_cu
  then Err (ComputeUnitsExceedMax requested_cu (max_block_compute_units c))
  else if priority_per_cu <? min_priority_fee c then Err (PriorityFeeTooLow priority_per_cu (min_priority_fee c))
  else
    let fee := calculate_transaction_fee base_per_cu priority_per_cu requested_cu in
    if offered <? total_fee fee then Err (InsufficientFee offered (total_fee fee) base_per_cu requested_cu)
    else Ok fee.

Definition validate_config (c : FeeMarketConfig) : result unit FeeError :=
  if max_base_fee c <? min_base_fee c then Err (InvalidConfig MinAboveMax)
  else if base_fee_change_denominator c =? 0 then Err (InvalidConfig ZeroDenominator)
  else if 100 <? target_utilization_pct c then Err (InvalidConfig TargetAbove100)
  else Ok tt.

(** ** The bank's side: the fee state is the bank's [trv1_fee_state] *)

Definition update_base_fee_for_new_block (parent_state : BlockFeeState) (slot : Z) : BlockFeeState :=
  next_block parent_state (calculate_next_base_fee FeeMarketConfig_default parent_state) slot.

Definition record_transaction_compute (s : BlockFeeState) (cu : Z) : BlockFeeState := record_gas s cu.

Definition validate_trv1_fee (s : BlockFeeState) (offered priority_per_cu requested_cu : Z) :=
  validate_transaction_fee offered priority_per_cu (base_fee_per_cu s) requested_cu FeeMarketConfig_default.

Definition estimate_transaction_fee (s : BlockFeeState) (priority_per_cu cu : Z) : TransactionFee :=
  calculate_transaction_fee (base_fee_per_cu s) priority_per_cu cu.

(** A block: the transactions' compute units, in order. *)
Definition run_block (s : BlockFeeState) (cus : list Z) : BlockFeeState := foldl record_transaction_compute s cus.

(** ** Ranges *)

Definition config_ok (c : FeeMarketConfig) : Prop :=
  in_u64 (min_base_fee c) /\ in_u64 (max_base_fee c) /\ in_u8 (target_utilization_pct c)
  /\ in_u64 (max_block_compute_units c) /\ in_u64 (base_fee_change_denominator c) /\ in_u64 (min_priority_fee c).

Definition state_ok (s : BlockFeeState) : Prop :=
  in_u64 (base_fee_per_cu s) /\ in_u64 (parent_gas_used s) /\ in_u64 (current_gas_used s).

(** The formula of EIP-1559 over the integers. *)
Definition eip1559 (c : FeeMarketConfig) (current gas : Z) : Z :=
  let target := target_gas c in
  let d := base_fee_change_denominator c in
  if gas =? target then current
  else if target <? gas then current + Z.max (current * (gas - target) / (target * d)) 1
  else current - current * (target - gas) / (target * d).

Lemma target_gas_range c : config_ok c -> in_u64 (target_gas c).
Proof.
  unfold config_ok, target_gas, saturating_mul. intros.
  set (m := Z.min u64_max (max_block_compute_units c * target_utilization_pct c)).
  assert (0 <= m <= u64_max) by (subst m; nia).
  split; [apply Z.div_pos; lia|]. etrans; [apply Z.div_le_upper_bound with (q := m); lia|lia].
Qed.

Lemma clamp_range v lo hi : lo <= hi -> lo <= clamp v lo hi <= hi.
Proof. unfold clamp. repeat case_if; breflect; lia. Qed.

Lemma clamp_mono a b lo hi : a <= b -> lo <= hi -> clamp a lo hi <= clamp b lo hi.
Proof. unfold clamp. repeat case_if; breflect; lia. Qed.

Lemma clamp_id v lo hi : lo <= v <= hi -> clamp v lo hi = v.
Proof. unfold clamp. repeat case_if; breflect; lia. Qed.

(** a 64-bit by 64-bit product fits in 128 bits *)
Lemma mul_fits a b : in_u64 a -> in_u64 b -> saturating_mul u128_max a b = a * b.
Proof. intros. unfold saturating_mul. apply Z.min_r. nia. Qed.

Lemma clamp_cap v lo hi : lo <= u64_max -> hi <= u64_max -> clamp (Z.min u64_max v) lo hi = clamp v lo hi.
Proof. unfold clamp. repeat case_if; breflect; lia. Qed.

(** below the target the decrease is at most the fee *)
Lemma decrease_small current target gas d : 0 <= current -> 0 < d -> 0 <= gas < target ->
  0 <= current * (target - gas) / (target * d) <= current.
Proof.
  intros. split; [apply Z.div_pos; nia|].
  assert (target - gas <= target * d) by nia. apply Z.div_le_upper_bound; nia.
Qed.

Lemma next_base_fee_formula c s : config_ok c -> state_ok s -> 0 < target_gas c ->
  0 < base_fee_change_denominator c ->
  calculate_next_base_fee c s
  = clamp (eip1559 c (base_fee_per_cu s) (parent_gas_used s)) (min_base_fee c) (max_base_fee c).
Proof.
  intros Hc Hs Ht Hd. pose proof (target_gas_range c Hc). unfold config_ok, state_ok in *. destruct_and!.
  unfold calculate_next_base_fee, eip1559. set (t := target_gas c) in *. set (d := base_fee_change_denominator c) in *.
  set (f := base_fee_per_cu s) in *. set (g := parent_gas_used s) in *. clearbody t d f g.
  destruct (Z.eqb_spec t 0); [lia|]. destruct (Z.eqb_spec g t); [done|].
  unfold saturating_sub. rewrite (mul_fits t d) by lia. destruct (Z.eqb_spec (t * d) 0); [nia|].
  destruct (Z.ltb_spec t g).
  - rewrite (Z.max_r 0 (g - t)), mul_fits by lia. unfold saturating_add.
    pose proof (Z.div_pos (f * (g - t)) (t * d) ltac:(nia) ltac:(nia)).
    set (x := f * (g - t) / (t * d)) in *. clearbody x.
    replace (Z.min u64_max (f + Z.min (Z.max x 1) u64_max)) with (Z.min u64_max (f + Z.max x 1)) by lia.
    apply clamp_cap; lia.
  - rewrite (Z.max_r 0 (t - g)), mul_fits by lia. f_equal.
    pose proof (decrease_small f t g d ltac:(lia) ltac:(lia) ltac:(lia)). lia.
Qed.

Lemma eip1559_increase c f g : 0 <= f -> 0 < target_gas c -> 0 < base_fee_change_denominator c -> target_gas c < g ->
  f + 1 <= eip1559 c f g /\ (g <= 2 * target_gas c -> eip1559 c f g <= f + Z.max 1 (f / base_fee_change_denominator c)).
Proof.
  intros Hf Ht Hd Hg. unfold eip1559. set (t := target_gas c) in *. set (d := base_fee_change_denominator c) in *.
  clearbody t d. destruct (Z.eqb_spec g t); [lia|]. destruct (Z.ltb_spec t g); [|lia]. split; [lia|].
  intros Hle. assert (f * (g - t) / (t * d) <= f / d); [|lia].
  rewrite <- (Z.div_mul_cancel_r f d t) by lia. rewrite (Z.mul_comm t d). apply Z.div_le_mono; nia.
Qed.

Lemma eip1559_decrease c f g : 0 <= f -> 0 < target_gas c -> 0 < base_fee_change_denominator c -> 0 <= g <= target_gas c ->
  f - f / base_fee_change_denominator c <= eip1559 c f g <= f.
Proof.
  intros Hf Ht Hd Hg. unfold eip1559. set (t := target_gas c) in *. set (d := base_fee_change_denominator c) in *.
  clearbody t d. pose proof (Z.div_pos f d ltac:(lia) ltac:(lia)).
  destruct (Z.eqb_spec g t); [lia|]. destruct (Z.ltb_spec t g); [lia|].
  pose proof (Z.div_pos (f * (t - g)) (t * d) ltac:(nia) ltac:(nia)).
  assert (f * (t - g) / (t * d) <= f / d); [|lia].
  rewrite <- (Z.div_mul_cancel_r f d t) by lia. rewrite (Z.mul_comm t d). apply Z.div_le_mono; nia.
Qed.

(** ** Properties *)

(** The degenerate configurations: no target, or no denominator. *)
Lemma next_base_fee_degenerate c s : config_ok c -> state_ok s -> target_gas c = 0 \/ base_fee_change_denominator c = 0 ->
  calculate_next_base_fee c s
  = if (target_gas c =? 0) && (0 <? parent_gas_used s) then max_base_fee c
    else clamp (if target_gas c <? parent_gas_used s then 2 * base_fee_per_cu s else base_fee_per_cu s) (min_base_fee c) (max_base_fee c).
Proof.
  intros Hc Hs Hd. pose proof (target_gas_range c Hc). unfold config_ok, state_ok in *. destruct_and!. unfold calculate_next_base_fee.
  destruct (Z.eqb_spec (target_gas c) 0) as [E|E]; cbn [andb].
  - rewrite E. destruct (Z.ltb_spec 0 (parent_gas_used s)); done.
  - destruct Hd as [Hd|Hd]; [done|]. rewrite Hd. unfold saturating_mul, saturating_sub. rewrite Z.mul_0_r.
    change (Z.min u128_max 0) with 0. cbn [Z.eqb]. destruct (Z.eqb_spec (parent_gas_used s) (target_gas c)) as [->|]; [by rewrite Z.ltb_irrefl|].
    case_if; [|f_equal; lia]. unfold saturating_add. rewrite clamp_cap by lia. f_equal. lia.
Qed.

(** C24. [calculate_next_base_fee] computes the EIP-1559 formula exactly, on every 64-bit input: with a target and a
    denominator that are not 0 the 128-bit products do not saturate, the narrowing back to 64 bits loses nothing, and the
    result is the integer formula clamped to the configured bounds.  Without a target any usage gives the maximum fee, and
    an empty parent leaves the clamped fee; without a denominator the fee doubles above the target and stays
    otherwise, clamped. *)
Theorem next_base_fee_exact c s : config_ok c -> state_ok s ->
  calculate_next_base_fee c s
  = let clamped z := clamp z (min_base_fee c) (max_base_fee c) in
    let f := base_fee_per_cu s in
    let g := parent_gas_used s in
    if target_gas c =? 0 then if 0 <? g then max_base_fee c else clamped f
    else if base_fee_change_denominator c =? 0 then if target_gas c <? g then clamped (2 * f) else clamped f
    else clamped (eip1559 c f g).
Proof.
  intros Hc Hs. cbv zeta. pose proof (target_gas_range c Hc). destruct (Z.eqb_spec (target_gas c) 0) as [E|E].
  { rewrite next_base_fee_degenerate, E by auto. cbn [Z.eqb andb]. by destruct (0 <? parent_gas_used s). }
  destruct (Z.eqb_spec (base_fee_change_denominator c) 0) as [Ed|Ed].
  { rewrite next_base_fee_degenerate by auto. rewrite (proj2 (Z.eqb_neq _ _) E). cbn [andb]. by case_if. }
  apply next_base_fee_formula; try done; [lia|]. unfold config_ok in Hc. lia.
Qed.

Definition busy : BlockFeeState :=
  {| base_fee_per_cu := 10000; parent_gas_used := 36000000; current_gas_used := 0; fee_height := 4 |}.

Lemma default_ok : config_ok FeeMarketConfig_default /\ state_ok busy.
Proof. unfold config_ok, state_ok. simpl. lia. Qed.

Lemma next_base_fee_exact_witness :
  calculate_next_base_fee FeeMarketConfig_default busy = 10625 /\ clamp (eip1559 FeeMarketConfig_default 10000 36000000) 5000 50000000 = 10625.
Proof.
  split; [reflexivity|].
  refine (eq_trans (eq_sym (next_base_fee_exact FeeMarketConfig_default busy (proj1 default_ok) (proj2 default_ok))) _).
  vm_compute. reflexivity.
Defined.

(** For every valid configuration the next base fee stays within
    [min_base_fee] and [max_base_fee]; from a fee within the bounds it rises
    (by at least 1, up to the maximum) after a block above target, never
    rises after one at or below it, and changes by at most one
    [base_fee_change_denominator]-th (or 1) while usage is at most twice
    the target. *)
Theorem next_base_fee_adjusts c s : config_ok c -> state_ok s -> validate_config c = Ok tt -> 0 < target_gas c ->
  min_base_fee c <= base_fee_per_cu s <= max_base_fee c ->
  let f := base_fee_per_cu s in
  let f' := calculate_next_base_fee c s in
  min_base_fee c <= f' <= max_base_fee c
  /\ (target_gas c < parent_gas_used s -> Z.min (f + 1) (max_base_fee c) <= f')
  /\ (parent_gas_used s = target_gas c -> f' = f)
  /\ (parent_gas_used s <= target_gas c -> f - f / base_fee_change_denominator c <= f' <= f)
  /\ (parent_gas_used s <= 2 * target_gas c -> f' <= f + Z.max 1 (f / base_fee_change_denominator c)).
Proof.
  intros Hc Hs Hval Ht Hf f f'. unfold validate_config in Hval. do 3 (case_if; [done|]). breflect.
  pose proof Hs as (Hs1 & Hs2 & _). pose proof Hc as (? & ? & ? & ? & ? & ?).
  assert (Hd : 0 < base_fee_change_denominator c) by lia.
  unfold f'. rewrite next_base_fee_formula by done. fold f.
  pose proof (eip1559_increase c f (parent_gas_used s) ltac:(lia) Ht Hd) as Hinc.
  pose proof (eip1559_decrease c f (parent_gas_used s) ltac:(lia) Ht Hd) as Hdec.
  assert (Heq : parent_gas_used s = target_gas c -> eip1559 c f (parent_gas_used s) = f)
    by (intros ->; unfold eip1559; by rewrite Z.eqb_refl).
  pose proof (Z.div_pos f (base_fee_change_denominator c) ltac:(lia) ltac:(lia)).
  set (x := eip1559 c f (parent_gas_used s)) in *. clearbody x.
  split; [apply clamp_range; lia|]. unfold clamp, f in *. repeat split; intros; repeat case_if; breflect; lia.
Qed.

Lemma next_base_fee_adjusts_witness :
  Z.min (base_fee_per_cu busy + 1) (max_base_fee FeeMarketConfig_default) <= calculate_next_base_fee FeeMarketConfig_default busy.
Proof.
  refine (proj1 (proj2 (next_base_fee_adjusts FeeMarketConfig_default busy (proj1 default_ok) (proj2 default_ok) _ _ _)) _);
    vm_compute; (reflexivity || (split; congruence)).
Defined.

(** Validation accepts a transaction exactly when the requested compute
    units fit in a block, the priority fee reaches the minimum and the offer
    covers the fee; the fee is then the exact product of the summed rates and
    the compute units, without wrap-around, unless it is capped at
    [u64::MAX], which the offer must then reach. *)
Theorem validate_fee_iff offered prio rate cu c fee :
  in_u64 offered -> 0 <= prio -> 0 <= rate -> 0 <= cu ->
  validate_transaction_fee offered prio rate cu c = Ok fee <->
  cu <= max_block_compute_units c /\ min_priority_fee c <= prio /\ fee = calculate_transaction_fee rate prio cu
  /\ Z.min u64_max ((rate + prio) * cu) <= offered /\ total_fee fee = Z.min u64_max ((rate + prio) * cu).
Proof.
  intros Ho Hp Hr Hcu. unfold validate_transaction_fee.
  assert (Hfee : total_fee (calculate_transaction_fee rate prio cu) = Z.min u64_max ((rate + prio) * cu)).
  { simpl. unfold saturating_add, saturating_mul.
    pose proof (Z.mul_nonneg_nonneg rate cu Hr Hcu). pose proof (Z.mul_nonneg_nonneg prio cu Hp Hcu).
    rewrite Z.mul_add_distr_r. lia. }
  rewrite Hfee. set (T := Z.min u64_max ((rate + prio) * cu)) in *. clearbody T.
  repeat case_if; breflect; split; try done; try (intros (? & ? & ? & ? & ?); lia).
  - intros [= <-]. repeat split; lia.
  - intros (_ & _ & -> & _). done.
Qed.

Lemma validate_fee_iff_witness :
  validate_transaction_fee 2000000000 100 5000 200000 FeeMarketConfig_default
  = Ok (calculate_transaction_fee 5000 100 200000).
Proof.
  apply (validate_fee_iff 2000000000 100 5000 200000 FeeMarketConfig_default); simpl; try lia.
  repeat split; vm_compute; congruence.
Defined.

(** The base fee lags one block behind usage: the fee
    [update_base_fee_for_new_block] gives a block does not depend on what its
    parent consumed, and after a completely full parent on top of an empty
    grandparent it falls. *)
Theorem base_fee_ignores_parent_usage s cus cus' slot :
  base_fee_per_cu (update_base_fee_for_new_block (run_block s cus) slot)
  = base_fee_per_cu (update_base_fee_for_new_block (run_block s cus') slot)
  /\ let full := run_block (next_block (genesis 5000) 10000 1) [48000000] in
     base_fee_per_cu (update_base_fee_for_new_block full 2) < base_fee_per_cu full.
Proof.
  assert (Hrun : forall l s0, base_fee_per_cu (run_block s0 l) = base_fee_per_cu s0
    /\ parent_gas_used (run_block s0 l) = parent_gas_used s0).
  { induction l as [|cu l IH]; intros s0; [done|]. simpl. destruct (IH (record_transaction_compute s0 cu)) as [-> ->]. done. }
  split; [|vm_compute; reflexivity]. simpl.
  unfold calculate_next_base_fee. by rewrite !(proj1 (Hrun _ _)), !(proj2 (Hrun _ _)).
Qed.
