(* ===== verification/Borsh.v ===== *)
(** * Serialised state

    The programs keep their state in account data, through the [borsh] crate
    (structs of the programs) and [bincode] (instruction data), which are not
    part of the sources.  [Borsh] is what the programs rely on: what is
    written is read back, and what is read is a value of the type.  The
    combinators below give the format documented for Borsh (little-endian
    integers, fields in order, a [u32] length before a vector, one byte for a
    tag or a boolean) and show that the class can be inhabited. *)

From Stdlib Require Import ZArith Lia Ascii String.
From stdpp Require Import base numbers list option.
From coqutil Require Import Byte Word.LittleEndianList.
From S2P Require Import Prelude.
Local Open Scope Z_scope.

(** ** Keys as text: base 58, as in [declare_id!] *)

Definition base58_alphabet : string := "123456789ABCDEFGHJKLMNPQRSTUVWXYZabcdefghijkmnopqrstuvwxyz".

Fixpoint base58_digit (c : Ascii.ascii) (n : Z) (alphabet : string) : Z :=
  match alphabet with
  | EmptyString => 0
  | String c' rest => if Ascii.eqb c c' then n else base58_digit c (n + 1) rest
  end.

Fixpoint base58_acc (acc : Z) (s : string) : Z :=
  match s with
  | EmptyString => acc
  | String c rest => base58_acc (acc * 58 + base58_digit c 0 base58_alphabet) rest
  end.
Definition base58 (s : string) : Pubkey := base58_acc 0 s.

#[export] Instance byte_eq_decision : EqDecision Byte.byte := Byte.byte_eq_dec.

(** Encoding and decoding of the values that satisfy [ok]. *)
Record Codec {A : Type} (ok : A -> Prop) := {
  enc : A -> list Byte.byte;
  dec : list Byte.byte -> option (A * list Byte.byte);
  codec_roundtrip x rest : ok x -> dec (enc x ++ rest) = Some (x, rest);
  codec_range bs x rest : dec bs = Some (x, rest) -> ok x
}.
Arguments Build_Codec {A ok}. Arguments enc {A ok}. Arguments dec {A ok}.
Arguments codec_roundtrip {A ok}. Arguments codec_range {A ok}.

(** The values of a Rust type among those of its model: integers in range. *)
Class RustValue (A : Type) := value_ok : A -> Prop.

(** [derive(BorshSerialize, BorshDeserialize)] *)
Class Borsh (A : Type) `{RustValue A} := borsh : Codec (A := A) value_ok.

Definition to_vec `{Borsh A} (x : A) : list Byte.byte := enc borsh x.
Definition deserialize_reader `{Borsh A} (bs : list Byte.byte) : option (A * list Byte.byte) := dec borsh bs.

(** every value takes [n] bytes *)
Class BorshSize (A : Type) `{Borsh A} (n : nat) :=
  borsh_length x : value_ok x -> length (to_vec x) = n.

(** [try_from_slice]: the value and nothing after it *)
Definition try_from_slice `{Borsh A} (bs : list Byte.byte) : option A :=
  match deserialize_reader bs with
  | Some (x, []) => Some x
  | _ => None
  end.

(** Borsh is bijective: only the encoding of a value decodes to it. *)
Class CanonicalCodec {A} {ok : A -> Prop} (c : Codec ok) : Prop :=
  canonical bs x rest : dec c bs = Some (x, rest) -> bs = enc c x ++ rest.
Abbreviation BorshCanonical A := (CanonicalCodec (borsh (A := A))).

Lemma try_from_to_vec `{Borsh A} (x : A) : value_ok x -> try_from_slice (to_vec x) = Some x.
Proof.
  intros Hx. unfold try_from_slice, deserialize_reader, to_vec. rewrite <- (app_nil_r (enc borsh x)). by rewrite codec_roundtrip.
Qed.

Lemma try_from_slice_ok `{Borsh A} bs (x : A) : try_from_slice bs = Some x -> value_ok x.
Proof.
  unfold try_from_slice, deserialize_reader. destruct (dec borsh bs) as [[y [|]]|] eqn:E; try done. intros [= <-]. by eapply codec_range.
Qed.

Lemma try_from_slice_to_vec `{Borsh A} `{!BorshCanonical A} bs (x : A) : try_from_slice bs = Some x -> bs = to_vec x.
Proof.
  unfold try_from_slice, deserialize_reader. destruct (dec borsh bs) as [[y [|]]|] eqn:E; try done. intros [= <-].
  apply canonical in E. by rewrite app_nil_r in E.
Qed.

(** ** Buffers *)

Definition zero_bytes (n : nat) : list Byte.byte := replicate n Byte.x00.

(** [v.resize(n, 0)] *)
Definition resize (n : nat) (l : list Byte.byte) : list Byte.byte := take n l ++ zero_bytes (n - length l).

(** [x[0] = d; serialize(&mut x[1..])]: writes a tag and the value at the front
    of a buffer, the rest stays; an error when the buffer is too short *)
Definition write_tagged `{Borsh A} (d : Byte.byte) (x : A) (buf : list Byte.byte) : option (list Byte.byte) :=
  match buf with
  | [] => None
  | _ :: tl => if (length (to_vec x) <=? length tl)%nat
               then Some (d :: to_vec x ++ drop (length (to_vec x)) tl) else None
  end.

(** [deserialize]: a tag byte, then the value; trailing bytes are ignored *)
Definition read_tagged `{Borsh A} (d : Byte.byte) (buf : list Byte.byte) : option A :=
  match buf with
  | b :: tl => if decide (b = d) then fst <$> deserialize_reader tl else None
  | [] => None
  end.

Lemma length_resize n l : length (resize n l) = n.
Proof. unfold resize, zero_bytes. rewrite length_app, length_take, length_replicate. lia. Qed.

Lemma write_tagged_Some `{Borsh A} d x buf buf' : write_tagged d x buf = Some buf' ->
  length buf' = length buf /\ exists rest, buf' = d :: to_vec x ++ rest.
Proof.
  unfold write_tagged. destruct buf as [|b tl]; [done|]. case_match eqn:E; [|done]. intros [= <-].
  apply Nat.leb_le in E. split; [|by eexists]. simpl. rewrite length_app, length_drop. lia.
Qed.

Lemma write_tagged_total `{BorshSize A n} d x buf : value_ok x -> (S n <= length buf)%nat ->
  exists buf', write_tagged d x buf = Some buf'.
Proof.
  intros Hx Hl. unfold write_tagged. destruct buf as [|b tl]; simpl in *; [lia|].
  rewrite (borsh_length x Hx). replace (n <=? length tl)%nat with true by (symmetry; apply Nat.leb_le; lia). eauto.
Qed.

(** What is written is read back. *)
Lemma read_write_tagged `{Borsh A} d (x : A) buf buf' :
  value_ok x -> write_tagged d x buf = Some buf' -> read_tagged d buf' = Some x.
Proof.
  intros Hx (_ & rest & ->)%write_tagged_Some. simpl. rewrite decide_True by done.
  unfold deserialize_reader, to_vec. by rewrite codec_roundtrip.
Qed.

Lemma read_tagged_ok `{Borsh A} d (x : A) buf : read_tagged d buf = Some x -> value_ok x.
Proof.
  unfold read_tagged. destruct buf as [|b tl]; [done|]. case_decide; [|done].
  intros ([y rest] & Hy & ->)%fmap_Some. by eapply codec_range.
Qed.

(** ** The documented format *)

Definition read_bytes (n : nat) (bs : list Byte.byte) : option (list Byte.byte * list Byte.byte) :=
  if (n <=? length bs)%nat then Some (take n bs, drop n bs) else None.

Lemma read_bytes_app n l rest : length l = n -> read_bytes n (l ++ rest) = Some (l, rest).
Proof.
  intros <-. unfold read_bytes. rewrite length_app.
  replace (length l <=? length l + length rest)%nat with true by (symmetry; apply Nat.leb_le; lia).
  by rewrite take_app_length, drop_app_length.
Qed.

(** an unsigned integer of [n] bytes *)
Definition codec_uint (n : nat) : Codec (fun z => 0 <= z < 2 ^ (8 * Z.of_nat n)).
Proof.
  refine {| enc := le_split n;
            dec := fun bs => '(l, rest) ← read_bytes n bs; Some (le_combine l, rest) |}.
  - intros z rest Hz. rewrite read_bytes_app by apply length_le_split. simpl.
    rewrite le_combine_split, Z.mod_small by (rewrite (Z.mul_comm _ 8); lia). done.
  - intros bs z rest. unfold read_bytes. destruct (Nat.leb_spec n (length bs)); [|done]. simpl.
    intros [= <- _]. pose proof (le_combine_bound (take n bs)) as Hb. rewrite length_take_le in Hb by done. lia.
Defined.

(** a signed 64-bit integer, in two's complement *)
Definition codec_i64 : Codec (fun z => in_i64 z).
Proof.
  refine {| enc := le_split 8;
            dec := fun bs => '(l, rest) ← read_bytes 8 bs; Some (u64_as_i64 (le_combine l), rest) |}.
  - intros z rest Hz. rewrite read_bytes_app by apply length_le_split. cbn [mbind option_bind].
    rewrite le_combine_split. do 2 f_equal. change (2 ^ (Z.of_nat 8 * 8)) with 18446744073709551616.
    unfold u64_as_i64. pose proof (Z.mod_pos_bound z 18446744073709551616 ltac:(lia)).
    pose proof (Z.div_mod z 18446744073709551616 ltac:(lia)). case_if; breflect; nia.
  - intros bs z rest. unfold read_bytes. case_if; [|done]. cbn [mbind option_bind]. intros [= <- _].
    breflect. pose proof (le_combine_bound (take 8 bs)) as Hb. rewrite length_take_le in Hb by done.
    change (2 ^ (8 * Z.of_nat 8)) with 18446744073709551616 in Hb. unfold u64_as_i64. case_if; breflect; lia.
Defined.

(** a 32-byte array, in order *)
Definition codec_key : Codec in_pubkey.
Proof.
  refine {| enc := fun k => rev (le_split 32 k);
            dec := fun bs => '(l, rest) ← read_bytes 32 bs; Some (le_combine (rev l), rest) |}.
  - intros z rest Hz. rewrite read_bytes_app by (rewrite length_rev; apply length_le_split). cbn [mbind option_bind].
    unfold in_pubkey in Hz. rewrite rev_involutive, le_combine_split, Z.mod_small by lia. done.
  - intros bs z rest. unfold read_bytes. destruct (Nat.leb_spec 32 (length bs)); [|done]. cbn [mbind option_bind].
    intros [= <- _]. pose proof (le_combine_bound (rev (take 32 bs))) as Hb.
    rewrite length_rev, length_take_le in Hb by done. unfold in_pubkey. lia.
Defined.

Definition codec_bool : Codec (fun _ : bool => True).
Proof.
  refine {| enc := fun b : bool => [if b then Byte.x01 else Byte.x00];
            dec := fun bs => match bs with
              | Byte.x00 :: rest => Some (false, rest)
              | Byte.x01 :: rest => Some (true, rest)
              | _ => None
              end |}.
  - by intros [].
  - done.
Defined.

(** a struct: its fields one after the other *)
Definition codec_pair {A B okA okB} (a : Codec (A := A) okA) (b : Codec (A := B) okB) :
  Codec (fun x : A * B => okA x.1 /\ okB x.2).
Proof.
  refine {| enc := fun x => enc a x.1 ++ enc b x.2;
            dec := fun bs => '(x, rest) ← dec a bs; '(y, rest') ← dec b rest; Some ((x, y), rest') |}.
  - intros [x y] rest [Hx Hy]. simpl. rewrite <- app_assoc, codec_roundtrip by done. simpl.
    by rewrite codec_roundtrip.
  - intros bs [x y] rest ([x' r1] & Hx & ([y' r2] & Hy & [= -> -> ->])%bind_Some)%bind_Some.
    split; by eapply codec_range.
Defined.

(** a struct and the tuple of its fields; an enum and its tag *)
Definition codec_map {A B} {okA : A -> Prop} {okB : B -> Prop} (f : A -> B) (g : B -> A)
    (Hfg : forall b, okB b -> f (g b) = b /\ okA (g b)) (Hok : forall a, okA a -> okB (f a)) (a : Codec okA) : Codec okB.
Proof.
  refine {| enc := fun b => enc a (g b); dec := fun bs => '(x, rest) ← dec a bs; Some (f x, rest) |}.
  - intros b rest [Hb Ha]%Hfg. rewrite codec_roundtrip by done. simpl. by rewrite Hb.
  - intros bs b rest ([x r] & Hx & [= <- ->])%bind_Some. by eapply Hok, codec_range.
Defined.

(** an [Option]: a tag byte, then the value *)
Definition codec_option {A ok} (a : Codec (A := A) ok) :
  Codec (fun o => match o with Some x => ok x | None => True end).
Proof.
  refine {| enc := fun o => match o with Some x => Byte.x01 :: enc a x | None => [Byte.x00] end;
            dec := fun bs => match bs with
              | Byte.x00 :: rest => Some (None, rest)
              | Byte.x01 :: rest => '(x, rest') ← dec a rest; Some (Some x, rest')
              | _ => None
              end |}.
  - intros [x|] rest Hx; simpl; [by rewrite codec_roundtrip|done].
  - intros bs o rest Ho. destruct bs as [|[] bs]; try done; [by injection Ho as <- _|].
    apply bind_Some in Ho as ([x r] & Hx & [= <- ->]). by eapply codec_range.
Defined.

(** a [Vec]: a 32-bit length, then the elements *)
Fixpoint read_many {A ok} (a : Codec (A := A) ok) (n : nat) (bs : list Byte.byte) : option (list A * list Byte.byte) :=
  match n with
  | O => Some ([], bs)
  | S n' => '(x, rest) ← dec a bs; '(l, rest') ← read_many a n' rest; Some (x :: l, rest')
  end.

Lemma read_many_app {A ok} (a : Codec (A := A) ok) (l : list A) rest : Forall ok l ->
  read_many a (length l) (concat (map (enc a) l) ++ rest) = Some (l, rest).
Proof.
  induction 1 as [|x l Hx _ IH]; simpl; [done|]. rewrite <- app_assoc, codec_roundtrip by done. simpl.
  by rewrite IH.
Qed.

Lemma read_many_ok {A ok} (a : Codec (A := A) ok) n bs (l : list A) rest : read_many a n bs = Some (l, rest) ->
  length l = n /\ Forall ok l.
Proof.
  revert bs l. induction n as [|n IH]; intros bs l; simpl; [intros [= <- _]; by split|].
  intros ([x r1] & Hx & ([l' r2] & Hl & [= <- ->])%bind_Some)%bind_Some. destruct (IH _ _ Hl) as [<- ?].
  split; [done|]. constructor; [by eapply codec_range|done].
Qed.

Definition codec_vec {A ok} (a : Codec (A := A) ok) :
  Codec (fun l => Z.of_nat (length l) <= u32_max /\ Forall ok l).
Proof.
  refine {| enc := fun l => enc (codec_uint 4) (Z.of_nat (length l)) ++ concat (map (enc a) l);
            dec := fun bs => '(n, rest) ← dec (codec_uint 4) bs; read_many a (Z.to_nat n) rest |}.
  - intros l rest [Hn Hl]. rewrite <- app_assoc, codec_roundtrip by (change (2 ^ (8 * Z.of_nat 4)) with 4294967296; lia).
    cbn [mbind option_bind]. rewrite Nat2Z.id. by apply read_many_app.
  - intros bs l rest ([n r] & Hn & [Hlen Hl]%read_many_ok)%bind_Some.
    pose proof (codec_range (codec_uint 4) _ _ _ Hn) as Hr. cbv beta in Hr.
    change (2 ^ (8 * Z.of_nat 4)) with 4294967296 in Hr. split; [lia|done].
Defined.

(** ** The format is bijective *)

Lemma read_bytes_Some n bs l rest : read_bytes n bs = Some (l, rest) -> bs = l ++ rest /\ length l = n.
Proof.
  unfold read_bytes. destruct (Nat.leb_spec n (length bs)); [|done]. intros [= <- <-].
  by rewrite take_drop, length_take_le.
Qed.

#[export] Instance canonical_uint n : CanonicalCodec (codec_uint n).
Proof.
  intros bs z rest ([l r] & [-> <-]%read_bytes_Some & [= <- <-])%bind_Some. cbn [codec_uint enc].
  by rewrite split_le_combine.
Qed.
#[export] Instance canonical_key : CanonicalCodec codec_key.
Proof.
  intros bs z rest ([l r] & [-> Hl]%read_bytes_Some & [= <- <-])%bind_Some. unfold codec_key. cbn [enc].
  rewrite <- Hl, <- length_rev, split_le_combine. by rewrite rev_involutive.
Qed.
#[export] Instance canonical_bool : CanonicalCodec codec_bool.
Proof. intros [|[] bs] z rest; simpl; try done; by intros [= <- <-]. Qed.
#[export] Instance canonical_pair {A B okA okB} (a : Codec (A := A) okA) (b : Codec (A := B) okB)
  `{!CanonicalCodec a, !CanonicalCodec b} : CanonicalCodec (codec_pair a b).
Proof.
  intros bs [x y] rest ([x' r1] & ->%canonical & ([y' r2] & ->%canonical & [= -> -> ->])%bind_Some)%bind_Some.
  cbn [codec_pair enc fst snd]. by rewrite app_assoc.
Qed.
Lemma canonical_map {A B} {okA : A -> Prop} {okB : B -> Prop} (f : A -> B) (g : B -> A) Hfg Hok (a : Codec okA)
  `{!CanonicalCodec a} : (forall x, okA x -> g (f x) = x) -> CanonicalCodec (codec_map (okB := okB) f g Hfg Hok a).
Proof.
  intros Hgf bs b rest ([x r] & Hx & [= <- ->])%bind_Some. cbn [codec_map enc].
  rewrite Hgf by (by eapply codec_range). by apply canonical.
Qed.
#[export] Instance canonical_vec {A ok} (a : Codec (A := A) ok) `{!CanonicalCodec a} : CanonicalCodec (codec_vec a).
Proof.
  intros bs l rest ([n r] & Hn & Hl)%bind_Some. pose proof (codec_range _ _ _ _ Hn) as Hr. cbv beta in Hr. apply canonical in Hn as ->.
  pose proof (read_many_ok _ _ _ _ _ Hl) as [Hlen _]. cbn [codec_vec enc].
  rewrite <- app_assoc. f_equal; [f_equal; lia|]. clear -Hl CanonicalCodec0.
  revert r l Hl. induction (Z.to_nat n) as [|k IH]; intros r l; simpl; [by intros [= <- <-]|].
  intros ([x r1] & ->%canonical & ([l' r2] & Hl & [= <- ->])%bind_Some)%bind_Some. simpl. rewrite (IH _ _ Hl). by rewrite app_assoc.
Qed.

#[export] Hint Extern 1 (CanonicalCodec (codec_pair _ _)) => apply @canonical_pair : typeclass_instances.
#[export] Hint Extern 1 (CanonicalCodec (codec_vec _)) => apply @canonical_vec : typeclass_instances.
#[export] Hint Extern 1 (CanonicalCodec (codec_uint _)) => apply @canonical_uint : typeclass_instances.

(** ** Sizes *)

Lemma length_enc_uint n z : length (enc (codec_uint n) z) = n.
Proof. apply length_le_split. Qed.
Lemma length_enc_i64 z : length (enc codec_i64 z) = 8%nat.
Proof. apply length_le_split. Qed.
Lemma length_enc_key k : length (enc codec_key k) = 32%nat.
Proof. unfold codec_key. cbn [enc]. rewrite length_rev. apply length_le_split. Qed.
Lemma length_enc_bool b : length (enc codec_bool b) = 1%nat.
Proof. done. Qed.
Lemma length_enc_pair {A B okA okB} (a : Codec (A := A) okA) (b : Codec (A := B) okB) x y :
  length (enc (codec_pair a b) (x, y)) = (length (enc a x) + length (enc b y))%nat.
Proof. apply length_app. Qed.
Lemma length_enc_map {A B} {okA : A -> Prop} {okB : B -> Prop} (f : A -> B) (g : B -> A) Hfg Hok (a : Codec okA) (b : B) :
  length (enc (codec_map (okB := okB) f g Hfg Hok a) b) = length (enc a (g b)).
Proof. done. Qed.

Lemma length_enc_vec {A ok} (a : Codec (A := A) ok) n l : (forall x, length (enc a x) = n) ->
  length (enc (codec_vec a) l) = (4 + n * length l)%nat.
Proof.
  intros Ha. cbn [codec_vec enc]. rewrite length_app, (length_enc_uint 4). f_equal.
  induction l as [|x l IH]; simpl; [lia|]. rewrite length_app, Ha, IH. lia.
Qed.

Create Rewrite HintDb codec.
#[export] Hint Rewrite @length_enc_uint length_enc_i64 length_enc_key length_enc_bool @length_enc_pair @length_enc_map : codec.
