(* ===== verification/TxContext.v ===== *)
(** * Transaction context

    Models the transaction-context crate (transaction.rs, instruction.rs,
    instruction_accounts.rs, transaction_accounts.rs) and the parts of
    program-runtime/src/invoke_context.rs and svm/src/message_processor.rs that
    run built-in programs: the accounts of a transaction with their borrow
    counters, the checks on every change of an account, the instruction stack,
    and the loop over the instructions of a message.

    Built-in programs are written in the monad [M] over these operations. *)

From coqutil Require Import Byte.
From Stdlib Require Import ZArith Lia Ascii String.
From stdpp Require Import base numbers list option.
From S2P Require Import Prelude Borsh.
Local Open Scope Z_scope.

(** ** Errors *)

Inductive InstructionError :=
  | Custom (code : Z)
  | MissingAccount
  | MissingRequiredSignature
  | AccountBorrowFailed
  | AccountBorrowOutstanding
  | ModifiedProgramId
  | ExternalAccountLamportSpend
  | ReadonlyLamportChange
  | ReadonlyDataModified
  | ExternalAccountDataModified
  | AccountDataSizeChanged
  | InvalidRealloc
  | MaxAccountsDataAllocationsExceeded
  | ArithmeticOverflow
  | UnbalancedInstruction
  | CallDepth
  | MaxInstructionTraceLengthExceeded
  | ReentrancyNotAllowed
  | UnsupportedProgramId
  | UnsupportedSysvar
  | InvalidInstructionData
  | InvalidAccountData
  | InvalidAccountOwner
  | AccountDataTooSmall.

#[export] Instance InstructionError_eq_dec : EqDecision InstructionError.
Proof. solve_decision. Defined.

(** ** State *)

(** [AccountSharedFields] and [AccountPrivateFields] of one account; guest
    addresses are not modelled *)
Record Account := {
  acc_key : Pubkey;
  acc_owner : Pubkey;
  acc_lamports : Z;
  acc_data : list Byte.byte;
  acc_executable : bool;
  acc_rent_epoch : Z
}.

Record TransactionAccounts := {
  accounts : list Account;
  borrow_counters : list Z;
  touched_flags : list bool;
  resize_delta : Z;
  lamports_delta : Z
}.

Record InstructionAccount := {
  index_in_transaction : nat;
  is_signer : bool;
  is_writable : bool
}.

Record InstructionFrame := {
  nesting_level : nat;
  program_account_index_in_tx : nat;
  index_of_caller_instruction : option nat
}.

Record TransactionContext := {
  tx_accounts : TransactionAccounts;
  instruction_stack_capacity : nat;
  instruction_trace_capacity : nat;
  instruction_stack : list nat;
  instruction_trace : list InstructionFrame;
  tx_ix_accounts : list (list InstructionAccount);
  tx_dedup_maps : list (list (option nat));
  tx_ix_data : list (list Byte.byte);
  number_of_instructions : nat;
  number_of_executed_cpis : nat;
  current_executing_instruction : nat;
  top_level_instruction_index : nat
}.

(** view on one instruction of the trace *)
Record InstructionContext := {
  ix_index_in_trace : nat;
  ix_nesting_level : nat;
  ix_program_index : nat;
  ix_accounts : list InstructionAccount;
  ix_dedup_map : list (option nat);
  ix_data : list Byte.byte
}.

(** a mutably borrowed instruction account *)
Record BorrowedInstructionAccount := {
  b_account : InstructionAccount;
  b_program : nat
}.

Record Clock := { clock_slot : Z; clock_epoch : Z; clock_unix_timestamp : Z }.

(** what programs read from the invoke context: the cached clock sysvar *)
Record InvokeContext := { sysvar_clock : option Clock }.

Definition MAX_ACCOUNT_DATA_LEN : Z := 10 * 1024 * 1024.
Definition MAX_ACCOUNT_DATA_GROWTH_PER_TRANSACTION : Z := MAX_ACCOUNT_DATA_LEN * 2.
Definition MAX_ACCOUNTS_PER_TRANSACTION : nat := 256.

(** ** The monad of built-in programs

    State survives an error: what a failed instruction did before failing is
    still there, until the caller discards the transaction. *)

Definition M (A : Type) : Type :=
  InvokeContext -> TransactionContext -> result A InstructionError * TransactionContext.

#[export] Instance M_ret : MRet M := fun A a _ s => (Ok a, s).
#[export] Instance M_bind : MBind M := fun A B k m ic s =>
  match m ic s with
  | (Ok a, s') => k a ic s'
  | (Err e, s') => (Err e, s')
  end.

Definition fail {A} (e : InstructionError) : M A := fun _ s => (Err e, s).
Definition lift {A} (r : result A InstructionError) : M A := fun _ s => (r, s).
Definition lift_opt {A} (o : option A) (e : InstructionError) : M A := fun _ s => (ok_or o e, s).
Definition reads {A} (f : TransactionContext -> result A InstructionError) : M A := fun _ s => (f s, s).
(** [if !b { return Err(e) }] *)
Definition require (b : bool) (e : InstructionError) : M unit := if b then mret tt else fail e.

Definition set_tx_accounts (s : TransactionContext) (a : TransactionAccounts) : TransactionContext :=
  let 'Build_TransactionContext _ sc tc st tr ia dm dt ni nc ce tl := s in
  Build_TransactionContext a sc tc st tr ia dm dt ni nc ce tl.
Definition set_stack (s : TransactionContext) (stack : list nat) : TransactionContext :=
  let 'Build_TransactionContext a sc tc _ tr ia dm dt ni nc ce tl := s in
  Build_TransactionContext a sc tc stack tr ia dm dt ni nc ce tl.
Definition set_trace (s : TransactionContext) (trace : list InstructionFrame) : TransactionContext :=
  let 'Build_TransactionContext a sc tc st _ ia dm dt ni nc ce tl := s in
  Build_TransactionContext a sc tc st trace ia dm dt ni nc ce tl.
Definition set_frame (s : TransactionContext) (ni nc ce tl : nat) : TransactionContext :=
  let 'Build_TransactionContext a sc tc st tr ia dm dt _ _ _ _ := s in
  Build_TransactionContext a sc tc st tr ia dm dt ni nc ce tl.

(** update the [TransactionAccounts] *)
Definition modify_accounts (f : TransactionAccounts -> TransactionAccounts) : M unit :=
  fun _ s => (Ok tt, set_tx_accounts s (f (tx_accounts s))).

(** ** transaction_accounts.rs *)

Definition TransactionAccounts_new (l : list Account) : TransactionAccounts :=
  {| accounts := l; borrow_counters := replicate (length l) 0; touched_flags := replicate (length l) false;
     resize_delta := 0; lamports_delta := 0 |}.

(** [BorrowCounter]: an [i8], negative while written, positive while read *)
Definition counter_try_borrow (c : Z) : option Z := if c <? 0 then None else checked_add 127 c 1.
Definition counter_try_borrow_mut (c : Z) : option Z := if (c <? 0) || (0 <? c) then None else Some (Z.max (-128) (c - 1)).
Definition counter_release_mut (c : Z) : Z := Z.min 127 (c + 1).

Definition set_counter (i : nat) (c : Z) (t : TransactionAccounts) : TransactionAccounts :=
  {| accounts := accounts t; borrow_counters := <[i := c]> (borrow_counters t); touched_flags := touched_flags t;
     resize_delta := resize_delta t; lamports_delta := lamports_delta t |}.

Definition try_borrow_mut (i : nat) : M unit :=
  c ← reads (fun s => ok_or (borrow_counters (tx_accounts s) !! i) MissingAccount);
  c' ← lift_opt (counter_try_borrow_mut c) AccountBorrowFailed;
  modify_accounts (set_counter i c').

(** [Drop for AccountRefMut] *)
Definition release_mut (i : nat) : M unit :=
  modify_accounts (fun t => set_counter i (counter_release_mut (default 0 (borrow_counters t !! i))) t).

Definition touch (i : nat) : M unit :=
  _ ← reads (fun s => ok_or (touched_flags (tx_accounts s) !! i) MissingAccount);
  modify_accounts (fun t => {| accounts := accounts t; borrow_counters := borrow_counters t;
    touched_flags := <[i := true]> (touched_flags t); resize_delta := resize_delta t; lamports_delta := lamports_delta t |}).

Definition update_accounts_resize_delta (old_len new_len : Z) : M unit :=
  modify_accounts (fun t => {| accounts := accounts t; borrow_counters := borrow_counters t;
    touched_flags := touched_flags t;
    resize_delta := saturating_add_i i64_min i64_max (resize_delta t) (saturating_sub_i i64_min i64_max new_len old_len);
    lamports_delta := lamports_delta t |}).

Definition accounts_can_data_be_resized (old_len new_len : Z) : M unit :=
  require (negb (MAX_ACCOUNT_DATA_LEN <? new_len)) InvalidRealloc ;;
  rd ← reads (fun s => Ok (resize_delta (tx_accounts s)));
  let length_delta := saturating_sub_i i64_min i64_max new_len old_len in
  require (negb (MAX_ACCOUNT_DATA_GROWTH_PER_TRANSACTION <? saturating_add_i i64_min i64_max rd length_delta))
    MaxAccountsDataAllocationsExceeded.

Definition add_lamports_delta (balance : Z) : M unit :=
  d ← reads (fun s => Ok (lamports_delta (tx_accounts s)));
  d' ← lift_opt (checked_add_i i128_min i128_max d balance) ArithmeticOverflow;
  modify_accounts (fun t => {| accounts := accounts t; borrow_counters := borrow_counters t;
    touched_flags := touched_flags t; resize_delta := resize_delta t; lamports_delta := d' |}).

(** [get_key_of_account_at_index] *)
Definition key_at (s : TransactionContext) (i : nat) : result Pubkey InstructionError :=
  ok_or (acc_key <$> accounts (tx_accounts s) !! i) MissingAccount.

(** store into the account at an index *)
Definition put_account (i : nat) (f : Account -> Account) : M unit :=
  modify_accounts (fun t => {| accounts := alter f i (accounts t); borrow_counters := borrow_counters t;
    touched_flags := touched_flags t; resize_delta := resize_delta t; lamports_delta := lamports_delta t |}).

Definition with_lamports (l : Z) (a : Account) : Account :=
  {| acc_key := acc_key a; acc_owner := acc_owner a; acc_lamports := l; acc_data := acc_data a;
     acc_executable := acc_executable a; acc_rent_epoch := acc_rent_epoch a |}.
Definition with_data (d : list Byte.byte) (a : Account) : Account :=
  {| acc_key := acc_key a; acc_owner := acc_owner a; acc_lamports := acc_lamports a; acc_data := d;
     acc_executable := acc_executable a; acc_rent_epoch := acc_rent_epoch a |}.
Definition with_owner (o : Pubkey) (a : Account) : Account :=
  {| acc_key := acc_key a; acc_owner := o; acc_lamports := acc_lamports a; acc_data := acc_data a;
     acc_executable := acc_executable a; acc_rent_epoch := acc_rent_epoch a |}.

(** ** transaction.rs *)

Definition get_instruction_trace_length (s : TransactionContext) : nat := pred (length (instruction_trace s)).

Definition get_instruction_context_at_index_in_trace (i : nat) : M InstructionContext :=
  reads (fun s =>
    match instruction_trace s !! i with
    | None => Err CallDepth
    | Some fr => Ok {| ix_index_in_trace := i; ix_nesting_level := nesting_level fr;
                       ix_program_index := program_account_index_in_tx fr;
                       ix_accounts := default [] (tx_ix_accounts s !! i);
                       ix_dedup_map := default [] (tx_dedup_maps s !! i);
                       ix_data := default [] (tx_ix_data s !! i) |}
    end).

Definition get_current_instruction_index : M nat :=
  reads (fun s => ok_or (list.last (instruction_stack s)) CallDepth).

Definition get_current_instruction_context : M InstructionContext :=
  i ← get_current_instruction_index;
  get_instruction_context_at_index_in_trace i.

Definition get_instruction_context_at_nesting_level (level : nat) : M InstructionContext :=
  i ← reads (fun s => ok_or (instruction_stack s !! level) CallDepth);
  get_instruction_context_at_index_in_trace i.

Definition configure_next_instruction (program_index : nat) (ias : list InstructionAccount)
    (dedup : list (option nat)) (data : list Byte.byte) (caller_index : option nat) : M unit :=
  fun _ s =>
    match list.last (instruction_trace s) with
    | None => (Err CallDepth, s)
    | Some fr =>
        let fr' := {| nesting_level := nesting_level fr; program_account_index_in_tx := program_index;
                      index_of_caller_instruction := match caller_index with
                        | Some c => Some c | None => index_of_caller_instruction fr end |} in
        let ni := match caller_index with Some _ => S (number_of_instructions s) | None => number_of_instructions s end in
        (Ok tt, {| tx_accounts := tx_accounts s;
                   instruction_stack_capacity := instruction_stack_capacity s;
                   instruction_trace_capacity := instruction_trace_capacity s;
                   instruction_stack := instruction_stack s;
                   instruction_trace := take (get_instruction_trace_length s) (instruction_trace s) ++ [fr'];
                   tx_ix_accounts := tx_ix_accounts s ++ [ias];
                   tx_dedup_maps := tx_dedup_maps s ++ [dedup];
                   tx_ix_data := tx_ix_data s ++ [data];
                   number_of_instructions := ni;
                   number_of_executed_cpis := number_of_executed_cpis s;
                   current_executing_instruction := current_executing_instruction s;
                   top_level_instruction_index := top_level_instruction_index s |})
    end.

Definition InstructionFrame_default : InstructionFrame :=
  {| nesting_level := 0; program_account_index_in_tx := 0; index_of_caller_instruction := None |}.

Definition TransactionContext_new (l : list Account) (stack_capacity trace_capacity n_top_level : nat) : TransactionContext :=
  {| tx_accounts := TransactionAccounts_new l; instruction_stack_capacity := stack_capacity;
     instruction_trace_capacity := trace_capacity; instruction_stack := [];
     instruction_trace := [InstructionFrame_default]; tx_ix_accounts := []; tx_dedup_maps := []; tx_ix_data := [];
     number_of_instructions := n_top_level; number_of_executed_cpis := 0; current_executing_instruction := 0;
     top_level_instruction_index := 0 |}.

(** The instructions sysvar is maintained by another crate: its address, its
    owner, and how the current index is stored in its data. *)
Class InstructionsSysvar := {
  instructions_id : Pubkey;
  sysvar_id : Pubkey;
  store_current_index_checked : list Byte.byte -> nat -> result (list Byte.byte) InstructionError
}.

(** a scope that holds a mutable reference to account [i] *)
Definition with_account_mut {A} (i : nat) (body : M A) : M A :=
  try_borrow_mut i ;;
  ((fun ic s => let '(r, s1) := body ic s in (r, (release_mut i ic s1).2)) : M A).

(** the last lines of [push] *)
Definition store_instructions_sysvar `{InstructionsSysvar} : M unit :=
  found ← reads (fun s => Ok (fst <$> list_find (fun a => acc_key a = instructions_id) (accounts (tx_accounts s))));
  match found with
  | None => mret tt
  | Some i =>
      with_account_mut i (
        a ← reads (fun s => ok_or (accounts (tx_accounts s) !! i) MissingAccount);
        require (bool_decide (acc_owner a = sysvar_id)) InvalidAccountOwner ;;
        tl ← reads (fun s => Ok (top_level_instruction_index s));
        d ← lift (store_current_index_checked (acc_data a) tl);
        put_account i (with_data d))
  end.

Definition push `{InstructionsSysvar} : M unit :=
  level ← reads (fun s => Ok (length (instruction_stack s)));
  delta ← reads (fun s => Ok (lamports_delta (tx_accounts s)));
  require (negb (negb (level =? 0)%nat && negb (delta =? 0))) UnbalancedInstruction ;;
  fr ← reads (fun s => ok_or (list.last (instruction_trace s)) CallDepth);
  i ← reads (fun s => Ok (get_instruction_trace_length s));
  (fun _ s => (Ok tt, set_trace s (take i (instruction_trace s) ++
     [{| nesting_level := level; program_account_index_in_tx := program_account_index_in_tx fr;
         index_of_caller_instruction := index_of_caller_instruction fr |}]))) ;;
  tc ← reads (fun s => Ok (instruction_trace_capacity s));
  require (i <? tc)%nat MaxInstructionTraceLengthExceeded ;;
  (fun _ s => (Ok tt, set_trace s (instruction_trace s ++ [InstructionFrame_default]))) ;;
  sc ← reads (fun s => Ok (instruction_stack_capacity s));
  require (level <? sc)%nat CallDepth ;;
  (fun _ s => (Ok tt, set_stack (set_frame s (number_of_instructions s) (number_of_executed_cpis s) i
                                   (top_level_instruction_index s)) (instruction_stack s ++ [i]))) ;;
  store_instructions_sysvar.

(** [get_index_of_program_account_in_transaction]; [u16::MAX] marks a missing one *)
Definition get_index_of_program_account_in_transaction (ix : InstructionContext) : result nat InstructionError :=
  if Z.of_nat (ix_program_index ix) =? u16_max then Err MissingAccount else Ok (ix_program_index ix).

(** whether the instruction is unbalanced, as [pop] detects it *)
Definition detect_unbalanced : M bool :=
  ix ← get_current_instruction_context;
  p ← lift (get_index_of_program_account_in_transaction ix);
  (fun ic s => let '(r, s') := try_borrow_mut p ic s in
     (map_err (fun e => match e with AccountBorrowFailed => AccountBorrowOutstanding | _ => e end) r, s')) ;;
  release_mut p ;;
  d ← reads (fun s => Ok (lamports_delta (tx_accounts s)));
  mret (negb (d =? 0)).

Definition pop : M unit := fun ic s =>
  match instruction_stack s with
  | [] => (Err CallDepth, s)
  | _ =>
      let '(detected, s) := detect_unbalanced ic s in
      let stack := take (pred (length (instruction_stack s))) (instruction_stack s) in
      let s := set_stack s stack in
      let s := match list.last stack with
        | Some i => set_frame s (number_of_instructions s) (S (number_of_executed_cpis s)) i (top_level_instruction_index s)
        | None => set_frame s (number_of_instructions s) (number_of_executed_cpis s) (current_executing_instruction s)
                            (S (top_level_instruction_index s))
        end in
      match detected with
      | Err e => (Err e, s)
      | Ok true => (Err UnbalancedInstruction, s)
      | Ok false => (Ok tt, s)
      end
  end.

(** ** instruction.rs *)

Definition check_number_of_instruction_accounts (ix : InstructionContext) (expected_at_least : nat) : M unit :=
  require (expected_at_least <=? length (ix_accounts ix))%nat MissingAccount.

Definition get_index_of_instruction_account_in_transaction (ix : InstructionContext) (i : nat) : M nat :=
  lift_opt (index_in_transaction <$> ix_accounts ix !! i) MissingAccount.

Definition get_program_key (ix : InstructionContext) : M Pubkey :=
  i ← lift (get_index_of_program_account_in_transaction ix);
  reads (fun s => key_at s i).

Definition is_instruction_account_signer (ix : InstructionContext) (i : nat) : M bool :=
  lift_opt (is_signer <$> ix_accounts ix !! i) MissingAccount.

Definition is_instruction_account_writable (ix : InstructionContext) (i : nat) : M bool :=
  lift_opt (is_writable <$> ix_accounts ix !! i) MissingAccount.

Definition get_key_of_instruction_account (ix : InstructionContext) (i : nat) : M Pubkey :=
  j ← get_index_of_instruction_account_in_transaction ix i;
  reads (fun s => key_at s j).

Definition try_borrow_instruction_account (ix : InstructionContext) (i : nat) : M BorrowedInstructionAccount :=
  ia ← lift_opt (ix_accounts ix !! i) MissingAccount;
  try_borrow_mut (index_in_transaction ia) ;;
  mret {| b_account := ia; b_program := ix_program_index ix |}.

(** A scope that borrows instruction account [i]: the guard is dropped at its
    end, whether the body returns or fails. *)
Definition borrowing {A} (ix : InstructionContext) (i : nat) (body : BorrowedInstructionAccount -> M A) : M A :=
  b ← try_borrow_instruction_account ix i;
  (fun ic s => let '(r, s1) := body b ic s in (r, (release_mut (index_in_transaction (b_account b)) ic s1).2)) : M A.

(** ** instruction_accounts.rs *)

Definition borrowed (b : BorrowedInstructionAccount) : M Account :=
  reads (fun s => ok_or (accounts (tx_accounts s) !! index_in_transaction (b_account b)) MissingAccount).

Definition get_owner (b : BorrowedInstructionAccount) : M Pubkey := a ← borrowed b; mret (acc_owner a).
Definition get_lamports (b : BorrowedInstructionAccount) : M Z := a ← borrowed b; mret (acc_lamports a).
Definition get_data (b : BorrowedInstructionAccount) : M (list Byte.byte) := a ← borrowed b; mret (acc_data a).

Definition is_owned_by_current_program (b : BorrowedInstructionAccount) : M bool :=
  a ← borrowed b;
  reads (fun s => match key_at s (b_program b) with
                  | Ok k => Ok (bool_decide (k = acc_owner a))
                  | Err _ => Ok false
                  end).

Definition can_data_be_changed (b : BorrowedInstructionAccount) : M unit :=
  require (is_writable (b_account b)) ReadonlyDataModified ;;
  o ← is_owned_by_current_program b;
  require o ExternalAccountDataModified.

Definition can_data_be_resized (b : BorrowedInstructionAccount) (new_len : Z) : M unit :=
  a ← borrowed b;
  let old_len := Z.of_nat (length (acc_data a)) in
  o ← is_owned_by_current_program b;
  require (negb (negb (new_len =? old_len) && negb o)) AccountDataSizeChanged ;;
  accounts_can_data_be_resized old_len new_len ;;
  can_data_be_changed b.

Definition set_lamports (b : BorrowedInstructionAccount) (lamports : Z) : M unit :=
  a ← borrowed b;
  o ← is_owned_by_current_program b;
  require (negb (negb o && (lamports <? acc_lamports a))) ExternalAccountLamportSpend ;;
  require (is_writable (b_account b)) ReadonlyLamportChange ;;
  if acc_lamports a =? lamports then mret tt
  else
    add_lamports_delta (saturating_sub_i i128_min i128_max lamports (acc_lamports a)) ;;
    touch (index_in_transaction (b_account b)) ;;
    put_account (index_in_transaction (b_account b)) (with_lamports lamports).

Definition checked_add_lamports (b : BorrowedInstructionAccount) (lamports : Z) : M unit :=
  l ← get_lamports b;
  n ← lift_opt (checked_add u64_max l lamports) ArithmeticOverflow;
  set_lamports b n.

Definition checked_sub_lamports (b : BorrowedInstructionAccount) (lamports : Z) : M unit :=
  l ← get_lamports b;
  n ← lift_opt (checked_sub l lamports) ArithmeticOverflow;
  set_lamports b n.

Definition set_data_from_slice (b : BorrowedInstructionAccount) (d : list Byte.byte) : M unit :=
  can_data_be_resized b (Z.of_nat (length d)) ;;
  touch (index_in_transaction (b_account b)) ;;
  a ← borrowed b;
  update_accounts_resize_delta (Z.of_nat (length (acc_data a))) (Z.of_nat (length d)) ;;
  put_account (index_in_transaction (b_account b)) (with_data d).

Definition set_data_length (b : BorrowedInstructionAccount) (new_length : nat) : M unit :=
  can_data_be_resized b (Z.of_nat new_length) ;;
  a ← borrowed b;
  if (length (acc_data a) =? new_length)%nat then mret tt
  else
    touch (index_in_transaction (b_account b)) ;;
    update_accounts_resize_delta (Z.of_nat (length (acc_data a))) (Z.of_nat new_length) ;;
    put_account (index_in_transaction (b_account b)) (with_data (resize new_length (acc_data a))).

Definition extend_from_slice (b : BorrowedInstructionAccount) (d : list Byte.byte) : M unit :=
  a ← borrowed b;
  let new_len := Z.of_nat (length (acc_data a)) + Z.of_nat (length d) in
  can_data_be_resized b new_len ;;
  if (length d =? 0)%nat then mret tt
  else
    touch (index_in_transaction (b_account b)) ;;
    update_accounts_resize_delta (Z.of_nat (length (acc_data a))) new_len ;;
    put_account (index_in_transaction (b_account b)) (with_data (acc_data a ++ d)).

(** chunks of 1024 zero bytes and a zero remainder: all bytes are zero *)
Definition is_zeroed (buf : list Byte.byte) : bool := forallb (fun x => bool_decide (x = Byte.x00)) buf.

Definition set_owner (b : BorrowedInstructionAccount) (k : Pubkey) : M unit :=
  a ← borrowed b;
  o ← is_owned_by_current_program b;
  require o ModifiedProgramId ;;
  require (is_writable (b_account b)) ModifiedProgramId ;;
  require (is_zeroed (acc_data a)) ModifiedProgramId ;;
  if decide (acc_owner a = k) then mret tt
  else
    touch (index_in_transaction (b_account b)) ;;
    put_account (index_in_transaction (b_account b)) (with_owner k).

(** ** invoke_context.rs and message_processor.rs *)

Definition get_clock : M Clock := fun ic s => (ok_or (sysvar_clock ic) UnsupportedSysvar, s).

(** the program key of an instruction, if it has one *)
Definition program_key_is (k : Pubkey) (m : M InstructionContext) : M bool := fun ic s =>
  match (ix ← m; get_program_key ix) ic s with
  | (Ok k', _) => (Ok (bool_decide (k' = k)), s)
  | (Err _, _) => (Ok false, s)
  end.

(** [(0..height).any(|level| ...)] *)
Fixpoint any_level (f : nat -> M bool) (levels : list nat) : M bool :=
  match levels with
  | [] => mret false
  | l :: ls => b ← f l; if (b : bool) then mret true else any_level f ls
  end.

Definition ic_push `{InstructionsSysvar} : M unit :=
  n ← reads (fun s => Ok (get_instruction_trace_length s));
  ix ← get_instruction_context_at_index_in_trace n;
  program_id ← (fun ic s => let '(r, s') := get_program_key ix ic s in (map_err (fun _ => UnsupportedProgramId) r, s'));
  height ← reads (fun s => Ok (length (instruction_stack s)));
  (if (height =? 0)%nat then mret tt
   else
     contains ← any_level (fun level => program_key_is program_id (get_instruction_context_at_nesting_level level)) (seq 0 height);
     is_last ← program_key_is program_id get_current_instruction_context;
     require (negb (contains && negb is_last)) ReentrancyNotAllowed) ;;
  push.

(** [self.push()?; self.process_executable_chain().and(self.pop())], with the
    entrypoint of the program as the chain *)
Definition and_pop (chain : M unit) : M unit := fun ic s =>
  let '(r, s1) := chain ic s in
  let '(p, s2) := pop ic s1 in
  (result_and r p, s2).

Definition process_instruction `{InstructionsSysvar} (chain : M unit) : M unit := ic_push ;; and_pop chain.

(** one instruction of a message: the index of its program, its accounts, its data *)
Record SvmInstruction := {
  si_program : nat;
  si_accounts : list nat;
  si_data : list Byte.byte
}.

(** the loop of [prepare_next_top_level_instruction] *)
Definition collect_instruction_accounts (signer writable : nat -> bool) (l : list nat)
    : list InstructionAccount * list (option nat) :=
  foldl (fun '(ias, dm) i =>
    let dm' := match dm !! i with
      | Some None => <[i := Some (length ias)]> dm
      | Some (Some j) => if (length ias <? j)%nat then <[i := Some (length ias)]> dm else dm
      | None => dm
      end in
    (ias ++ [{| index_in_transaction := i; is_signer := signer i; is_writable := writable i |}], dm'))
    ([], replicate MAX_ACCOUNTS_PER_TRANSACTION None) l.

Definition prepare_next_top_level_instruction (signer writable : nat -> bool) (si : SvmInstruction) : M unit :=
  let '(ias, dm) := collect_instruction_accounts signer writable (si_accounts si) in
  configure_next_instruction (si_program si) ias dm (si_data si) None.

(** [TransactionError::InstructionError], the only one a message's execution gives *)
Inductive TransactionError :=
  | TxInstructionError (index : Z) (err : InstructionError).

(** The loop of [process_message] from instruction [n] on.  [program] gives the
    entrypoint of each instruction's program, or the verification a precompile
    does: [process_precompile] runs it between the same [push] and [pop]. *)
Fixpoint process_message `{InstructionsSysvar} (signer writable : nat -> bool) (program : SvmInstruction -> M unit)
    (n : Z) (l : list SvmInstruction) (ic : InvokeContext) (s : TransactionContext)
    : result unit TransactionError * TransactionContext :=
  match l with
  | [] => (Ok tt, s)
  | si :: l' =>
      match (prepare_next_top_level_instruction signer writable si ;; process_instruction (program si)) ic s with
      | (Ok _, s') => process_message signer writable program (n + 1) l' ic s'
      | (Err e, s') => (Err (TxInstructionError (n mod (u8_max + 1)) e), s')
      end
  end.

