(* ===== verification/TxSafety.v ===== *)
(** * What the runtime guarantees of every program

    The class [SafeProgram] is what the checks of the transaction context
    promise of any program written over its operations: only accounts the
    instruction marks writable change, only accounts the program owns lose
    lamports or change data or owner, and the lamport delta accounts for every
    change.  Each operation has a rule, and [solve_safe] composes them.  A
    message whose programs are safe neither creates nor destroys lamports. *)

From coqutil Require Import Byte.
From Stdlib Require Import ZArith Lia.
From stdpp Require Import base numbers list option.
From S2P Require Import Prelude Borsh TxContext.
Local Open Scope Z_scope.

(** ** Safety of programs *)

(** the instruction being executed *)
Definition current (s : TransactionContext) : option InstructionContext :=
  i ← list.last (instruction_stack s);
  fr ← instruction_trace s !! i;
  Some {| ix_index_in_trace := i; ix_nesting_level := nesting_level fr;
          ix_program_index := program_account_index_in_tx fr;
          ix_accounts := default [] (tx_ix_accounts s !! i);
          ix_dedup_map := default [] (tx_dedup_maps s !! i);
          ix_data := default [] (tx_ix_data s !! i) |}.

Abbreviation accs s := (accounts (tx_accounts s)).
Definition total_lamports (s : TransactionContext) : Z := zsum (map acc_lamports (accs s)).
Abbreviation delta s := (lamports_delta (tx_accounts s)).

(** some entry of the instruction makes account [i] writable *)
Definition ix_writable (ix : InstructionContext) (i : nat) : Prop :=
  exists ia, ia ∈ ix_accounts ix /\ index_in_transaction ia = i /\ is_writable ia = true.

(** What a program with key [P] may do to account [i]. *)
Record acc_rel (ix : InstructionContext) (P : option Pubkey) (i : nat) (a a' : Account) : Prop := {
  ar_key : acc_key a' = acc_key a;
  ar_exec : acc_executable a' = acc_executable a;
  ar_readonly : ~ ix_writable ix i -> a' = a;
  ar_owner : Some (acc_owner a) <> P ->
    acc_owner a' = acc_owner a /\ acc_data a' = acc_data a /\ acc_lamports a <= acc_lamports a';
  ar_assign : acc_owner a' <> acc_owner a -> is_zeroed (acc_data a') = true;
  ar_range : in_u64 (acc_lamports a) -> in_u64 (acc_lamports a')
}.

Definition program_key (ix : InstructionContext) (s : TransactionContext) : option Pubkey :=
  acc_key <$> accs s !! ix_program_index ix.

(** the tables of [TransactionAccounts] have one entry per account, and
    balances are [u64]s *)
Record tx_wf (s : TransactionContext) : Prop := {
  wf_counters : length (borrow_counters (tx_accounts s)) = length (accs s);
  wf_touched : length (touched_flags (tx_accounts s)) = length (accs s);
  wf_lamports i a : accs s !! i = Some a -> in_u64 (acc_lamports a)
}.

Record step_ok (ix : InstructionContext) (s s' : TransactionContext) : Prop := {
  so_frame : s' = set_tx_accounts s (tx_accounts s');
  so_len : length (accs s') = length (accs s);
  so_counters : borrow_counters (tx_accounts s') = borrow_counters (tx_accounts s);
  so_touched : length (touched_flags (tx_accounts s')) = length (touched_flags (tx_accounts s));
  so_delta : total_lamports s' - delta s' = total_lamports s - delta s;
  so_accounts : forall i a, accs s !! i = Some a ->
    exists a', accs s' !! i = Some a' /\ acc_rel ix (program_key ix s) i a a'
}.

Definition safe {A} (ix : InstructionContext) (m : M A) : Prop :=
  forall ic s r s', tx_wf s -> current s = Some ix -> m ic s = (r, s') -> step_ok ix s s'.

Class SafeProgram (m : M unit) := safe_program ix : safe ix m.

(** a borrowed account of the instruction *)
Definition b_ok (ix : InstructionContext) (b : BorrowedInstructionAccount) : Prop :=
  b_account b ∈ ix_accounts ix /\ b_program b = ix_program_index ix.

Lemma acc_rel_refl ix P i a : acc_rel ix P i a a.
Proof. split; try done. Qed.

Lemma acc_rel_trans ix P i a1 a2 a3 : acc_rel ix P i a1 a2 -> acc_rel ix P i a2 a3 -> acc_rel ix P i a1 a3.
Proof.
  intros [? ? Hr1 Ho1 Has1 ?] [? ? Hr2 Ho2 Has2 ?]. split; try congruence.
  - intros Hw. rewrite Hr2, Hr1 by done. done.
  - intros Hp. destruct (Ho1 Hp) as (E1 & E2 & E3). rewrite E1 in Ho2.
    destruct (Ho2 Hp) as (E1' & E2' & E3'). split_and!; [congruence|congruence|lia].
  - intros Hne. destruct (decide (acc_owner a3 = acc_owner a2)) as [E|]; [|by apply Has2].
    assert (acc_owner a2 <> acc_owner a1) as Hne1 by congruence.
    destruct (decide (Some (acc_owner a1) = P)) as [<-|Hp]; [|by destruct (Ho1 Hp)].
    destruct Ho2 as (_ & -> & _); [congruence|]. by apply Has1.
  - auto.
Qed.

Lemma set_tx_accounts_id s : set_tx_accounts s (tx_accounts s) = s.
Proof. by destruct s. Qed.
Lemma set_tx_accounts_twice s a b : set_tx_accounts (set_tx_accounts s a) b = set_tx_accounts s b.
Proof. by destruct s. Qed.
Lemma tx_accounts_set s a : tx_accounts (set_tx_accounts s a) = a.
Proof. by destruct s. Qed.
Lemma current_set s a : current (set_tx_accounts s a) = current s.
Proof. by destruct s. Qed.

Lemma step_ok_refl ix s : step_ok ix s s.
Proof. split; try done; [by rewrite set_tx_accounts_id|]. eauto using acc_rel_refl. Qed.

Lemma step_ok_key ix s s' : step_ok ix s s' -> program_key ix s' = program_key ix s.
Proof.
  intros [_ Hl _ _ _ Ha]. unfold program_key. destruct (accs s !! ix_program_index ix) as [a|] eqn:E.
  - destruct (Ha _ _ E) as (a' & -> & Hr). simpl. f_equal. apply Hr.
  - apply lookup_ge_None in E. rewrite <- Hl in E. by apply lookup_ge_None in E as ->.
Qed.

Lemma step_ok_trans ix s1 s2 s3 : step_ok ix s1 s2 -> step_ok ix s2 s3 -> step_ok ix s1 s3.
Proof.
  intros H1 H2. pose proof (step_ok_key _ _ _ H1) as Hk. destruct H1 as [Hf1 Hl1 Hc1 Ht1 Hd1 Ha1], H2 as [Hf2 Hl2 Hc2 Ht2 Hd2 Ha2].
  split; try lia; [|congruence|].
  - rewrite Hf2. rewrite Hf1 at 1. by rewrite set_tx_accounts_twice, tx_accounts_set.
  - intros i a Hi. destruct (Ha1 _ _ Hi) as (a2 & Hi2 & Hr1). destruct (Ha2 _ _ Hi2) as (a3 & Hi3 & Hr2).
    exists a3. split; [done|]. rewrite Hk in Hr2. by eapply acc_rel_trans.
Qed.

Lemma step_ok_current ix s s' : step_ok ix s s' -> current s' = current s.
Proof. intros [Hf _ _ _ _ _]. rewrite Hf. apply current_set. Qed.

Lemma step_ok_wf ix s s' : step_ok ix s s' -> tx_wf s -> tx_wf s'.
Proof.
  intros [_ Hl Hc Ht _ Ha] [Hc0 Ht0 Hr0]. split; [by rewrite Hc, Hl|lia|]. intros i a' Hi.
  destruct (lookup_lt_is_Some_2 (accs s) i) as [a Hia]; [rewrite <- Hl; by apply lookup_lt_Some in Hi|].
  destruct (Ha _ _ Hia) as (a2 & Hi2 & Hr). simplify_eq. eapply ar_range; eauto.
Qed.

Create HintDb safe.

Section safe_rules.
Context (ix : InstructionContext).

Lemma safe_readonly {A} (m : M A) : (forall ic s, (m ic s).2 = s) -> safe ix m.
Proof. intros Hm ic s r s' _ _ Hr. pose proof (Hm ic s) as E. rewrite Hr in E. simpl in E. subst. apply step_ok_refl. Qed.

Lemma safe_ret {A} (a : A) : safe ix (mret a).
Proof. by apply safe_readonly. Qed.
Lemma safe_fail {A} e : safe ix (@fail A e).
Proof. by apply safe_readonly. Qed.
Lemma safe_lift {A} (r : result A InstructionError) : safe ix (lift r).
Proof. by apply safe_readonly. Qed.
Lemma safe_lift_opt {A} (o : option A) e : safe ix (lift_opt o e).
Proof. by apply safe_readonly. Qed.
Lemma safe_reads {A} (f : TransactionContext -> result A InstructionError) : safe ix (reads f).
Proof. by apply safe_readonly. Qed.
Lemma safe_clock : safe ix get_clock.
Proof. by apply safe_readonly. Qed.
Lemma safe_require b e : safe ix (require b e).
Proof. by apply safe_readonly; destruct b. Qed.

(** [m] can return [a] *)
Definition returns {A} (m : M A) (a : A) : Prop := exists ic s s', tx_wf s /\ m ic s = (Ok a, s').

Lemma safe_bind {A B} (m : M A) (k : A -> M B) :
  safe ix m -> (forall a, returns m a -> safe ix (k a)) -> safe ix (m ≫= k).
Proof.
  intros Hm Hk ic s r s' Hw Hc Hr. unfold mbind, M_bind in Hr. destruct (m ic s) as [[a|e] s1] eqn:E.
  - pose proof (Hm _ _ _ _ Hw Hc E) as H1. eapply step_ok_trans; [exact H1|].
    eapply Hk; [by exists ic, s, s1|by eapply step_ok_wf| |exact Hr]. by rewrite (step_ok_current _ _ _ H1).
  - simplify_eq. eauto.
Qed.

Lemma current_context_spec ic s : current s = Some ix -> get_current_instruction_context ic s = (Ok ix, s).
Proof.
  unfold current, get_current_instruction_context, get_current_instruction_index,
    get_instruction_context_at_index_in_trace, reads, mbind, M_bind.
  intros (i & Hi & (fr & Hfr & [= <-])%bind_Some)%bind_Some. rewrite Hi. simpl. by rewrite Hfr.
Qed.

Lemma safe_current {A} (k : InstructionContext -> M A) :
  safe ix (k ix) -> safe ix (get_current_instruction_context ≫= k).
Proof.
  intros Hk ic s r s' Hw Hc Hr. unfold mbind, M_bind in Hr. rewrite current_context_spec in Hr by done. eauto.
Qed.

(** changes that do not touch the accounts *)
Lemma safe_modify (f : TransactionAccounts -> TransactionAccounts) :
  (forall t, accounts (f t) = accounts t /\ lamports_delta (f t) = lamports_delta t
             /\ borrow_counters (f t) = borrow_counters t
             /\ length (touched_flags (f t)) = length (touched_flags t)) -> safe ix (modify_accounts f).
Proof.
  intros Hf ic s r s' _ _ [= _ <-]. destruct (Hf (tx_accounts s)) as (Ha & Hd & Hb & Ht).
  split; rewrite ?tx_accounts_set; unfold total_lamports; rewrite ?tx_accounts_set, ?Ha, ?Hd, ?Hb; try done.
  eauto using acc_rel_refl.
Qed.

Lemma safe_touch i : safe ix (touch i).
Proof. apply safe_bind; [apply safe_reads|intros c _]. apply safe_modify. intros t. simpl. by rewrite length_insert. Qed.

Lemma safe_update_resize a b : safe ix (update_accounts_resize_delta a b).
Proof. by apply safe_modify. Qed.

Lemma safe_borrowed b : safe ix (borrowed b).
Proof. apply safe_reads. Qed.
End safe_rules.

(** ** Inverting runs

    [run_ok m ic s a s']: [m] returns [a] and leaves [s']. *)

Lemma bind_Ok {A B} (m : M A) (k : A -> M B) ic s b s' :
  (m ≫= k) ic s = (Ok b, s') <-> exists a s1, m ic s = (Ok a, s1) /\ k a ic s1 = (Ok b, s').
Proof.
  unfold mbind, M_bind. destruct (m ic s) as [[a|e] s1]; split.
  - intros Hk. eauto.
  - intros (a' & s1' & [= -> ->] & Hk). done.
  - done.
  - intros (? & ? & ? & ?). congruence.
Qed.

Lemma require_Ok b e ic s u s' : require b e ic s = (Ok u, s') <-> b = true /\ s' = s.
Proof. destruct b, u; simpl; split; try (by intros [= <-]); try (by intros [? ->]); by intros [? ?]. Qed.

Lemma lift_opt_Ok {A} (o : option A) e ic s a s' : lift_opt o e ic s = (Ok a, s') <-> o = Some a /\ s' = s.
Proof. unfold lift_opt. destruct o; simpl; split; try (by intros [= <- <-]); try (by intros [[= ->] ->]); by intros [? ?]. Qed.

Lemma reads_Ok {A} (f : TransactionContext -> result A InstructionError) ic s a s' :
  reads f ic s = (Ok a, s') <-> f s = Ok a /\ s' = s.
Proof. unfold reads. split; [by intros [= <- <-]|by intros [-> ->]]. Qed.

Lemma ret_Ok {A} (a b : A) ic s s' : (mret a : M A) ic s = (Ok b, s') <-> b = a /\ s' = s.
Proof. split; [by intros [= <- <-]|by intros [-> ->]]. Qed.

Lemma clock_Ok ic s c s' : get_clock ic s = (Ok c, s') <-> sysvar_clock ic = Some c /\ s' = s.
Proof. unfold get_clock. destruct (sysvar_clock ic); simpl; split; try (by intros [= <- <-]); try (by intros [[= ->] ->]); by intros [? ?]. Qed.

Lemma modify_Ok f ic s u s' : modify_accounts f ic s = (Ok u, s') <-> s' = set_tx_accounts s (f (tx_accounts s)).
Proof. destruct u. unfold modify_accounts. split; [by intros [= <-]|by intros ->]. Qed.

(** Decompose a successful run into the runs of its parts. *)
Ltac inv_run :=
  repeat match goal with
  | H : (_ ≫= _) _ _ = (Ok _, _) |- _ => apply bind_Ok in H as (? & ? & ? & ?)
  | H : require _ _ _ _ = (Ok _, _) |- _ => apply require_Ok in H as [? ->]
  | H : lift_opt _ _ _ _ = (Ok _, _) |- _ => apply lift_opt_Ok in H as [? ->]
  | H : reads _ _ _ = (Ok _, _) |- _ => apply reads_Ok in H as [? ->]
  | H : mret tt _ _ = (Ok _, _) |- _ => apply ret_Ok in H as [_ ->]
  | H : mret _ _ _ = (Ok _, _) |- _ => apply ret_Ok in H as [-> ->]
  | H : get_clock _ _ = (Ok _, _) |- _ => apply clock_Ok in H as [? ->]
  | H : fail _ _ _ = (Ok _, _) |- _ => discriminate H
  end.

(** ** Changes of an account *)

Lemma zsum_alter (f : Account -> Account) i l a : l !! i = Some a ->
  zsum (map acc_lamports (alter f i l)) = zsum (map acc_lamports l) + (acc_lamports (f a) - acc_lamports a).
Proof.
  revert i. induction l as [|x l IH]; intros [|i] Hi; [done..|simplify_eq/=; lia|].
  change (alter f (S i) (x :: l)) with (x :: alter f i l). cbn [map zsum foldr].
  fold (zsum (map acc_lamports (alter f i l))). rewrite (IH i Hi). unfold zsum. lia.
Qed.

(** account [i] changed by [f], at a lamport delta of [d] *)
Definition changed (i : nat) (f : Account -> Account) (d : Z) (rd : Z) (t : TransactionAccounts) : TransactionAccounts :=
  {| accounts := alter f i (accounts t); borrow_counters := borrow_counters t;
     touched_flags := <[i := true]> (touched_flags t); resize_delta := rd; lamports_delta := d |}.

Lemma step_ok_changed ix s i a f d rd : accs s !! i = Some a -> acc_rel ix (program_key ix s) i a (f a) ->
  d = delta s + (acc_lamports (f a) - acc_lamports a) ->
  step_ok ix s (set_tx_accounts s (changed i f d rd (tx_accounts s))).
Proof.
  intros Hi Hrel ->. split; rewrite ?tx_accounts_set; unfold total_lamports; rewrite ?tx_accounts_set; cbn [changed accounts borrow_counters touched_flags lamports_delta].
  - done.
  - apply length_alter.
  - done.
  - apply length_insert.
  - rewrite (zsum_alter _ _ _ a) by done. lia.
  - intros j a' Hj. destruct (decide (i = j)) as [<-|Hne].
    + rewrite Hi in Hj. injection Hj as <-. exists (f a). by rewrite list_lookup_alter_eq, Hi.
    + exists a'. rewrite list_lookup_alter_ne by done. split; [done|apply acc_rel_refl].
Qed.

(** whether the account is owned by the program of its instruction *)
Definition owned (b : BorrowedInstructionAccount) (s : TransactionContext) (a : Account) : bool :=
  bool_decide (acc_key <$> accs s !! b_program b = Some (acc_owner a)).

Section account_ops.
Context (b : BorrowedInstructionAccount) (ic : InvokeContext) (s : TransactionContext) (a : Account).
Abbreviation i := (index_in_transaction (b_account b)).
Hypothesis Ha : accs s !! i = Some a.

Lemma borrowed_spec : borrowed b ic s = (Ok a, s).
Proof. unfold borrowed, reads. by rewrite Ha. Qed.

Lemma is_owned_spec : is_owned_by_current_program b ic s = (Ok (owned b s a), s).
Proof.
  unfold is_owned_by_current_program, mbind, M_bind. rewrite borrowed_spec. unfold reads, key_at, owned.
  destruct (accs s !! b_program b) as [p|]; simpl; [|done]. do 2 f_equal. apply bool_decide_ext. split; congruence.
Qed.

Hypothesis Hwf : tx_wf s.

Lemma touched_lookup : exists t, touched_flags (tx_accounts s) !! i = Some t.
Proof. apply lookup_lt_is_Some_2. rewrite (wf_touched _ Hwf). by eapply lookup_lt_Some. Qed.

Lemma touch_put_spec f : (touch i ;; put_account i f) ic s =
  (Ok tt, set_tx_accounts s (changed i f (delta s) (resize_delta (tx_accounts s)) (tx_accounts s))).
Proof.
  unfold touch, put_account, modify_accounts, mbind, M_bind, reads. destruct touched_lookup as [t ->]. cbn.
  by rewrite !tx_accounts_set, !set_tx_accounts_twice.
Qed.

Lemma touch_resize_put_spec f x y : exists rd, (touch i ;; update_accounts_resize_delta x y ;; put_account i f) ic s =
  (Ok tt, set_tx_accounts s (changed i f (delta s) rd (tx_accounts s))).
Proof.
  unfold touch, update_accounts_resize_delta, put_account, modify_accounts, mbind, M_bind, reads.
  destruct touched_lookup as [t ->]. cbn. rewrite !tx_accounts_set, !set_tx_accounts_twice. by eexists.
Qed.

Lemma set_lamports_spec l : in_u64 l ->
  set_lamports b l ic s =
    if negb (owned b s a) && (l <? acc_lamports a) then (Err ExternalAccountLamportSpend, s)
    else if negb (is_writable (b_account b)) then (Err ReadonlyLamportChange, s)
    else if acc_lamports a =? l then (Ok tt, s)
    else match checked_add_i i128_min i128_max (delta s) (l - acc_lamports a) with
      | None => (Err ArithmeticOverflow, s)
      | Some d => (Ok tt, set_tx_accounts s (changed i (with_lamports l) d (resize_delta (tx_accounts s)) (tx_accounts s)))
      end.
Proof.
  intros Hl. pose proof (wf_lamports _ Hwf _ _ Ha) as Hr.
  unfold set_lamports, mbind, M_bind. rewrite borrowed_spec, is_owned_spec.
  destruct (owned b s a), (l <? acc_lamports a); simpl; try done; destruct (is_writable (b_account b)); simpl; try done;
  destruct (acc_lamports a =? l); try done;
  unfold add_lamports_delta, mbind, M_bind, reads, lift_opt; simpl;
  (replace (saturating_sub_i i128_min i128_max l (acc_lamports a)) with (l - acc_lamports a)
     by (unfold saturating_sub_i; lia));
  destruct (checked_add_i _ _ _ _) as [d|]; simpl; try done;
  unfold touch, mbind, M_bind, reads; rewrite tx_accounts_set; simpl; destruct touched_lookup as [t ->]; simpl;
  unfold put_account, modify_accounts; by rewrite !tx_accounts_set, !set_tx_accounts_twice.
Qed.

Lemma can_data_be_resized_spec n : exists r, can_data_be_resized b n ic s = (r, s) /\
  (r = Ok tt <-> (n = Z.of_nat (length (acc_data a)) \/ owned b s a = true)
     /\ n <= MAX_ACCOUNT_DATA_LEN
     /\ saturating_add_i i64_min i64_max (resize_delta (tx_accounts s))
          (saturating_sub_i i64_min i64_max n (Z.of_nat (length (acc_data a)))) <= MAX_ACCOUNT_DATA_GROWTH_PER_TRANSACTION
     /\ is_writable (b_account b) = true /\ owned b s a = true).
Proof.
  unfold can_data_be_resized, accounts_can_data_be_resized, can_data_be_changed, mbind, M_bind, reads.
  rewrite borrowed_spec, is_owned_spec. generalize (saturating_sub_i i64_min i64_max n (Z.of_nat (length (acc_data a)))).
  intros ld.
  destruct (n =? _) eqn:E1, (owned b s a) eqn:E2, (MAX_ACCOUNT_DATA_LEN <? n) eqn:E3,
    (MAX_ACCOUNT_DATA_GROWTH_PER_TRANSACTION <? saturating_add_i i64_min i64_max (resize_delta (tx_accounts s)) ld) eqn:E4, (is_writable (b_account b)) eqn:E5;
  simpl; rewrite ?E4; simpl; rewrite ?is_owned_spec, ?E2; simpl; (eexists; split; [reflexivity|]); breflect;
  (split; [try done; intros _; split_and!; auto; lia | intros (? & ? & ? & ? & ?); try done; try lia; intuition congruence]).
Qed.

Lemma set_data_from_slice_spec d : exists r s', set_data_from_slice b d ic s = (r, s') /\
  (s' = s /\ r <> Ok tt
   \/ r = Ok tt /\ is_writable (b_account b) = true /\ owned b s a = true /\ exists rd,
      s' = set_tx_accounts s (changed i (with_data d) (delta s) rd (tx_accounts s))).
Proof.
  unfold set_data_from_slice. destruct (can_data_be_resized_spec (Z.of_nat (length d))) as (r & Hr & Hok).
  unfold mbind at 1, M_bind at 1. rewrite Hr. destruct r as [[]|e]; [|by eexists _, _; split; [reflexivity|left]].
  destruct Hok as [(_ & _ & _ & Hw & Ho) _]; [done|].
  unfold touch, update_accounts_resize_delta, put_account, modify_accounts, borrowed, mbind, M_bind, reads.
  destruct touched_lookup as [t ->]. cbn. rewrite !tx_accounts_set. cbn. rewrite Ha. cbn.
  eexists _, _. split; [reflexivity|right]. split_and!; try done. eexists.
  by rewrite !tx_accounts_set, !set_tx_accounts_twice.
Qed.
End account_ops.

(** ** Rules for the operations on borrowed accounts *)

Section borrowed_rules.
Context (ix : InstructionContext) (b : BorrowedInstructionAccount).
Abbreviation i := (index_in_transaction (b_account b)).
Hypothesis Hb : b_ok ix b.

Lemma b_writable : is_writable (b_account b) = true -> ix_writable ix i.
Proof. intros Hw. exists (b_account b). split_and!; [apply Hb|done|done]. Qed.

Lemma owned_key s a : owned b s a = true -> program_key ix s = Some (acc_owner a).
Proof. unfold owned, program_key. destruct Hb as [_ <-]. apply bool_decide_eq_true_1. Qed.

(** A change of data or owner of a writable account of the program. *)
Lemma step_ok_owned s a f rd : accs s !! i = Some a -> is_writable (b_account b) = true -> owned b s a = true ->
  (acc_key (f a) = acc_key a /\ acc_executable (f a) = acc_executable a /\ acc_lamports (f a) = acc_lamports a) ->
  (acc_owner (f a) <> acc_owner a -> is_zeroed (acc_data (f a)) = true) ->
  step_ok ix s (set_tx_accounts s (changed i f (delta s) rd (tx_accounts s))).
Proof.
  intros Ha Hw Ho (Hk & He & Hl) Hz. apply (step_ok_changed _ _ _ a); [done| |lia].
  split; [done|done|by intros []; apply b_writable|by intros []; rewrite (owned_key _ a)|done|by rewrite Hl].
Qed.

Lemma safe_borrowed_bind {A} (k : Account -> M A) :
  (forall ic s a r s', accs s !! i = Some a -> tx_wf s -> current s = Some ix -> k a ic s = (r, s') -> step_ok ix s s') ->
  safe ix (borrowed b ≫= k).
Proof.
  intros Hk ic s r s' Hwf Hc. unfold mbind, M_bind, borrowed at 1, reads at 1.
  destruct (accs s !! i) as [a|] eqn:Ha; simpl; [by eapply Hk|]. intros [= _ <-]. apply step_ok_refl.
Qed.

Lemma safe_set_lamports l : in_u64 l -> safe ix (set_lamports b l).
Proof.
  intros Hl ic s r s' Hwf Hc. destruct (accs s !! i) as [a|] eqn:Ha.
  2: { unfold set_lamports, mbind, M_bind, borrowed, reads. rewrite Ha. intros [= _ <-]. apply step_ok_refl. }
  rewrite (set_lamports_spec b ic s a) by done.
  destruct (negb (owned b s a) && (l <? acc_lamports a)) eqn:E1; [intros [= _ <-]; apply step_ok_refl|].
  destruct (is_writable (b_account b)) eqn:Hw; simpl; [|intros [= _ <-]; apply step_ok_refl].
  destruct (acc_lamports a =? l) eqn:E2; [intros [= _ <-]; apply step_ok_refl|].
  destruct (checked_add_i _ _ _ _) as [d|] eqn:Hd; intros [= _ <-]; [|apply step_ok_refl].
  apply (step_ok_changed _ _ _ a); [done| |unfold checked_add_i in Hd; by destruct (in_range _ _ _); simplify_eq].
  split; [done|done|by intros []; apply b_writable| |done|done].
  intros Hn. split_and!; [done|done|]. simpl. apply andb_false_iff in E1 as [E1|E1]; [|lia].
  apply negb_false_iff, owned_key in E1. congruence.
Qed.

Lemma returns_get_lamports l : returns (get_lamports b) l -> in_u64 l.
Proof.
  intros (ic & s & s' & Hwf & Hr). unfold get_lamports, borrowed in Hr. inv_run. destruct (accs s !! i) eqn:E; simplify_eq/=.
  by eapply wf_lamports.
Qed.

Lemma safe_get_lamports : safe ix (get_lamports b).
Proof. apply safe_bind; [apply safe_borrowed|]. intros a _. apply safe_ret. Qed.

Lemma safe_checked_add_lamports n : 0 <= n -> safe ix (checked_add_lamports b n).
Proof.
  intros Hn. apply safe_bind; [apply safe_get_lamports|]. intros l Hl%returns_get_lamports.
  apply safe_bind; [apply safe_lift_opt|]. intros l' (ic & s & s' & _ & [H _]%lift_opt_Ok). inv_checked.
  apply safe_set_lamports. lia.
Qed.

Lemma safe_checked_sub_lamports n : 0 <= n -> safe ix (checked_sub_lamports b n).
Proof.
  intros Hn. apply safe_bind; [apply safe_get_lamports|]. intros l Hl%returns_get_lamports.
  apply safe_bind; [apply safe_lift_opt|]. intros l' (ic & s & s' & _ & [H _]%lift_opt_Ok). inv_checked.
  apply safe_set_lamports. lia.
Qed.

Lemma safe_set_data_from_slice d : safe ix (set_data_from_slice b d).
Proof.
  intros ic s r s' Hwf Hc Hr. destruct (accs s !! i) as [a|] eqn:Ha.
  - destruct (set_data_from_slice_spec b ic s a Ha Hwf d) as (r1 & s1 & E & Hs). rewrite E in Hr. injection Hr as <- <-.
    destruct Hs as [[-> _]|(_ & Hw & Ho & rd & ->)]; [apply step_ok_refl|by apply (step_ok_owned _ a)].
  - unfold set_data_from_slice, can_data_be_resized, mbind, M_bind, borrowed, reads in Hr. rewrite Ha in Hr.
    injection Hr as _ <-. apply step_ok_refl.
Qed.

Lemma safe_set_data_length n : safe ix (set_data_length b n).
Proof.
  intros ic s r s' Hwf Hc Hr. unfold set_data_length in Hr. destruct (accs s !! i) as [a|] eqn:Ha.
  - destruct (can_data_be_resized_spec b ic s a Ha (Z.of_nat n)) as (r1 & E & Hok).
    unfold mbind at 1, M_bind at 1 in Hr. rewrite E in Hr. destruct r1 as [[]|]; [|injection Hr as _ <-; apply step_ok_refl].
    destruct Hok as [(_ & _ & _ & Hw & Ho) _]; [done|]. unfold mbind at 1, M_bind at 1 in Hr.
    rewrite (borrowed_spec _ _ _ a) in Hr by done. case_match; [injection Hr as _ <-; apply step_ok_refl|].
    edestruct (touch_resize_put_spec b ic s a Ha Hwf) as [rd Et]. rewrite Et in Hr. injection Hr as _ <-.
    by apply (step_ok_owned _ a).
  - unfold can_data_be_resized, mbind, M_bind, borrowed, reads in Hr. rewrite Ha in Hr. injection Hr as _ <-. apply step_ok_refl.
Qed.

Lemma safe_extend_from_slice d : safe ix (extend_from_slice b d).
Proof.
  apply safe_borrowed_bind. intros ic s a r s' Ha Hwf Hc Hr.
  destruct (can_data_be_resized_spec b ic s a Ha (Z.of_nat (length (acc_data a)) + Z.of_nat (length d))) as (r1 & E & Hok).
  unfold mbind at 1, M_bind at 1 in Hr. rewrite E in Hr. destruct r1 as [[]|]; [|injection Hr as _ <-; apply step_ok_refl].
  destruct Hok as [(_ & _ & _ & Hw & Ho) _]; [done|]. case_match; [injection Hr as _ <-; apply step_ok_refl|].
  edestruct (touch_resize_put_spec b ic s a Ha Hwf) as [rd Et]. rewrite Et in Hr. injection Hr as _ <-.
  by apply (step_ok_owned _ a).
Qed.

Lemma safe_set_owner k : safe ix (set_owner b k).
Proof.
  apply safe_borrowed_bind. intros ic s a r s' Ha Hwf Hc Hr. unfold mbind at 1, M_bind at 1 in Hr.
  rewrite (is_owned_spec b ic s a Ha) in Hr. destruct (owned b s a) eqn:Ho; [|injection Hr as _ <-; apply step_ok_refl].
  destruct (is_writable (b_account b)) eqn:Hw; [|injection Hr as _ <-; apply step_ok_refl].
  destruct (is_zeroed (acc_data a)) eqn:Hz; [|injection Hr as _ <-; apply step_ok_refl].
  change ((if decide (acc_owner a = k) then mret tt else touch i ;; put_account i (with_owner k)) ic s = (r, s')) in Hr.
  case_decide; [injection Hr as _ <-; apply step_ok_refl|].
  rewrite (touch_put_spec b ic s a Ha Hwf) in Hr. injection Hr as _ <-. by apply (step_ok_owned _ a).
Qed.

Lemma safe_get_owner : safe ix (get_owner b).
Proof. apply safe_bind; [apply safe_borrowed|]. intros a _. apply safe_ret. Qed.
Lemma safe_get_data : safe ix (get_data b).
Proof. apply safe_bind; [apply safe_borrowed|]. intros a _. apply safe_ret. Qed.
Lemma safe_is_owned : safe ix (is_owned_by_current_program b).
Proof. apply safe_bind; [apply safe_borrowed|]. intros a _. apply safe_reads. Qed.
End borrowed_rules.

Section instruction_rules.
Context (ix : InstructionContext).

(** [try_borrow_mut] marks a free account, or fails and changes nothing. *)
Lemma try_borrow_mut_cases i ic s r s' : try_borrow_mut i ic s = (r, s') ->
  (exists e, r = Err e) /\ s' = s
  \/ r = Ok tt /\ borrow_counters (tx_accounts s) !! i = Some 0
     /\ s' = set_tx_accounts s (set_counter i (-1) (tx_accounts s)).
Proof.
  unfold try_borrow_mut, mbind, M_bind, reads, lift_opt, modify_accounts.
  destruct (borrow_counters (tx_accounts s) !! i) as [c|] eqn:E; simpl; [|intros [= <- <-]; eauto].
  unfold counter_try_borrow_mut. destruct ((c <? 0) || (0 <? c)) eqn:Ec; simpl; intros [= <- <-]; [eauto|].
  apply orb_false_iff in Ec as [? ?]. assert (c = 0) as -> by lia. by right.
Qed.

(** A step taken while account [i] is borrowed, once the borrow is released. *)
Lemma step_ok_scope i s s' : borrow_counters (tx_accounts s) !! i = Some 0 ->
  step_ok ix (set_tx_accounts s (set_counter i (-1) (tx_accounts s))) s' ->
  forall ic, step_ok ix s (release_mut i ic s').2.
Proof.
  intros Hi [Hf Hl Hc Ht Hd Ha] ic. unfold release_mut, modify_accounts. cbn [snd].
  unfold total_lamports, program_key in *. rewrite tx_accounts_set in *. cbn [set_counter accounts borrow_counters touched_flags lamports_delta] in *.
  split; unfold total_lamports, program_key; rewrite ?tx_accounts_set;
    cbn [set_counter accounts borrow_counters touched_flags lamports_delta]; try done.
  - rewrite Hf. by rewrite !set_tx_accounts_twice.
  - rewrite Hc, list_lookup_insert_eq by (by eapply lookup_lt_Some). cbn [default]. change (counter_release_mut (-1)) with 0.
    by rewrite list_insert_insert_eq, list_insert_id.
Qed.

Lemma safe_borrowing {A} i (body : BorrowedInstructionAccount -> M A) :
  (forall b, b_ok ix b -> safe ix (body b)) -> safe ix (borrowing ix i body).
Proof.
  intros Hbody ic s r s' Hwf Hc. unfold borrowing, try_borrow_instruction_account, lift_opt, mbind, M_bind, mret, M_ret.
  destruct (ix_accounts ix !! i) as [ia|] eqn:Hia; [|intros [= _ <-]; apply step_ok_refl]. cbn [ok_or].
  destruct (try_borrow_mut _ ic s) as [r1 s1] eqn:E. apply try_borrow_mut_cases in E as [[[e ->] ->]|(-> & H0 & ->)].
  { intros [= _ <-]. apply step_ok_refl. }
  cbn [b_account]. destruct (body _ ic _) as [r2 s2] eqn:E. intros [= _ <-].
  refine (step_ok_scope _ _ _ H0 _ ic). eapply Hbody; [|split| |exact E]; rewrite ?tx_accounts_set, ?current_set; try done.
  - split; [by eapply list_elem_of_lookup_2|done].
  - cbn. rewrite length_insert. apply Hwf.
  - apply Hwf.
  - cbn. apply Hwf.
Qed.

Lemma safe_check_number n : safe ix (check_number_of_instruction_accounts ix n).
Proof. apply safe_require. Qed.
Lemma safe_signer i : safe ix (is_instruction_account_signer ix i).
Proof. apply safe_lift_opt. Qed.
Lemma safe_writable i : safe ix (is_instruction_account_writable ix i).
Proof. apply safe_lift_opt. Qed.
Lemma safe_key i : safe ix (get_key_of_instruction_account ix i).
Proof. apply safe_bind; [apply safe_lift_opt|]. intros j _. apply safe_reads. Qed.
Lemma safe_program_key : safe ix (get_program_key ix).
Proof. apply safe_bind; [apply safe_lift|]. intros j _. apply safe_reads. Qed.
End instruction_rules.

#[export] Hint Resolve safe_ret safe_fail safe_lift safe_lift_opt safe_reads safe_clock safe_require
  safe_touch safe_update_resize safe_borrowed
  safe_set_lamports safe_get_lamports safe_checked_add_lamports safe_checked_sub_lamports
  safe_set_data_from_slice safe_set_data_length safe_extend_from_slice safe_set_owner
  safe_get_owner safe_get_data safe_is_owned
  safe_check_number safe_signer safe_writable safe_key safe_program_key : safe.
#[export] Hint Extern 2 (0 <= _) => lia : safe.

Lemma returns_lift_opt {A} (o : option A) e a : returns (lift_opt o e) a -> o = Some a.
Proof. by intros (ic & s & s' & _ & [H _]%lift_opt_Ok). Qed.
Lemma returns_require b e u : returns (require b e) u -> b = true.
Proof. by intros (ic & s & s' & _ & [H _]%require_Ok). Qed.

(** [m] can return [a] from some state, well-formed or not *)
Definition may_return {A} (m : M A) (a : A) : Prop := exists ic s s', m ic s = (Ok a, s').

Lemma returns_may_return {A} (m : M A) a : returns m a -> may_return m a.
Proof. intros (ic & s & s' & _ & H). by exists ic, s, s'. Qed.
Lemma may_return_bind {A B} (m : M A) (k : A -> M B) b : may_return (m ≫= k) b -> exists a, may_return m a /\ may_return (k a) b.
Proof. intros (ic & s & s' & (a & s1 & H1 & H2)%bind_Ok). exists a. split; [by exists ic, s, s1|by exists ic, s1, s']. Qed.
Lemma may_return_borrowing {A} ix i (body : BorrowedInstructionAccount -> M A) a :
  may_return (borrowing ix i body) a -> exists b, may_return (body b) a.
Proof.
  intros (ic & s & s' & (b & s1 & _ & H)%bind_Ok). exists b, ic, s1. destruct (body b ic s1) as [r s2].
  injection H as -> _. by exists s2.
Qed.
Lemma may_return_ret {A} (a b : A) : may_return (mret a) b -> b = a.
Proof. by intros (ic & s & s' & [= <- _]). Qed.
Lemma may_return_lift_opt {A} (o : option A) e a : may_return (lift_opt o e) a -> o = Some a.
Proof. by intros (ic & s & s' & [H _]%lift_opt_Ok). Qed.
Lemma may_return_require b e u : may_return (require b e) u -> b = true.
Proof. by intros (ic & s & s' & [H _]%require_Ok). Qed.

(** What the results of the parts of a program satisfy. *)
Ltac inv_returns :=
  repeat match goal with
  | H : returns (lift_opt _ _) _ |- _ => apply returns_lift_opt in H
  | H : returns (require _ _) _ |- _ => apply returns_require in H
  | H : returns (get_lamports _) _ |- _ => apply returns_get_lamports in H
  | H : returns (borrowing _ _ _) _ |- _ => apply returns_may_return, may_return_borrowing in H as [? H]
  | H : may_return (_ ≫= _) _ |- _ => apply may_return_bind in H as (? & ? & H)
  | H : may_return (mret _) _ |- _ => apply may_return_ret in H; subst
  | H : may_return (lift_opt _ _) _ |- _ => apply may_return_lift_opt in H
  | H : may_return (require _ _) _ |- _ => apply may_return_require in H
  | H : may_return _ _ |- _ => clear H
  end.

(** Follow the structure of a program. *)
Ltac solve_safe :=
  repeat match goal with
  | |- forall _, _ => intros ?
  | |- safe _ (get_current_instruction_context ≫= _) => apply safe_current
  | |- safe _ (_ ≫= _) => apply safe_bind
  | |- safe _ (borrowing _ _ _) => apply safe_borrowing
  | |- safe _ (if ?b then _ else _) => destruct b eqn:?
  | |- safe _ (match ?x with _ => _ end) => destruct x eqn:?
  | |- safe _ _ => solve [inv_returns; inv_checked; eauto with safe]
  end.

(** ** Messages *)

Section messages.
Context `{InstructionsSysvar}.
Context (signer writable : nat -> bool).

(** What the instructions of a message may do to the accounts. *)
Record msg_rel (s s' : TransactionContext) : Prop := {
  mr_total : total_lamports s' - delta s' = total_lamports s - delta s;
  mr_len : length (accs s') = length (accs s);
  mr_wf : tx_wf s -> tx_wf s';
  mr_accounts i a : accs s !! i = Some a -> exists a', accs s' !! i = Some a' /\ acc_key a' = acc_key a
    /\ (writable i = false -> acc_key a <> instructions_id -> a' = a)
}.

Lemma msg_rel_refl s s' : tx_accounts s' = tx_accounts s -> msg_rel s s'.
Proof.
  intros E. split; unfold total_lamports; rewrite ?E; [done|done| |eauto].
  intros []. split; by rewrite ?E.
Qed.

Lemma msg_rel_trans s1 s2 s3 : msg_rel s1 s2 -> msg_rel s2 s3 -> msg_rel s1 s3.
Proof.
  intros [Ht1 Hl1 Hw1 Ha1] [Ht2 Hl2 Hw2 Ha2]. split; [lia|lia|tauto|].
  intros i a (a2 & Hi2 & Hk2 & He2)%Ha1. destruct (Ha2 _ _ Hi2) as (a3 & Hi3 & Hk3 & He3).
  exists a3. split_and!; [done|congruence|]. intros Hw Hn. rewrite He3, He2; [done|done|done|done|congruence].
Qed.

Lemma step_ok_msg ix s s' : (forall i, ix_writable ix i -> writable i = true) -> step_ok ix s s' -> msg_rel s s'.
Proof.
  intros Hix Hs. split; [apply Hs|apply Hs|by eapply step_ok_wf|]. intros i a Hi.
  destruct (so_accounts _ _ _ Hs _ _ Hi) as (a' & Hi' & Hr). exists a'. split_and!; [done|apply Hr|].
  intros Hw _. apply (ar_readonly _ _ _ _ _ Hr). intros Hix'%Hix. congruence.
Qed.

(** accounts untouched: borrow counters only *)
Lemma set_counter_msg s i c : msg_rel s (set_tx_accounts s (set_counter i c (tx_accounts s))).
Proof.
  split; unfold total_lamports; rewrite ?tx_accounts_set; simpl; [done|done| |eauto].
  intros [Hc Ht Hl]. split; rewrite ?tx_accounts_set; simpl; rewrite ?length_insert; done.
Qed.

(** Steps that change the accounts only. *)
Definition acc_step (s s' : TransactionContext) : Prop := s' = set_tx_accounts s (tx_accounts s') /\ msg_rel s s'.

Lemma acc_step_trans s1 s2 s3 : acc_step s1 s2 -> acc_step s2 s3 -> acc_step s1 s3.
Proof.
  intros [E1 H1] [E2 H2]. split; [|by eapply msg_rel_trans].
  rewrite E2. rewrite E1 at 1. by rewrite set_tx_accounts_twice, tx_accounts_set.
Qed.

Lemma try_borrow_mut_step i ic s u s' : try_borrow_mut i ic s = (Ok u, s') ->
  acc_step s s' /\ accs s' = accs s /\ delta s' = delta s.
Proof.
  unfold try_borrow_mut, modify_accounts. intros Hr. inv_run. simplify_eq.
  split; [split; [by rewrite tx_accounts_set|apply set_counter_msg]|by rewrite tx_accounts_set].
Qed.

Lemma release_mut_step i ic s : acc_step s (release_mut i ic s).2 /\ delta (release_mut i ic s).2 = delta s.
Proof. split; [split; simpl; [by rewrite tx_accounts_set|apply set_counter_msg]|simpl; by rewrite tx_accounts_set]. Qed.

(** Only the account of the instructions sysvar changes, and only its data. *)
Lemma put_sysvar_step s i a d : accs s !! i = Some a -> acc_key a = instructions_id ->
  acc_step s (set_tx_accounts s {| accounts := alter (with_data d) i (accs s);
    borrow_counters := borrow_counters (tx_accounts s); touched_flags := touched_flags (tx_accounts s);
    resize_delta := resize_delta (tx_accounts s); lamports_delta := delta s |}).
Proof.
  intros Ha Hk. split; [by rewrite tx_accounts_set|].
  split; unfold total_lamports; rewrite ?tx_accounts_set; cbn [accounts lamports_delta].
  - rewrite (zsum_alter _ _ _ a) by done. simpl. lia.
  - apply length_alter.
  - intros [Hc Ht Hl]. split; rewrite tx_accounts_set; cbn; rewrite ?length_alter; try done.
    intros j aj. destruct (decide (i = j)) as [<-|Hne]; [|rewrite list_lookup_alter_ne by done; apply Hl].
    rewrite list_lookup_alter_eq, Ha. intros [= <-]. by apply (Hl _ _ Ha).
  - intros j aj Hj. destruct (decide (i = j)) as [<-|Hne]; [|rewrite list_lookup_alter_ne by done; eauto].
    rewrite list_lookup_alter_eq, Hj. exists (with_data d aj). split_and!; [done|done|].
    rewrite Ha in Hj. injection Hj as <-. done.
Qed.

(** Steps of the runtime around a program: borrows and the lamport delta stay,
    and only an account of the sysvar owner changes. *)
Record quiet (s s' : TransactionContext) : Prop := {
  q_counters : borrow_counters (tx_accounts s') = borrow_counters (tx_accounts s);
  q_delta : delta s' = delta s;
  q_accounts i a : accs s' !! i = Some a -> accs s !! i = Some a \/ acc_owner a = sysvar_id
}.

Lemma quiet_same s s' : tx_accounts s' = tx_accounts s -> quiet s s'.
Proof. intros E. split; rewrite E; auto. Qed.

Lemma quiet_trans s1 s2 s3 : quiet s1 s2 -> quiet s2 s3 -> quiet s1 s3.
Proof. intros [C1 D1 A1] [C2 D2 A2]. split; [congruence|congruence|]. intros i a [Hi|]%A2; eauto. Qed.

(** A scope that borrows account [i]. *)
Lemma scope_quiet i ic s s2 : borrow_counters (tx_accounts s) !! i = Some 0 ->
  quiet (set_tx_accounts s (set_counter i (-1) (tx_accounts s))) s2 -> quiet s (release_mut i ic s2).2.
Proof.
  intros Hi [Hc Hd Ha]. unfold release_mut, modify_accounts. cbn [snd]. rewrite tx_accounts_set in Hc, Hd, Ha.
  cbn [set_counter accounts borrow_counters lamports_delta] in *.
  split; rewrite ?tx_accounts_set; cbn [set_counter accounts borrow_counters lamports_delta]; [|done|done].
  rewrite Hc, list_lookup_insert_eq by (by eapply lookup_lt_Some). cbn [default]. change (counter_release_mut (-1)) with 0.
  by rewrite list_insert_insert_eq, list_insert_id.
Qed.

Lemma store_instructions_sysvar_quiet ic s u s' : store_instructions_sysvar ic s = (Ok u, s') -> quiet s s'.
Proof.
  unfold store_instructions_sysvar. intros Hr. inv_run. simplify_eq.
  match goal with E : match ?o with _ => _ end _ _ = _ |- _ => destruct o as [i|]; [|] end; simpl in *; inv_run; [|by apply quiet_same].
  unfold with_account_mut in *. inv_run.
  match goal with E : try_borrow_mut _ _ _ = _ |- _ => apply try_borrow_mut_cases in E as [[[? [=]] _]|(_ & H0 & ->)] end.
  match goal with E : (let '(_, _) := ?body ic ?s1 in _) = _ |- _ => destruct (body ic s1) as [rb s2] eqn:Hb; injection E as -> <- end.
  apply (scope_quiet i ic); [exact H0|]. unfold lift, put_account, modify_accounts in Hb. inv_run. simplify_eq.
  split; rewrite ?tx_accounts_set; [done|done|]. cbn [accounts]. intros j a Hj. destruct (decide (i = j)) as [<-|Hne].
  - rewrite list_lookup_alter_eq in Hj. match goal with E : ok_or ?x _ = Ok _ |- _ => destruct x eqn:Ex; [|done] end.
    rewrite tx_accounts_set in Ex. simpl in *. simplify_eq. rewrite Ex in Hj. injection Hj as <-. right. eapply bool_decide_eq_true_1; eassumption.
  - rewrite list_lookup_alter_ne in Hj by done. by left.
Qed.

Lemma store_instructions_sysvar_step ic s u s' : store_instructions_sysvar ic s = (Ok u, s') -> acc_step s s'.
Proof.
  unfold store_instructions_sysvar. intros Hr. inv_run. simplify_eq.
  destruct (list_find _ _) as [[i a0]|] eqn:Hf; simpl in *; inv_run.
  2: { split; [by rewrite set_tx_accounts_id|by apply msg_rel_refl]. }
  apply list_find_Some in Hf as (Ha0 & Hk & _). unfold with_account_mut in *. inv_run.
  match goal with E : try_borrow_mut _ _ _ = _ |- _ => destruct (try_borrow_mut_step _ _ _ _ _ E) as (Hs1 & Ha1 & _) end.
  eapply acc_step_trans; [exact Hs1|].
  match goal with E : (let '(_, _) := ?body ic ?s1 in _) = _ |- _ => destruct (body ic s1) as [rb s2] eqn:Hb; injection E as -> <- end.
  eapply acc_step_trans; [|exact (proj1 (release_mut_step i ic s2))].
  unfold lift, put_account, modify_accounts in Hb. inv_run. simplify_eq.
  eapply put_sysvar_step; [by rewrite Ha1|done].
Qed.

(** Between two top-level instructions: nothing runs, and every configured
    instruction has its accounts. *)
Definition idle (s : TransactionContext) : Prop :=
  instruction_stack s = [] /\ length (instruction_trace s) = S (length (tx_ix_accounts s))
  /\ length (tx_ix_data s) = length (tx_ix_accounts s).

(** the fields that [push] and [pop] leave alone *)
Lemma push_step ic s u s' : instruction_stack s = [] -> push ic s = (Ok u, s') ->
  msg_rel s s' /\ quiet s s' /\ tx_ix_accounts s' = tx_ix_accounts s /\ tx_ix_data s' = tx_ix_data s
  /\ instruction_stack s' = [get_instruction_trace_length s]
  /\ exists fr, list.last (instruction_trace s) = Some fr
     /\ instruction_trace s' = take (get_instruction_trace_length s) (instruction_trace s)
          ++ [{| nesting_level := 0; program_account_index_in_tx := program_account_index_in_tx fr;
                 index_of_caller_instruction := index_of_caller_instruction fr |}; InstructionFrame_default].
Proof.
  intros Hst Hr. unfold push in Hr. inv_run. simplify_eq. clear -Hst H12 H3.
  match goal with E : store_instructions_sysvar _ _ = _ |- _ =>
    pose proof (store_instructions_sysvar_quiet _ _ _ _ E) as Hq; apply store_instructions_sysvar_step in E as [Ef Hm] end.
  inv_checked. destruct s. simpl in *. subst. split; [eapply msg_rel_trans; [|exact Hm]; by apply msg_rel_refl|].
  split; [eapply quiet_trans; [|exact Hq]; by apply quiet_same|].
  rewrite Ef. simpl. rewrite <- ?app_assoc. eauto 6.
Qed.

Lemma detect_unbalanced_step ic s r s' : detect_unbalanced ic s = (Ok r, s') ->
  acc_step s s' /\ quiet s s' /\ r = negb (delta s =? 0).
Proof.
  unfold detect_unbalanced. intros Hr. inv_run.
  match goal with E : get_current_instruction_context _ _ = _ |- _ =>
    unfold get_current_instruction_context, get_current_instruction_index, get_instruction_context_at_index_in_trace in E end.
  inv_run. simplify_eq.
  match goal with E : lift _ _ _ = _ |- _ => injection E as _ <- end.
  match goal with E : (let '(_, _) := ?m in _) = _ |- _ => destruct m as [[] s2] eqn:Hb; simplify_eq/= end.
  pose proof (try_borrow_mut_cases _ _ _ _ _ Hb) as [[[? [=]] _]|(_ & Hfree & ->)]. apply try_borrow_mut_step in Hb as (Hs & _ & Hd).
  match goal with E : release_mut ?i ?ic ?s1 = (_, ?x) |- _ =>
    pose proof (release_mut_step i ic s1) as [Hs2 Hd2]; pose proof (scope_quiet i ic s s1 Hfree (quiet_same _ _ eq_refl)) as Hq;
    rewrite E in Hs2, Hd2, Hq; simpl in Hs2, Hd2, Hq end.
  split_and!; [by eapply acc_step_trans|exact Hq|by rewrite Hd2, Hd].
Qed.

Lemma pop_step ic s u s' i : instruction_stack s = [i] -> pop ic s = (Ok u, s') ->
  msg_rel s s' /\ quiet s s' /\ delta s' = 0 /\ instruction_stack s' = [] /\ instruction_trace s' = instruction_trace s
  /\ tx_ix_accounts s' = tx_ix_accounts s /\ tx_ix_data s' = tx_ix_data s.
Proof.
  intros Hst Hr. unfold pop in Hr. rewrite Hst in Hr.
  destruct (detect_unbalanced ic s) as [[[]|] s1] eqn:Hd; [done| |done].
  apply detect_unbalanced_step in Hd as ([Ef Hm] & Hq & Hd2). pose proof (q_delta _ _ Hq) as Hd1. assert (delta s = 0) as Hd0 by (destruct (delta s =? 0) eqn:E; breflect; done).
  rewrite Ef in Hr. destruct s; simpl in *. rewrite Hst in Hr. injection Hr as _ <-. simpl. split_and!; try congruence.
  - eapply msg_rel_trans; [exact Hm|]. by apply msg_rel_refl.
  - eapply quiet_trans; [exact Hq|]. by apply quiet_same.
Qed.

Lemma collect_writable l ia : ia ∈ (collect_instruction_accounts signer writable l).1 ->
  is_writable ia = writable (index_in_transaction ia).
Proof.
  unfold collect_instruction_accounts. set (step := fun '(ias, dm) i => _).
  assert (forall l p, (forall ia, ia ∈ p.1 -> is_writable ia = writable (index_in_transaction ia)) ->
    forall ia, ia ∈ (foldl step p l).1 -> is_writable ia = writable (index_in_transaction ia)) as Hstep.
  { clear. induction l as [|i l IH]; simpl; intros [ias dm] Hp; [done|]. apply IH. simpl.
    intros ia [Hin| ->]%elem_of_snoc; [by apply Hp|done]. }
  apply Hstep. simpl. by intros ? ?%not_elem_of_nil.
Qed.

Lemma prepare_step si ic s u s' : idle s -> prepare_next_top_level_instruction signer writable si ic s = (Ok u, s') ->
  tx_accounts s' = tx_accounts s /\ instruction_stack s' = []
  /\ length (instruction_trace s') = length (tx_ix_accounts s')
  /\ (program_account_index_in_tx <$> list.last (instruction_trace s')) = Some (si_program si)
  /\ tx_ix_data s' = tx_ix_data s ++ [si_data si] /\ exists ias,
    tx_ix_accounts s' = tx_ix_accounts s ++ [ias]
    /\ forall ia, ia ∈ ias -> is_writable ia = writable (index_in_transaction ia).
Proof.
  intros (Hst & Hlen & _). unfold prepare_next_top_level_instruction, configure_next_instruction.
  pose proof (collect_writable (si_accounts si)) as Hw. destruct (collect_instruction_accounts _ _ _) as [ias dm].
  destruct (list.last (instruction_trace s)) as [fr|]; [|done]. intros [= _ <-]. simpl in *. split_and!; [done|done| | |done|eauto].
  - unfold get_instruction_trace_length. rewrite !length_app, length_take. simpl. lia.
  - by rewrite last_snoc.
Qed.

(** After [push], the instruction just configured is the current one. *)
Lemma pushed_current s n fr ias d : instruction_stack s = [n] -> instruction_trace s !! n = Some fr ->
  tx_ix_accounts s !! n = Some ias -> tx_ix_data s !! n = Some d ->
  exists ix, current s = Some ix /\ ix_accounts ix = ias /\ ix_program_index ix = program_account_index_in_tx fr /\ ix_data ix = d.
Proof. intros Hst Htr Hia Hd. unfold current. rewrite Hst. simpl. rewrite Htr, Hia, Hd. simpl. eauto. Qed.

(** A top-level instruction that succeeds: the runtime enters the program in
    [s2], the program runs to [s3], and the runtime leaves it. *)
Record instruction_run (program : M unit) (si : SvmInstruction) (ic : InvokeContext) (s s' : TransactionContext)
    (ix : InstructionContext) (s2 s3 : TransactionContext) : Prop := {
  run_enter : msg_rel s s2 /\ quiet s s2;
  run_current : current s2 = Some ix;
  run_index : ix_program_index ix = si_program si;
  run_data : ix_data ix = si_data si;
  run_writable i : ix_writable ix i -> writable i = true;
  run_program : program ic s2 = (Ok tt, s3);
  run_leave : msg_rel s3 s' /\ quiet s3 s';
  run_idle : idle s' /\ delta s' = 0
}.

Lemma instruction_runs (program : M unit) `{!SafeProgram program} si ic s u s' : tx_wf s -> idle s ->
  (prepare_next_top_level_instruction signer writable si ;; process_instruction program) ic s = (Ok u, s') ->
  exists ix s2 s3, instruction_run program si ic s s' ix s2 s3.
Proof.
  intros Hwf Hidle (u1 & s1 & Hp & Hr)%bind_Ok. apply prepare_step in Hp as (Ht & Hst & Hlen & Hpi & Hdt & ias & Hia & Hw); [|done].
  assert (msg_rel s s1) as Hm1 by by apply msg_rel_refl.
  apply bind_Ok in Hr as (u2 & s2 & Hpush & Hr). unfold ic_push, get_instruction_context_at_index_in_trace in Hpush.
  inv_run. simplify_eq.
  match goal with E : (let '(_, _) := get_program_key _ _ _ in _) = (_, ?x) |- _ => assert (x = s1) as -> end.
  { unfold get_program_key, lift, mbind, M_bind, reads in *. by repeat case_match; simplify_eq/=. }
  rewrite Hst in *. simpl in *. inv_run.
  match goal with E : push _ _ = _ |- _ => apply push_step in E as (Hm2 & Hq2 & Hia2 & Hdt2 & Hst2 & fr & Hl & Htr); [|done] end.
  set (n := get_instruction_trace_length s1) in *. assert (n = length (tx_ix_accounts s)) as Hn.
  { unfold n, get_instruction_trace_length. rewrite Hlen, Hia, length_app. simpl. lia. }
  assert (length (take n (instruction_trace s1)) = n) as Hln.
  { rewrite length_take. unfold n, get_instruction_trace_length. lia. }
  edestruct (pushed_current s2 n) as (ix & Hc & Hix & Hpx & Hdx); [done| | | |].
  { rewrite Htr, lookup_app_r by lia. by rewrite Hln, Nat.sub_diag. }
  { by rewrite Hia2, Hia, Hn, list_lookup_middle. }
  { rewrite Hdt2, Hdt, Hn. destruct Hidle as (_ & _ & <-). by rewrite list_lookup_middle. }
  unfold and_pop in Hr. destruct (program ic s2) as [r3 s3] eqn:Hprog. destruct (pop ic s3) as [r4 s4] eqn:Hpop.
  destruct r3 as [[]|]; [|done]. destruct r4 as [[]|]; [|done]. injection Hr as _ <-.
  pose proof (safe_program ix _ _ _ _ (mr_wf _ _ Hm2 (mr_wf _ _ Hm1 Hwf)) Hc Hprog) as Hs3.
  assert (instruction_stack s3 = [n] /\ instruction_trace s3 = instruction_trace s2 /\ tx_ix_accounts s3 = tx_ix_accounts s2
    /\ tx_ix_data s3 = tx_ix_data s2) as (Hst3 & Htr3 & Hia3 & Hdt3) by (rewrite (so_frame _ _ _ Hs3); by destruct s2).
  apply (pop_step _ _ _ _ n) in Hpop as (Hm4 & Hq4 & Hd4 & Hst4 & Htr4 & Hia4 & Hdt4); [|done].
  exists ix, s2, s3. split; try done.
  - split; [by eapply msg_rel_trans|]. eapply quiet_trans; [|exact Hq2]. by apply quiet_same.
  - rewrite Hpx. rewrite Hl in Hpi. by injection Hpi.
  - intros i (ia & Hin & <- & Hwi). rewrite Hix in Hin. by rewrite <- (Hw _ Hin).
  - split; [|done]. split; [done|]. destruct Hidle as (_ & _ & Hid).
    rewrite Htr4, Htr3, Htr, Hia4, Hia3, Hia2, Hia, Hdt4, Hdt3, Hdt2, Hdt, !length_app, Hln. simpl. lia.
Qed.

Lemma instruction_step (program : M unit) `{!SafeProgram program} si ic s u s' : tx_wf s -> idle s ->
  (prepare_next_top_level_instruction signer writable si ;; process_instruction program) ic s = (Ok u, s') ->
  msg_rel s s' /\ idle s' /\ delta s' = 0.
Proof.
  intros Hwf Hidle (ix & s2 & s3 & [[He _] Hc _ _ Hw Hp [Hl _] Hi])%instruction_runs; [|done..]. split; [|done].
  eapply msg_rel_trans; [exact He|]. eapply msg_rel_trans; [|exact Hl]. apply (step_ok_msg ix); [done|].
  eapply safe_program; [|exact Hc|exact Hp]. by apply He.
Qed.

Lemma message_step (program : SvmInstruction -> M unit) `{!forall si, SafeProgram (program si)} l n ic s u s' :
  tx_wf s -> idle s -> delta s = 0 -> process_message signer writable program n l ic s = (Ok u, s') ->
  msg_rel s s' /\ idle s' /\ delta s' = 0.
Proof.
  revert n s. induction l as [|si l IH]; intros n s Hwf Hidle Hd; simpl.
  - intros [= _ <-]. split_and!; [by apply msg_rel_refl|done|done].
  - match goal with |- match ?m with _ => _ end = _ -> _ => destruct m as [[u1|e] s1] eqn:E; [|done] end. apply instruction_step in E as (Hm & Hi & Hd1); [|done..].
    intros Hr. apply IH in Hr as (Hm2 & ? & ?); [|by apply Hm|done|done]. split_and!; [by eapply msg_rel_trans|done|done].
Qed.

(** C4. A transaction neither creates nor destroys lamports and respects its
    read-only accounts, whatever safe programs its message calls: when every
    instruction succeeds, the balances of the transaction's accounts add up to
    what they did before, no balance leaves the range of a [u64], every account
    keeps its key, and an account the message does not mark writable is the same
    as before unless it is the instructions sysvar. *)
Theorem message_conserves_lamports (program : SvmInstruction -> M unit) `{!forall si, SafeProgram (program si)}
    accs0 stack_capacity trace_capacity l ic u s' :
  Forall (fun a => in_u64 (acc_lamports a)) accs0 ->
  process_message signer writable program 0 l ic (TransactionContext_new accs0 stack_capacity trace_capacity (length l))
    = (Ok u, s') ->
  zsum (map acc_lamports (accs s')) = zsum (map acc_lamports accs0)
  /\ delta s' = 0
  /\ length (accs s') = length accs0
  /\ forall i a, accs0 !! i = Some a -> exists a', accs s' !! i = Some a' /\ acc_key a' = acc_key a
       /\ in_u64 (acc_lamports a') /\ (writable i = false -> acc_key a <> instructions_id -> a' = a).
Proof.
  intros Hrange Hr. assert (tx_wf (TransactionContext_new accs0 stack_capacity trace_capacity (length l))) as Hwf.
  { split; simpl; rewrite ?length_replicate; try done. intros i a Hi. rewrite Forall_lookup in Hrange. eauto. }
  apply message_step in Hr as (Hm & _ & Hd); [|done..]. pose proof (mr_wf _ _ Hm Hwf) as Hwf'.
  split_and!; [|done| |].
  - pose proof (mr_total _ _ Hm) as Ht. unfold total_lamports in Ht. simpl in Ht. lia.
  - apply (mr_len _ _ Hm).
  - intros i a (a' & Hi & Hk & He)%(mr_accounts _ _ Hm). exists a'. split_and!; try done; by eapply wf_lamports.
Qed.
End messages.
