(* ===== verification/TxEval.v ===== *)
(** * Evaluating programs

    When each operation of the transaction context succeeds and what it does
    then: the lemmas that give the effect of a program's handlers on the
    accounts. *)

From coqutil Require Import Byte Word.LittleEndianList.
From Stdlib Require Import ZArith Lia String.
From stdpp Require Import base numbers list option.
From S2P Require Import Prelude Borsh TxContext TxSafety.
Local Open Scope Z_scope.

(** ** Evaluating programs

    How the operations of a program act on the accounts.  A scope that borrows
    an account sees the same accounts under a locked counter, and leaves the
    counter as it was. *)

Definition lock (i : nat) (s : TransactionContext) : TransactionContext :=
  set_tx_accounts s (set_counter i (-1) (tx_accounts s)).
Definition unlock (i : nat) (s : TransactionContext) : TransactionContext :=
  set_tx_accounts s (set_counter i (counter_release_mut (default 0 (borrow_counters (tx_accounts s) !! i))) (tx_accounts s)).
(** account [i] changed by [f] *)
Definition upd (i : nat) (f : Account -> Account) (d rd : Z) (s : TransactionContext) : TransactionContext :=
  set_tx_accounts s (changed i f d rd (tx_accounts s)).

(** the balance of account [i] set to [l], a change of [n] lamports *)
Definition credit (i : nat) (l n : Z) (s : TransactionContext) : TransactionContext :=
  set_tx_accounts s {| accounts := alter (with_lamports l) i (accs s); borrow_counters := borrow_counters (tx_accounts s);
    touched_flags := if n =? 0 then touched_flags (tx_accounts s) else <[i := true]> (touched_flags (tx_accounts s));
    resize_delta := resize_delta (tx_accounts s); lamports_delta := delta s + n |}.

(** no account is borrowed *)
Definition unborrowed (s : TransactionContext) : Prop := Forall (fun c => c = 0) (borrow_counters (tx_accounts s)).

Create Rewrite HintDb view.
Section view.
Context (i j : nat) (f : Account -> Account) (d rd : Z) (s : TransactionContext).
Lemma accs_lock : accs (lock i s) = accs s. Proof. by destruct s. Qed.
Lemma delta_lock : delta (lock i s) = delta s. Proof. by destruct s. Qed.
Lemma resize_lock : resize_delta (tx_accounts (lock i s)) = resize_delta (tx_accounts s). Proof. by destruct s. Qed.
Lemma current_lock : current (lock i s) = current s. Proof. by destruct s. Qed.
Lemma accs_upd : accs (upd i f d rd s) = alter f i (accs s). Proof. by destruct s. Qed.
Lemma delta_upd : delta (upd i f d rd s) = d. Proof. by destruct s. Qed.
Lemma resize_upd : resize_delta (tx_accounts (upd i f d rd s)) = rd. Proof. by destruct s. Qed.
Lemma current_upd : current (upd i f d rd s) = current s. Proof. by destruct s. Qed.
Lemma unborrowed_upd : unborrowed (upd i f d rd s) <-> unborrowed s.
Proof. unfold unborrowed, upd. by rewrite tx_accounts_set. Qed.
Lemma counters_upd : borrow_counters (tx_accounts (upd i f d rd s)) = borrow_counters (tx_accounts s). Proof. by destruct s. Qed.
Lemma owned_lock b a : owned b (lock i s) a = owned b s a.
Proof. unfold owned. by rewrite accs_lock. Qed.
Lemma owned_upd b a : (forall a, acc_key (f a) = acc_key a) -> owned b (upd i f d rd s) a = owned b s a.
Proof.
  intros Hf. unfold owned. rewrite accs_upd, list_lookup_alter. case_decide; subst; [|done].
  destruct (accs s !! b_program b) as [p|]; [|done]. cbn. by rewrite Hf.
Qed.
Lemma wf_lock : tx_wf s -> tx_wf (lock i s).
Proof. intros [? ? ?]. unfold lock. split; rewrite ?tx_accounts_set; simpl; rewrite ?length_insert; done. Qed.
Lemma wf_upd : tx_wf s -> (forall a, accs s !! i = Some a -> in_u64 (acc_lamports (f a))) -> tx_wf (upd i f d rd s).
Proof.
  intros [? ? Hl] Hf. unfold upd. split; rewrite ?tx_accounts_set; cbn; rewrite ?length_alter, ?length_insert; try done.
  intros k a. destruct (decide (i = k)) as [<-|]; [|rewrite list_lookup_alter_ne by done; apply Hl].
  rewrite list_lookup_alter_eq. intros (a0 & H0 & ->)%fmap_Some. auto.
Qed.
Lemma key_at_upd k : (forall a, acc_key (f a) = acc_key a) -> key_at (upd i f d rd s) k = key_at s k.
Proof.
  intros Hf. unfold key_at. rewrite accs_upd, list_lookup_alter. case_decide; subst; [|done].
  destruct (accs s !! k); [|done]. cbn. by rewrite Hf.
Qed.
Lemma accs_credit l n : accs (credit i l n s) = alter (with_lamports l) i (accs s). Proof. by destruct s. Qed.
Lemma delta_credit l n : delta (credit i l n s) = delta s + n. Proof. by destruct s. Qed.
Lemma resize_credit l n : resize_delta (tx_accounts (credit i l n s)) = resize_delta (tx_accounts s). Proof. by destruct s. Qed.
Lemma current_credit l n : current (credit i l n s) = current s. Proof. by destruct s. Qed.
Lemma counters_credit l n : borrow_counters (tx_accounts (credit i l n s)) = borrow_counters (tx_accounts s). Proof. by destruct s. Qed.
Lemma unborrowed_credit l n : unborrowed (credit i l n s) <-> unborrowed s.
Proof. unfold unborrowed. by rewrite counters_credit. Qed.
Lemma owned_credit b a l n : owned b (credit i l n s) a = owned b s a.
Proof.
  unfold owned. rewrite accs_credit, list_lookup_alter. case_decide; subst; [|done].
  by destruct (accs s !! b_program b).
Qed.
Lemma key_at_credit l n k : key_at (credit i l n s) k = key_at s k.
Proof. unfold key_at. rewrite accs_credit, list_lookup_alter. case_decide; subst; [|done]. by destruct (accs s !! k). Qed.
Lemma wf_credit l n : tx_wf s -> in_u64 l -> tx_wf (credit i l n s).
Proof.
  intros [? ? Hl] Hr. unfold credit. split; rewrite ?tx_accounts_set; cbn; rewrite ?length_alter; try done.
  { by case_match; rewrite ?length_insert. }
  intros k a. destruct (decide (i = k)) as [<-|]; [|rewrite list_lookup_alter_ne by done; apply Hl].
  rewrite list_lookup_alter_eq. by intros (a0 & H0 & ->)%fmap_Some.
Qed.
Lemma credit_lock l n : credit j l n (lock i s) = lock i (credit j l n s).
Proof. by destruct s as [[]]. Qed.
Lemma unlock_lock : borrow_counters (tx_accounts s) !! i = Some 0 -> unlock i (lock i s) = s.
Proof.
  intros Hc. unfold unlock, lock, set_counter. rewrite !tx_accounts_set, set_tx_accounts_twice. cbn.
  rewrite list_lookup_insert_eq by by eapply lookup_lt_Some. cbn. rewrite list_insert_insert_eq, list_insert_id by done.
  destruct s as [[]]; done.
Qed.
Lemma upd_lock : upd j f d rd (lock i s) = lock i (upd j f d rd s).
Proof. by destruct s as [[]]. Qed.
End view.

Lemma unlock_upd_lock i j f d rd s : borrow_counters (tx_accounts s) !! i = Some 0 ->
  unlock i (upd j f d rd (lock i s)) = upd j f d rd s.
Proof. intros Hc. rewrite upd_lock. apply unlock_lock. by destruct s. Qed.
Lemma unlock_credit_lock i j l n s : borrow_counters (tx_accounts s) !! i = Some 0 ->
  unlock i (credit j l n (lock i s)) = credit j l n s.
Proof. intros Hc. rewrite credit_lock. apply unlock_lock. by destruct s. Qed.
Lemma unlock_credit_upd_lock i j f d rd k l n s : borrow_counters (tx_accounts s) !! i = Some 0 ->
  unlock i (credit k l n (upd j f d rd (lock i s))) = credit k l n (upd j f d rd s).
Proof. intros Hc. rewrite upd_lock, credit_lock. apply unlock_lock. by destruct s. Qed.
#[export] Hint Rewrite accs_lock delta_lock resize_lock current_lock accs_upd delta_upd resize_upd current_upd counters_upd owned_lock
  accs_credit delta_credit resize_credit current_credit counters_credit owned_credit key_at_credit : view.

Lemma key_at_lock i s k : key_at (lock i s) k = key_at s k.
Proof. unfold key_at. by rewrite accs_lock. Qed.
#[export] Hint Rewrite key_at_lock : view.

#[export] Hint Rewrite owned_upd key_at_upd using done : view.

Section eval.
Context (ix : InstructionContext) (ic : InvokeContext) (s : TransactionContext).

Lemma borrowing_Ok {A} i (body : BorrowedInstructionAccount -> M A) a s' : tx_wf s -> unborrowed s ->
  borrowing ix i body ic s = (Ok a, s') <->
  exists ia acc s1, ix_accounts ix !! i = Some ia /\ accs s !! index_in_transaction ia = Some acc
    /\ borrow_counters (tx_accounts s) !! index_in_transaction ia = Some 0
    /\ body {| b_account := ia; b_program := ix_program_index ix |} ic (lock (index_in_transaction ia) s) = (Ok a, s1)
    /\ s' = unlock (index_in_transaction ia) s1.
Proof.
  intros Hwf Hun. unfold borrowing, try_borrow_instruction_account. split.
  - intros Hr. inv_run. unfold try_borrow_mut, modify_accounts in *. inv_run. simplify_eq.
    match goal with E : ok_or (borrow_counters _ !! _) _ = Ok ?c |- _ => apply ok_or_Ok in E;
      assert (c = 0) as -> by (unfold unborrowed in Hun; rewrite Forall_lookup in Hun; by eapply Hun) end.
    match goal with E : counter_try_borrow_mut 0 = Some _ |- _ => injection E as <- end.
    match goal with E : borrow_counters _ !! ?i = Some 0 |- _ =>
      destruct (lookup_lt_is_Some_2 (accs s) i) as [acc Hacc];
        [rewrite <- (wf_counters _ Hwf); by eapply lookup_lt_Some|] end.
    match goal with E : (let '(_, _) := ?m in _) = _ |- _ => destruct m as [rb s1] eqn:Hb; injection E as -> <- end.
    eexists _, _, _. split_and!; done.
  - intros (ia & acc & s1 & Hia & Hacc & Hc & Hb & ->). apply bind_Ok. eexists _, _. split.
    + apply bind_Ok. eexists _, _. split; [by apply lift_opt_Ok|]. apply bind_Ok. exists tt, (lock (index_in_transaction ia) s).
      split; [|done]. unfold try_borrow_mut. apply bind_Ok. eexists _, _. split; [apply reads_Ok; by rewrite Hc|].
      apply bind_Ok. eexists _, _. split; [by apply lift_opt_Ok|]. by apply modify_Ok.
    + cbv beta. rewrite Hb. done.
Qed.

Lemma check_number_Ok n u s' : check_number_of_instruction_accounts ix n ic s = (Ok u, s') <->
  (n <= length (ix_accounts ix))%nat /\ s' = s.
Proof. unfold check_number_of_instruction_accounts. by rewrite require_Ok, Nat.leb_le. Qed.

Lemma signer_Ok i r s' : is_instruction_account_signer ix i ic s = (Ok r, s') <->
  (exists ia, ix_accounts ix !! i = Some ia /\ r = is_signer ia) /\ s' = s.
Proof.
  unfold is_instruction_account_signer. rewrite lift_opt_Ok, fmap_Some. done.
Qed.

Lemma key_Ok i k s' : get_key_of_instruction_account ix i ic s = (Ok k, s') <->
  (exists ia a, ix_accounts ix !! i = Some ia /\ accs s !! index_in_transaction ia = Some a /\ k = acc_key a) /\ s' = s.
Proof.
  unfold get_key_of_instruction_account, get_index_of_instruction_account_in_transaction, key_at. split.
  - intros Hr. inv_run. inv_checked. simplify_option_eq. eauto 8.
  - intros [(ia & a & Hia & Ha & ->) ->]. apply bind_Ok. eexists _, _. split; [apply lift_opt_Ok; by rewrite Hia|].
    apply reads_Ok. by rewrite Ha.
Qed.
End eval.

Lemma alter_lamports_id (i : nat) (l : list Account) a x : l !! i = Some a -> x = acc_lamports a -> alter (with_lamports x) i l = l.
Proof.
  intros Ha ->. apply list_eq. intros j. destruct (decide (i = j)) as [<-|Hne].
  - rewrite list_lookup_alter_eq, Ha. by destruct a.
  - by rewrite list_lookup_alter_ne.
Qed.

Lemma credit_zero i l s a : accs s !! i = Some a -> l = acc_lamports a -> credit i l 0 s = s.
Proof.
  intros Ha ->. unfold credit. rewrite (alter_lamports_id _ _ a) by done. cbn. rewrite Z.add_0_r.
  by destruct s as [[]].
Qed.

Lemma upd_lamports_credit i l s n : n <> 0 ->
  upd i (with_lamports l) (delta s + n) (resize_delta (tx_accounts s)) s = credit i l n s.
Proof. intros Hn. unfold upd, credit, changed. by rewrite (proj2 (Z.eqb_neq n 0) Hn). Qed.

(** the accounted growth of account data *)
Definition resized (rd old_len new_len : Z) : Z :=
  saturating_add_i i64_min i64_max rd (saturating_sub_i i64_min i64_max new_len old_len).

Section eval_borrowed.
Context (b : BorrowedInstructionAccount) (ic : InvokeContext) (s : TransactionContext).
Abbreviation i := (index_in_transaction (b_account b)).

Lemma borrowed_Ok a s' : borrowed b ic s = (Ok a, s') <-> accs s !! i = Some a /\ s' = s.
Proof. unfold borrowed. by rewrite reads_Ok, ok_or_Ok. Qed.

Lemma getter_Ok {A} (f : Account -> A) k s' : (a ← borrowed b; mret (f a)) ic s = (Ok k, s') <->
  (exists a, accs s !! i = Some a /\ k = f a) /\ s' = s.
Proof.
  rewrite bind_Ok. split.
  - intros (a & s1 & [Ha ->]%borrowed_Ok & [-> ->]%ret_Ok). eauto.
  - intros [(a & Ha & ->) ->]. exists a, s. by rewrite borrowed_Ok, ret_Ok.
Qed.
Lemma get_owner_Ok k s' : get_owner b ic s = (Ok k, s') <-> (exists a, accs s !! i = Some a /\ k = acc_owner a) /\ s' = s.
Proof. apply getter_Ok. Qed.
Lemma get_lamports_Ok k s' : get_lamports b ic s = (Ok k, s') <-> (exists a, accs s !! i = Some a /\ k = acc_lamports a) /\ s' = s.
Proof. apply getter_Ok. Qed.
Lemma get_data_Ok k s' : get_data b ic s = (Ok k, s') <-> (exists a, accs s !! i = Some a /\ k = acc_data a) /\ s' = s.
Proof. apply getter_Ok. Qed.

Hypothesis Hwf : tx_wf s.

Lemma get_lamports_range k s' : get_lamports b ic s = (Ok k, s') ->
  (exists a, accs s !! i = Some a /\ k = acc_lamports a /\ 0 <= acc_lamports a /\ acc_lamports a <= u64_max) /\ s' = s.
Proof. intros [(a & Ha & ->) ->]%get_lamports_Ok. pose proof (wf_lamports _ Hwf _ _ Ha) as [? ?]. eauto 6. Qed.

Lemma set_data_Ok d u s' : set_data_from_slice b d ic s = (Ok u, s') <-> exists a, accs s !! i = Some a
  /\ is_writable (b_account b) = true /\ owned b s a = true
  /\ Z.of_nat (length d) <= MAX_ACCOUNT_DATA_LEN
  /\ resized (resize_delta (tx_accounts s)) (Z.of_nat (length (acc_data a))) (Z.of_nat (length d)) <= MAX_ACCOUNT_DATA_GROWTH_PER_TRANSACTION
  /\ s' = upd i (with_data d) (delta s)
       (resized (resize_delta (tx_accounts s)) (Z.of_nat (length (acc_data a))) (Z.of_nat (length d))) s.
Proof.
  destruct u. destruct (accs s !! i) as [a|] eqn:Ha.
  2: { unfold set_data_from_slice, can_data_be_resized, mbind, M_bind, borrowed, reads. rewrite Ha. split; [done|by intros (? & ? & _)]. }
  destruct (can_data_be_resized_spec b ic s a Ha (Z.of_nat (length d))) as (r & Hr & Hok).
  unfold set_data_from_slice. unfold mbind at 1, M_bind at 1. rewrite Hr. fold (resized (resize_delta (tx_accounts s)) (Z.of_nat (length (acc_data a))) (Z.of_nat (length d))) in Hok.
  destruct r as [[]|].
  - destruct Hok as [(_ & Hl & Hg & Hw & Ho) _]; [done|].
    unfold touch, update_accounts_resize_delta, put_account, modify_accounts, borrowed, mbind, M_bind, reads.
    destruct (touched_lookup b s a Ha Hwf) as [t ->]. cbn. rewrite !tx_accounts_set. cbn. rewrite Ha. cbn.
    rewrite !tx_accounts_set, !set_tx_accounts_twice. split.
    + intros [= <-]. exists a. split_and!; done.
    + intros (a' & [= <-] & _ & _ & _ & _ & ->). done.
  - split; [done|]. intros (a' & [= <-] & Hw & Ho & Hl & Hg & _). discriminate (proj2 Hok (conj (or_intror Ho) (conj Hl (conj Hg (conj Hw Ho))))).
Qed.

Lemma set_lamports_Ok l u s' : in_u64 l -> set_lamports b l ic s = (Ok u, s') <-> exists a, accs s !! i = Some a
  /\ (owned b s a = true \/ acc_lamports a <= l) /\ is_writable (b_account b) = true
  /\ (acc_lamports a = l /\ s' = s
      \/ acc_lamports a <> l /\ in_range i128_min i128_max (delta s + (l - acc_lamports a)) = true
         /\ s' = upd i (with_lamports l) (delta s + (l - acc_lamports a)) (resize_delta (tx_accounts s)) s).
Proof.
  intros Hl. destruct u. destruct (accs s !! i) as [a|] eqn:Ha.
  2: { unfold set_lamports, mbind, M_bind, borrowed, reads. rewrite Ha. split; [done|by intros (? & ? & _)]. }
  rewrite (set_lamports_spec b ic s a Ha Hwf l Hl). unfold checked_add_i.
  destruct (owned b s a) eqn:Ho, (l <? acc_lamports a) eqn:E1, (is_writable (b_account b)) eqn:Hw,
    (acc_lamports a =? l) eqn:E2, (in_range i128_min i128_max (delta s + (l - acc_lamports a))) eqn:E3;
  cbn [negb andb]; breflect;
  (split; [intros [= <-]; exists a; split_and!; auto; try lia; by right
          |intros (a' & [= <-] & [Ho'|Ho'] & Hw' & [[? ->]|(? & ? & ->)])]; try done; try lia; congruence).
Qed.

Lemma checked_add_lamports_Ok n u s' : 0 <= n -> checked_add_lamports b n ic s = (Ok u, s') <-> exists a, accs s !! i = Some a
  /\ in_u64 (acc_lamports a) /\ acc_lamports a + n <= u64_max /\ is_writable (b_account b) = true
  /\ (n = 0 \/ in_range i128_min i128_max (delta s + n) = true) /\ s' = credit i (acc_lamports a + n) n s.
Proof.
  intros Hn. unfold checked_add_lamports. split.
  - intros Hr. inv_run. match goal with E : get_lamports _ _ _ = _ |- _ => apply get_lamports_Ok in E as [(a & Ha & ->) ->] end.
    inv_checked. pose proof (wf_lamports _ Hwf _ _ Ha). subst.
    match goal with E : set_lamports _ _ _ _ = _ |- _ => apply set_lamports_Ok in E as (a' & Ha' & _ & Hw & Hs); [|lia] end.
    rewrite Ha in Ha'. injection Ha' as <-. exists a. split; [done|]. split; [done|]. split; [done|]. split; [done|].
    destruct Hs as [[E ->]|(E & Hr & ->)].
    + split; [left; lia|]. assert (n = 0) as -> by lia. symmetry. apply (credit_zero _ _ _ a); [done|lia].
    + replace (acc_lamports a + n - acc_lamports a) with n in * by lia. split; [by right|]. apply upd_lamports_credit. lia.
  - intros (a & Ha & Hrange & Hl & Hw & Hr & ->). apply bind_Ok. eexists _, _.
    split; [apply get_lamports_Ok; eauto|]. apply bind_Ok. eexists _, _. split; [apply lift_opt_Ok; by rewrite checked_add_Some|].
    apply set_lamports_Ok; [lia|]. exists a. replace (acc_lamports a + n - acc_lamports a) with n by lia.
    split_and!; [done|right; lia|done|]. destruct (decide (n = 0)) as [->|Hne].
    + left. split; [lia|]. apply (credit_zero _ _ _ a); [done|lia].
    + right. split_and!; [lia|by destruct Hr|]. symmetry. by apply upd_lamports_credit.
Qed.

Lemma checked_sub_lamports_Ok n u s' : 0 <= n -> checked_sub_lamports b n ic s = (Ok u, s') <-> exists a, accs s !! i = Some a
  /\ in_u64 (acc_lamports a) /\ n <= acc_lamports a /\ is_writable (b_account b) = true
  /\ (n = 0 \/ owned b s a = true /\ in_range i128_min i128_max (delta s - n) = true) /\ s' = credit i (acc_lamports a - n) (- n) s.
Proof.
  intros Hn. unfold checked_sub_lamports. split.
  - intros Hr. inv_run. match goal with E : get_lamports _ _ _ = _ |- _ => apply get_lamports_Ok in E as [(a & Ha & ->) ->] end.
    inv_checked. pose proof (wf_lamports _ Hwf _ _ Ha). subst.
    match goal with E : set_lamports _ _ _ _ = _ |- _ => apply set_lamports_Ok in E as (a' & Ha' & Ho & Hw & Hs); [|lia] end.
    rewrite Ha in Ha'. injection Ha' as <-. exists a. split; [done|]. split; [done|]. split; [done|]. split; [done|].
    destruct Hs as [[E ->]|(E & Hr & ->)].
    + split; [left; lia|]. assert (n = 0) as -> by lia. symmetry. apply (credit_zero _ _ _ a); [done|lia].
    + replace (acc_lamports a - n - acc_lamports a) with (- n) in * by lia.
      split; [right; split; [destruct Ho; [done|lia]|done]|]. apply upd_lamports_credit. lia.
  - intros (a & Ha & Hrange & Hl & Hw & Hr & ->). apply bind_Ok. eexists _, _.
    split; [apply get_lamports_Ok; eauto|]. apply bind_Ok. eexists _, _. split; [apply lift_opt_Ok; by rewrite checked_sub_Some|].
    apply set_lamports_Ok; [lia|]. exists a. replace (acc_lamports a - n - acc_lamports a) with (- n) by lia.
    split_and!; [done|destruct Hr as [->|[? _]]; [right; lia|by left]|done|]. destruct (decide (n = 0)) as [->|Hne].
    + left. split; [lia|]. apply (credit_zero _ _ _ a); [done|lia].
    + right. split_and!; [lia|destruct Hr as [?|[_ ?]]; done|]. symmetry. apply upd_lamports_credit. lia.
Qed.
End eval_borrowed.

#[global] Opaque lock unlock upd credit.

(** ** Handlers *)

(** The state in which the runtime calls a program at the top level. *)
Record ready (ix : InstructionContext) (ic : InvokeContext) (s : TransactionContext) : Prop := {
  ready_wf : tx_wf s;
  ready_current : current s = Some ix;
  ready_unborrowed : unborrowed s;
  ready_delta : delta s = 0;
  ready_clock c : sysvar_clock ic = Some c ->
    in_u64 (clock_slot c) /\ in_u64 (clock_epoch c) /\ in_i64 (clock_unix_timestamp c);
  ready_keys i a : accs s !! i = Some a -> in_pubkey (acc_key a)
}.

(** the transaction's accounts have not grown beyond what one transaction may *)
Definition resize_room (s : TransactionContext) : Prop :=
  i64_min <= resize_delta (tx_accounts s) <= MAX_ACCOUNT_DATA_GROWTH_PER_TRANSACTION.

Lemma current_bind {A} ix (k : InstructionContext -> M A) ic s : current s = Some ix ->
  (get_current_instruction_context ≫= k) ic s = k ix ic s.
Proof. intros Hc. unfold mbind, M_bind. by rewrite (current_context_spec ix). Qed.

Lemma wf_upd_data i d x y s : tx_wf s -> tx_wf (upd i (with_data d) x y s).
Proof. intros Hwf. apply wf_upd; [done|]. intros a Ha. by apply (wf_lamports _ Hwf _ _ Ha). Qed.

(** Same length: the growth stays. *)
Lemma resized_same rd n : i64_min <= rd <= MAX_ACCOUNT_DATA_GROWTH_PER_TRANSACTION -> resized rd n n = rd.
Proof. unfold resized, saturating_add_i, saturating_sub_i, MAX_ACCOUNT_DATA_GROWTH_PER_TRANSACTION, MAX_ACCOUNT_DATA_LEN. lia. Qed.

Create HintDb view_wf discriminated.
#[export] Hint Opaque lock unlock upd credit : view_wf.
#[export] Hint Resolve wf_lock wf_upd_data wf_credit : view_wf.
#[export] Hint Extern 1 (unborrowed (credit _ _ _ _)) => apply unborrowed_credit : view_wf.
#[export] Hint Extern 1 (unborrowed (upd _ _ _ _ _)) => apply unborrowed_upd : view_wf.
#[export] Hint Extern 2 (_ <= _) => lia : view_wf.
#[export] Hint Extern 2 (_ /\ _) => split : view_wf.

Lemma lookup_alter_Some {A} (f : A -> A) (i j : nat) (l : list A) a : l !! j = Some a ->
  alter f i l !! j = Some (if decide (j = i) then f a else a).
Proof. intros Hj. rewrite list_lookup_alter. case_decide; subst; by rewrite ?decide_True, ?decide_False, ?Hj by done. Qed.

(** The account at [j] after [f] was applied at [i]. *)
Lemma alter_lookup_Some {A} (f : A -> A) (i j : nat) (l : list A) a a' : l !! j = Some a ->
  alter f i l !! j = Some a' -> a' = if decide (j = i) then f a else a.
Proof. intros Hj. rewrite (lookup_alter_Some _ _ _ _ a) by done. by intros [= <-]. Qed.

Lemma with_data_lookup i buf s d rd j a : accs s !! j = Some a -> exists a', accs (upd i (with_data buf) d rd s) !! j = Some a'
  /\ acc_owner a' = acc_owner a /\ acc_data a' = if decide (j = i) then buf else acc_data a.
Proof. intros Hj. rewrite accs_upd. eexists. split; [by apply lookup_alter_Some|]. by case_decide. Qed.

(** Data written at [i1], then [n] lamports moved from [i2] to [i3]; the three
    may coincide. *)
Lemma pay_lookup i1 i2 i3 buf n (l : list Account) a2 a3 j a :
  alter (with_data buf) i1 l !! i2 = Some a2 ->
  alter (with_lamports (acc_lamports a2 - n)) i2 (alter (with_data buf) i1 l) !! i3 = Some a3 ->
  l !! j = Some a ->
  exists a', alter (with_lamports (acc_lamports a3 + n)) i3
      (alter (with_lamports (acc_lamports a2 - n)) i2 (alter (with_data buf) i1 l)) !! j = Some a'
    /\ acc_key a' = acc_key a /\ acc_owner a' = acc_owner a
    /\ acc_lamports a' = acc_lamports a - (if decide (j = i2) then n else 0) + (if decide (j = i3) then n else 0)
    /\ acc_data a' = if decide (j = i1) then buf else acc_data a.
Proof.
  intros H2 H3 Hj. eexists. split; [by do 3 apply lookup_alter_Some|].
  assert (j = i2 -> a2 = if decide (j = i1) then with_data buf a else a) as E2.
  { intros <-. by eapply alter_lookup_Some. }
  assert (j = i3 -> a3 = if decide (j = i2) then with_lamports (acc_lamports a2 - n) (if decide (j = i1) then with_data buf a else a)
                         else if decide (j = i1) then with_data buf a else a) as E3.
  { intros <-. eapply alter_lookup_Some; [|exact H3]. by apply lookup_alter_Some. }
  clear H2 H3. repeat case_decide; simpl; split_and!; try done;
    try (rewrite E3 by done); try (rewrite E2 by done); simpl; lia.
Qed.

(** ** Data and balances across a sequence of updates *)

(** Keys and owners stay; data is rewritten at [i] only. *)
Definition writes (i : nat) (d : list Byte.byte) (l l' : list Account) : Prop := forall j a, l !! j = Some a ->
  exists a', l' !! j = Some a' /\ acc_key a' = acc_key a /\ acc_owner a' = acc_owner a
    /\ acc_data a' = if decide (j = i) then d else acc_data a.

(** Keys, owners and data stay. *)
Definition keeps (l l' : list Account) : Prop := forall j a, l !! j = Some a ->
  exists a', l' !! j = Some a' /\ acc_key a' = acc_key a /\ acc_owner a' = acc_owner a /\ acc_data a' = acc_data a.

Lemma keeps_refl l : keeps l l.
Proof. intros j a Hj. eauto. Qed.
Lemma keeps_lamports i x l l' : keeps l l' -> keeps l (alter (with_lamports x) i l').
Proof.
  intros H j a (a' & Hj' & Hk & Ho & Hd)%H. eexists. split; [by apply lookup_alter_Some|]. by case_decide.
Qed.
Lemma writes_lamports i d k x l l' : writes i d l l' -> writes i d l (alter (with_lamports x) k l').
Proof.
  intros H j a (a' & Hj' & Hk & Ho & Hd)%H. eexists. split; [by apply lookup_alter_Some|]. by destruct (decide (j = k)).
Qed.
Lemma writes_data i d l l' : keeps l l' -> writes i d l (alter (with_data d) i l').
Proof.
  intros H j a (a' & Hj' & Hk & Ho & Hd)%H. eexists. split; [by apply lookup_alter_Some|]. by case_decide.
Qed.
Create HintDb accs.
#[export] Hint Resolve keeps_refl keeps_lamports writes_lamports writes_data : accs.

(** Account [i1] emptied of lamports and overwritten, [ret] lamports credited to
    [i0]. *)
Definition closes (i1 i0 : nat) (d : list Byte.byte) (ret : Z) (l l' : list Account) : Prop := forall j a, l !! j = Some a ->
  exists a', l' !! j = Some a' /\ acc_key a' = acc_key a /\ acc_owner a' = acc_owner a
    /\ acc_lamports a' = (if decide (j = i1) then 0 else acc_lamports a) + (if decide (j = i0) then ret else 0)
    /\ acc_data a' = if decide (j = i1) then d else acc_data a.

Lemma closes_writes i1 i0 d ret l l' : closes i1 i0 d ret l l' -> writes i1 d l l'.
Proof. intros H j a (a' & Hj & Hk & Ho & _ & Hd)%H. eauto 6. Qed.

Lemma closes_intro i1 i0 d ret l l2 l3 a1 a3 : l !! i1 = Some a1 ->
  l2 = alter (with_lamports 0) i1 (alter (with_data d) i1 l) -> l2 !! i0 = Some a3 ->
  l3 = alter (with_lamports (acc_lamports a3 + ret)) i0 l2 -> closes i1 i0 d ret l l3.
Proof.
  intros H1 -> H3 -> j a Hj. eexists. split; [by do 3 apply lookup_alter_Some|].
  assert (j = i0 -> a3 = if decide (j = i1) then with_lamports 0 (if decide (j = i1) then with_data d a else a)
                         else if decide (j = i1) then with_data d a else a) as E3.
  { intros <-. eapply alter_lookup_Some; [|exact H3]. by apply lookup_alter_Some. }
  clear H3. repeat case_decide; simpl; split_and!; try done; try (rewrite E3 by done); simpl; lia.
Qed.

(** [n] lamports moved from [i0] to [i1], then [i1] overwritten. *)
Lemma fund_lookup i0 i1 d n (l : list Account) a0 a1 j a : l !! i0 = Some a0 ->
  alter (with_lamports (acc_lamports a0 - n)) i0 l !! i1 = Some a1 -> l !! j = Some a ->
  exists a', alter (with_data d) i1 (alter (with_lamports (acc_lamports a1 + n)) i1
      (alter (with_lamports (acc_lamports a0 - n)) i0 l)) !! j = Some a'
    /\ acc_key a' = acc_key a /\ acc_owner a' = acc_owner a
    /\ acc_lamports a' = acc_lamports a - (if decide (j = i0) then n else 0) + (if decide (j = i1) then n else 0)
    /\ acc_data a' = if decide (j = i1) then d else acc_data a.
Proof.
  intros H0 H1 Hj. eexists. split; [by do 3 apply lookup_alter_Some|].
  assert (j = i0 -> a0 = a) as E0 by (intros <-; congruence).
  assert (j = i1 -> a1 = if decide (j = i0) then with_lamports (acc_lamports a0 - n) a else a) as E1.
  { intros <-. by eapply alter_lookup_Some. }
  clear H0 H1. repeat case_decide; simpl; split_and!; try done;
    try (rewrite E1 by done); try (rewrite E0 by done); simpl; lia.
Qed.

(** the holder of [k] signed the instruction *)
Definition signed_by (ix : InstructionContext) (s : TransactionContext) (k : Pubkey) : Prop :=
  exists ia a, ia ∈ ix_accounts ix /\ is_signer ia = true /\ accs s !! index_in_transaction ia = Some a /\ acc_key a = k.

Lemma signed_by_intro ix s i ia a k : k = acc_key a -> accs s !! index_in_transaction ia = Some a -> is_signer ia = true ->
  ix_accounts ix !! i = Some ia -> signed_by ix s k.
Proof. intros -> Ha Hs Hi. exists ia, a. split_and!; try done. by eapply list_elem_of_lookup_2. Qed.

(** [pop] accepts a balanced instruction only. *)
Lemma pop_balanced `{InstructionsSysvar} ic s u s' : pop ic s = (Ok u, s') -> delta s = 0.
Proof.
  unfold pop. destruct (instruction_stack s); [done|]. destruct (detect_unbalanced ic s) as [[r|e] s1] eqn:E.
  - apply (detect_unbalanced_step (fun _ => true)) in E as (_ & _ & ->). destruct (delta s =? 0) eqn:E0; [|done].
    intros _. by apply Z.eqb_eq.
  - by destruct (list.last _).
Qed.

Lemma and_pop_balanced `{InstructionsSysvar} (m : M unit) ic s u s' : and_pop m ic s = (Ok u, s') ->
  exists s1, m ic s = (Ok tt, s1) /\ delta s1 = 0.
Proof.
  unfold and_pop. destruct (m ic s) as [[[]|] s1] eqn:E; destruct (pop ic s1) as [[[]|] s2] eqn:Ep; try done.
  intros _. exists s1. split; [done|]. by eapply pop_balanced.
Qed.

(** Lookups in the goal that the context decides. *)
Ltac use_lookup := repeat match goal with H : ?x = Some _ |- context [?x] => rewrite H; simpl end.

Lemma lift_Ok {A} (r : result A InstructionError) ic s a s' : lift r ic s = (Ok a, s') <-> r = Ok a /\ s' = s.
Proof. unfold lift. split; [by intros [= -> ->]|by intros [-> ->]]. Qed.

(** Decompose a successful run of a handler into its guards and its effect. *)
Ltac simpl_view :=
  cbn [b_account b_program] in *; autorewrite with view in *; rewrite ?upd_lock, ?credit_lock in *; autorewrite with view in *;
  rewrite ?unlock_lock in * by (autorewrite with view; done).

Ltac eval_step :=
    match goal with
    | H : check_number_of_instruction_accounts _ _ _ _ = (Ok _, _) |- _ => apply check_number_Ok in H as [? ->]
    | H : is_instruction_account_signer _ _ _ _ = (Ok _, _) |- _ => apply signer_Ok in H as [(? & ? & ->) ->]
    | H : get_key_of_instruction_account _ _ _ _ = (Ok _, _) |- _ => apply key_Ok in H as [(? & ? & ? & ? & ->) ->]
    | H : borrowing _ _ _ _ _ = (Ok _, _) |- _ =>
        apply borrowing_Ok in H as (? & ? & ? & ? & ? & ? & ? & ->); [|solve [auto with view_wf]..]
    | H : get_owner _ _ _ = (Ok _, _) |- _ => apply get_owner_Ok in H as [(? & ? & ->) ->]
    | H : get_data _ _ _ = (Ok _, _) |- _ => apply get_data_Ok in H as [(? & ? & ->) ->]
    | H : get_lamports _ _ _ = (Ok _, _) |- _ =>
        apply get_lamports_range in H as [(? & ? & -> & ? & ?) ->]; [|solve [auto with view_wf]]
    | H : set_data_from_slice _ _ _ _ = (Ok _, _) |- _ =>
        apply set_data_Ok in H as (? & ? & ? & ? & ? & ? & ->); [|solve [auto with view_wf]]
    | H : checked_add_lamports _ _ _ _ = (Ok _, _) |- _ =>
        apply checked_add_lamports_Ok in H as (? & ? & [? ?] & ? & ? & _ & ->); [|solve [auto with view_wf]..]
    | H : checked_sub_lamports _ _ _ _ = (Ok _, _) |- _ =>
        apply checked_sub_lamports_Ok in H as (? & ? & [? ?] & ? & ? & ? & ->); [|solve [auto with view_wf]..]
    | H : (if ?b then _ else _) _ _ = (Ok _, _) |- _ => destruct b eqn:?
    | H : lift _ _ _ = (Ok _, _) |- _ => apply lift_Ok in H as [? ->]
    end; simpl_view.

Ltac inv_eval :=
  repeat (inv_run; inv_checked; eval_step); inv_run; inv_checked; simpl_view;
  breflect; try (exfalso; lia);
  repeat match goal with
  | H1 : ?x = Some ?a, H2 : ?x = Some ?b |- _ => first [constr_eq a b; clear H2 | rewrite H1 in H2; injection H2 as H2; subst b]
  end.

(** ** Running handlers *)

Lemma unborrowed_lookup s i a : tx_wf s -> unborrowed s -> accs s !! i = Some a ->
  borrow_counters (tx_accounts s) !! i = Some 0.
Proof.
  intros Hwf Hun Ha. destruct (lookup_lt_is_Some_2 (borrow_counters (tx_accounts s)) i) as [c Hc].
  { rewrite (wf_counters _ Hwf). by eapply lookup_lt_Some. }
  rewrite Hc. f_equal. unfold unborrowed in Hun. rewrite Forall_lookup in Hun. by eapply Hun.
Qed.

Lemma run_borrowing {A} ix ic s i (body : BorrowedInstructionAccount -> M A) ia acc a s1 s' : tx_wf s -> unborrowed s ->
  ix_accounts ix !! i = Some ia -> accs s !! index_in_transaction ia = Some acc ->
  body {| b_account := ia; b_program := ix_program_index ix |} ic (lock (index_in_transaction ia) s) = (Ok a, s1) ->
  unlock (index_in_transaction ia) s1 = s' ->
  borrowing ix i body ic s = (Ok a, s').
Proof.
  intros Hwf Hun Hia Hacc Hb <-. apply borrowing_Ok; [done|done|]. exists ia, acc, s1. split_and!; try done.
  by eapply unborrowed_lookup.
Qed.

Lemma run_bind {A B} (m : M A) (k : A -> M B) ic s a s1 b s' :
  m ic s = (Ok a, s1) -> k a ic s1 = (Ok b, s') -> (m ≫= k) ic s = (Ok b, s').
Proof. intros Hm Hk. apply bind_Ok. eauto. Qed.

Lemma run_require b e ic s : b = true -> require b e ic s = (Ok tt, s).
Proof. by intros ->. Qed.
Lemma run_lift_opt {A} (o : option A) e a ic s : o = Some a -> lift_opt o e ic s = (Ok a, s).
Proof. by intros ->. Qed.
Lemma run_clock c ic s : sysvar_clock ic = Some c -> get_clock ic s = (Ok c, s).
Proof. unfold get_clock. by intros ->. Qed.
Lemma run_check_number ix n ic s : (n <= length (ix_accounts ix))%nat ->
  check_number_of_instruction_accounts ix n ic s = (Ok tt, s).
Proof. intros H. by apply check_number_Ok. Qed.
Lemma run_signer ix i ia ic s : ix_accounts ix !! i = Some ia -> is_instruction_account_signer ix i ic s = (Ok (is_signer ia), s).
Proof. intros H. apply signer_Ok. eauto. Qed.
Lemma run_key ix i ia a ic s : ix_accounts ix !! i = Some ia -> accs s !! index_in_transaction ia = Some a ->
  get_key_of_instruction_account ix i ic s = (Ok (acc_key a), s).
Proof. intros H1 H2. apply key_Ok. eauto 8. Qed.

Section run_borrowed.
Context (b : BorrowedInstructionAccount) (ic : InvokeContext) (s : TransactionContext) (a : Account).
Hypothesis Ha : accs s !! index_in_transaction (b_account b) = Some a.
Lemma run_get_owner : get_owner b ic s = (Ok (acc_owner a), s).
Proof. apply get_owner_Ok. eauto. Qed.
Lemma run_get_lamports : get_lamports b ic s = (Ok (acc_lamports a), s).
Proof. apply get_lamports_Ok. eauto. Qed.
Lemma run_get_data : get_data b ic s = (Ok (acc_data a), s).
Proof. apply get_data_Ok. eauto. Qed.

Hypothesis Hwf : tx_wf s.
Hypothesis Hw : is_writable (b_account b) = true.
Lemma run_set_data d : owned b s a = true -> length d = length (acc_data a) -> Z.of_nat (length d) <= MAX_ACCOUNT_DATA_LEN ->
  i64_min <= resize_delta (tx_accounts s) <= MAX_ACCOUNT_DATA_GROWTH_PER_TRANSACTION ->
  set_data_from_slice b d ic s =
    (Ok tt, upd (index_in_transaction (b_account b)) (with_data d) (delta s) (resize_delta (tx_accounts s)) s).
Proof.
  intros Ho Hlen Hmax Hrd. apply set_data_Ok; [done|]. exists a. rewrite Hlen, resized_same by done. split_and!; try done; lia.
Qed.
Lemma run_shrink_data d : owned b s a = true -> (length d <= length (acc_data a))%nat -> Z.of_nat (length d) <= MAX_ACCOUNT_DATA_LEN ->
  i64_min <= resize_delta (tx_accounts s) <= MAX_ACCOUNT_DATA_GROWTH_PER_TRANSACTION ->
  set_data_from_slice b d ic s = (Ok tt, upd (index_in_transaction (b_account b)) (with_data d) (delta s)
    (resized (resize_delta (tx_accounts s)) (Z.of_nat (length (acc_data a))) (Z.of_nat (length d))) s).
Proof.
  intros Ho Hlen Hmax Hrd. apply set_data_Ok; [done|]. exists a. split_and!; try done.
  unfold resized, saturating_add_i, saturating_sub_i. unfold MAX_ACCOUNT_DATA_GROWTH_PER_TRANSACTION, MAX_ACCOUNT_DATA_LEN in *. lia.
Qed.
Lemma run_add_lamports n : 0 <= n -> acc_lamports a + n <= u64_max -> in_range i128_min i128_max (delta s + n) = true ->
  checked_add_lamports b n ic s = (Ok tt, credit (index_in_transaction (b_account b)) (acc_lamports a + n) n s).
Proof.
  intros Hn Hl Hr. apply checked_add_lamports_Ok; [done|lia|]. exists a. pose proof (wf_lamports _ Hwf _ _ Ha).
  split; [done|]. split; [done|]. split_and!; try done. by right.
Qed.
Lemma run_sub_lamports n : 0 <= n -> n <= acc_lamports a -> owned b s a = true -> in_range i128_min i128_max (delta s - n) = true ->
  checked_sub_lamports b n ic s = (Ok tt, credit (index_in_transaction (b_account b)) (acc_lamports a - n) (- n) s).
Proof.
  intros Hn Hl Ho Hr. apply checked_sub_lamports_Ok; [done|lia|]. exists a. pose proof (wf_lamports _ Hwf _ _ Ha).
  split; [done|]. split; [done|]. split_and!; try done. by right.
Qed.
End run_borrowed.

Lemma owned_of_key ix s ia a k : program_key ix s = Some k -> acc_owner a = k ->
  owned {| b_account := ia; b_program := ix_program_index ix |} s a = true.
Proof. unfold program_key, owned. intros Hk <-. by apply bool_decide_eq_true_2. Qed.

(** Accounts owned by the program of one instruction have the same owner. *)
Lemma owned_same b1 b2 s a1 a2 : b_program b1 = b_program b2 -> owned b1 s a1 = true -> owned b2 s a2 = true -> acc_owner a1 = acc_owner a2.
Proof. unfold owned. intros -> ->%bool_decide_eq_true_1 H%bool_decide_eq_true_1. by injection H. Qed.

Lemma keeps_owner l l' i a a' : keeps l l' -> l !! i = Some a -> l' !! i = Some a' -> acc_owner a' = acc_owner a.
Proof. intros H Hi Hi'. destruct (H _ _ Hi) as (a2 & Hi2 & _ & Ho & _). congruence. Qed.

Lemma lookup_first4 {A} (l : list A) a b c d rest : l = a :: b :: c :: d :: rest ->
  l !! 0%nat = Some a /\ l !! 1%nat = Some b /\ l !! 2%nat = Some c /\ l !! 3%nat = Some d /\ (4 <= length l)%nat.
Proof. intros ->. simpl. split_and!; try done. lia. Qed.

(** Side conditions on views of the state. *)
Ltac solve_view :=
  cbn [b_account b_program]; autorewrite with view; rewrite ?list_lookup_alter_ne by done;
  first [eassumption | reflexivity | solve [auto with view_wf] | lia | idtac].

(** Guards the context decides. *)
Ltac solve_guard :=
  first [ eassumption | reflexivity
        | apply checked_add_Some; split; [reflexivity|lia]
        | apply checked_sub_Some; split; [reflexivity|lia]
        | apply checked_mul_Some; split; [reflexivity|lia]
        | unfold in_range; autorewrite with breflect; solve [assumption | congruence | lia] ].

Ltac solve_unlock :=
  cbn [b_account b_program]; autorewrite with view;
  first [ apply unlock_credit_upd_lock | apply unlock_credit_lock | apply unlock_upd_lock | apply unlock_lock ]; eapply unborrowed_lookup; solve_view.

(** Run a handler whose guards the context decides. *)
Ltac run_step :=
  lazymatch goal with
  | |- (_ ≫= _) _ _ = (Ok _, _) => eapply run_bind; [run_step|cbv beta zeta; try run_step]
  | |- require _ _ _ _ = (Ok _, _) => apply run_require; solve_guard
  | |- lift_opt _ _ _ _ = (Ok _, _) => eapply run_lift_opt; solve_guard
  | |- get_clock _ _ = (Ok _, _) => eapply run_clock; solve_guard
  | |- check_number_of_instruction_accounts _ _ _ _ = (Ok _, _) => apply run_check_number; solve_guard
  | |- is_instruction_account_signer _ _ _ _ = (Ok _, _) => eapply run_signer; solve_view
  | |- get_key_of_instruction_account _ _ _ _ = (Ok _, _) => eapply run_key; solve_view
  | |- get_owner _ _ _ = (Ok _, _) => eapply run_get_owner; solve_view
  | |- get_lamports _ _ _ = (Ok _, _) => eapply run_get_lamports; solve_view
  | |- get_data _ _ _ = (Ok _, _) => eapply run_get_data; solve_view
  | |- borrowing _ _ _ _ _ = (Ok _, _) =>
      eapply run_borrowing; [solve_view|solve_view|solve_view|solve_view|cbv beta; run_step|solve_unlock]
  | |- mret _ _ _ = (Ok _, _) => reflexivity
  | |- (if ?b then _ else _) _ _ = (Ok _, _) =>
      let E := fresh in
      first [ assert (b = true) as E by solve_guard | assert (b = false) as E by solve_guard ];
      rewrite E; clear E; cbv beta iota; run_step
  | |- set_data_from_slice _ _ _ _ = (Ok _, _) =>
      first [ solve [eapply run_set_data; solve_view] | eapply run_shrink_data; solve_view ]
  | |- checked_add_lamports _ _ _ _ = (Ok _, _) => eapply run_add_lamports; solve_view; solve_guard
  | |- checked_sub_lamports _ _ _ _ = (Ok _, _) => eapply run_sub_lamports; solve_view; solve_guard
  end.

(** ** Calling a program

    The state in which the runtime calls the program of the first instruction of
    a message, and a check that it is [ready]. *)

Definition enter `{InstructionsSysvar} (signer writable : nat -> bool) (l : list Account) (si : SvmInstruction) (ic : InvokeContext)
    : TransactionContext :=
  ((prepare_next_top_level_instruction signer writable si ;; ic_push) ic (TransactionContext_new l 5 64 1)).2.

Definition readyb (ic : InvokeContext) (s : TransactionContext) : bool :=
  (length (borrow_counters (tx_accounts s)) =? length (accs s))%nat
  && (length (touched_flags (tx_accounts s)) =? length (accs s))%nat
  && forallb (fun a => in_range 0 u64_max (acc_lamports a)) (accs s)
  && forallb (fun a => in_range 0 (2 ^ 256 - 1) (acc_key a)) (accs s)
  && forallb (fun c => c =? 0) (borrow_counters (tx_accounts s))
  && (delta s =? 0)
  && match sysvar_clock ic with
     | Some c => in_range 0 u64_max (clock_slot c) && in_range 0 u64_max (clock_epoch c) && in_range i64_min i64_max (clock_unix_timestamp c)
     | None => true
     end.

Lemma readyb_ready ix ic s : current s = Some ix -> readyb ic s = true -> ready ix ic s.
Proof.
  unfold readyb. rewrite !andb_true_iff, !Nat.eqb_eq, !Z.eqb_eq. intros Hc ((((((Hb & Ht) & Hl) & Hk) & Hz) & Hd) & Hck).
  rewrite forallb_forall in Hl, Hk, Hz. split; try done.
  - split; [done|done|]. intros i a Hi. apply in_range_spec, Hl, list_elem_of_In. exact (list_elem_of_lookup_2 _ i _ Hi).
  - apply Forall_forall. intros c Hin. apply Z.eqb_eq, Hz. exact Hin.
  - intros c E. rewrite E, !andb_true_iff, !in_range_spec in Hck. tauto.
  - intros i a Hi. unfold in_pubkey. enough (0 <= acc_key a <= 2 ^ 256 - 1) by lia.
    apply in_range_spec, Hk, list_elem_of_In. exact (list_elem_of_lookup_2 _ i _ Hi).
Qed.

(** the instruction being executed, and an account that is not a program *)
Definition current_ix (s : TransactionContext) : InstructionContext :=
  default {| ix_index_in_trace := 0; ix_nesting_level := 0; ix_program_index := 0; ix_accounts := []; ix_dedup_map := []; ix_data := [] |}
    (current s).
Definition plain_account (k o l : Z) (d : list Byte.byte) : Account :=
  {| acc_key := k; acc_owner := o; acc_lamports := l; acc_data := d; acc_executable := false; acc_rent_epoch := 0 |}.

(** The instructions sysvar of the SDK: the index is the last two bytes. *)
Definition sdk_instructions_sysvar : InstructionsSysvar := {|
  instructions_id := base58 "Sysvar1nstructions1111111111111111111111111";
  sysvar_id := base58 "Sysvar1111111111111111111111111111111111111";
  store_current_index_checked := fun d n =>
    if (length d <? 2)%nat then Err AccountDataTooSmall
    else Ok (take (length d - 2) d ++ le_split 2 (Z.of_nat n))
|}.
