(* ===== verification/TxInvariant.v ===== *)
(** * What a program keeps of its accounts

    Only a program writes the data of the accounts it owns, and an account comes
    to be owned by it with zeroed data.  So a property of account data that holds
    of zeroed data and that the program's own instructions preserve holds of all
    its accounts after any message, whatever other programs the message calls.
    [DataInvariant] is the interface: a program proves it for one instruction,
    [message_keeps] gives it for messages. *)

From coqutil Require Import Byte.
From Stdlib Require Import ZArith Lia.
From stdpp Require Import base numbers list option.
From S2P Require Import Prelude Borsh TxContext TxSafety TxEval.
Local Open Scope Z_scope.

(** every account owned by [id] has data in [I] *)
Definition accounts_data (id : Pubkey) (I : list Byte.byte -> Prop) (l : list Account) : Prop :=
  forall j a, l !! j = Some a -> acc_owner a = id -> I (acc_data a).
Definition owned_data (id : Pubkey) (I : list Byte.byte -> Prop) (s : TransactionContext) : Prop := accounts_data id I (accs s).

Lemma accounts_data_with_data id I l i d : I d -> accounts_data id I l -> accounts_data id I (alter (with_data d) i l).
Proof.
  intros Hd Hl j a. destruct (decide (i = j)) as [<-|]; [|rewrite list_lookup_alter_ne by done; apply Hl].
  rewrite list_lookup_alter_eq. by intros (a0 & _ & ->)%fmap_Some _.
Qed.
Lemma accounts_data_with_lamports id I l i n : accounts_data id I l -> accounts_data id I (alter (with_lamports n) i l).
Proof.
  intros Hl j a. destruct (decide (i = j)) as [<-|]; [|rewrite list_lookup_alter_ne by done; apply Hl].
  rewrite list_lookup_alter_eq. intros (a0 & Ha & ->)%fmap_Some. simpl. by eapply Hl.
Qed.
Lemma accounts_data_Forall id (I : list Byte.byte -> Prop) l :
  Forall (fun a => acc_owner a = id -> I (acc_data a)) l -> accounts_data id I l.
Proof. rewrite Forall_lookup. intros H j a Hj. exact (H j a Hj). Qed.
#[export] Hint Resolve accounts_data_with_data accounts_data_with_lamports : accs.

(** An account the current program may write is one of its own. *)
Lemma owned_id ix id s ia a : program_key ix s = Some id ->
  owned {| b_account := ia; b_program := ix_program_index ix |} s a = true -> acc_owner a = id.
Proof. unfold owned, program_key. simpl. intros E H%bool_decide_eq_true_1. rewrite E in H. by injection H. Qed.

(** The entrypoint [entry] of the program [id] keeps the data of its accounts in
    [I]; its successful instructions have data in [Q]. *)
Class DataInvariant (id : Pubkey) (entry : M unit) (I : list Byte.byte -> Prop) (Q : list Byte.byte -> Prop) : Prop := {
  di_zeroed d : is_zeroed d = true -> I d;
  di_step ix ic s s' : ready ix ic s -> program_key ix s = Some id -> owned_data id I s ->
    entry ic s = (Ok tt, s') -> owned_data id I s' /\ Q (ix_data ix)
}.

(** the clock is within its types *)
Definition clock_ok (ic : InvokeContext) : Prop := forall c, sysvar_clock ic = Some c ->
  in_u64 (clock_slot c) /\ in_u64 (clock_epoch c) /\ in_i64 (clock_unix_timestamp c).

(** the state between two top-level instructions *)
Record between (s : TransactionContext) : Prop := {
  bt_wf : tx_wf s;
  bt_idle : idle s;
  bt_delta : delta s = 0;
  bt_unborrowed : unborrowed s;
  bt_keys i a : accs s !! i = Some a -> in_pubkey (acc_key a)
}.

Lemma between_new l stack_capacity trace_capacity n :
  Forall (fun a => in_u64 (acc_lamports a) /\ in_pubkey (acc_key a)) l ->
  between (TransactionContext_new l stack_capacity trace_capacity n).
Proof.
  rewrite Forall_lookup. intros Hl. split; simpl; [|done|done| |].
  - split; simpl; rewrite ?length_replicate; try done. intros i a Hi. by destruct (Hl _ _ Hi).
  - unfold unborrowed. simpl. apply Forall_replicate. done.
  - intros i a Hi. by destruct (Hl _ _ Hi).
Qed.

Section messages.
Context `{InstructionsSysvar} (signer writable : nat -> bool).

Lemma msg_rel_keys s s' : msg_rel writable s s' -> (forall i a, accs s !! i = Some a -> in_pubkey (acc_key a)) ->
  forall i a, accs s' !! i = Some a -> in_pubkey (acc_key a).
Proof.
  intros Hm Hk i a' Hi. destruct (lookup_lt_is_Some_2 (accs s) i) as [a Ha].
  { rewrite <- (mr_len _ _ _ Hm). by eapply lookup_lt_Some. }
  destruct (mr_accounts _ _ _ Hm _ _ Ha) as (a2 & Hi2 & Hk2 & _). rewrite Hi in Hi2. injection Hi2 as <-. rewrite Hk2. eauto.
Qed.

Lemma unborrowed_counters s s' : borrow_counters (tx_accounts s') = borrow_counters (tx_accounts s) ->
  unborrowed s -> unborrowed s'.
Proof. unfold unborrowed. by intros ->. Qed.

Lemma step_ok_back ix s s' i a' : step_ok ix s s' -> accs s' !! i = Some a' ->
  exists a, accs s !! i = Some a /\ acc_rel ix (program_key ix s) i a a'.
Proof.
  intros Hs Hi. destruct (lookup_lt_is_Some_2 (accs s) i) as [a Ha].
  { rewrite <- (so_len _ _ _ Hs). by eapply lookup_lt_Some. }
  destruct (so_accounts _ _ _ Hs _ _ Ha) as (a2 & Hi2 & Hr). rewrite Hi in Hi2. injection Hi2 as <-. eauto.
Qed.

(** A run of an instruction keeps the state between instructions, and enters its
    program in a state that is [ready]. *)
Lemma instruction_run_between program `{!SafeProgram program} si ic s s' ix s2 s3 : clock_ok ic -> between s ->
  instruction_run writable program si ic s s' ix s2 s3 ->
  between s' /\ ready ix ic s2 /\ step_ok ix s2 s3 /\ program_key ix s2 = acc_key <$> accs s !! si_program si.
Proof.
  intros Hck [Hwf Hid Hd Hu Hk] [[Hm2 Hq2] Hc Hi _ Hw Hp [Hm4 Hq4] [Hid' Hd']].
  pose proof (mr_wf _ _ _ Hm2 Hwf) as Hwf2. pose proof (safe_program ix _ _ _ _ Hwf2 Hc Hp) as Hs.
  pose proof (step_ok_msg writable _ _ _ Hw Hs) as Hm3. pose proof (msg_rel_keys _ _ Hm2 Hk) as Hk2.
  pose proof (unborrowed_counters _ _ (q_counters _ _ Hq2) Hu) as Hu2.
  split_and!; [| |done|].
  - split; [by apply Hm4, Hm3|done|done| |].
    + eapply unborrowed_counters; [|exact Hu2]. by rewrite (q_counters _ _ Hq4), (so_counters _ _ _ Hs).
    + eapply msg_rel_keys; [exact Hm4|]. by eapply msg_rel_keys.
  - split; [done|done|done|by rewrite (q_delta _ _ Hq2)|exact Hck|done].
  - unfold program_key. rewrite Hi. destruct (accs s !! si_program si) as [a|] eqn:Ea.
    + destruct (mr_accounts _ _ _ Hm2 _ _ Ea) as (a' & -> & Hk' & _). simpl. by rewrite Hk'.
    + apply lookup_ge_None in Ea. rewrite <- (mr_len _ _ _ Hm2) in Ea. by apply lookup_ge_None in Ea as ->.
Qed.

Section invariant.
Context (id : Pubkey) (entry : M unit) (I Q : list Byte.byte -> Prop) `{!DataInvariant id entry I Q}.
Hypothesis id_sysvar : id <> sysvar_id.

Lemma quiet_keeps s s' : quiet s s' -> owned_data id I s -> owned_data id I s'.
Proof. intros Hq Hs j a [Hj|Ho]%(q_accounts _ _ Hq) Hid; [by eapply Hs|congruence]. Qed.

(** Another program does not touch the data, and hands over zeroed accounts. *)
Lemma other_keeps ix s s' : step_ok ix s s' -> program_key ix s <> Some id -> owned_data id I s -> owned_data id I s'.
Proof.
  intros Hs Hp HI j a' Hj Ho. destruct (step_ok_back _ _ _ _ _ Hs Hj) as (a & Ha & Hr).
  destruct (decide (acc_owner a = id)) as [E|E].
  - destruct (ar_owner _ _ _ _ _ Hr) as (_ & -> & _); [congruence|]. by eapply HI.
  - apply (di_zeroed (entry := entry) (Q := Q)), (ar_assign _ _ _ _ _ Hr). congruence.
Qed.

(** the programs of a message: the program [id] runs [entry] *)
Definition runs_entry (program : SvmInstruction -> M unit) (l : list Account) : Prop :=
  forall si a, l !! si_program si = Some a -> acc_key a = id -> program si = entry.

Lemma runs_entry_keys program s s' : msg_rel writable s s' -> runs_entry program (accs s) -> runs_entry program (accs s').
Proof.
  intros Hm Hr si a' Ha' Hk. destruct (lookup_lt_is_Some_2 (accs s) (si_program si)) as [a Ha].
  { rewrite <- (mr_len _ _ _ Hm). by eapply lookup_lt_Some. }
  destruct (mr_accounts _ _ _ Hm _ _ Ha) as (a2 & Ha2 & Hk2 & _). apply (Hr si a); congruence.
Qed.

(** A message that succeeds keeps the invariant, and all its instructions of the
    program have data in [Q]. *)
Lemma message_keeps (program : SvmInstruction -> M unit) `{!forall si, SafeProgram (program si)} l n ic s u s' :
  clock_ok ic -> between s -> runs_entry program (accs s) -> owned_data id I s ->
  process_message signer writable program n l ic s = (Ok u, s') ->
  between s' /\ owned_data id I s' /\ msg_rel writable s s'
  /\ forall si a, si ∈ l -> accs s !! si_program si = Some a -> acc_key a = id -> Q (si_data si).
Proof.
  intros Hck. revert n s. induction l as [|si l IH]; intros n s Hb He HI; simpl.
  { intros [= _ <-]. split_and!; [done|done|by apply msg_rel_refl|]. by intros si a ?%not_elem_of_nil. }
  match goal with |- match ?m with _ => _ end = _ -> _ => destruct m as [[u1|e] s1] eqn:E; [|done] end.
  pose proof (instruction_step signer writable (program si) si ic s u1 s1 (bt_wf _ Hb) (bt_idle _ Hb) E) as [Hm _].
  apply instruction_runs in E as (ix & s2 & s3 & Hrun); [|apply _|apply (bt_wf _ Hb)|apply (bt_idle _ Hb)].
  destruct (instruction_run_between _ _ _ _ _ _ _ _ Hck Hb Hrun) as (Hb1 & Hready & Hs & Hpk).
  destruct Hrun as [[_ Hq2] _ _ Hdata _ Hp [_ Hq4] _].
  assert (owned_data id I s3 /\ (program_key ix s2 = Some id -> Q (ix_data ix))) as [HI3 HQ].
  { destruct (decide (program_key ix s2 = Some id)) as [Ek|Ek].
    - rewrite Hpk in Ek. apply fmap_Some in Ek as (a & Ha & Hk). rewrite (He si a) in Hp by done.
      destruct (di_step (I := I) ix ic s2 s3) as [? ?]; [done|by rewrite Hpk, Ha, Hk|by eapply quiet_keeps|done|]. done.
    - split; [|done]. eapply other_keeps; [exact Hs|done|by eapply quiet_keeps]. }
  intros Hr. apply IH in Hr as (Hb' & HI' & Hm' & HQ'); [|done|by eapply runs_entry_keys|by eapply quiet_keeps].
  split_and!; [done|done|by eapply msg_rel_trans|]. intros si' a [->|Hin]%elem_of_cons Ha Hk.
  - rewrite <- Hdata. apply HQ. by rewrite Hpk, Ha, <- Hk.
  - destruct (mr_accounts _ _ _ Hm _ _ Ha) as (a1 & Ha1 & Hk1 & _). apply (HQ' si' a1); congruence.
Qed.
End invariant.
End messages.
