(* ===== verification/Treasury.v ===== *)
(** * The treasury program

    Models programs/treasury/src: the config account (state.rs), the
    instructions (instruction.rs), the errors (error.rs) and the handlers
    (processor.rs).  Compute-unit metering and logging are left out. *)

From coqutil Require Import Byte.
From Stdlib Require Import ZArith Lia String.
From stdpp Require Import base numbers list option.
From S2P Require Import Prelude Borsh TxContext TxSafety TxEval.
Local Open Scope Z_scope.

Module Treasury.

(** ** Data *)

Definition id : Pubkey := base58 "Treasury11111111111111111111111111111111111".
#[global] Opaque id.
Definition MAX_MEMO_LEN : nat := 256.
Definition TREASURY_CONFIG_DISCRIMINATOR : Byte.byte := Byte.x01.
Definition SERIALIZED_SIZE : nat := 1 + 32 + 32 + 1 + 8 + 8 + 8.

Record TreasuryConfig := {
  authority : Pubkey;
  treasury_account : Pubkey;
  governance_active : bool;
  total_received : Z;
  total_disbursed : Z;
  last_updated_epoch : Z
}.

#[export] Instance TreasuryConfig_value : RustValue TreasuryConfig := fun c =>
  in_pubkey (authority c) /\ in_pubkey (treasury_account c)
  /\ in_u64 (total_received c) /\ in_u64 (total_disbursed c) /\ in_u64 (last_updated_epoch c).

Inductive TreasuryInstruction :=
  | InitializeTreasury (authority treasury_account : Pubkey)
  | Disburse (amount : Z) (recipient : Pubkey) (memo : list Byte.byte)
  | UpdateAuthority (new_authority : Pubkey)
  | ActivateGovernance.

#[export] Instance TreasuryInstruction_value : RustValue TreasuryInstruction := fun i =>
  match i with
  | InitializeTreasury a t => in_pubkey a /\ in_pubkey t
  | Disburse amount r _ => in_u64 amount /\ in_pubkey r
  | UpdateAuthority a => in_pubkey a
  | ActivateGovernance => True
  end.

Inductive TreasuryError :=
  | AlreadyInitialized
  | NotInitialized
  | MissingAuthoritySignature
  | AuthorityMismatch
  | InvalidAccountOwner
  | InsufficientFunds
  | InvalidAccountData
  | RecipientMismatch
  | ZeroDisbursement
  | MemoTooLong
  | GovernanceAlreadyActive
  | ArithmeticOverflow.

Definition error_code (e : TreasuryError) : Z :=
  match e with
  | AlreadyInitialized => 0 | NotInitialized => 1 | MissingAuthoritySignature => 2 | AuthorityMismatch => 3
  | InvalidAccountOwner => 4 | InsufficientFunds => 5 | InvalidAccountData => 6 | RecipientMismatch => 7
  | ZeroDisbursement => 8 | MemoTooLong => 9 | GovernanceAlreadyActive => 10 | ArithmeticOverflow => 11
  end.
(** [e.into()] *)
Definition into (e : TreasuryError) : InstructionError := Custom (error_code e).

(** [limited_deserialize] of the instruction data *)
Class TreasuryBincode := {
  decode_instruction : list Byte.byte -> option TreasuryInstruction;
  decode_range bs i : decode_instruction bs = Some i -> value_ok i
}.

Section handlers.
Context `{!Borsh TreasuryConfig}.

Definition deserialize (data : list Byte.byte) : option TreasuryConfig :=
  read_tagged TREASURY_CONFIG_DISCRIMINATOR data.
Definition serialize_into (c : TreasuryConfig) (data : list Byte.byte) : option (list Byte.byte) :=
  if (length data <? SERIALIZED_SIZE)%nat then None else write_tagged TREASURY_CONFIG_DISCRIMINATOR c data.

Definition with_authority (k : Pubkey) (epoch : Z) (c : TreasuryConfig) : TreasuryConfig :=
  {| authority := k; treasury_account := treasury_account c; governance_active := governance_active c;
     total_received := total_received c; total_disbursed := total_disbursed c; last_updated_epoch := epoch |}.
Definition with_governance (epoch : Z) (c : TreasuryConfig) : TreasuryConfig :=
  {| authority := authority c; treasury_account := treasury_account c; governance_active := true;
     total_received := total_received c; total_disbursed := total_disbursed c; last_updated_epoch := epoch |}.
Definition with_disbursed (total epoch : Z) (c : TreasuryConfig) : TreasuryConfig :=
  {| authority := authority c; treasury_account := treasury_account c; governance_active := governance_active c;
     total_received := total_received c; total_disbursed := total; last_updated_epoch := epoch |}.

(** ** Handlers *)

Definition process_initialize_treasury (auth treasury : Pubkey) : M unit :=
  ix ← get_current_instruction_context;
  check_number_of_instruction_accounts ix 2 ;;
  signer ← is_instruction_account_signer ix 0;
  require signer (into MissingAuthoritySignature) ;;
  borrowing ix 1 (fun config_account =>
    owner ← get_owner config_account;
    require (bool_decide (owner = id)) (into InvalidAccountOwner) ;;
    data ← get_data config_account;
    require (negb (bool_decide (head data = Some TREASURY_CONFIG_DISCRIMINATOR))) (into AlreadyInitialized)) ;;
  clock ← get_clock;
  let config := {| authority := auth; treasury_account := treasury; governance_active := false;
                   total_received := 0; total_disbursed := 0; last_updated_epoch := clock_epoch clock |} in
  borrowing ix 1 (fun config_account =>
    data ← get_data config_account;
    let data := if (length data <? SERIALIZED_SIZE)%nat then resize SERIALIZED_SIZE data else data in
    data ← lift_opt (serialize_into config data) (into InvalidAccountData);
    set_data_from_slice config_account data).

Definition process_disburse (amount : Z) (recipient : Pubkey) (memo : list Byte.byte) : M unit :=
  ix ← get_current_instruction_context;
  check_number_of_instruction_accounts ix 4 ;;
  require (negb (amount =? 0)) (into ZeroDisbursement) ;;
  require (negb (MAX_MEMO_LEN <? length memo)%nat) (into MemoTooLong) ;;
  signer ← is_instruction_account_signer ix 0;
  require signer (into MissingAuthoritySignature) ;;
  signer_pubkey ← get_key_of_instruction_account ix 0;
  clock ← get_clock;
  borrowing ix 1 (fun config_account =>
    owner ← get_owner config_account;
    require (bool_decide (owner = id)) (into InvalidAccountOwner) ;;
    data ← get_data config_account;
    config ← lift_opt (deserialize data) (into NotInitialized);
    require (bool_decide (authority config = signer_pubkey)) (into AuthorityMismatch) ;;
    recipient_key ← get_key_of_instruction_account ix 3;
    require (bool_decide (recipient_key = recipient)) (into RecipientMismatch) ;;
    total ← lift_opt (checked_add u64_max (total_disbursed config) amount) (into ArithmeticOverflow);
    buf ← get_data config_account;
    buf ← lift_opt (serialize_into (with_disbursed total (clock_epoch clock) config) buf) (into InvalidAccountData);
    set_data_from_slice config_account buf) ;;
  borrowing ix 2 (fun treasury_acc =>
    lamports ← get_lamports treasury_acc;
    require (negb (lamports <? amount)) (into InsufficientFunds) ;;
    checked_sub_lamports treasury_acc amount) ;;
  borrowing ix 3 (fun recipient_account => checked_add_lamports recipient_account amount).

Definition process_update_authority (new_authority : Pubkey) : M unit :=
  ix ← get_current_instruction_context;
  check_number_of_instruction_accounts ix 2 ;;
  signer ← is_instruction_account_signer ix 0;
  require signer (into MissingAuthoritySignature) ;;
  signer_pubkey ← get_key_of_instruction_account ix 0;
  clock ← get_clock;
  borrowing ix 1 (fun config_account =>
    owner ← get_owner config_account;
    require (bool_decide (owner = id)) (into InvalidAccountOwner) ;;
    data ← get_data config_account;
    config ← lift_opt (deserialize data) (into NotInitialized);
    require (bool_decide (authority config = signer_pubkey)) (into AuthorityMismatch) ;;
    buf ← get_data config_account;
    buf ← lift_opt (serialize_into (with_authority new_authority (clock_epoch clock) config) buf) (into InvalidAccountData);
    set_data_from_slice config_account buf).

Definition process_activate_governance : M unit :=
  ix ← get_current_instruction_context;
  check_number_of_instruction_accounts ix 2 ;;
  signer ← is_instruction_account_signer ix 0;
  require signer (into MissingAuthoritySignature) ;;
  signer_pubkey ← get_key_of_instruction_account ix 0;
  clock ← get_clock;
  borrowing ix 1 (fun config_account =>
    owner ← get_owner config_account;
    require (bool_decide (owner = id)) (into InvalidAccountOwner) ;;
    data ← get_data config_account;
    config ← lift_opt (deserialize data) (into NotInitialized);
    require (bool_decide (authority config = signer_pubkey)) (into AuthorityMismatch) ;;
    require (negb (governance_active config)) (into GovernanceAlreadyActive) ;;
    buf ← get_data config_account;
    buf ← lift_opt (serialize_into (with_governance (clock_epoch clock) config) buf) (into InvalidAccountData);
    set_data_from_slice config_account buf).

Definition process_instruction `{!TreasuryBincode} (i : TreasuryInstruction) : M unit :=
  match i with
  | InitializeTreasury a t => process_initialize_treasury a t
  | Disburse amount recipient memo => process_disburse amount recipient memo
  | UpdateAuthority k => process_update_authority k
  | ActivateGovernance => process_activate_governance
  end.

Definition Entrypoint `{!TreasuryBincode} : M unit :=
  ix ← get_current_instruction_context;
  i ← lift_opt (decode_instruction (ix_data ix)) InvalidInstructionData;
  process_instruction i.

(** ** The program respects the runtime's rules *)

#[export] Instance treasury_Entrypoint_safe `{!TreasuryBincode} : SafeProgram Entrypoint.
Proof.
  intros ix. unfold Entrypoint. apply safe_current. apply safe_bind; [auto with safe|].
  intros i Hi%returns_lift_opt%decode_range. unfold value_ok, TreasuryInstruction_value in Hi. destruct i.
  all: unfold process_instruction, process_initialize_treasury, process_disburse, process_update_authority,
    process_activate_governance; destruct_and?; solve_safe.
Qed.

(** ** State *)

Lemma treasury_deserialize_ok data c : deserialize data = Some c -> value_ok c.
Proof. apply read_tagged_ok. Qed.

Lemma treasury_serialize_deserialize c buf buf' : value_ok c -> serialize_into c buf = Some buf' ->
  deserialize buf' = Some c /\ length buf' = length buf.
Proof.
  unfold serialize_into, deserialize. case_if; [done|]. intros Hc Hw.
  split; [by eapply read_write_tagged|]. by apply write_tagged_Some in Hw as [? _].
Qed.

Lemma with_disbursed_ok total epoch c : value_ok c -> in_u64 total -> in_u64 epoch -> value_ok (with_disbursed total epoch c).
Proof. intros (Ha & Ht & Hr & _ & _) H1 H2. exact (conj Ha (conj Ht (conj Hr (conj H1 H2)))). Qed.
Lemma with_authority_ok k epoch c : value_ok c -> in_pubkey k -> in_u64 epoch -> value_ok (with_authority k epoch c).
Proof. intros (_ & Ht & Hr & Hd & _) H1 H2. exact (conj H1 (conj Ht (conj Hr (conj Hd H2)))). Qed.
Lemma with_governance_ok epoch c : value_ok c -> in_u64 epoch -> value_ok (with_governance epoch c).
Proof. intros (Ha & Ht & Hr & Hd & _) H2. exact (conj Ha (conj Ht (conj Hr (conj Hd H2)))). Qed.

(** ** Disbursement *)

(** A disbursement that succeeds was signed by the authority stored in the
    config account, moves exactly [amount] lamports from account 2 to account 3
    (the recipient named in the instruction), adds the amount to the config's
    [total_disbursed] with the current epoch, and changes nothing else: no
    other lamports, no other data, no owner and no key. *)
Theorem disburse_effect ix ic s amount recipient memo s' : ready ix ic s -> in_u64 amount ->
  process_disburse amount recipient memo ic s = (Ok tt, s') ->
  exists ia0 ia1 ia2 ia3 auth a1 c clock,
    ix_accounts ix !! 0%nat = Some ia0 /\ ix_accounts ix !! 1%nat = Some ia1
    /\ ix_accounts ix !! 2%nat = Some ia2 /\ ix_accounts ix !! 3%nat = Some ia3
    /\ is_signer ia0 = true /\ accs s !! index_in_transaction ia0 = Some auth
    /\ accs s !! index_in_transaction ia1 = Some a1 /\ acc_owner a1 = id
    /\ deserialize (acc_data a1) = Some c /\ authority c = acc_key auth
    /\ acc_key <$> accs s !! index_in_transaction ia3 = Some recipient
    /\ sysvar_clock ic = Some clock /\ delta s' = 0
    /\ forall j a, accs s !! j = Some a -> exists a', accs s' !! j = Some a'
      /\ acc_key a' = acc_key a /\ acc_owner a' = acc_owner a
      /\ acc_lamports a' = acc_lamports a - (if decide (j = index_in_transaction ia2) then amount else 0)
                          + (if decide (j = index_in_transaction ia3) then amount else 0)
      /\ (j <> index_in_transaction ia1 -> acc_data a' = acc_data a)
      /\ (j = index_in_transaction ia1 ->
          deserialize (acc_data a') = Some (with_disbursed (total_disbursed c + amount) (clock_epoch clock) c)).
Proof.
  intros [Hwf Hcur Hun Hd Hck Hkeys] Hamt Hr. unfold process_disburse in Hr. rewrite (current_bind ix) in Hr by done.
  inv_eval. do 8 eexists. do 10 (split; [eassumption|]). split; [use_lookup; (f_equal; assumption)|]. split; [eassumption|].
  autorewrite with view. split; [lia|]. intros j a Hj.
  match goal with Hs : serialize_into _ _ = Some _ |- _ => apply treasury_serialize_deserialize in Hs as [Hread _] end.
  2: { apply with_disbursed_ok; [by eapply treasury_deserialize_ok| |by edestruct Hck as (_ & ? & _)].
       match goal with Hs : deserialize _ = Some _ |- _ => apply treasury_deserialize_ok in Hs as (_ & _ & _ & ? & _) end. lia. }
  edestruct pay_lookup as (a' & E & Hk & Ho & Hl & Hdata); [eassumption..|]. exists a'. split_and!; try eassumption.
  - intros Hne. by rewrite decide_False in Hdata.
  - intros Heq. rewrite Hdata, decide_True by done. by subst.
Qed.

Section progress.
Context `{!BorshSize TreasuryConfig 89}.

Lemma treasury_serialize_total c buf : value_ok c -> (SERIALIZED_SIZE <= length buf)%nat -> exists buf', serialize_into c buf = Some buf'.
Proof.
  intros Hc Hl. unfold serialize_into. destruct (Nat.ltb_spec (length buf) SERIALIZED_SIZE); [lia|].
  by apply write_tagged_total.
Qed.

(** The authority can always spend: with the accounts of the instruction
    writable and distinct, the config signed for by its authority, a source
    account that the program owns and that covers the amount, and room in the
    recipient's balance and in the counter, a disbursement succeeds.  Nothing
    relates the source account to the [treasury_account] of the config: any
    account owned by the program can be drained by the authority of any
    config. *)
Theorem disburse_succeeds ix ic s ia0 ia1 ia2 ia3 rest auth a1 a2 a3 c clock amount memo : ready ix ic s -> resize_room s ->
  program_key ix s = Some id -> ix_accounts ix = ia0 :: ia1 :: ia2 :: ia3 :: rest ->
  is_signer ia0 = true -> is_writable ia1 = true -> is_writable ia2 = true -> is_writable ia3 = true ->
  index_in_transaction ia1 <> index_in_transaction ia2 -> index_in_transaction ia1 <> index_in_transaction ia3 ->
  index_in_transaction ia2 <> index_in_transaction ia3 ->
  accs s !! index_in_transaction ia0 = Some auth -> accs s !! index_in_transaction ia1 = Some a1 ->
  accs s !! index_in_transaction ia2 = Some a2 -> accs s !! index_in_transaction ia3 = Some a3 ->
  acc_owner a1 = id -> deserialize (acc_data a1) = Some c -> authority c = acc_key auth ->
  (SERIALIZED_SIZE <= length (acc_data a1))%nat -> Z.of_nat (length (acc_data a1)) <= MAX_ACCOUNT_DATA_LEN ->
  acc_owner a2 = id -> 0 < amount <= acc_lamports a2 -> acc_lamports a3 + amount <= u64_max ->
  total_disbursed c + amount <= u64_max -> (length memo <= MAX_MEMO_LEN)%nat -> sysvar_clock ic = Some clock ->
  exists s', process_disburse amount (acc_key a3) memo ic s = (Ok tt, s').
Proof.
  intros [Hwf Hcur Hun Hd Hck Hkeys] Hrd Hpk Hixs Hsig Hw1 Hw2 Hw3 H12 H13 H23 L0 L1 L2 L3 Ho1 Hc Hauth Hsz Hmax Ho2 Hamt Hroom
    Htot Hmemo Hclk.
  pose proof (treasury_deserialize_ok _ _ Hc) as Hcok. pose proof Hcok as (_ & _ & _ & Ht & _). destruct (Hck _ Hclk) as (_ & Hep & _).
  assert (value_ok (with_disbursed (total_disbursed c + amount) (clock_epoch clock) c)) as Hok'
    by (apply with_disbursed_ok; [done|lia|done]).
  destruct (treasury_serialize_total _ (acc_data a1) Hok') as [buf Hbuf]; [done|].
  destruct (treasury_serialize_deserialize _ _ _ Hok' Hbuf) as [_ Hlen].
  pose proof (owned_of_key ix s ia1 a1 id Hpk Ho1) as Hown1. pose proof (owned_of_key ix s ia2 a2 id Hpk Ho2) as Hown2.
  destruct (lookup_first4 _ _ _ _ _ _ Hixs) as (I0 & I1 & I2 & I3 & Hn).
  pose proof (wf_lamports _ Hwf _ _ L2). pose proof (wf_lamports _ Hwf _ _ L3).
  eexists. unfold process_disburse. rewrite (current_bind ix) by done. run_step.
Qed.
End progress.

(** ** The config account *)

(** how an instruction may change a config *)
Definition config_step (ix : InstructionContext) (s : TransactionContext) (c c' : TreasuryConfig) : Prop :=
  (c' = c \/ signed_by ix s (authority c))
  /\ (governance_active c = true -> governance_active c' = true)
  /\ treasury_account c' = treasury_account c
  /\ total_disbursed c <= total_disbursed c'.

Definition config_kept (ix : InstructionContext) (s s' : TransactionContext) : Prop :=
  forall j a c, accs s !! j = Some a -> deserialize (acc_data a) = Some c ->
    exists a' c', accs s' !! j = Some a' /\ acc_owner a' = acc_owner a /\ deserialize (acc_data a') = Some c' /\ config_step ix s c c'.

Lemma config_step_refl ix s c : config_step ix s c c.
Proof. split_and!; [by left|done|done|lia]. Qed.

(** A handler that rewrites the config of its signer at [i]. *)
Lemma config_kept_write ix s i a c c' ia auth buf s' :
  serialize_into c' (acc_data a) = Some buf -> deserialize (acc_data a) = Some c -> accs s !! i = Some a -> value_ok c' ->
  authority c = acc_key auth -> accs s !! index_in_transaction ia = Some auth -> is_signer ia = true -> ia ∈ ix_accounts ix ->
  (governance_active c = true -> governance_active c' = true) -> treasury_account c' = treasury_account c ->
  total_disbursed c <= total_disbursed c' ->
  (forall j a, accs s !! j = Some a -> exists a', accs s' !! j = Some a' /\ acc_owner a' = acc_owner a
     /\ acc_data a' = if decide (j = i) then buf else acc_data a) ->
  config_kept ix s s'.
Proof.
  intros Hbuf Hc Ha Hok Hk Hauth Hsig Hin Hg Ht Hd Hs' j a0 c0 Hj Hc0. destruct (Hs' _ _ Hj) as (a' & Hj' & Ho & Hdata).
  destruct (decide (j = i)) as [->|Hne].
  - rewrite Ha in Hj. injection Hj as <-. rewrite Hc in Hc0. injection Hc0 as <-.
    exists a', c'. rewrite Hdata. split_and!; [done|done|by apply (treasury_serialize_deserialize c' (acc_data a))|].
    split_and!; [|done|done|done]. right. exists ia, auth. by rewrite Hk.
  - exists a', c0. rewrite Hdata. split_and!; try done. apply config_step_refl.
Qed.

Lemma initialize_kept ix ic s auth t s' : ready ix ic s ->
  process_initialize_treasury auth t ic s = (Ok tt, s') -> config_kept ix s s'.
Proof.
  intros [Hwf Hcur Hun Hd Hck Hkeys] Hr. unfold process_initialize_treasury in Hr. rewrite (current_bind ix) in Hr by done.
  inv_eval. intros j a c Hj Hc.
  match goal with Ha : accs s !! ?i = Some ?a1, Hh : head (acc_data ?a1) <> _ |- _ =>
    destruct (decide (j = i)) as [->|Hne]; [exfalso; rewrite Ha in Hj; injection Hj as ->; apply Hh|] end.
  { unfold deserialize, read_tagged in Hc. destruct (acc_data a); [done|]. case_decide; by subst. }
  edestruct (with_data_lookup) as (a' & Hj' & Ho & Hdata); [exact Hj|]. exists a', c. rewrite decide_False in Hdata by done.
  split_and!; [exact Hj'|done|by rewrite Hdata|apply config_step_refl].
Qed.

Lemma disburse_kept ix ic s amount recipient memo s' : ready ix ic s -> in_u64 amount ->
  process_disburse amount recipient memo ic s = (Ok tt, s') -> config_kept ix s s'.
Proof.
  intros [Hwf Hcur Hun Hd Hck Hkeys] Hamt Hr. unfold process_disburse in Hr. rewrite (current_bind ix) in Hr by done.
  inv_eval. eapply config_kept_write; try eassumption; [|by eapply list_elem_of_lookup_2|done|done|simpl; lia|].
  - apply with_disbursed_ok; [by eapply treasury_deserialize_ok| |by edestruct Hck as (_ & ? & _)].
    match goal with Hs : deserialize _ = Some _ |- _ => apply treasury_deserialize_ok in Hs as (_ & _ & _ & ? & _) end. lia.
  - intros j a Hj. autorewrite with view.
    edestruct pay_lookup as (a' & E & Hk & Ho & Hl & Hdata); [eassumption..|]. eauto.
Qed.

Lemma update_authority_kept ix ic s k s' : ready ix ic s -> in_pubkey k ->
  process_update_authority k ic s = (Ok tt, s') -> config_kept ix s s'.
Proof.
  intros [Hwf Hcur Hun Hd Hck Hkeys] Hk Hr. unfold process_update_authority in Hr. rewrite (current_bind ix) in Hr by done.
  inv_eval. eapply config_kept_write; try eassumption; [|by eapply list_elem_of_lookup_2|done|done|simpl; lia|].
  - apply with_authority_ok; [by eapply treasury_deserialize_ok|done|by edestruct Hck as (_ & ? & _)].
  - intros j a. apply with_data_lookup.
Qed.

Lemma activate_governance_kept ix ic s s' : ready ix ic s ->
  process_activate_governance ic s = (Ok tt, s') -> config_kept ix s s'.
Proof.
  intros [Hwf Hcur Hun Hd Hck Hkeys] Hr. unfold process_activate_governance in Hr. rewrite (current_bind ix) in Hr by done.
  inv_eval. eapply config_kept_write; try eassumption; [|by eapply list_elem_of_lookup_2|done|done|simpl; lia|].
  - apply with_governance_ok; [by eapply treasury_deserialize_ok|by edestruct Hck as (_ & ? & _)].
  - intros j a. apply with_data_lookup.
Qed.

(** C15. A treasury config, once initialised, is controlled by its authority:
    whatever instruction the program executes successfully, the account still
    holds a config owned as before, which either did not change or was changed
    under the signature of the authority stored in it; governance cannot be
    switched off, the treasury account cannot be replaced, and
    [total_disbursed] never decreases. *)
Theorem config_controlled_by_authority `{!TreasuryBincode} ix ic s s' j a c : ready ix ic s ->
  Entrypoint ic s = (Ok tt, s') -> accs s !! j = Some a -> deserialize (acc_data a) = Some c ->
  exists a' c', accs s' !! j = Some a' /\ acc_owner a' = acc_owner a /\ deserialize (acc_data a') = Some c'
    /\ config_step ix s c c'.
Proof.
  intros Hready Hr Hj Hc. unfold Entrypoint in Hr. rewrite (current_bind ix) in Hr by apply Hready. inv_run.
  match goal with E : decode_instruction _ = Some _ |- _ => apply decode_range in E as Hok end.
  assert (config_kept ix s s') as Hkept; [|by eapply Hkept].
  unfold value_ok, TreasuryInstruction_value in Hok. destruct x; simpl in *.
  - by eapply initialize_kept.
  - eapply disburse_kept; [done| |done]. tauto.
  - by eapply update_authority_kept.
  - by eapply activate_governance_kept.
Qed.
End handlers.

(** ** A treasury on the documented formats *)

Definition TreasuryConfig_codec : Codec (A := TreasuryConfig) value_ok.
Proof.
  refine (codec_map (fun '(a, (t, (g, (r, (d, e))))) => {| authority := a; treasury_account := t; governance_active := g;
            total_received := r; total_disbursed := d; last_updated_epoch := e |})
          (fun c => (authority c, (treasury_account c, (governance_active c, (total_received c, (total_disbursed c, last_updated_epoch c))))))
          _ _
          (codec_pair codec_key (codec_pair codec_key (codec_pair codec_bool
            (codec_pair (codec_uint 8) (codec_pair (codec_uint 8) (codec_uint 8))))))).
  - intros [] (Ha & Ht & Hr & Hd & He). split; [reflexivity|]. cbn [fst snd] in *. change (2 ^ (8 * Z.of_nat 8)) with (u64_max + 1).
    cbn [authority treasury_account total_received total_disbursed last_updated_epoch] in *.
    refine (conj Ha (conj Ht (conj I _))). lia.
  - intros (a & t & g & r & d & e) (Ha & Ht & _ & Hr & Hd & He). cbn [fst snd] in *.
    change (2 ^ (8 * Z.of_nat 8)) with (u64_max + 1) in *. refine (conj Ha (conj Ht _)). cbv beta in *.
    cbn [authority treasury_account total_received total_disbursed last_updated_epoch]. lia.
Defined.
#[local] Instance TreasuryConfig_borsh : Borsh TreasuryConfig := TreasuryConfig_codec.

#[local] Instance TreasuryConfig_size : BorshSize TreasuryConfig 89.
Proof. intros c _. unfold to_vec, borsh, TreasuryConfig_borsh, TreasuryConfig_codec. by autorewrite with codec. Qed.

(** [bincode]: a 32-bit tag, then the fields *)
Definition decode_demo (bs : list Byte.byte) : option TreasuryInstruction :=
  '(tag, bs) ← dec (codec_uint 4) bs;
  match tag with
  | 0 => '(x, _) ← dec (codec_pair codec_key codec_key) bs; Some (InitializeTreasury x.1 x.2)
  | 1 => '(x, bs) ← dec (codec_pair (codec_uint 8) (codec_pair codec_key (codec_uint 8))) bs;
         '(memo, _) ← read_bytes (Z.to_nat x.2.2) bs; Some (Disburse x.1 x.2.1 memo)
  | 2 => '(x, _) ← dec codec_key bs; Some (UpdateAuthority x)
  | 3 => Some ActivateGovernance
  | _ => None
  end.

#[local] Instance demo_bincode : TreasuryBincode.
Proof.
  refine {| decode_instruction := decode_demo |}. intros bs i. unfold decode_demo.
  intros ([tag bs1] & _ & H)%bind_Some. repeat (case_match; try discriminate H);
    try (apply bind_Some in H as ([x r] & Hx%codec_range & [= <-]); exact Hx).
  - injection H as <-. exact I.
  - apply bind_Some in H as ([x r] & Hx%codec_range & ([m r2] & _ & [= <-])%bind_Some).
    destruct Hx as (Ha & Hk & _). refine (conj _ Hk). change (2 ^ (8 * Z.of_nat 8)) with (u64_max + 1) in Ha. lia.
Defined.

(** An authority, its config, a treasury of 1000 lamports, a recipient. *)
Definition demo_config : TreasuryConfig :=
  {| authority := 10; treasury_account := 12; governance_active := false; total_received := 0; total_disbursed := 5;
     last_updated_epoch := 0 |}.
Definition demo_accounts : list Account :=
  [ plain_account 10 0 50 []; plain_account 11 id 1 (TREASURY_CONFIG_DISCRIMINATOR :: to_vec demo_config);
    plain_account 12 id 1000 []; plain_account 13 0 7 []; plain_account id 0 1 [] ].
Definition demo_disburse : SvmInstruction :=
  {| si_program := 4; si_accounts := [0; 1; 2; 3]%nat;
     si_data := enc (codec_uint 4) 1 ++ enc (codec_uint 8) 300 ++ enc codec_key 13 ++ enc (codec_uint 8) 0 |}.
Definition demo_ic : InvokeContext :=
  {| sysvar_clock := Some {| clock_slot := 100; clock_epoch := 9; clock_unix_timestamp := 0 |} |}.
Definition demo_signer (i : nat) : bool := (i =? 0)%nat.
Definition demo_writable (i : nat) : bool := (1 <=? i)%nat && (i <=? 3)%nat.
Definition demo_state : TransactionContext :=
  Eval vm_compute in enter (H := sdk_instructions_sysvar) demo_signer demo_writable demo_accounts demo_disburse demo_ic.

(** The message with one disbursement of 300 lamports succeeds; the balances
    still add up to 1059 lamports. *)
Lemma message_conserves_lamports_witness : exists s',
  process_message (H := sdk_instructions_sysvar) demo_signer demo_writable (fun _ => Entrypoint) 0 [demo_disburse] demo_ic
    (TransactionContext_new demo_accounts 5 64 1) = (Ok tt, s')
  /\ zsum (map acc_lamports (accs s')) = 1059 /\ map acc_lamports (accs s') = [50; 1; 700; 307; 1].
Proof.
  eexists. split; [vm_compute; reflexivity|]. split; [|reflexivity].
  refine (proj1 (@message_conserves_lamports sdk_instructions_sysvar demo_signer demo_writable (fun _ => Entrypoint) _
    demo_accounts 5 64 [demo_disburse] demo_ic tt _ _ _)).
  - repeat constructor; vm_compute; discriminate.
  - vm_compute. reflexivity.
Defined.

Definition demo_ix : InstructionContext := Eval vm_compute in current_ix demo_state.

Lemma demo_ready : ready demo_ix demo_ic demo_state.
Proof. apply readyb_ready; vm_compute; reflexivity. Qed.

(** Disbursing 300 lamports of the example. *)
Lemma disburse_effect_witness : exists s', process_disburse 300 13 [] demo_ic demo_state = (Ok tt, s')
  /\ exists a, accs s' !! 3%nat = Some a /\ acc_lamports a = 307.
Proof.
  exists (process_disburse 300 13 [] demo_ic demo_state).2. 
  assert (process_disburse 300 13 [] demo_ic demo_state = (Ok tt, (process_disburse 300 13 [] demo_ic demo_state).2)) as Hrun
    by (vm_compute; reflexivity).
  split; [exact Hrun|]. 
  destruct (disburse_effect demo_ix demo_ic demo_state 300 13 [] _ demo_ready ltac:(lia) Hrun)
    as (ia0 & ia1 & ia2 & ia3 & auth & a1 & c & clock & _ & _ & H2 & H3 & _ & _ & _ & _ & _ & _ & _ & _ & _ & Hall).
  injection H2 as <-. injection H3 as <-.
  destruct (Hall 3%nat _ eq_refl) as (a' & Ha' & _ & _ & Hl & _). exists a'. split; [exact Ha'|exact Hl].
Defined.

(** The guards of the example hold. *)
Lemma disburse_succeeds_witness : exists s', process_disburse 300 13 [] demo_ic demo_state = (Ok tt, s').
Proof.
  refine (disburse_succeeds demo_ix demo_ic demo_state _ _ _ _ [] _ _ _ _ demo_config _ 300 [] demo_ready ltac:(vm_compute; split; discriminate)
    _ eq_refl _ _ _ _ _ _ _ eq_refl eq_refl eq_refl eq_refl _ _ _ _ _ _ _ _ _ _ eq_refl);
    solve [vm_compute; reflexivity | vm_compute; discriminate | vm_compute; lia | split; vm_compute; congruence].
Defined.

(** The config of the example after the disbursement. *)
Lemma config_controlled_by_authority_witness : exists s' a' c', Entrypoint demo_ic demo_state = (Ok tt, s')
  /\ accs s' !! 1%nat = Some a' /\ deserialize (acc_data a') = Some c' /\ total_disbursed demo_config <= total_disbursed c'.
Proof.
  destruct (config_controlled_by_authority demo_ix demo_ic demo_state (Entrypoint demo_ic demo_state).2 1
    (plain_account 11 id 1 (TREASURY_CONFIG_DISCRIMINATOR :: to_vec demo_config)) demo_config demo_ready)
    as (a' & c' & Ha' & _ & Hc' & _ & _ & _ & Hd); [vm_compute; reflexivity..|].
  exists (Entrypoint demo_ic demo_state).2, a', c'. split; [vm_compute; reflexivity|]. split; [exact Ha'|]. split; [exact Hc'|exact Hd].
Defined.
End Treasury.
