(* ===== verification/PassiveStake.v ===== *)
(** * The passive-stake program

    Models programs/passive-stake/src: tiers and rates (constants.rs), the
    position stored in an account (state.rs), the instructions (instruction.rs),
    the errors (error.rs) and the handlers (processor.rs).  Compute-unit metering
    and logging are left out. *)

From coqutil Require Import Byte.
From Stdlib Require Import ZArith Lia String.
From stdpp Require Import base numbers list option.
From S2P Require Import Prelude Borsh TxContext TxSafety TxEval TxInvariant.
Local Open Scope Z_scope.

Module PassiveStake.

(** ** Tiers *)

Definition SECONDS_PER_DAY : Z := 86400.
Definition BPS_DENOMINATOR : Z := 10000.
Definition PERMANENT_LOCK_DAYS : Z := u64_max.
Definition TIER_NO_LOCK : Z := 0.
Definition TIER_30_DAY : Z := 30.
Definition TIER_90_DAY : Z := 90.
Definition TIER_180_DAY : Z := 180.
Definition TIER_360_DAY : Z := 360.

(** a [match] on the tier constants *)
Definition match_tier {A} (lock_days : Z) (no_lock d30 d90 d180 d360 permanent other : A) : A :=
  if lock_days =? TIER_NO_LOCK then no_lock
  else if lock_days =? TIER_30_DAY then d30
  else if lock_days =? TIER_90_DAY then d90
  else if lock_days =? TIER_180_DAY then d180
  else if lock_days =? TIER_360_DAY then d360
  else if lock_days =? PERMANENT_LOCK_DAYS then permanent
  else other.

Definition reward_rate_bps_for_tier (lock_days : Z) : option Z :=
  match_tier lock_days (Some 500) (Some 1000) (Some 2000) (Some 3000) (Some 5000) (Some 12000) None.
Definition vote_weight_bps_for_tier (lock_days : Z) : option Z :=
  match_tier lock_days (Some 0) (Some 1000) (Some 2000) (Some 3000) (Some 5000) (Some 15000) None.
Definition early_unlock_penalty_bps_for_tier (lock_days : Z) : option Z :=
  match_tier lock_days (Some 0) (Some 250) (Some 500) (Some 750) (Some 1250) None None.
Definition is_valid_tier (lock_days : Z) : bool :=
  match_tier lock_days true true true true true true false.

(** ** Data *)

Definition id : Pubkey := base58 "Pass1veStake1111111111111111111111111111111".
#[global] Opaque id.
Definition PASSIVE_STAKE_ACCOUNT_DISCRIMINATOR : Byte.byte := Byte.x01.
Definition SERIALIZED_SIZE : nat := 1 + 32 + 8 + 8 + 8 + 8 + 8 + 8 + 1 + 2.

Record PassiveStakeAccount := {
  authority : Pubkey;
  amount : Z;
  lock_days : Z;
  lock_start : Z;
  lock_end : Z;
  unclaimed_rewards : Z;
  last_reward_epoch : Z;
  is_permanent : bool;
  vote_weight_bps : Z
}.

#[export] Instance PassiveStakeAccount_value : RustValue PassiveStakeAccount := fun p =>
  in_pubkey (authority p) /\ in_u64 (amount p) /\ in_u64 (lock_days p) /\ in_i64 (lock_start p) /\ in_i64 (lock_end p)
  /\ in_u64 (unclaimed_rewards p) /\ in_u64 (last_reward_epoch p) /\ in_u16 (vote_weight_bps p).

Inductive PassiveStakeInstruction :=
  | InitializePassiveStake (lock_days amount : Z)
  | ClaimRewards
  | Unlock
  | EarlyUnlock
  | CalculateEpochRewards (current_epoch validator_reward_rate : Z).

#[export] Instance PassiveStakeInstruction_value : RustValue PassiveStakeInstruction := fun i =>
  match i with
  | InitializePassiveStake d a => in_u64 d /\ in_u64 a
  | CalculateEpochRewards e r => in_u64 e /\ in_u64 r
  | _ => True
  end.

Inductive PassiveStakeError :=
  | InvalidLockTier
  | LockNotExpired
  | EarlyUnlockNotAllowed
  | InvalidAccountOwner
  | MissingAuthoritySignature
  | InsufficientLamports
  | ArithmeticOverflow
  | InvalidAccountData
  | ZeroStakeAmount
  | NoRewardsToClaim
  | AccountAlreadyInitialized
  | NotRentExempt.

Definition error_code (e : PassiveStakeError) : Z :=
  match e with
  | InvalidLockTier => 0 | LockNotExpired => 1 | EarlyUnlockNotAllowed => 2 | InvalidAccountOwner => 3
  | MissingAuthoritySignature => 4 | InsufficientLamports => 5 | ArithmeticOverflow => 6 | InvalidAccountData => 7
  | ZeroStakeAmount => 8 | NoRewardsToClaim => 9 | AccountAlreadyInitialized => 10 | NotRentExempt => 11
  end.
Definition into (e : PassiveStakeError) : InstructionError := Custom (error_code e).

(** [limited_deserialize] of the instruction data *)
Class PassiveStakeBincode := {
  decode_instruction : list Byte.byte -> option PassiveStakeInstruction;
  decode_range bs i : decode_instruction bs = Some i -> value_ok i
}.

Definition with_rewards (unclaimed epoch : Z) (p : PassiveStakeAccount) : PassiveStakeAccount :=
  {| authority := authority p; amount := amount p; lock_days := lock_days p; lock_start := lock_start p; lock_end := lock_end p;
     unclaimed_rewards := unclaimed; last_reward_epoch := epoch; is_permanent := is_permanent p; vote_weight_bps := vote_weight_bps p |}.

Section handlers.
Context `{!Borsh PassiveStakeAccount}.

Definition deserialize (data : list Byte.byte) : option PassiveStakeAccount :=
  read_tagged PASSIVE_STAKE_ACCOUNT_DISCRIMINATOR data.
Definition serialize_into (p : PassiveStakeAccount) (data : list Byte.byte) : option (list Byte.byte) :=
  if (length data <? SERIALIZED_SIZE)%nat then None else write_tagged PASSIVE_STAKE_ACCOUNT_DISCRIMINATOR p data.

(** ** Handlers *)

(** end of the lock and whether it is permanent *)
Definition compute_lock_end (days now : Z) : M (Z * bool) :=
  if days =? PERMANENT_LOCK_DAYS then mret (0, true)
  else if days =? TIER_NO_LOCK then mret (0, false)
  else
    duration_secs ← lift_opt (checked_mul_i i64_min i64_max (u64_as_i64 days) SECONDS_PER_DAY) (into ArithmeticOverflow);
    end_ ← lift_opt (checked_add_i i64_min i64_max now duration_secs) (into ArithmeticOverflow);
    mret (end_, false).

Definition process_initialize_passive_stake (days amt : Z) : M unit :=
  ix ← get_current_instruction_context;
  require (is_valid_tier days) (into InvalidLockTier) ;;
  require (negb (amt =? 0)) (into ZeroStakeAmount) ;;
  check_number_of_instruction_accounts ix 2 ;;
  signer ← is_instruction_account_signer ix 0;
  require signer (into MissingAuthoritySignature) ;;
  authority_pubkey ← get_key_of_instruction_account ix 0;
  borrowing ix 1 (fun stake_account =>
    owner ← get_owner stake_account;
    require (bool_decide (owner = id)) (into InvalidAccountOwner) ;;
    data ← get_data stake_account;
    require (negb (bool_decide (head data = Some PASSIVE_STAKE_ACCOUNT_DISCRIMINATOR))) (into AccountAlreadyInitialized)) ;;
  borrowing ix 0 (fun authority_account =>
    lamports ← get_lamports authority_account;
    require (negb (lamports <? amt)) (into InsufficientLamports) ;;
    checked_sub_lamports authority_account amt) ;;
  borrowing ix 1 (fun stake_account => checked_add_lamports stake_account amt) ;;
  clock ← get_clock;
  '(end_, permanent) ← compute_lock_end days (clock_unix_timestamp clock);
  vote_weight ← lift_opt (vote_weight_bps_for_tier days) (into InvalidLockTier);
  let state := {| authority := authority_pubkey; amount := amt; lock_days := days; lock_start := clock_unix_timestamp clock;
                  lock_end := end_; unclaimed_rewards := 0; last_reward_epoch := clock_epoch clock;
                  is_permanent := permanent; vote_weight_bps := vote_weight |} in
  borrowing ix 1 (fun stake_account =>
    data ← get_data stake_account;
    let data := if (length data <? SERIALIZED_SIZE)%nat then resize SERIALIZED_SIZE data else data in
    data ← lift_opt (serialize_into state data) (into InvalidAccountData);
    set_data_from_slice stake_account data).

Definition process_claim_rewards : M unit :=
  ix ← get_current_instruction_context;
  check_number_of_instruction_accounts ix 3 ;;
  signer ← is_instruction_account_signer ix 0;
  require signer (into MissingAuthoritySignature) ;;
  authority_pubkey ← get_key_of_instruction_account ix 0;
  rewards_to_claim ← borrowing ix 1 (fun stake_account =>
    owner ← get_owner stake_account;
    require (bool_decide (owner = id)) (into InvalidAccountOwner) ;;
    data ← get_data stake_account;
    state ← lift_opt (deserialize data) (into InvalidAccountData);
    require (bool_decide (authority state = authority_pubkey)) (into MissingAuthoritySignature) ;;
    require (negb (unclaimed_rewards state =? 0)) (into NoRewardsToClaim) ;;
    buf ← get_data stake_account;
    buf ← lift_opt (serialize_into (with_rewards 0 (last_reward_epoch state) state) buf) (into InvalidAccountData);
    set_data_from_slice stake_account buf ;;
    mret (unclaimed_rewards state));
  borrowing ix 2 (fun pool_account =>
    lamports ← get_lamports pool_account;
    require (negb (lamports <? rewards_to_claim)) (into InsufficientLamports) ;;
    checked_sub_lamports pool_account rewards_to_claim) ;;
  borrowing ix 0 (fun authority_account => checked_add_lamports authority_account rewards_to_claim).

Definition process_unlock : M unit :=
  ix ← get_current_instruction_context;
  check_number_of_instruction_accounts ix 2 ;;
  signer ← is_instruction_account_signer ix 0;
  require signer (into MissingAuthoritySignature) ;;
  authority_pubkey ← get_key_of_instruction_account ix 0;
  principal ← borrowing ix 1 (fun stake_account =>
    owner ← get_owner stake_account;
    require (bool_decide (owner = id)) (into InvalidAccountOwner) ;;
    data ← get_data stake_account;
    state ← lift_opt (deserialize data) (into InvalidAccountData);
    require (bool_decide (authority state = authority_pubkey)) (into MissingAuthoritySignature) ;;
    require (negb (is_permanent state)) (into EarlyUnlockNotAllowed) ;;
    (if negb (lock_days state =? TIER_NO_LOCK) then
       clock ← get_clock;
       require (negb (clock_unix_timestamp clock <? lock_end state)) (into LockNotExpired)
     else mret tt) ;;
    data ← get_data stake_account;
    set_data_from_slice stake_account (zero_bytes (length data)) ;;
    remaining ← get_lamports stake_account;
    checked_sub_lamports stake_account remaining ;;
    mret (amount state));
  borrowing ix 0 (fun authority_account => checked_add_lamports authority_account principal).

Definition process_early_unlock : M unit :=
  ix ← get_current_instruction_context;
  check_number_of_instruction_accounts ix 2 ;;
  signer ← is_instruction_account_signer ix 0;
  require signer (into MissingAuthoritySignature) ;;
  authority_pubkey ← get_key_of_instruction_account ix 0;
  return_amount ← borrowing ix 1 (fun stake_account =>
    owner ← get_owner stake_account;
    require (bool_decide (owner = id)) (into InvalidAccountOwner) ;;
    data ← get_data stake_account;
    state ← lift_opt (deserialize data) (into InvalidAccountData);
    require (bool_decide (authority state = authority_pubkey)) (into MissingAuthoritySignature) ;;
    require (negb (is_permanent state)) (into EarlyUnlockNotAllowed) ;;
    penalty_bps ← lift_opt (early_unlock_penalty_bps_for_tier (lock_days state)) (into InvalidLockTier);
    product ← lift_opt (checked_mul u64_max (amount state) penalty_bps) (into ArithmeticOverflow);
    penalty ← lift_opt (checked_div product BPS_DENOMINATOR) (into ArithmeticOverflow);
    return_amount ← lift_opt (checked_sub (amount state) penalty) (into ArithmeticOverflow);
    data ← get_data stake_account;
    set_data_from_slice stake_account (zero_bytes (length data)) ;;
    total_lamports ← get_lamports stake_account;
    checked_sub_lamports stake_account total_lamports ;;
    mret return_amount);
  borrowing ix 0 (fun authority_account => checked_add_lamports authority_account return_amount).

(** the new rewards of a position, before they are saturated to a [u64] *)
Definition calculate_new_rewards (state : PassiveStakeAccount) (epochs_elapsed validator_reward_rate tier_rate_bps : Z) : option Z :=
  d ← checked_mul u128_max BPS_DENOMINATOR BPS_DENOMINATOR;
  denom ← checked_mul u128_max d 365;
  x ← checked_mul u128_max (amount state) validator_reward_rate;
  y ← checked_mul u128_max x tier_rate_bps;
  reward_per_epoch ← checked_div y denom;
  checked_mul u128_max reward_per_epoch epochs_elapsed.

Definition process_calculate_epoch_rewards (current_epoch validator_reward_rate : Z) : M unit :=
  ix ← get_current_instruction_context;
  check_number_of_instruction_accounts ix 1 ;;
  borrowing ix 0 (fun stake_account =>
    owner ← get_owner stake_account;
    require (bool_decide (owner = id)) (into InvalidAccountOwner) ;;
    data ← get_data stake_account;
    state ← lift_opt (deserialize data) (into InvalidAccountData);
    if current_epoch <=? last_reward_epoch state then mret tt
    else
      epochs_elapsed ← lift_opt (checked_sub current_epoch (last_reward_epoch state)) (into ArithmeticOverflow);
      tier_rate_bps ← lift_opt (reward_rate_bps_for_tier (lock_days state)) (into InvalidLockTier);
      total_new_rewards ← lift_opt (calculate_new_rewards state epochs_elapsed validator_reward_rate tier_rate_bps) (into ArithmeticOverflow);
      unclaimed ← lift_opt (checked_add u64_max (unclaimed_rewards state) (Z.min u64_max total_new_rewards)) (into ArithmeticOverflow);
      buf ← get_data stake_account;
      buf ← lift_opt (serialize_into (with_rewards unclaimed current_epoch state) buf) (into InvalidAccountData);
      set_data_from_slice stake_account buf).

Definition process_instruction (i : PassiveStakeInstruction) : M unit :=
  match i with
  | InitializePassiveStake d a => process_initialize_passive_stake d a
  | ClaimRewards => process_claim_rewards
  | Unlock => process_unlock
  | EarlyUnlock => process_early_unlock
  | CalculateEpochRewards e r => process_calculate_epoch_rewards e r
  end.

Definition Entrypoint `{!PassiveStakeBincode} : M unit :=
  ix ← get_current_instruction_context;
  i ← lift_opt (decode_instruction (ix_data ix)) InvalidInstructionData;
  process_instruction i.

(** ** The program respects the runtime's rules *)

Lemma stake_deserialize_ok data p : deserialize data = Some p -> value_ok p.
Proof. apply read_tagged_ok. Qed.

Lemma stake_serialize_deserialize p buf buf' : value_ok p -> serialize_into p buf = Some buf' ->
  deserialize buf' = Some p /\ length buf' = length buf.
Proof.
  unfold serialize_into, deserialize. case_if; [done|]. intros Hp Hw.
  split; [by eapply read_write_tagged|]. by apply write_tagged_Some in Hw as [? _].
Qed.

#[export] Instance stake_Entrypoint_safe `{!PassiveStakeBincode} : SafeProgram Entrypoint.
Proof.
  intros ix. unfold Entrypoint. apply safe_current. apply safe_bind; [auto with safe|].
  intros i Hi%returns_lift_opt%decode_range. unfold value_ok, PassiveStakeInstruction_value in Hi. destruct i.
  all: unfold process_instruction, process_initialize_passive_stake, process_claim_rewards, process_unlock,
    process_early_unlock, process_calculate_epoch_rewards, compute_lock_end; destruct_and?; solve_safe.
  all: inv_returns; match goal with E : deserialize _ = Some _ |- _ =>
    apply stake_deserialize_ok in E as (_ & ? & _ & _ & _ & ? & _) end; eauto with safe.
Qed.

(** ** Life of a position *)

Lemma with_rewards_ok u e p : value_ok p -> in_u64 u -> in_u64 e -> value_ok (with_rewards u e p).
Proof.
  intros (Ha & Hm & Hd & Hs & He & _ & _ & Hw) Hu Hep.
  exact (conj Ha (conj Hm (conj Hd (conj Hs (conj He (conj Hu (conj Hep Hw))))))).
Qed.

(** What an instruction may make of the data [d] of position [p]: only the
    rewards change, or the position is closed. *)
Definition position_step (ix : InstructionContext) (s : TransactionContext) (p : PassiveStakeAccount) (d d' : list Byte.byte) : Prop :=
  (exists u e, deserialize d' = Some (with_rewards u e p) /\ last_reward_epoch p <= e
     /\ (unclaimed_rewards p <= u \/ u = 0 /\ signed_by ix s (authority p)))
  \/ d' = zero_bytes (length d) /\ is_permanent p = false /\ signed_by ix s (authority p).

(** when a lock made at [now] ends *)
Definition lock_of (days now : Z) (e : Z) (permanent : bool) : Prop :=
  if days =? PERMANENT_LOCK_DAYS then e = 0 /\ permanent = true
  else if days =? TIER_NO_LOCK then e = 0 /\ permanent = false
  else e = now + u64_as_i64 days * SECONDS_PER_DAY /\ in_i64 e /\ permanent = false.

(** what the fields of a position have to do with each other *)
Definition position_ok (p : PassiveStakeAccount) : Prop :=
  is_valid_tier (lock_days p) = true /\ 0 < amount p /\ vote_weight_bps_for_tier (lock_days p) = Some (vote_weight_bps p)
  /\ lock_of (lock_days p) (lock_start p) (lock_end p) (is_permanent p).

(** What happens to the data of an account: to a position what [position_step]
    says, to anything else nothing or a new position. *)
Definition data_step (ix : InstructionContext) (s : TransactionContext) (d d' : list Byte.byte) : Prop :=
  match deserialize d with
  | Some p => position_step ix s p d d'
  | None => d' = d \/ exists p, deserialize d' = Some p /\ position_ok p
  end.

Definition positions_kept (ix : InstructionContext) (s s' : TransactionContext) : Prop :=
  forall j a, accs s !! j = Some a ->
    exists a', accs s' !! j = Some a' /\ acc_owner a' = acc_owner a /\ data_step ix s (acc_data a) (acc_data a').

Lemma with_rewards_same p : with_rewards (unclaimed_rewards p) (last_reward_epoch p) p = p.
Proof. by destruct p. Qed.

Lemma position_step_same ix s p d : deserialize d = Some p -> position_step ix s p d d.
Proof. intros Hp. left. exists (unclaimed_rewards p), (last_reward_epoch p). rewrite with_rewards_same. split_and!; [done|lia|left; lia]. Qed.

Lemma data_step_same ix s d : data_step ix s d d.
Proof. unfold data_step. destruct (deserialize d) eqn:E; [by apply position_step_same|by left]. Qed.

Lemma positions_kept_keeps ix s s' : keeps (accs s) (accs s') -> positions_kept ix s s'.
Proof. intros H j a Hj. destruct (H _ _ Hj) as (a' & Hj' & _ & Ho & Hd). exists a'. rewrite Hd. eauto using data_step_same. Qed.

Lemma positions_kept_writes ix s s' i d a p : writes i d (accs s) (accs s') -> accs s !! i = Some a ->
  deserialize (acc_data a) = Some p -> position_step ix s p (acc_data a) d -> positions_kept ix s s'.
Proof.
  intros H Ha Hp Hstep j a0 Hj. destruct (H _ _ Hj) as (a' & Hj' & _ & Ho & Hd). exists a'. split_and!; [done|done|].
  rewrite Hd. case_decide as E; [|apply data_step_same]. subst j. rewrite Ha in Hj. injection Hj as <-.
  unfold data_step. by rewrite Hp.
Qed.

(** A position written on an account that holds none. *)
Lemma positions_kept_fresh ix s s' i d a p : writes i d (accs s) (accs s') -> accs s !! i = Some a ->
  head (acc_data a) <> Some PASSIVE_STAKE_ACCOUNT_DISCRIMINATOR -> deserialize d = Some p -> position_ok p -> positions_kept ix s s'.
Proof.
  intros H Ha Hh Hp Hok j a0 Hj. destruct (H _ _ Hj) as (a' & Hj' & _ & Ho & Hd). exists a'. split_and!; [done|done|].
  rewrite Hd. case_decide as E; [|apply data_step_same]. subst j. rewrite Ha in Hj. injection Hj as <-.
  unfold data_step. replace (deserialize (acc_data a)) with (@None PassiveStakeAccount); [by eauto|].
  unfold deserialize, read_tagged. destruct (acc_data a); [done|]. case_decide; [|done]. subst. by destruct Hh.
Qed.

(** the position a new lock starts with *)
Definition new_position (k : Pubkey) (amt days : Z) (clock : Clock) (e : Z) (permanent : bool) (w : Z) : PassiveStakeAccount :=
  {| authority := k; amount := amt; lock_days := days; lock_start := clock_unix_timestamp clock; lock_end := e;
     unclaimed_rewards := 0; last_reward_epoch := clock_epoch clock; is_permanent := permanent; vote_weight_bps := w |}.

Lemma vote_weight_range d w : vote_weight_bps_for_tier d = Some w -> 0 <= w <= 15000.
Proof. unfold vote_weight_bps_for_tier, match_tier. repeat case_match; intros [= <-]; lia. Qed.

Lemma lock_of_range days now e permanent : lock_of days now e permanent -> in_i64 e.
Proof. unfold lock_of. repeat case_match; intuition lia. Qed.

Lemma new_position_ok k amt days clock e permanent w : in_pubkey k -> in_u64 amt -> in_u64 days ->
  in_u64 (clock_epoch clock) -> in_i64 (clock_unix_timestamp clock) -> in_i64 e -> 0 <= w <= 15000 ->
  value_ok (new_position k amt days clock e permanent w).
Proof.
  intros Hk Ha Hd Hep Ht He Hw.
  refine (conj Hk (conj Ha (conj Hd (conj Ht (conj He (conj _ (conj Hep _))))))); cbn [unclaimed_rewards vote_weight_bps new_position]; lia.
Qed.

(** the bounds of the positions read *)
Ltac stake_bounds := repeat match goal with E : deserialize _ = Some ?p |- _ =>
  lazymatch goal with
  | _ : in_u64 (amount p) |- _ => fail
  | _ => pose proof (stake_deserialize_ok _ _ E) as (_ & ? & ? & ? & ? & ? & ? & ?)
  end end.

Lemma compute_lock_end_Ok days now ic s e permanent s' : compute_lock_end days now ic s = (Ok (e, permanent), s') ->
  s' = s /\ lock_of days now e permanent.
Proof.
  unfold compute_lock_end, lock_of. destruct (days =? PERMANENT_LOCK_DAYS); [by intros [= <- <- <-]|].
  destruct (days =? TIER_NO_LOCK); [by intros [= <- <- <-]|]. intros H. inv_run.
  match goal with E : mret _ _ _ = _ |- _ => injection E as <- <- <- end.
  unfold checked_mul_i, checked_add_i in *. case_match; [|done]. case_match eqn:Hr; [|done]. simplify_eq.
  rewrite in_range_spec in *. tauto.
Qed.

Lemma initialize_stake_kept ix ic s d m s' : ready ix ic s -> in_u64 d -> in_u64 m ->
  process_initialize_passive_stake d m ic s = (Ok tt, s') -> positions_kept ix s s'.
Proof.
  intros [Hwf Hcur Hun Hd Hck Hkeys] Hdays Hm Hr. unfold process_initialize_passive_stake in Hr.
  rewrite (current_bind ix) in Hr by done. inv_eval.
  match goal with E : compute_lock_end _ _ _ _ = (Ok ?p, _) |- _ => destruct p as [e permanent]; apply compute_lock_end_Ok in E as [-> Hlock] end.
  inv_eval. match goal with E : sysvar_clock ic = Some _ |- _ => destruct (Hck _ E) as (_ & Hep & Hts) end.
  match goal with Hs : serialize_into _ _ = Some _ |- _ => apply stake_serialize_deserialize in Hs as [Hread _] end.
  2: { apply new_position_ok; eauto using lock_of_range, vote_weight_range. }
  eapply positions_kept_fresh; [autorewrite with view; auto 10 with accs|eassumption|eassumption|exact Hread|].
  split; [eassumption|]. split; [cbn [amount]; lia|]. split; eassumption.
Qed.

Lemma claim_rewards_kept ix ic s s' : ready ix ic s -> process_claim_rewards ic s = (Ok tt, s') -> positions_kept ix s s'.
Proof.
  intros [Hwf Hcur Hun Hd Hck Hkeys] Hr. unfold process_claim_rewards in Hr. rewrite (current_bind ix) in Hr by done.
  inv_eval; stake_bounds; inv_eval.
  match goal with E : serialize_into _ _ = Some _ |- _ => apply stake_serialize_deserialize in E as [Hread _] end.
  2: { apply with_rewards_ok; [by eapply stake_deserialize_ok|lia|lia]. }
  eapply positions_kept_writes; [autorewrite with view; auto 10 with accs|eassumption|eassumption|].
  left. eexists _, _. split; [exact Hread|]. split; [lia|]. right. split; [done|]. by eapply signed_by_intro.
Qed.

(** What closing position [p] of account [i1] does, with [ret] lamports for its
    authority. *)
Record closing (ix : InstructionContext) (s s' : TransactionContext) (p : PassiveStakeAccount) (lamports ret : Z) : Prop := {
  cl_permanent : is_permanent p = false;
  cl_signed : signed_by ix s (authority p);
  cl_delta : delta s' = ret - lamports;
  cl_accounts : exists ia0 ia1 a1, ix_accounts ix !! 0%nat = Some ia0 /\ ix_accounts ix !! 1%nat = Some ia1
    /\ accs s !! index_in_transaction ia1 = Some a1 /\ acc_owner a1 = id /\ deserialize (acc_data a1) = Some p
    /\ acc_lamports a1 = lamports
    /\ closes (index_in_transaction ia1) (index_in_transaction ia0) (zero_bytes (length (acc_data a1))) ret (accs s) (accs s')
}.

Lemma closing_kept ix s s' p lamports ret : closing ix s s' p lamports ret -> positions_kept ix s s'.
Proof.
  intros [Hp Hs _ (ia0 & ia1 & a1 & _ & _ & Ha & _ & Hd & _ & Hc%closes_writes)].
  eapply positions_kept_writes; [done|done|done|]. by right.
Qed.

Lemma closing_intro ix s s' p ia0 ia1 auth a1 a1' a3 ret : delta s = 0 ->
  deserialize (acc_data a1) = Some p -> accs s !! index_in_transaction ia1 = Some a1 -> ix_accounts ix !! 1%nat = Some ia1 ->
  acc_owner a1 = id -> is_permanent p = false ->
  authority p = acc_key auth -> accs s !! index_in_transaction ia0 = Some auth -> is_signer ia0 = true -> ix_accounts ix !! 0%nat = Some ia0 ->
  alter (with_data (zero_bytes (length (acc_data a1)))) (index_in_transaction ia1) (accs s) !! index_in_transaction ia1 = Some a1' ->
  alter (with_lamports (acc_lamports a1' - acc_lamports a1')) (index_in_transaction ia1)
    (alter (with_data (zero_bytes (length (acc_data a1)))) (index_in_transaction ia1) (accs s)) !! index_in_transaction ia0 = Some a3 ->
  delta s' = delta s + - acc_lamports a1' + ret ->
  accs s' = alter (with_lamports (acc_lamports a3 + ret)) (index_in_transaction ia0)
    (alter (with_lamports (acc_lamports a1' - acc_lamports a1')) (index_in_transaction ia1)
      (alter (with_data (zero_bytes (length (acc_data a1)))) (index_in_transaction ia1) (accs s))) ->
  closing ix s s' p (acc_lamports a1) ret.
Proof.
  intros Hd Hp Ha1 Hi1 Ho Hperm Hauth Ha0 Hsig Hi0 Ha1' Ha3 Hd' Hs'.
  eapply alter_lookup_Some in Ha1'; [|exact Ha1]. rewrite decide_True in Ha1' by done. subst a1'. simpl in *.
  rewrite Z.sub_diag in *. split; [done|by eapply signed_by_intro|lia|].
  exists ia0, ia1, a1. refine (conj Hi0 (conj Hi1 (conj Ha1 (conj Ho (conj Hp (conj eq_refl _)))))).
  eapply closes_intro; [exact Ha1|reflexivity|exact Ha3|exact Hs'].
Qed.

Lemma unlock_inv ix ic s s' : ready ix ic s -> process_unlock ic s = (Ok tt, s') -> exists p lamports,
  closing ix s s' p lamports (amount p)
  /\ (lock_days p = TIER_NO_LOCK \/ exists clock, sysvar_clock ic = Some clock /\ lock_end p <= clock_unix_timestamp clock).
Proof.
  intros [Hwf Hcur Hun Hd Hck Hkeys] Hr. unfold process_unlock in Hr. rewrite (current_bind ix) in Hr by done.
  inv_eval; stake_bounds; inv_eval.
  all: eexists _, _; (split; [|by eauto]); eapply closing_intro; try eassumption; by autorewrite with view.
Qed.

(** the penalty of an early unlock *)
Definition penalty_of (p : PassiveStakeAccount) (penalty_bps : Z) : Z := amount p * penalty_bps / BPS_DENOMINATOR.

Lemma early_unlock_inv ix ic s s' : ready ix ic s -> process_early_unlock ic s = (Ok tt, s') -> exists p lamports bps,
  early_unlock_penalty_bps_for_tier (lock_days p) = Some bps /\ closing ix s s' p lamports (amount p - penalty_of p bps).
Proof.
  intros [Hwf Hcur Hun Hd Hck Hkeys] Hr. unfold process_early_unlock in Hr. rewrite (current_bind ix) in Hr by done.
  inv_eval; stake_bounds; inv_eval. subst.
  eexists _, _, _. split; [eassumption|]. eapply closing_intro; try eassumption; by autorewrite with view.
Qed.

(** ** Rewards *)

Lemma reward_rate_range d t : reward_rate_bps_for_tier d = Some t -> 500 <= t <= 12000.
Proof. unfold reward_rate_bps_for_tier, match_tier. repeat case_match; intros [= <-]; lia. Qed.

(** rewards per epoch and over [elapsed] epochs *)
Definition new_rewards (p : PassiveStakeAccount) (elapsed v_rate t_rate : Z) : Z :=
  amount p * v_rate * t_rate / (10000 * 10000 * 365) * elapsed.

Lemma calculate_new_rewards_Some p elapsed v t n :
  calculate_new_rewards p elapsed v t = Some n <->
  n = new_rewards p elapsed v t /\ amount p * v <= u128_max /\ amount p * v * t <= u128_max /\ new_rewards p elapsed v t <= u128_max.
Proof.
  unfold calculate_new_rewards, new_rewards, BPS_DENOMINATOR. cbn [checked_mul mbind option_bind]. split.
  - intros H. repeat match type of H with _ ≫= _ = Some _ => apply bind_Some in H as (? & ? & H) end. inv_checked. subst. done.
  - intros (-> & H1 & H2 & H3). repeat (apply bind_Some; eexists; split; [solve [apply checked_mul_Some; done | reflexivity]|]).
    by apply checked_mul_Some.
Qed.

Lemma new_rewards_nonneg p elapsed v t : 0 <= amount p -> 0 <= v -> 0 <= t -> 0 <= elapsed -> 0 <= new_rewards p elapsed v t.
Proof. intros. unfold new_rewards. apply Z.mul_nonneg_nonneg; [|done]. apply Z.div_pos; [|done]. nia. Qed.

Lemma calculate_rewards_kept ix ic s e r s' : ready ix ic s -> in_u64 e -> in_u64 r ->
  process_calculate_epoch_rewards e r ic s = (Ok tt, s') -> positions_kept ix s s'.
Proof.
  intros [Hwf Hcur Hun Hd Hck Hkeys] He Hv Hr. unfold process_calculate_epoch_rewards in Hr. rewrite (current_bind ix) in Hr by done.
  inv_eval; [apply positions_kept_keeps, keeps_refl|].
  match goal with E : deserialize _ = Some _ |- _ => pose proof (stake_deserialize_ok _ _ E) as Hok end. stake_bounds.
  match goal with E : calculate_new_rewards _ _ _ _ = Some _ |- _ => apply calculate_new_rewards_Some in E as (-> & _) end.
  match goal with E : reward_rate_bps_for_tier _ = Some _ |- _ => apply reward_rate_range in E end.
  match goal with |- context [new_rewards ?p ?x ?v ?t] => idtac | H : context [new_rewards ?p ?x ?v ?t] |- _ =>
    pose proof (new_rewards_nonneg p x v t ltac:(lia) ltac:(lia) ltac:(lia) ltac:(lia)) end.
  match goal with E : serialize_into _ _ = Some _ |- _ => apply stake_serialize_deserialize in E as [Hread _] end.
  2: { apply with_rewards_ok; [done|lia|done]. }
  eapply positions_kept_writes; [autorewrite with view; auto 10 with accs|eassumption|eassumption|].
  left. eexists _, _. split; [exact Hread|]. split; [lia|]. left. lia.
Qed.

Lemma Entrypoint_kept `{!PassiveStakeBincode} ix ic s s' : ready ix ic s -> Entrypoint ic s = (Ok tt, s') -> positions_kept ix s s'.
Proof.
  intros Hready Hr. unfold Entrypoint in Hr. rewrite (current_bind ix) in Hr by apply Hready. inv_run.
  match goal with E : decode_instruction _ = Some _ |- _ => apply decode_range in E as Hok end.
  unfold value_ok, PassiveStakeInstruction_value in Hok. destruct x; simpl in *.
  - eapply initialize_stake_kept; [done| | |done]; tauto.
  - by eapply claim_rewards_kept.
  - match goal with E : process_unlock _ _ = _ |- _ => apply (unlock_inv ix) in E as (? & ? & Hc & _); [|done] end.
    by eapply closing_kept.
  - match goal with E : process_early_unlock _ _ = _ |- _ => apply (early_unlock_inv ix) in E as (? & ? & ? & _ & Hc); [|done] end.
    by eapply closing_kept.
  - eapply calculate_rewards_kept; [done| | |done]; tauto.
Qed.

(** ** What the program's accounts hold *)

Definition stake_data (d : list Byte.byte) : Prop := is_zeroed d = true \/ exists p, deserialize d = Some p /\ position_ok p.

Lemma zero_bytes_zeroed n : is_zeroed (zero_bytes n) = true.
Proof. unfold is_zeroed, zero_bytes. by induction n. Qed.

Lemma zeroed_no_position d : is_zeroed d = true -> deserialize d = None.
Proof.
  unfold deserialize, read_tagged. destruct d as [|b d]; [done|]. cbn [is_zeroed forallb].
  intros [Hb%bool_decide_eq_true_1 _]%andb_true_iff. by rewrite decide_False by (by rewrite Hb).
Qed.

Lemma data_step_stake ix s d d' : stake_data d -> data_step ix s d d' -> stake_data d'.
Proof.
  unfold data_step. intros [Hz|(p & Hp & Hok)].
  - rewrite (zeroed_no_position _ Hz). by intros [->|]; [left|right].
  - rewrite Hp. intros [(u & e & Hd & _)|(-> & _)]; [|left; apply zero_bytes_zeroed].
    right. eexists. split; [exact Hd|]. exact Hok.
Qed.

#[export] Instance stake_invariant `{!PassiveStakeBincode} : DataInvariant id Entrypoint stake_data (fun _ => True).
Proof.
  split; [by left|]. intros ix ic s s' Hready Hpk HI Hr. split; [|exact I]. intros j a' Ha' Ho.
  pose proof (safe_program ix _ _ _ _ (ready_wf _ _ _ Hready) (ready_current _ _ _ Hready) Hr) as Hs.
  destruct (step_ok_back _ _ _ _ _ Hs Ha') as (a & Ha & _).
  destruct (Entrypoint_kept _ _ _ _ Hready Hr _ _ Ha) as (a2 & Ha2 & Ho2 & Hstep). rewrite Ha' in Ha2. injection Ha2 as <-.
  eapply data_step_stake; [|exact Hstep]. apply (HI _ _ Ha). congruence.
Qed.

(** ** Claims *)

(** C18. Positions stay well formed: if every account of the passive-stake program
    is zeroed or holds a well-formed position before a message, so it is after it,
    whatever other programs the message calls: the tier is one of the six, the principal is positive, the voting weight is the
    tier's, only the permanent tier is flagged permanent, and the lock ends the
    tier's number of days after it starts. *)
Theorem positions_well_formed `{!PassiveStakeBincode} `{Hsys : InstructionsSysvar} signer writable (program : SvmInstruction -> M unit)
    `{!forall si, SafeProgram (program si)} accs0 stack_capacity trace_capacity l ic u s' :
  clock_ok ic -> id <> sysvar_id -> Forall (fun a => in_u64 (acc_lamports a) /\ in_pubkey (acc_key a)) accs0 ->
  runs_entry id Entrypoint program accs0 -> accounts_data id stake_data accs0 ->
  process_message signer writable program 0 l ic (TransactionContext_new accs0 stack_capacity trace_capacity (length l))
    = (Ok u, s') ->
  accounts_data id stake_data (accs s').
Proof.
  intros Hck Hid Hr He HI Hm. destruct (message_keeps signer writable id Entrypoint stake_data (fun _ => True) Hid program l 0 ic
    (TransactionContext_new accs0 stack_capacity trace_capacity (length l)) u s') as (_ & HI' & _ & _); [exact Hck|by apply between_new|done..|].
  exact HI'.
Qed.

(** C14. Whatever instruction the passive-stake program executes successfully, a
    position keeps its authority, amount, lock and voting weight: only its
    rewards change (they never shrink without being claimed under the
    authority's signature, and the reward epoch never goes back), or the position
    is closed, which takes a lock that is not permanent and the signature of the
    authority.  In particular a permanent lock is never closed. *)
Theorem position_lifecycle `{!PassiveStakeBincode} ix ic s s' j a p : ready ix ic s ->
  Entrypoint ic s = (Ok tt, s') -> accs s !! j = Some a -> deserialize (acc_data a) = Some p ->
  exists a', accs s' !! j = Some a' /\ acc_owner a' = acc_owner a /\ position_step ix s p (acc_data a) (acc_data a').
Proof.
  intros Hready Hr Hj Hp. destruct (Entrypoint_kept ix ic s s' Hready Hr j a Hj) as (a' & Ha' & Ho & Hstep).
  unfold data_step in Hstep. rewrite Hp in Hstep. eauto.
Qed.

(** An unlock that succeeds was signed by the position's authority, for a
    position that is not permanent and either has no lock or whose lock has
    expired; it zeroes the position's data, takes every lamport out of the stake
    account and credits the principal to account 0.  The instruction is balanced,
    and so accepted by the runtime, only when the stake account held exactly the
    principal: anything on top (a rent reserve, a donation) makes it fail. *)
Theorem unlock_effect ix ic s s' : ready ix ic s -> process_unlock ic s = (Ok tt, s') -> exists p lamports,
  closing ix s s' p lamports (amount p)
  /\ (lock_days p = TIER_NO_LOCK \/ exists clock, sysvar_clock ic = Some clock /\ lock_end p <= clock_unix_timestamp clock)
  /\ (delta s' = 0 <-> lamports = amount p).
Proof.
  intros Hready Hr. destruct (unlock_inv _ _ _ _ Hready Hr) as (p & l & Hc & Hl). exists p, l.
  split; [done|]. split; [done|]. rewrite (cl_delta _ _ _ _ _ _ Hc). lia.
Qed.


(** A stake that is accepted: the tier is one of the six, the amount is
    positive, account 0 signed, [amt] lamports moved from account 0 to the stake
    account, which was owned by the program and held no position, and the new
    position records the signer, the amount, the tier, its voting weight and an
    end of lock [days] days from now (none without a lock, and a permanent flag
    for the permanent tier).  It also shows what the code requires beyond that:
    the funding account itself is owned by the program, so a wallet owned by the
    system program cannot stake. *)
Theorem initialize_effect ix ic s days amt s' : ready ix ic s -> in_u64 days -> in_u64 amt ->
  process_initialize_passive_stake days amt ic s = (Ok tt, s') ->
  exists ia0 ia1 a0 a1 clock e permanent w,
    ix_accounts ix !! 0%nat = Some ia0 /\ ix_accounts ix !! 1%nat = Some ia1 /\ is_signer ia0 = true
    /\ accs s !! index_in_transaction ia0 = Some a0 /\ accs s !! index_in_transaction ia1 = Some a1
    /\ acc_owner a0 = id /\ acc_owner a1 = id /\ head (acc_data a1) <> Some PASSIVE_STAKE_ACCOUNT_DISCRIMINATOR
    /\ is_valid_tier days = true /\ 0 < amt /\ sysvar_clock ic = Some clock
    /\ lock_of days (clock_unix_timestamp clock) e permanent /\ vote_weight_bps_for_tier days = Some w /\ delta s' = 0
    /\ forall j a, accs s !! j = Some a -> exists a', accs s' !! j = Some a'
      /\ acc_key a' = acc_key a /\ acc_owner a' = acc_owner a
      /\ acc_lamports a' = acc_lamports a - (if decide (j = index_in_transaction ia0) then amt else 0)
                          + (if decide (j = index_in_transaction ia1) then amt else 0)
      /\ (j <> index_in_transaction ia1 -> acc_data a' = acc_data a)
      /\ (j = index_in_transaction ia1 -> deserialize (acc_data a') = Some (new_position (acc_key a0) amt days clock e permanent w)).
Proof.
  intros [Hwf Hcur Hun Hd Hck Hkeys] Hdays Hm Hr. unfold process_initialize_passive_stake in Hr.
  rewrite (current_bind ix) in Hr by done. inv_eval.
  match goal with E : compute_lock_end _ _ _ _ = (Ok ?p, _) |- _ => destruct p as [e permanent]; apply compute_lock_end_Ok in E as [-> Hlock] end.
  inv_eval.
  lazymatch goal with
  | Ha : accs s !! ?i = Some ?a6, Hl : alter _ _ (alter _ _ (accs s)) !! ?i = Some ?a9, H1 : amt = 0 \/ owned _ s ?a4 = true /\ _,
    H2 : owned _ s ?a9 = true |- _ =>
    assert (acc_owner a9 = acc_owner a6) as Ho9 by (eapply keeps_owner; [|exact Ha|exact Hl]; auto with accs);
    assert (acc_owner a4 = acc_owner a9) as Ho4 by (destruct H1 as [?|[H1 _]]; [lia|exact (owned_same _ _ s _ _ eq_refl H1 H2)])
  end.
  do 8 eexists. do 5 (split; [eassumption|]). split; [etransitivity; [exact Ho4|]; etransitivity; [exact Ho9|eassumption]|].
  do 3 (split; [eassumption|]). split; [lia|].
  do 3 (split; [eassumption|]). split; [lia|]. intros j a Hj.
  match goal with E : sysvar_clock ic = Some _ |- _ => destruct (Hck _ E) as (_ & Hep & Hts) end.
  match goal with Hs : serialize_into _ _ = Some _ |- _ => apply stake_serialize_deserialize in Hs as [Hread _] end.
  2: { apply new_position_ok; eauto using lock_of_range, vote_weight_range. }
  edestruct (fund_lookup (index_in_transaction x0) (index_in_transaction x5)) as (a' & E & Hk & Ho & Hl & Hdata); [eassumption..|].
  exists a'. split_and!; try eassumption.
  - intros Hne. by rewrite decide_False in Hdata.
  - intros Heq. by rewrite Hdata, decide_True.
Qed.

Section progress.
Context `{!BorshSize PassiveStakeAccount 83}.

Lemma stake_serialize_total p buf : value_ok p -> (SERIALIZED_SIZE <= length buf)%nat -> exists buf', serialize_into p buf = Some buf'.
Proof.
  intros Hp Hl. unfold serialize_into. destruct (Nat.ltb_spec (length buf) SERIALIZED_SIZE); [lia|].
  by apply write_tagged_total.
Qed.

(** [CalculateEpochRewards] credits exactly
    [amount * validator_rate * tier_rate / (10000 * 10000 * 365)], rounded down,
    for each epoch since the last one credited, saturated to a [u64], and records
    the epoch; an epoch already credited changes nothing.  No lamport moves and no
    other account changes.  The instruction succeeds for any epoch and rate that
    do not overflow and takes no signature: whoever sends it chooses both. *)
Theorem epoch_rewards_exact ix ic s ia rest a p epoch rate t : ready ix ic s -> resize_room s ->
  program_key ix s = Some id -> ix_accounts ix = ia :: rest -> is_writable ia = true ->
  accs s !! index_in_transaction ia = Some a -> acc_owner a = id -> deserialize (acc_data a) = Some p ->
  (SERIALIZED_SIZE <= length (acc_data a))%nat -> Z.of_nat (length (acc_data a)) <= MAX_ACCOUNT_DATA_LEN ->
  in_u64 epoch -> in_u64 rate -> reward_rate_bps_for_tier (lock_days p) = Some t ->
  amount p * rate * t <= u128_max -> new_rewards p (epoch - last_reward_epoch p) rate t <= u128_max ->
  unclaimed_rewards p + Z.min u64_max (new_rewards p (epoch - last_reward_epoch p) rate t) <= u64_max ->
  exists s', process_calculate_epoch_rewards epoch rate ic s = (Ok tt, s') /\ delta s' = 0
    /\ (epoch <= last_reward_epoch p -> s' = s)
    /\ (last_reward_epoch p < epoch -> exists buf, accs s' = alter (with_data buf) (index_in_transaction ia) (accs s)
        /\ deserialize buf = Some (with_rewards
             (unclaimed_rewards p + Z.min u64_max (new_rewards p (epoch - last_reward_epoch p) rate t)) epoch p)).
Proof.
  intros [Hwf Hcur Hun Hd Hck Hkeys] Hrd Hpk Hixs Hw La Ho Hp Hsz Hmax Hep Hrate Ht Hov1 Hov2 Hsum.
  pose proof (stake_deserialize_ok _ _ Hp) as Hok. stake_bounds. pose proof (reward_rate_range _ _ Ht).
  pose proof (owned_of_key ix s ia a id Hpk Ho) as Hown. unfold process_calculate_epoch_rewards. rewrite (current_bind ix) by done.
  assert (ix_accounts ix !! 0%nat = Some ia) as I0 by by rewrite Hixs.
  assert (1 <= length (ix_accounts ix))%nat as Hn by (rewrite Hixs; simpl; lia).
  destruct (Z.leb_spec epoch (last_reward_epoch p)) as [Hle|Hlt].
  - exists s. split_and!; [|done|done|lia]. run_step.
  - set (n := new_rewards p (epoch - last_reward_epoch p) rate t) in *.
    assert (0 <= n) by (apply new_rewards_nonneg; lia).
    assert (calculate_new_rewards p (epoch - last_reward_epoch p) rate t = Some n) as Hnew.
    { apply calculate_new_rewards_Some. fold n. split_and!; [done|nia|done|done]. }
    assert (value_ok (with_rewards (unclaimed_rewards p + Z.min u64_max n) epoch p)) as Hok' by (apply with_rewards_ok; [done|lia|done]).
    destruct (stake_serialize_total _ (acc_data a) Hok') as [buf Hbuf]; [done|].
    destruct (stake_serialize_deserialize _ _ _ Hok' Hbuf) as [Hread Hlen]. clearbody n.
    eexists. split; [run_step|]. autorewrite with view. split_and!; [done|lia|]. intros _. exists buf. split; [reflexivity|exact Hread].
Qed.

End progress.
End handlers.

(** ** Stakes on the documented formats *)

Definition PassiveStakeAccount_codec : Codec (A := PassiveStakeAccount) value_ok.
Proof.
  refine (codec_map (fun '(k, (m, (d, (ls, (le, (u, (e, (p, w)))))))) => {| authority := k; amount := m; lock_days := d; lock_start := ls;
            lock_end := le; unclaimed_rewards := u; last_reward_epoch := e; is_permanent := p; vote_weight_bps := w |})
          (fun p => (authority p, (amount p, (lock_days p, (lock_start p, (lock_end p, (unclaimed_rewards p, (last_reward_epoch p,
            (is_permanent p, vote_weight_bps p))))))))) _ _
          (codec_pair codec_key (codec_pair (codec_uint 8) (codec_pair (codec_uint 8) (codec_pair codec_i64 (codec_pair codec_i64
            (codec_pair (codec_uint 8) (codec_pair (codec_uint 8) (codec_pair codec_bool (codec_uint 2)))))))))).
  - intros [] (Hk & H). split; [reflexivity|]. cbn [fst snd] in *. change (2 ^ (8 * Z.of_nat 8)) with (u64_max + 1).
    change (2 ^ (8 * Z.of_nat 2)) with (u16_max + 1).
    cbn [authority amount lock_days lock_start lock_end unclaimed_rewards last_reward_epoch vote_weight_bps] in *.
    refine (conj Hk _). lia.
  - intros (k & m & d & ls & le & u & e & p & w) (Hk & H). cbn [fst snd] in *.
    change (2 ^ (8 * Z.of_nat 8)) with (u64_max + 1) in *. change (2 ^ (8 * Z.of_nat 2)) with (u16_max + 1) in *.
    refine (conj Hk _). cbv beta in *.
    cbn [authority amount lock_days lock_start lock_end unclaimed_rewards last_reward_epoch vote_weight_bps]. lia.
Defined.
#[local] Instance PassiveStakeAccount_borsh : Borsh PassiveStakeAccount := PassiveStakeAccount_codec.

#[local] Instance PassiveStakeAccount_size : BorshSize PassiveStakeAccount 83.
Proof. intros c _. unfold to_vec, borsh, PassiveStakeAccount_borsh, PassiveStakeAccount_codec. by autorewrite with codec. Qed.

(** [bincode]: a 32-bit tag, then the fields *)
Definition decode_demo (bs : list Byte.byte) : option PassiveStakeInstruction :=
  '(tag, bs) ← dec (codec_uint 4) bs;
  match tag with
  | 0 => '(x, _) ← dec (codec_pair (codec_uint 8) (codec_uint 8)) bs; Some (InitializePassiveStake x.1 x.2)
  | 1 => Some ClaimRewards
  | 2 => Some Unlock
  | 3 => Some EarlyUnlock
  | 4 => '(x, _) ← dec (codec_pair (codec_uint 8) (codec_uint 8)) bs; Some (CalculateEpochRewards x.1 x.2)
  | _ => None
  end.

#[local] Instance demo_bincode : PassiveStakeBincode.
Proof.
  refine {| decode_instruction := decode_demo |}. intros bs i. unfold decode_demo.
  intros ([tag bs1] & _ & H)%bind_Some. repeat (case_match; try discriminate H);
    try (injection H as <-; exact I); apply bind_Some in H as ([x r] & [Ha Hb]%codec_range & [= <-]);
    change (2 ^ (8 * Z.of_nat 8)) with (u64_max + 1) in *; unfold value_ok, PassiveStakeInstruction_value; lia.
Defined.

Definition demo_position (k m days e : Z) : PassiveStakeAccount :=
  {| authority := k; amount := m; lock_days := days; lock_start := 0; lock_end := e; unclaimed_rewards := 0; last_reward_epoch := 0;
     is_permanent := false; vote_weight_bps := 0 |}.
Definition demo_data (p : PassiveStakeAccount) : list Byte.byte := PASSIVE_STAKE_ACCOUNT_DISCRIMINATOR :: to_vec p.

(** A wallet, its stake of one lamport without lock, somebody else's stake of
    1000 lamports locked for 30 days, the program, and two accounts of the program
    without a position. *)
Definition demo_accounts : list Account :=
  [ plain_account 20 0 10 []; plain_account 21 id 1 (demo_data (demo_position 20 1 0 0));
    plain_account 22 id 1000 (demo_data (demo_position 23 1000 30 2592000)); plain_account id 0 1 [];
    plain_account 24 id 500 []; plain_account 25 id 0 [] ].
Definition demo_ic : InvokeContext :=
  {| sysvar_clock := Some {| clock_slot := 100; clock_epoch := 1; clock_unix_timestamp := 86400 |} |}.
Definition demo_signer (i : nat) : bool := (i =? 0)%nat || (i =? 4)%nat.
Definition demo_writable (i : nat) : bool := negb (i =? 3)%nat.
Definition demo_calculate : SvmInstruction :=
  {| si_program := 3; si_accounts := [1]%nat; si_data := enc (codec_uint 4) 4 ++ enc (codec_uint 8) 1 ++ enc (codec_uint 8) 72927000000 |}.
Definition demo_claim : SvmInstruction :=
  {| si_program := 3; si_accounts := [0; 1; 2]%nat; si_data := enc (codec_uint 4) 1 |}.

(** A whole message that does so: signed by the wallet of account 0 only, it
    credits the wallet's stake of one lamport with 999 lamports of rewards by naming a rate,
    and claims them from a stake account of another authority, whose lock has
    not expired; the victim's account goes from 1000 lamports to 1. *)
Example drain_message : exists s',
  process_message (H := sdk_instructions_sysvar) (fun i => (i =? 0)%nat) demo_writable (fun _ => Entrypoint) 0
    [demo_calculate; demo_claim] demo_ic (TransactionContext_new demo_accounts 5 64 2) = (Ok tt, s')
  /\ map acc_lamports demo_accounts = [10; 1; 1000; 1; 500; 0]
  /\ map acc_lamports (accs s') = [1009; 1; 1; 1; 500; 0]
  /\ map (fun a => deserialize (acc_data a)) (take 1 (drop 2 (accs s'))) = [Some (demo_position 23 1000 30 2592000)].
Proof. eexists. split; [vm_compute; reflexivity|]. split_and!; vm_compute; reflexivity. Qed.

Definition demo_instruction (accounts : list nat) (data : list Byte.byte) : SvmInstruction :=
  {| si_program := 3; si_accounts := accounts; si_data := data |}.
Definition demo_enter (si : SvmInstruction) : TransactionContext :=
  enter (H := sdk_instructions_sysvar) demo_signer demo_writable demo_accounts si demo_ic.



Definition calculate_state : TransactionContext := Eval vm_compute in demo_enter demo_calculate.
Definition unlock_state : TransactionContext := Eval vm_compute in demo_enter (demo_instruction [0; 1]%nat (enc (codec_uint 4) 2)).
Definition init_state : TransactionContext := Eval vm_compute in
  demo_enter (demo_instruction [4; 5]%nat (enc (codec_uint 4) 0 ++ enc (codec_uint 8) 90 ++ enc (codec_uint 8) 300)).

(** A stake of 300 lamports for 90 days beside the two of the example. *)
Definition demo_stakes : list Account :=
  [ plain_account 20 0 10 []; plain_account 24 id 500 []; plain_account 25 id 0 []; plain_account id 0 1 [] ].
Lemma positions_well_formed_witness : exists s',
  process_message (H := sdk_instructions_sysvar) (fun i => (i =? 1)%nat) demo_writable (fun _ => Entrypoint) 0
    [demo_instruction [1; 2]%nat (enc (codec_uint 4) 0 ++ enc (codec_uint 8) 90 ++ enc (codec_uint 8) 300)] demo_ic
    (TransactionContext_new demo_stakes 5 64 1) = (Ok tt, s') /\ accounts_data id stake_data (accs s').
Proof.
  exists (process_message (H := sdk_instructions_sysvar) (fun i => (i =? 1)%nat) demo_writable (fun _ => Entrypoint) 0
    [demo_instruction [1; 2]%nat (enc (codec_uint 4) 0 ++ enc (codec_uint 8) 90 ++ enc (codec_uint 8) 300)] demo_ic
    (TransactionContext_new demo_stakes 5 64 1)).2. split; [vm_compute; reflexivity|].
  refine (positions_well_formed (Hsys := sdk_instructions_sysvar) (fun i => (i =? 1)%nat) demo_writable (fun _ => Entrypoint) demo_stakes 5 64
    [demo_instruction [1; 2]%nat (enc (codec_uint 4) 0 ++ enc (codec_uint 8) 90 ++ enc (codec_uint 8) 300)] demo_ic tt _ _ _ _ _ _ _).
  - intros c [= <-]. vm_compute. repeat split; discriminate.
  - vm_compute. discriminate.
  - repeat constructor; vm_compute; try discriminate; reflexivity.
  - intros si a _ _. reflexivity.
  - apply accounts_data_Forall. repeat first [apply Forall_nil_2 | apply Forall_cons_2; [intros _; left; vm_compute; reflexivity|]].
  - vm_compute. reflexivity.
Defined.

(** Crediting the example's rewards keeps the other position. *)
Lemma position_lifecycle_witness : exists s', Entrypoint demo_ic calculate_state = (Ok tt, s')
  /\ exists a', accs s' !! 2%nat = Some a'
    /\ position_step (current_ix calculate_state) calculate_state (demo_position 23 1000 30 2592000) (demo_data (demo_position 23 1000 30 2592000)) (acc_data a').
Proof.
  exists (Entrypoint demo_ic calculate_state).2. split; [vm_compute; reflexivity|].
  destruct (position_lifecycle (current_ix calculate_state) demo_ic calculate_state (Entrypoint demo_ic calculate_state).2 2
    (plain_account 22 id 1000 (demo_data (demo_position 23 1000 30 2592000))) (demo_position 23 1000 30 2592000))
    as (a' & Ha & _ & Hstep).
  - apply readyb_ready; vm_compute; reflexivity.
  - vm_compute. reflexivity.
  - vm_compute. reflexivity.
  - vm_compute. reflexivity.
  - exists a'. split; [exact Ha|exact Hstep].
Defined.

(** The example's stake without lock returns its one lamport. *)
Lemma unlock_effect_witness : exists s' p lamports, process_unlock demo_ic unlock_state = (Ok tt, s')
  /\ closing (current_ix unlock_state) unlock_state s' p lamports (amount p) /\ lamports = amount p.
Proof.
  destruct (unlock_effect (current_ix unlock_state) demo_ic unlock_state (process_unlock demo_ic unlock_state).2) as (p & l & Hc & _ & Hd).
  - apply readyb_ready; vm_compute; reflexivity.
  - vm_compute. reflexivity.
  - exists (process_unlock demo_ic unlock_state).2, p, l. split; [vm_compute; reflexivity|]. split; [exact Hc|].
    apply Hd. vm_compute. reflexivity.
Defined.


(** 300 lamports staked for 90 days from an account of the program. *)
Lemma initialize_effect_witness : exists s', process_initialize_passive_stake 90 300 demo_ic init_state = (Ok tt, s') /\ delta s' = 0.
Proof.
  exists (process_initialize_passive_stake 90 300 demo_ic init_state).2. split; [vm_compute; reflexivity|].
  destruct (initialize_effect (current_ix init_state) demo_ic init_state 90 300 (process_initialize_passive_stake 90 300 demo_ic init_state).2)
    as (ia0 & ia1 & a0 & a1 & clock & e & perm & w & _ & _ & _ & _ & _ & _ & _ & _ & _ & _ & _ & _ & _ & Hd & _).
  - apply readyb_ready; vm_compute; reflexivity.
  - lia.
  - lia.
  - vm_compute. reflexivity.
  - exact Hd.
Defined.

(** The example's rewards: one epoch at a rate of 72927000000. *)
Lemma epoch_rewards_exact_witness : exists s', process_calculate_epoch_rewards 1 72927000000 demo_ic calculate_state = (Ok tt, s')
  /\ delta s' = 0 /\ new_rewards (demo_position 20 1 0 0) 1 72927000000 500 = 999.
Proof.
  destruct (epoch_rewards_exact (current_ix calculate_state) demo_ic calculate_state
    {| index_in_transaction := 1; is_signer := false; is_writable := true |} []
    (plain_account 21 id 1 (demo_data (demo_position 20 1 0 0))) (demo_position 20 1 0 0) 1 72927000000 500) as (s' & Hr & Hd & _);
    [apply readyb_ready; vm_compute; reflexivity | vm_compute; split; discriminate
    |solve [vm_compute; reflexivity | vm_compute; discriminate | vm_compute; lia | split; vm_compute; discriminate]..|].
  exists s'. split; [exact Hr|]. split; [exact Hd|vm_compute; reflexivity].
Defined.
End PassiveStake.
