(* ===== verification/DeveloperRewards.v ===== *)
(** * The developer-rewards program

    Models programs/developer-rewards/src: the revenue configuration of a program
    and the per-epoch tracker (state.rs), the instructions (instruction.rs), the
    errors (error.rs), the limits (constants.rs) and the handlers (processor.rs).
    Compute-unit metering and logging are left out. *)

From coqutil Require Import Byte Word.LittleEndianList.
From Stdlib Require Import ZArith Lia String.
From stdpp Require Import base numbers list option.
From S2P Require Import Prelude Borsh TxContext TxSafety TxEval TxInvariant.
Local Open Scope Z_scope.

Module DeveloperRewards.

(** ** Data *)

Definition id : Pubkey := base58 "DevRew11111111111111111111111111111111111111".
#[global] Opaque id.
Definition MIN_COMPUTE_UNITS_THRESHOLD : Z := 1000.
Definition COOLDOWN_SLOTS : Z := 1512000.
Definition MAX_PROGRAM_FEE_SHARE_BPS : Z := 1000.
Definition TOTAL_BPS : Z := 10000.

Record RevenueSplit := {
  recipient : Pubkey;
  share_bps : Z
}.

Record ProgramRevenueConfig := {
  version : Z;
  program_id : Pubkey;
  revenue_recipient : Pubkey;
  update_authority : Pubkey;
  is_active : bool;
  revenue_splits : list RevenueSplit;
  total_fees_earned : Z;
  epoch_fees_earned : Z;
  last_epoch : Z;
  eligible_after_slot : Z;
  unclaimed_fees : Z
}.

Record EpochFeeTracker := {
  tracker_version : Z;
  epoch : Z;
  total_developer_fees : Z
}.

#[export] Instance RevenueSplit_value : RustValue RevenueSplit := fun r => in_pubkey (recipient r) /\ in_u16 (share_bps r).
#[export] Instance ProgramRevenueConfig_value : RustValue ProgramRevenueConfig := fun c =>
  in_u8 (version c) /\ in_pubkey (program_id c) /\ in_pubkey (revenue_recipient c) /\ in_pubkey (update_authority c)
  /\ (Z.of_nat (length (revenue_splits c)) <= u32_max /\ Forall value_ok (revenue_splits c))
  /\ in_u64 (total_fees_earned c) /\ in_u64 (epoch_fees_earned c) /\ in_u64 (last_epoch c)
  /\ in_u64 (eligible_after_slot c) /\ in_u64 (unclaimed_fees c).
#[export] Instance EpochFeeTracker_value : RustValue EpochFeeTracker := fun t =>
  in_u8 (tracker_version t) /\ in_u64 (epoch t) /\ in_u64 (total_developer_fees t).

Inductive DeveloperRewardsInstruction :=
  | RegisterRevenueRecipient (program_id recipient : Pubkey)
  | UpdateRevenueRecipient (program_id new_recipient : Pubkey)
  | AddRevenueSplit (program_id : Pubkey) (splits : list RevenueSplit)
  | ClaimDeveloperFees (program_id : Pubkey)
  | CreditDeveloperFees (program_id : Pubkey) (amount compute_units_consumed : Z).

#[export] Instance DeveloperRewardsInstruction_value : RustValue DeveloperRewardsInstruction := fun i =>
  match i with
  | RegisterRevenueRecipient p r => in_pubkey p /\ in_pubkey r
  | UpdateRevenueRecipient p r => in_pubkey p /\ in_pubkey r
  | AddRevenueSplit p l => in_pubkey p /\ (Z.of_nat (length l) <= u32_max /\ Forall value_ok l)
  | ClaimDeveloperFees p => in_pubkey p
  | CreditDeveloperFees p a u => in_pubkey p /\ in_u64 a /\ in_u64 u
  end.

Inductive DeveloperRewardsError :=
  | UnauthorizedSigner
  | UnauthorizedUpdateAuthority
  | ConfigAlreadyExists
  | ConfigNotFound
  | ConfigNotActive
  | InvalidSplitTotal
  | ZeroShareInSplit
  | TooManySplitRecipients
  | DuplicateRecipient
  | CooldownNotElapsed
  | BelowMinComputeUnits
  | EpochFeeCapExceeded
  | NoFeesToClaim
  | InsufficientPoolFunds
  | DeserializationError
  | SerializationError
  | InvalidAccountOwner
  | AccountDataTooSmall
  | InvalidPda.

Definition error_code (e : DeveloperRewardsError) : Z :=
  match e with
  | UnauthorizedSigner => 0 | UnauthorizedUpdateAuthority => 1 | ConfigAlreadyExists => 2 | ConfigNotFound => 3
  | ConfigNotActive => 4 | InvalidSplitTotal => 5 | ZeroShareInSplit => 6 | TooManySplitRecipients => 7
  | DuplicateRecipient => 8 | CooldownNotElapsed => 9 | BelowMinComputeUnits => 10 | EpochFeeCapExceeded => 11
  | NoFeesToClaim => 12 | InsufficientPoolFunds => 13 | DeserializationError => 14 | SerializationError => 15
  | InvalidAccountOwner => 16 | AccountDataTooSmall => 17 | InvalidPda => 18
  end.
Definition into (e : DeveloperRewardsError) : InstructionError := Custom (error_code e).

(** [Pubkey::new_from_array] *)
Definition new_from_array (l : list Byte.byte) : Pubkey := le_combine (rev l).

Definition with_recipient (k : Pubkey) (c : ProgramRevenueConfig) : ProgramRevenueConfig :=
  {| version := version c; program_id := program_id c; revenue_recipient := k; update_authority := update_authority c;
     is_active := is_active c; revenue_splits := revenue_splits c; total_fees_earned := total_fees_earned c;
     epoch_fees_earned := epoch_fees_earned c; last_epoch := last_epoch c; eligible_after_slot := eligible_after_slot c;
     unclaimed_fees := unclaimed_fees c |}.
Definition with_splits (l : list RevenueSplit) (c : ProgramRevenueConfig) : ProgramRevenueConfig :=
  {| version := version c; program_id := program_id c; revenue_recipient := revenue_recipient c;
     update_authority := update_authority c; is_active := is_active c; revenue_splits := l;
     total_fees_earned := total_fees_earned c; epoch_fees_earned := epoch_fees_earned c; last_epoch := last_epoch c;
     eligible_after_slot := eligible_after_slot c; unclaimed_fees := unclaimed_fees c |}.
Definition with_fees (total epoch last unclaimed : Z) (c : ProgramRevenueConfig) : ProgramRevenueConfig :=
  {| version := version c; program_id := program_id c; revenue_recipient := revenue_recipient c;
     update_authority := update_authority c; is_active := is_active c; revenue_splits := revenue_splits c;
     total_fees_earned := total; epoch_fees_earned := epoch; last_epoch := last;
     eligible_after_slot := eligible_after_slot c; unclaimed_fees := unclaimed |}.

Section handlers.
Context `{!Borsh ProgramRevenueConfig, !Borsh EpochFeeTracker}.

(** ** Reading and writing the accounts *)

(** [data.is_empty() || data[0] == 0] *)
Definition no_version (data : list Byte.byte) : bool :=
  match data with
  | [] => true
  | b :: _ => bool_decide (b = Byte.x00)
  end.

Definition deserialize_config (account : BorrowedInstructionAccount) : M ProgramRevenueConfig :=
  data ← get_data account;
  require (negb (no_version data)) (into ConfigNotFound) ;;
  lift_opt (try_from_slice data) TxContext.InvalidAccountData.

(** [serialize_config] and [serialize_tracker]: the account shrinks to the size of
    what is written *)
Definition serialize_value {A} `{Borsh A} (x : A) (account : BorrowedInstructionAccount) : M unit :=
  data ← get_data account;
  require (negb (length data <? length (to_vec x))%nat) (into AccountDataTooSmall) ;;
  set_data_from_slice account (to_vec x).
Definition serialize_config (c : ProgramRevenueConfig) (account : BorrowedInstructionAccount) : M unit := serialize_value c account.
Definition serialize_tracker (t : EpochFeeTracker) (account : BorrowedInstructionAccount) : M unit := serialize_value t account.

Definition deserialize_tracker (account : BorrowedInstructionAccount) : M EpochFeeTracker :=
  data ← get_data account;
  if is_zeroed data then mret {| tracker_version := 1; epoch := 0; total_developer_fees := 0 |}
  else lift_opt (try_from_slice data) TxContext.InvalidAccountData.

(** ** Handlers *)

Definition process_register (pid recip : Pubkey) : M unit :=
  ix ← get_current_instruction_context;
  signer ← is_instruction_account_signer ix 0;
  require signer MissingRequiredSignature ;;
  signer_key ← get_key_of_instruction_account ix 0;
  borrowing ix 1 (fun config_account =>
    existing_data ← get_data config_account;
    require (no_version existing_data) (into ConfigAlreadyExists)) ;;
  borrowing ix 2 (fun programdata_account =>
    pd_data ← get_data programdata_account;
    require (negb (length pd_data <? 45)%nat) (into UnauthorizedSigner) ;;
    require (bool_decide (pd_data !! 12%nat = Some Byte.x01)) (into UnauthorizedSigner) ;;
    let upgrade_authority := new_from_array (take 32 (drop 13 pd_data)) in
    require (bool_decide (upgrade_authority = signer_key)) (into UnauthorizedSigner)) ;;
  clock ← get_clock;
  let config := {| version := 1; program_id := pid; revenue_recipient := recip; update_authority := signer_key;
                   is_active := true; revenue_splits := []; total_fees_earned := 0; epoch_fees_earned := 0; last_epoch := 0;
                   eligible_after_slot := saturating_add u64_max (clock_slot clock) COOLDOWN_SLOTS; unclaimed_fees := 0 |} in
  borrowing ix 1 (fun config_account => serialize_config config config_account).

Definition process_update_recipient (pid new_recipient : Pubkey) : M unit :=
  ix ← get_current_instruction_context;
  signer ← is_instruction_account_signer ix 0;
  require signer MissingRequiredSignature ;;
  signer_key ← get_key_of_instruction_account ix 0;
  borrowing ix 1 (fun config_account =>
    config ← deserialize_config config_account;
    require (bool_decide (update_authority config = signer_key)) (into UnauthorizedUpdateAuthority) ;;
    serialize_config (with_recipient new_recipient config) config_account).

(** the loop over the splits: no zero share, no recipient twice; the sum of the
    shares in a [u32] *)
Fixpoint check_splits (total_bps : Z) (splits : list RevenueSplit) : result Z InstructionError :=
  match splits with
  | [] => Ok total_bps
  | s :: rest =>
      if share_bps s =? 0 then Err (into ZeroShareInSplit)
      else if existsb (fun other => bool_decide (recipient s = recipient other)) rest then Err (into DuplicateRecipient)
      else check_splits (saturating_add u32_max total_bps (share_bps s)) rest
  end.

Definition process_add_revenue_split (pid : Pubkey) (splits : list RevenueSplit) : M unit :=
  ix ← get_current_instruction_context;
  require (negb (10 <? length splits)%nat) (into TooManySplitRecipients) ;;
  total_bps ← lift (check_splits 0 splits);
  require (total_bps =? TOTAL_BPS) (into InvalidSplitTotal) ;;
  signer ← is_instruction_account_signer ix 0;
  require signer MissingRequiredSignature ;;
  signer_key ← get_key_of_instruction_account ix 0;
  borrowing ix 1 (fun config_account =>
    config ← deserialize_config config_account;
    require (bool_decide (update_authority config = signer_key)) (into UnauthorizedUpdateAuthority) ;;
    serialize_config (with_splits splits config) config_account).

Definition process_claim (pid : Pubkey) : M unit :=
  ix ← get_current_instruction_context;
  signer ← is_instruction_account_signer ix 0;
  require signer MissingRequiredSignature ;;
  claim_amount ← borrowing ix 1 (fun config_account =>
    config ← deserialize_config config_account;
    require (is_active config) (into ConfigNotActive) ;;
    require (negb (unclaimed_fees config =? 0)) (into NoFeesToClaim) ;;
    serialize_config (with_fees (total_fees_earned config) (epoch_fees_earned config) (last_epoch config) 0 config) config_account ;;
    mret (unclaimed_fees config));
  borrowing ix 2 (fun pool_account =>
    lamports ← get_lamports pool_account;
    require (negb (lamports <? claim_amount)) (into InsufficientPoolFunds) ;;
    checked_sub_lamports pool_account claim_amount) ;;
  borrowing ix 3 (fun recipient_account => checked_add_lamports recipient_account claim_amount).

(** the fee a program may have earned in an epoch with [total] developer fees *)
Definition max_allowed (total : Z) : Z :=
  default 0 (checked_div (saturating_mul u128_max total MAX_PROGRAM_FEE_SHARE_BPS) TOTAL_BPS) mod (u64_max + 1).

Definition process_credit (pid : Pubkey) (amount compute_units_consumed : Z) : M unit :=
  ix ← get_current_instruction_context;
  require (negb (compute_units_consumed <? MIN_COMPUTE_UNITS_THRESHOLD)) (into BelowMinComputeUnits) ;;
  clock ← get_clock;
  config ← borrowing ix 1 deserialize_config;
  require (is_active config) (into ConfigNotActive) ;;
  require (negb (clock_slot clock <? eligible_after_slot config)) (into CooldownNotElapsed) ;;
  let epoch_fees := if last_epoch config =? clock_epoch clock then epoch_fees_earned config else 0 in
  projected_program ← borrowing ix 2 (fun tracker_account =>
    tracker ← deserialize_tracker tracker_account;
    let total_fees := if epoch tracker =? clock_epoch clock then total_developer_fees tracker else 0 in
    let projected_program := saturating_add u64_max epoch_fees amount in
    let projected_total := saturating_add u64_max total_fees amount in
    require (negb (max_allowed projected_total <? projected_program)) (into EpochFeeCapExceeded) ;;
    serialize_tracker {| tracker_version := tracker_version tracker; epoch := clock_epoch clock;
                         total_developer_fees := projected_total |} tracker_account ;;
    mret projected_program);
  borrowing ix 1 (fun config_account =>
    serialize_config (with_fees (saturating_add u64_max (total_fees_earned config) amount) projected_program
      (clock_epoch clock) (saturating_add u64_max (unclaimed_fees config) amount) config) config_account).

Definition process_instruction (i : DeveloperRewardsInstruction) : M unit :=
  match i with
  | RegisterRevenueRecipient p r => process_register p r
  | UpdateRevenueRecipient p r => process_update_recipient p r
  | AddRevenueSplit p l => process_add_revenue_split p l
  | ClaimDeveloperFees p => process_claim p
  | CreditDeveloperFees p a u => process_credit p a u
  end.

Definition Entrypoint `{!Borsh DeveloperRewardsInstruction} : M unit :=
  ix ← get_current_instruction_context;
  i ← lift_opt (try_from_slice (ix_data ix)) InvalidInstructionData;
  process_instruction i.

(** ** The program respects the runtime's rules *)

Lemma config_from_slice_fees data c : try_from_slice data = Some c -> in_u64 (unclaimed_fees c).
Proof. intros (_ & _ & _ & _ & _ & _ & _ & _ & _ & H)%try_from_slice_ok. exact H. Qed.

#[export] Instance developer_Entrypoint_safe `{!Borsh DeveloperRewardsInstruction} : SafeProgram Entrypoint.
Proof.
  intros ix. unfold Entrypoint. apply safe_current. apply safe_bind; [auto with safe|].
  intros i Hi%returns_lift_opt%try_from_slice_ok. unfold value_ok, DeveloperRewardsInstruction_value in Hi. destruct i.
  all: unfold process_instruction, process_register, process_update_recipient, process_add_revenue_split, process_claim,
    process_credit, deserialize_config, deserialize_tracker, serialize_config, serialize_tracker, serialize_value; destruct_and?; solve_safe.
  all: inv_returns; match goal with E : try_from_slice _ = Some _ |- _ => apply config_from_slice_fees in E end; eauto with safe.
Qed.

(** the config a registration writes *)
Definition new_config (pid recip auth : Pubkey) (slot : Z) : ProgramRevenueConfig :=
  {| version := 1; program_id := pid; revenue_recipient := recip; update_authority := auth;
     is_active := true; revenue_splits := []; total_fees_earned := 0; epoch_fees_earned := 0; last_epoch := 0;
     eligible_after_slot := saturating_add u64_max slot COOLDOWN_SLOTS; unclaimed_fees := 0 |}.

Lemma new_config_ok pid recip auth slot : in_pubkey pid -> in_pubkey recip -> in_pubkey auth -> in_u64 slot ->
  value_ok (new_config pid recip auth slot).
Proof.
  intros. unfold value_ok, ProgramRevenueConfig_value. simpl. unfold saturating_add, COOLDOWN_SLOTS.
  split_and!; try done; lia.
Qed.

(** ** No developer fee is ever paid *)

Section fees.
Context `{!Borsh DeveloperRewardsInstruction, !BorshCanonical ProgramRevenueConfig, !BorshCanonical EpochFeeTracker}.
(** the documented sizes of the two account types *)
Hypothesis config_length : forall c : ProgramRevenueConfig, value_ok c -> length (to_vec c) = (142 + 34 * length (revenue_splits c))%nat.
Hypothesis tracker_length : forall t : EpochFeeTracker, value_ok t -> length (to_vec t) = 17%nat.

Definition no_fees (c : ProgramRevenueConfig) : Prop :=
  value_ok c /\ revenue_splits c = [] /\ total_fees_earned c = 0 /\ epoch_fees_earned c = 0 /\ unclaimed_fees c = 0.

(** what the data of the program's accounts can be *)
Inductive fee_data : list Byte.byte -> Prop :=
  | fee_zeroed d : is_zeroed d = true -> fee_data d
  | fee_config c : no_fees c -> fee_data (to_vec c)
  | fee_tracker t : value_ok t -> total_developer_fees t = 0 -> fee_data (to_vec t).

Lemma zeroed_no_version d : is_zeroed d = true -> no_version d = true.
Proof. destruct d; [done|]. simpl. by intros [? _]%andb_true_iff. Qed.

Lemma config_not_tracker c t : value_ok c -> value_ok t -> to_vec (A := ProgramRevenueConfig) c <> to_vec (A := EpochFeeTracker) t.
Proof. intros Hc Ht E%(f_equal length). rewrite config_length, tracker_length in E by done. lia. Qed.

Lemma fee_data_config d c : fee_data d -> no_version d = false -> try_from_slice d = Some c -> no_fees c /\ length d = 142%nat.
Proof.
  intros Hd Hv Hc. destruct Hd as [d Hz|c' Hc'|t Ht _].
  - apply zeroed_no_version in Hz. congruence.
  - rewrite try_from_to_vec in Hc by apply Hc'. injection Hc as <-. split; [done|].
    destruct Hc' as (Hok & Hs & _). by rewrite config_length, Hs by done.
  - pose proof (try_from_slice_ok _ _ Hc). apply try_from_slice_to_vec in Hc. by destruct (config_not_tracker c t).
Qed.

Lemma fee_data_tracker d t : fee_data d -> is_zeroed d = false -> try_from_slice d = Some t -> value_ok t /\ total_developer_fees t = 0.
Proof.
  intros Hd Hv Ht. pose proof (try_from_slice_ok _ _ Ht) as Hok. split; [done|]. destruct Hd as [d Hz|c Hc|t' Ht' H0].
  - congruence.
  - apply try_from_slice_to_vec in Ht. destruct (config_not_tracker c t); [apply Hc|done|done].
  - rewrite try_from_to_vec in Ht by done. by injection Ht as <-.
Qed.

(** A config read from an account of the program. *)
Lemma owned_config ix s ia a c : program_key ix s = Some id -> owned_data id fee_data s ->
  accs s !! index_in_transaction ia = Some a -> owned {| b_account := ia; b_program := ix_program_index ix |} s a = true ->
  no_version (acc_data a) = false -> try_from_slice (acc_data a) = Some c -> no_fees c /\ length (acc_data a) = 142%nat.
Proof. intros Hpk HI Ha Ho. eapply fee_data_config, HI; [exact Ha|]. by eapply owned_id. Qed.

Ltac enter_handler Hr := unfold deserialize_config, deserialize_tracker, serialize_config, serialize_tracker, serialize_value in Hr;
  rewrite (current_bind _) in Hr by eassumption; inv_eval.
Ltac read_config := match goal with
  | E : @try_from_slice ProgramRevenueConfig _ _ (acc_data ?a) = Some ?c,
    Ho : owned {| b_account := ?ia; b_program := ix_program_index ?ix |} ?s ?a = true |- _ =>
      let Hc := fresh "Hc" in let Hl := fresh "Hl" in
      destruct (owned_config ix s ia a c) as [Hc Hl]; [eassumption..|]
  end.

Lemma update_recipient_keeps ix ic s pid k s' : ready ix ic s -> program_key ix s = Some id -> in_pubkey k ->
  owned_data id fee_data s -> process_update_recipient pid k ic s = (Ok tt, s') -> owned_data id fee_data s'.
Proof.
  intros [Hwf Hcur Hun Hd Hck Hkeys] Hpk Hk HI Hr. unfold process_update_recipient in Hr. enter_handler Hr. read_config.
  unfold owned_data. autorewrite with view. apply accounts_data_with_data; [|exact HI]. apply fee_config.
  destruct Hc as ((Hv & Hp & _ & Hrest) & Hs & Hf). exact (conj (conj Hv (conj Hp (conj Hk Hrest))) (conj Hs Hf)).
Qed.

Lemma register_keeps ix ic s pid k s' : ready ix ic s -> program_key ix s = Some id -> in_pubkey pid -> in_pubkey k ->
  owned_data id fee_data s -> process_register pid k ic s = (Ok tt, s') -> owned_data id fee_data s'.
Proof.
  intros [Hwf Hcur Hun Hd Hck Hkeys] Hpk Hp Hk HI Hr. unfold process_register in Hr. enter_handler Hr.
  unfold owned_data. autorewrite with view. apply accounts_data_with_data; [|exact HI]. apply fee_config.
  match goal with E : sysvar_clock ic = Some _ |- _ => destruct (Hck _ E) as (Hslot & _ & _) end.
  split; [|done]. apply new_config_ok; [done|done|by eapply Hkeys|done].
Qed.

Lemma check_splits_nonempty splits total : check_splits 0 splits = Ok total -> total = TOTAL_BPS -> splits <> [].
Proof. by intros H -> ->. Qed.

Lemma add_split_fails ix ic s pid l s' : ready ix ic s -> program_key ix s = Some id -> value_ok (AddRevenueSplit pid l) ->
  owned_data id fee_data s -> process_add_revenue_split pid l ic s = (Ok tt, s') -> False.
Proof.
  intros [Hwf Hcur Hun Hd Hck Hkeys] Hpk [_ Hok] HI Hr. unfold process_add_revenue_split in Hr. enter_handler Hr. read_config.
  match goal with E : check_splits _ _ = Ok _ |- _ => apply check_splits_nonempty in E; [|done] end.
  destruct Hc as ((Hv & Hp & Hrr & Hu & _ & Hrest) & Hs & _).
  match goal with E : (length (to_vec (with_splits l ?c)) <= _)%nat |- _ =>
    rewrite config_length in E by exact (conj Hv (conj Hp (conj Hrr (conj Hu (conj Hok Hrest))))) end.
  destruct l; [done|]. simpl in *. lia.
Qed.

Lemma claim_fails ix ic s pid s' : ready ix ic s -> program_key ix s = Some id ->
  owned_data id fee_data s -> process_claim pid ic s = (Ok tt, s') -> False.
Proof.
  intros [Hwf Hcur Hun Hd Hck Hkeys] Hpk HI Hr. unfold process_claim in Hr. enter_handler Hr. read_config.
  destruct Hc as (_ & _ & _ & _ & Hz). done.
Qed.

Lemma deserialize_tracker_Ok b ic s t s' : deserialize_tracker b ic s = (Ok t, s') -> s' = s /\ exists a,
  accs s !! index_in_transaction (b_account b) = Some a
  /\ (fee_data (acc_data a) -> value_ok t /\ total_developer_fees t = 0).
Proof.
  unfold deserialize_tracker. intros Hr. inv_eval; (split; [done|]); eexists; (split; [eassumption|]); intros Hf.
  - split; [|done]. unfold value_ok, EpochFeeTracker_value. simpl. lia.
  - by eapply fee_data_tracker.
Qed.

(** The cap lets through a credit of nothing only, when nothing was credited. *)
Lemma cap_without_fees c t amount now : no_fees c -> total_developer_fees t = 0 -> in_u64 amount ->
  saturating_add u64_max (if last_epoch c =? now then epoch_fees_earned c else 0) amount
    <= max_allowed (saturating_add u64_max (if epoch t =? now then total_developer_fees t else 0) amount) -> amount = 0.
Proof.
  intros (_ & _ & _ & He & _) Ht Ham. rewrite He, Ht.
  replace (if last_epoch c =? now then 0 else 0) with 0 by by case_match.
  replace (if epoch t =? now then 0 else 0) with 0 by by case_match.
  replace (saturating_add u64_max 0 amount) with amount by (unfold saturating_add; lia).
  unfold max_allowed. replace (saturating_mul u128_max amount MAX_PROGRAM_FEE_SHARE_BPS) with (amount * 1000)
    by (unfold saturating_mul, MAX_PROGRAM_FEE_SHARE_BPS; lia).
  unfold checked_div, TOTAL_BPS. cbn [Z.eqb default]. intros H.
  rewrite Z.mod_small in H by (split; [apply Z.div_pos; lia|apply Z.div_lt_upper_bound; lia]).
  unfold Datatypes.id in H. pose proof (Z.mul_div_le (amount * 1000) 10000 ltac:(lia)). lia.
Qed.

Lemma no_fees_with_epoch c now : no_fees c -> in_u64 now -> no_fees (with_fees 0 0 now 0 c).
Proof.
  intros ((Hv & Hp & Hr & Hu & [Hlen Hs] & _ & _ & _ & He & _) & Hnil & _) Hn.
  split; [|done]. unfold value_ok, ProgramRevenueConfig_value. simpl. split_and!; try done; lia.
Qed.

Lemma credit_keeps ix ic s pid amount units s' : ready ix ic s -> program_key ix s = Some id -> in_u64 amount ->
  owned_data id fee_data s -> process_credit pid amount units ic s = (Ok tt, s') -> owned_data id fee_data s' /\ amount = 0.
Proof.
  intros [Hwf Hcur Hun Hd Hck Hkeys] Hpk Ham HI Hr. unfold process_credit, serialize_config, serialize_tracker, serialize_value, deserialize_config in Hr.
  rewrite (current_bind ix) in Hr by done. inv_eval.
  match goal with E : deserialize_tracker _ _ _ = _ |- _ => apply deserialize_tracker_Ok in E as (-> & a2' & Ha2' & Ht) end.
  inv_eval.
  match goal with E : alter _ _ (accs s) !! index_in_transaction ?i0 = Some ?a, Ho : owned _ s ?a = true, L : accs s !! index_in_transaction ?i0 = Some ?a0 |- _ =>
    rename a into a1', a0 into a1; pose proof L as La1; apply (owned_id _ _ _ _ _ Hpk) in Ho; eapply alter_lookup_Some in E; [|exact L];
    assert (acc_owner a1 = id) as Ho1 by (rewrite <- Ho, E; by case_decide); clear E Ho end.
  match goal with Ho : owned _ s ?a = true |- _ => rename a into a2; apply (owned_id _ _ _ _ _ Hpk) in Ho end.
  match goal with E : @try_from_slice ProgramRevenueConfig _ _ _ = Some ?x, V : no_version _ = false |- _ => rename x into c;
    destruct (fee_data_config _ _ (HI _ _ La1 Ho1) V E) as [Hc _] end.
  destruct Ht as [Htok Ht0]; [by eapply HI|]. assert (amount = 0) as -> by (by eapply cap_without_fees). split; [|done].
  match goal with E : sysvar_clock ic = Some _ |- _ => destruct (Hck _ E) as (_ & Hep & _) end.
  pose proof (no_fees_with_epoch c _ Hc Hep) as Hc'. destruct Hc as (_ & _ & Hf1 & Hf2 & Hf3). rewrite Hf1, Hf2, Hf3, Ht0.
  assert (forall b : bool, (if b then 0 else 0) = 0) as Hif by by intros []. rewrite !Hif.
  change (saturating_add u64_max 0 0) with 0. unfold owned_data. autorewrite with view.
  apply accounts_data_with_data; [by apply fee_config|]. apply accounts_data_with_data; [|exact HI].
  apply fee_tracker; [|done]. clear -Htok Hep. destruct Htok as (? & _ & _). split; [done|]. split; [done|]. simpl. lia.
Qed.

(** instructions the program can execute *)
Definition inert (data : list Byte.byte) : Prop :=
  match (try_from_slice data : option DeveloperRewardsInstruction) with
  | Some (RegisterRevenueRecipient _ _) | Some (UpdateRevenueRecipient _ _) => True
  | Some (CreditDeveloperFees _ amount _) => amount = 0
  | _ => False
  end.

#[local] Instance fee_invariant : DataInvariant id Entrypoint fee_data inert.
Proof.
  split; [apply fee_zeroed|]. intros ix ic s s' Hready Hpk HI Hr. unfold Entrypoint in Hr. rewrite (current_bind ix) in Hr by apply Hready.
  inv_run. unfold inert. match goal with E : try_from_slice _ = Some ?i |- _ => rewrite E; apply try_from_slice_ok in E as Hi; destruct i end;
    match goal with E : process_instruction _ _ _ = _ |- _ => rename E into Hr; cbn [process_instruction] in Hr end.
  - destruct Hi as [Hp Hk]. exact (conj (register_keeps _ _ _ _ _ _ Hready Hpk Hp Hk HI Hr) I).
  - destruct Hi as [_ Hk]. exact (conj (update_recipient_keeps _ _ _ _ _ _ Hready Hpk Hk HI Hr) I).
  - destruct (add_split_fails _ _ _ _ _ _ Hready Hpk Hi HI Hr).
  - destruct (claim_fails _ _ _ _ _ Hready Hpk HI Hr).
  - destruct Hi as (_ & Ha & _). exact (credit_keeps _ _ _ _ _ _ _ Hready Hpk Ha HI Hr).
Qed.

(** C19. No developer fee is ever paid: starting from accounts in which the program
    has credited nothing (new accounts are zeroed), every message that succeeds,
    whatever other programs it calls, leaves the program's accounts without
    credited fees, and it holds no claim of fees, no change of the revenue splits
    and no credit of a positive amount; those instructions always fail.  The cap
    of a tenth of the epoch's fees rejects the first credit of an epoch, and a
    config shrinks at registration to a size with no room for splits. *)
Theorem developer_fees_never_paid `{InstructionsSysvar} signer writable (program : SvmInstruction -> M unit)
    `{!forall si, SafeProgram (program si)} accs0 stack_capacity trace_capacity l ic u s' :
  clock_ok ic -> id <> sysvar_id -> Forall (fun a => in_u64 (acc_lamports a) /\ in_pubkey (acc_key a)) accs0 ->
  runs_entry id Entrypoint program accs0 -> accounts_data id fee_data accs0 ->
  process_message signer writable program 0 l ic (TransactionContext_new accs0 stack_capacity trace_capacity (length l))
    = (Ok u, s') ->
  accounts_data id fee_data (accs s')
  /\ forall si a, si ∈ l -> accs0 !! si_program si = Some a -> acc_key a = id -> inert (si_data si).
Proof.
  intros Hck Hid Hr He HI Hm. destruct (message_keeps signer writable id Entrypoint fee_data inert Hid program l 0 ic
    (TransactionContext_new accs0 stack_capacity trace_capacity (length l)) u s') as (_ & HI' & _ & HQ); [done|by apply between_new|done..|].
  split; [exact HI'|exact HQ].
Qed.
End fees.

(** ** Registration *)

Section register.
Hypothesis config_length : forall c : ProgramRevenueConfig, value_ok c -> length (to_vec c) = (142 + 34 * length (revenue_splits c))%nat.

(** Anyone can register the revenue of any program: whoever signs and owns some
    account that has their key where a programdata account has its upgrade
    authority becomes the authority of the config, for whichever [program_id] they
    name.  Neither the owner of that account nor its relation to [program_id] is
    checked. *)
Theorem register_any_program ix ic s ia0 ia1 ia2 rest auth a1 a2 clock pid recip : ready ix ic s -> resize_room s ->
  program_key ix s = Some id -> ix_accounts ix = ia0 :: ia1 :: ia2 :: rest ->
  is_signer ia0 = true -> is_writable ia1 = true -> in_pubkey pid -> in_pubkey recip ->
  accs s !! index_in_transaction ia0 = Some auth -> accs s !! index_in_transaction ia1 = Some a1 ->
  accs s !! index_in_transaction ia2 = Some a2 -> acc_owner a1 = id -> no_version (acc_data a1) = true ->
  (142 <= length (acc_data a1))%nat -> (45 <= length (acc_data a2))%nat -> acc_data a2 !! 12%nat = Some Byte.x01 ->
  new_from_array (take 32 (drop 13 (acc_data a2))) = acc_key auth -> sysvar_clock ic = Some clock ->
  exists s', process_register pid recip ic s = (Ok tt, s')
    /\ accs s' = alter (with_data (to_vec (new_config pid recip (acc_key auth) (clock_slot clock)))) (index_in_transaction ia1) (accs s).
Proof.
  intros [Hwf Hcur Hun Hd Hck Hkeys] Hrd Hpk Hixs Hsig Hw1 Hp Hrec L0 L1 L2 Ho1 Hv Hlen Hl2 Htag Hauth Hclk.
  destruct (Hck _ Hclk) as (Hslot & _ & _). pose proof (Hkeys _ _ L0) as Hkey.
  pose proof (new_config_ok pid recip (acc_key auth) (clock_slot clock) Hp Hrec Hkey Hslot) as Hok.
  pose proof (config_length _ Hok) as Hsz. simpl length in Hsz. unfold new_config in Hsz.
  pose proof (owned_of_key ix s ia1 a1 id Hpk Ho1) as Hown1.
  assert (ix_accounts ix !! 0%nat = Some ia0 /\ ix_accounts ix !! 1%nat = Some ia1 /\ ix_accounts ix !! 2%nat = Some ia2) as (I0 & I1 & I2)
    by (rewrite Hixs; exact (conj eq_refl (conj eq_refl eq_refl))).
  eexists. split.
  - unfold process_register, serialize_config, serialize_value. rewrite (current_bind ix) by exact Hcur. run_step.
    unfold MAX_ACCOUNT_DATA_LEN. lia.
  - autorewrite with view. reflexivity.
Qed.
End register.
End handlers.

(** ** Rewards on the documented formats *)

Definition RevenueSplit_codec : Codec (A := RevenueSplit) value_ok.
Proof.
  refine (codec_map (fun x => {| recipient := x.1; share_bps := x.2 |}) (fun r => (recipient r, share_bps r)) _ _
    (codec_pair codec_key (codec_uint 2))).
  - intros [] [Hk Hs]. split; [reflexivity|]. refine (conj Hk _). cbn [fst snd share_bps] in *. lia.
  - intros [k n] [Hk Hs]. refine (conj Hk _). cbn [fst snd share_bps] in *. lia.
Defined.
#[local] Instance RevenueSplit_canonical : CanonicalCodec RevenueSplit_codec.
Proof. apply canonical_map; [apply _|]. by intros []. Qed.

Definition ProgramRevenueConfig_codec : Codec (A := ProgramRevenueConfig) value_ok.
Proof.
  refine (codec_map (fun '(v, (p, (r, (u, (a, (l, (t, (e, (n, (s, f)))))))))) =>
            {| version := v; program_id := p; revenue_recipient := r; update_authority := u; is_active := a; revenue_splits := l;
               total_fees_earned := t; epoch_fees_earned := e; last_epoch := n; eligible_after_slot := s; unclaimed_fees := f |})
          (fun c => (version c, (program_id c, (revenue_recipient c, (update_authority c, (is_active c, (revenue_splits c,
            (total_fees_earned c, (epoch_fees_earned c, (last_epoch c, (eligible_after_slot c, unclaimed_fees c))))))))))) _ _
          (codec_pair (codec_uint 1) (codec_pair codec_key (codec_pair codec_key (codec_pair codec_key (codec_pair codec_bool
            (codec_pair (codec_vec RevenueSplit_codec) (codec_pair (codec_uint 8) (codec_pair (codec_uint 8) (codec_pair (codec_uint 8)
              (codec_pair (codec_uint 8) (codec_uint 8)))))))))))).
  - intros [] (Hv & Hp & Hr & Hu & Hl & H). split; [reflexivity|]. cbn [fst snd] in *. change (2 ^ (8 * Z.of_nat 8)) with (u64_max + 1).
    refine (conj _ (conj Hp (conj Hr (conj Hu (conj I (conj Hl _)))))); cbv beta in *;
    cbn [version total_fees_earned epoch_fees_earned last_epoch eligible_after_slot unclaimed_fees] in *; lia.
  - intros (v & p & r & u & a & l & H) (Hv & Hp & Hr & Hu & _ & Hl & HH). destruct H as (t & e & n & s & f). cbn [fst snd] in *.
    change (2 ^ (8 * Z.of_nat 8)) with (u64_max + 1) in *. refine (conj _ (conj Hp (conj Hr (conj Hu (conj Hl _))))); cbv beta in *;
    cbn [version total_fees_earned epoch_fees_earned last_epoch eligible_after_slot unclaimed_fees] in *; lia.
Defined.
#[local] Instance ProgramRevenueConfig_borsh : Borsh ProgramRevenueConfig := ProgramRevenueConfig_codec.
#[local] Instance ProgramRevenueConfig_canonical : BorshCanonical ProgramRevenueConfig.
Proof. apply canonical_map; [apply _|]. by intros (? & ? & ? & ? & ? & ? & ? & ? & ? & ? & ?). Qed.

Definition EpochFeeTracker_codec : Codec (A := EpochFeeTracker) value_ok.
Proof.
  refine (codec_map (fun '(v, (e, t)) => {| tracker_version := v; epoch := e; total_developer_fees := t |})
    (fun t => (tracker_version t, (epoch t, total_developer_fees t))) _ _ (codec_pair (codec_uint 1) (codec_pair (codec_uint 8) (codec_uint 8)))).
  - intros [] H. split; [reflexivity|]. unfold value_ok, EpochFeeTracker_value in H. cbn [fst snd tracker_version epoch total_developer_fees] in *. lia.
  - intros (v & e & t) H. unfold value_ok, EpochFeeTracker_value. cbn [fst snd tracker_version epoch total_developer_fees] in *. lia.
Defined.
#[local] Instance EpochFeeTracker_borsh : Borsh EpochFeeTracker := EpochFeeTracker_codec.
#[local] Instance EpochFeeTracker_canonical : BorshCanonical EpochFeeTracker.
Proof. apply canonical_map; [apply _|]. by intros (? & ? & ?). Qed.

Lemma demo_config_length (c : ProgramRevenueConfig) : value_ok c -> length (to_vec c) = (142 + 34 * length (revenue_splits c))%nat.
Proof.
  intros _. unfold to_vec, borsh, ProgramRevenueConfig_borsh, ProgramRevenueConfig_codec. cbn [codec_map codec_pair enc fst snd].
  rewrite !length_app, !length_enc_key, (length_enc_vec _ 34) by (intros; unfold RevenueSplit_codec; by autorewrite with codec).
  rewrite !length_enc_uint, length_enc_bool. lia.
Qed.
(** an enum: a byte for the variant, then its fields *)
Definition DeveloperRewardsInstruction_codec : Codec (A := DeveloperRewardsInstruction) value_ok.
Proof.
  refine {| enc := fun i => match i with
              | RegisterRevenueRecipient p r => Byte.x00 :: enc (codec_pair codec_key codec_key) (p, r)
              | UpdateRevenueRecipient p r => Byte.x01 :: enc (codec_pair codec_key codec_key) (p, r)
              | AddRevenueSplit p l => Byte.x02 :: enc (codec_pair codec_key (codec_vec RevenueSplit_codec)) (p, l)
              | ClaimDeveloperFees p => Byte.x03 :: enc codec_key p
              | CreditDeveloperFees p a u => Byte.x04 :: enc (codec_pair codec_key (codec_pair (codec_uint 8) (codec_uint 8))) (p, (a, u))
              end;
            dec := fun bs => match bs with
              | Byte.x00 :: bs => '(x, r) ← dec (codec_pair codec_key codec_key) bs; Some (RegisterRevenueRecipient x.1 x.2, r)
              | Byte.x01 :: bs => '(x, r) ← dec (codec_pair codec_key codec_key) bs; Some (UpdateRevenueRecipient x.1 x.2, r)
              | Byte.x02 :: bs => '(x, r) ← dec (codec_pair codec_key (codec_vec RevenueSplit_codec)) bs; Some (AddRevenueSplit x.1 x.2, r)
              | Byte.x03 :: bs => '(x, r) ← dec codec_key bs; Some (ClaimDeveloperFees x, r)
              | Byte.x04 :: bs => '(x, r) ← dec (codec_pair codec_key (codec_pair (codec_uint 8) (codec_uint 8))) bs;
                                  Some (CreditDeveloperFees x.1 x.2.1 x.2.2, r)
              | _ => None
              end |}.
  - intros [p r|p r|p l|p|p a u] rest Hok; unfold value_ok, DeveloperRewardsInstruction_value in Hok; rewrite <- app_comm_cons;
      rewrite codec_roundtrip; try reflexivity; try exact Hok.
    destruct Hok as (Hp & Ha & Hu). refine (conj Hp _). cbn [fst snd]. change (2 ^ (8 * Z.of_nat 8)) with (u64_max + 1). lia.
  - intros bs i rest H. destruct bs as [|[] bs]; try discriminate H;
      apply bind_Some in H as ([x r] & Hx%codec_range & [= <- _]); try exact Hx.
    destruct Hx as (Hp & Ha). refine (conj Hp _). cbn [fst snd] in Ha. change (2 ^ (8 * Z.of_nat 8)) with (u64_max + 1) in Ha. lia.
Defined.
#[local] Instance DeveloperRewardsInstruction_borsh : Borsh DeveloperRewardsInstruction := DeveloperRewardsInstruction_codec.

Lemma demo_tracker_length (t : EpochFeeTracker) : value_ok t -> length (to_vec t) = 17%nat.
Proof. intros _. unfold to_vec, borsh, EpochFeeTracker_borsh, EpochFeeTracker_codec. by autorewrite with codec. Qed.

(** A wallet, an account for a config, an account of no program with the wallet's
    key where an upgrade authority would be, an account for the tracker, and the
    program. *)
Definition demo_accounts : list Account :=
  [ plain_account 30 0 10 []; plain_account 31 id 1 (zero_bytes 512);
    plain_account 32 0 1 (zero_bytes 12 ++ Byte.x01 :: enc codec_key 30); plain_account 33 id 1 (zero_bytes 64); plain_account id 0 1 [] ].
Definition demo_ic : InvokeContext :=
  {| sysvar_clock := Some {| clock_slot := 100; clock_epoch := 1; clock_unix_timestamp := 0 |} |}.
Definition demo_signer (i : nat) : bool := (i =? 0)%nat.
Definition demo_writable (i : nat) : bool := (i =? 1)%nat || (i =? 3)%nat.
Definition demo_instruction (accounts : list nat) (i : DeveloperRewardsInstruction) : SvmInstruction :=
  {| si_program := 4; si_accounts := accounts; si_data := to_vec i |}.
Definition demo_message : list SvmInstruction :=
  [ demo_instruction [0; 1; 2]%nat (RegisterRevenueRecipient 77 40); demo_instruction [0; 1]%nat (UpdateRevenueRecipient 77 41) ].
Definition register_state : TransactionContext := Eval vm_compute in
  enter (H := sdk_instructions_sysvar) demo_signer demo_writable demo_accounts (demo_instruction [0; 1; 2]%nat (RegisterRevenueRecipient 77 40)) demo_ic.

(** Registering and updating a recipient succeeds, and credits nothing. *)
Lemma developer_fees_never_paid_witness : exists s',
  process_message (H := sdk_instructions_sysvar) demo_signer demo_writable (fun _ => Entrypoint) 0 demo_message demo_ic
    (TransactionContext_new demo_accounts 5 64 2) = (Ok tt, s') /\ accounts_data id fee_data (accs s').
Proof.
  exists (process_message (H := sdk_instructions_sysvar) demo_signer demo_writable (fun _ => Entrypoint) 0 demo_message demo_ic
    (TransactionContext_new demo_accounts 5 64 2)).2. split; [vm_compute; reflexivity|].
  refine (proj1 (developer_fees_never_paid demo_config_length demo_tracker_length (H := sdk_instructions_sysvar) demo_signer demo_writable
    (fun _ => Entrypoint) demo_accounts 5 64 demo_message demo_ic tt _ _ _ _ _ _ _)).
  - intros c [= <-]. vm_compute. repeat split; discriminate.
  - vm_compute. discriminate.
  - repeat constructor; vm_compute; try discriminate; reflexivity.
  - intros si a _ _. reflexivity.
  - apply accounts_data_Forall. unfold demo_accounts. repeat first [apply Forall_nil_2 | apply Forall_cons_2;
      [intros Ho; first [apply fee_zeroed; vm_compute; reflexivity | vm_compute in Ho; discriminate Ho]|]].
  - vm_compute. reflexivity.
Defined.

(** The wallet registers program 77, which has nothing to do with the account shown. *)
Lemma register_any_program_witness : exists s',
  process_register 77 40 demo_ic register_state = (Ok tt, s')
  /\ accs s' = alter (with_data (to_vec (new_config 77 40 30 100))) 1%nat demo_accounts.
Proof.
  refine (register_any_program demo_config_length (current_ix register_state) demo_ic register_state
    {| index_in_transaction := 0; is_signer := true; is_writable := false |} {| index_in_transaction := 1; is_signer := false; is_writable := true |}
    {| index_in_transaction := 2; is_signer := false; is_writable := false |} []
    (plain_account 30 0 10 []) (plain_account 31 id 1 (zero_bytes 512)) (plain_account 32 0 1 (zero_bytes 12 ++ Byte.x01 :: enc codec_key 30))
    {| clock_slot := 100; clock_epoch := 1; clock_unix_timestamp := 0 |} 77 40 _ _ _ _ _ _ _ _ _ _ _ _ _ _ _ _ _ _).
  all: try (vm_compute; reflexivity).
  - apply readyb_ready; vm_compute; reflexivity.
  - vm_compute. split; discriminate.
  - vm_compute. split; [discriminate|reflexivity].
  - vm_compute. split; [discriminate|reflexivity].
  - apply Nat.leb_le. vm_compute. reflexivity.
Defined.
End DeveloperRewards.
