(* ===== verification/Governance.v ===== *)
(** * The governance program

    Models programs/governance/src: the config, proposal and vote-record accounts
    (state.rs), the voting weights (vote_weight.rs), the limits (constants.rs), the
    instructions (instruction.rs), the errors (error.rs) and the handlers
    (processor.rs).  Compute-unit metering and logging are left out; an executed
    proposal is only logged by the source. *)

From coqutil Require Import Byte Word.LittleEndianList.
From Stdlib Require Import ZArith Lia String.
From stdpp Require Import base numbers list option.
From S2P Require Import Prelude Borsh TxContext TxSafety TxEval TxInvariant PassiveStake.
Local Open Scope Z_scope.

Module Governance.

(** ** Data *)

Definition id : Pubkey := base58 "Governance1111111111111111111111111111111111".
#[global] Opaque id.
Definition BPS_DENOMINATOR : Z := 10000.
Definition EMERGENCY_UNLOCK_PASS_THRESHOLD_BPS : Z := 8000.
Definition MAX_TITLE_LEN : nat := 64.
Definition GOVERNANCE_CONFIG_DISCRIMINATOR : Byte.byte := Byte.x01.
Definition PROPOSAL_DISCRIMINATOR : Byte.byte := Byte.x02.
Definition VOTE_RECORD_DISCRIMINATOR : Byte.byte := Byte.x03.

Record GovernanceConfig := {
  is_active : bool;
  authority : Pubkey;
  proposal_threshold : Z;
  voting_period_epochs : Z;
  quorum_bps : Z;
  pass_threshold_bps : Z;
  veto_threshold_bps : Z;
  timelock_epochs : Z;
  emergency_multisig : Pubkey;
  next_proposal_id : Z
}.
Definition GovernanceConfig_SERIALIZED_SIZE : nat := 1 + 1 + 32 + 8 + 8 + 2 + 2 + 2 + 8 + 32 + 8.

Inductive ProposalType :=
  | ParameterChange (param_id new_value : Z)
  | TreasurySpend (recipient : Pubkey) (amount : Z) (memo : list Byte.byte)
  | EmergencyUnlock (target_account : Pubkey)
  | ProgramUpgrade (program_id buffer_account : Pubkey)
  | FeatureToggle (feature_id : Z) (enabled : bool)
  | TextProposal.

Inductive ProposalStatus :=
  | Draft | Active | Passed | Rejected | Vetoed | Timelocked | Executed | Cancelled | Expired.
#[export] Instance ProposalStatus_eq_dec : EqDecision ProposalStatus.
Proof. solve_decision. Defined.

Inductive Vote := For | Against | Abstain | Veto.

Record Proposal := {
  proposal_id : Z;
  proposer : Pubkey;
  title : list Byte.byte;
  description_hash : Hash;
  proposal_type : ProposalType;
  status : ProposalStatus;
  created_epoch : Z;
  voting_ends_epoch : Z;
  execution_epoch : Z;
  votes_for : Z;
  votes_against : Z;
  votes_abstain : Z;
  veto_votes : Z;
  executed : bool
}.
Definition Proposal_SERIALIZED_SIZE : nat := 512.

Record VoteRecord := {
  vr_proposal_id : Z;
  voter : Pubkey;
  vr_vote : Vote;
  weight : Z;
  voted_epoch : Z
}.
Definition VoteRecord_SERIALIZED_SIZE : nat := 1 + 8 + 32 + 1 + 8 + 8.

#[export] Instance GovernanceConfig_value : RustValue GovernanceConfig := fun c =>
  in_pubkey (authority c) /\ in_u64 (proposal_threshold c) /\ in_u64 (voting_period_epochs c) /\ in_u16 (quorum_bps c)
  /\ in_u16 (pass_threshold_bps c) /\ in_u16 (veto_threshold_bps c) /\ in_u64 (timelock_epochs c)
  /\ in_pubkey (emergency_multisig c) /\ in_u64 (next_proposal_id c).
#[export] Instance ProposalType_value : RustValue ProposalType := fun t =>
  match t with
  | ParameterChange p v => in_u32 p /\ in_u64 v
  | TreasurySpend r a m => in_pubkey r /\ in_u64 a /\ length m = 32%nat
  | EmergencyUnlock a => in_pubkey a
  | ProgramUpgrade p b => in_pubkey p /\ in_pubkey b
  | FeatureToggle f _ => in_u32 f
  | TextProposal => True
  end.
#[export] Instance Proposal_value : RustValue Proposal := fun p =>
  (in_u64 (proposal_id p) /\ in_pubkey (proposer p) /\ length (title p) = 64%nat /\ in_pubkey (description_hash p)
   /\ value_ok (proposal_type p) /\ in_u64 (created_epoch p) /\ in_u64 (voting_ends_epoch p) /\ in_u64 (execution_epoch p))
  /\ in_u64 (votes_for p) /\ in_u64 (votes_against p) /\ in_u64 (votes_abstain p) /\ in_u64 (veto_votes p).
#[export] Instance VoteRecord_value : RustValue VoteRecord := fun r =>
  in_u64 (vr_proposal_id r) /\ in_pubkey (voter r) /\ in_u64 (weight r) /\ in_u64 (voted_epoch r).

Inductive GovernanceInstruction :=
  | InitializeGovernance (authority : Pubkey) (proposal_threshold voting_period_epochs quorum_bps pass_threshold_bps
      veto_threshold_bps timelock_epochs : Z) (emergency_multisig : Pubkey)
  | CreateProposal (title : list Byte.byte) (description_hash : Hash) (proposal_type : ProposalType)
  | CastVote (proposal_id : Z) (vote : Vote)
  | ExecuteProposal (proposal_id : Z)
  | CancelProposal (proposal_id : Z)
  | VetoProposal (proposal_id : Z)
  | ActivateGovernance
  | UpdateConfig (proposal_threshold voting_period_epochs quorum_bps pass_threshold_bps veto_threshold_bps timelock_epochs : Z)
      (emergency_multisig : Pubkey).

#[export] Instance GovernanceInstruction_value : RustValue GovernanceInstruction := fun i =>
  match i with
  | InitializeGovernance a t v q p ve l m => in_pubkey a /\ in_u64 t /\ in_u64 v /\ in_u16 q /\ in_u16 p /\ in_u16 ve /\ in_u64 l /\ in_pubkey m
  | CreateProposal _ h t => in_pubkey h /\ value_ok t
  | CastVote p _ | ExecuteProposal p | CancelProposal p | VetoProposal p => in_u64 p
  | ActivateGovernance => True
  | UpdateConfig t v q p ve l m => in_u64 t /\ in_u64 v /\ in_u16 q /\ in_u16 p /\ in_u16 ve /\ in_u64 l /\ in_pubkey m
  end.

Inductive GovernanceError :=
  | InvalidAccountOwner | MissingAuthoritySignature | AuthorityMismatch | AlreadyInitialized | NotInitialized
  | InvalidAccountData | ArithmeticOverflow | GovernanceNotActive | GovernanceAlreadyActive | InsufficientStakeForProposal
  | InvalidProposalStatus | VotingPeriodNotEnded | VotingPeriodEnded | TimelockNotExpired | ProposalAlreadyExecuted
  | QuorumNotReached | PassThresholdNotMet | VetoThresholdReached | NotEmergencyMultisig | AlreadyVoted | NoVotingPower
  | InvalidWeightProof | TitleTooLong | TooManyActiveProposals | InvalidConfigValue | MultisigOnly | InvalidProposalType
  | ProposalExpired.

Definition error_code (e : GovernanceError) : Z :=
  match e with
  | InvalidAccountOwner => 0 | MissingAuthoritySignature => 1 | AuthorityMismatch => 2 | AlreadyInitialized => 3
  | NotInitialized => 4 | InvalidAccountData => 5 | ArithmeticOverflow => 6 | GovernanceNotActive => 7
  | GovernanceAlreadyActive => 8 | InsufficientStakeForProposal => 9 | InvalidProposalStatus => 10
  | VotingPeriodNotEnded => 11 | VotingPeriodEnded => 12 | TimelockNotExpired => 13 | ProposalAlreadyExecuted => 14
  | QuorumNotReached => 15 | PassThresholdNotMet => 16 | VetoThresholdReached => 17 | NotEmergencyMultisig => 18
  | AlreadyVoted => 19 | NoVotingPower => 20 | InvalidWeightProof => 21 | TitleTooLong => 22
  | TooManyActiveProposals => 23 | InvalidConfigValue => 24 | MultisigOnly => 25 | InvalidProposalType => 26
  | ProposalExpired => 27
  end.
Definition into (e : GovernanceError) : InstructionError := Custom (error_code e).

(** [limited_deserialize] of the instruction data *)
Class GovernanceBincode := {
  decode_instruction : list Byte.byte -> option GovernanceInstruction;
  decode_range bs i : decode_instruction bs = Some i -> value_ok i
}.

Definition is_emergency_unlock (p : Proposal) : bool :=
  match proposal_type p with EmergencyUnlock _ => true | _ => false end.

Definition with_status (st : ProposalStatus) (ex : bool) (p : Proposal) : Proposal :=
  {| proposal_id := proposal_id p; proposer := proposer p; title := title p; description_hash := description_hash p;
     proposal_type := proposal_type p; status := st; created_epoch := created_epoch p; voting_ends_epoch := voting_ends_epoch p;
     execution_epoch := execution_epoch p; votes_for := votes_for p; votes_against := votes_against p;
     votes_abstain := votes_abstain p; veto_votes := veto_votes p; executed := ex |}.
Definition with_votes (f ag ab ve : Z) (p : Proposal) : Proposal :=
  {| proposal_id := proposal_id p; proposer := proposer p; title := title p; description_hash := description_hash p;
     proposal_type := proposal_type p; status := status p; created_epoch := created_epoch p; voting_ends_epoch := voting_ends_epoch p;
     execution_epoch := execution_epoch p; votes_for := f; votes_against := ag; votes_abstain := ab; veto_votes := ve;
     executed := executed p |}.
Definition with_activity (b : bool) (c : GovernanceConfig) : GovernanceConfig :=
  {| is_active := b; authority := authority c; proposal_threshold := proposal_threshold c;
     voting_period_epochs := voting_period_epochs c; quorum_bps := quorum_bps c; pass_threshold_bps := pass_threshold_bps c;
     veto_threshold_bps := veto_threshold_bps c; timelock_epochs := timelock_epochs c;
     emergency_multisig := emergency_multisig c; next_proposal_id := next_proposal_id c |}.
Definition with_next_id (n : Z) (c : GovernanceConfig) : GovernanceConfig :=
  {| is_active := is_active c; authority := authority c; proposal_threshold := proposal_threshold c;
     voting_period_epochs := voting_period_epochs c; quorum_bps := quorum_bps c; pass_threshold_bps := pass_threshold_bps c;
     veto_threshold_bps := veto_threshold_bps c; timelock_epochs := timelock_epochs c;
     emergency_multisig := emergency_multisig c; next_proposal_id := n |}.

(** ** Voting weights *)

Inductive StakeSource :=
  | ValidatorOrDelegator
  | FromPassiveStake (lock_days : Z)
  | Unstaked.

Definition vote_weight_bps (source : StakeSource) : Z :=
  match source with
  | ValidatorOrDelegator => 10000
  | Unstaked => 0
  | FromPassiveStake d => PassiveStake.match_tier d 0 1000 2000 3000 5000 15000 0
  end.

(** [amount * weight / 10000] in 128 bits, narrowed to 64 *)
Definition weigh (amount weight_bps : Z) : option Z :=
  p ← checked_mul u128_max amount weight_bps;
  power ← checked_div p BPS_DENOMINATOR;
  try_into_u64 power.

Definition calculate_voting_power (amount : Z) (source : StakeSource) : option Z :=
  let weight_bps := vote_weight_bps source in
  if weight_bps =? 0 then Some 0 else weigh amount weight_bps.

Definition voting_power_from_passive_stake_data (data : list Byte.byte) : option (Z * Z) :=
  if (length data <? 84)%nat then None
  else if negb (bool_decide (data !! 0%nat = Some Byte.x01)) then None
  else
    let amount := le_combine (take 8 (drop 33 data)) in
    let weight_bps := le_combine (take 2 (drop 82 data)) in
    if weight_bps =? 0 then None
    else power ← weigh amount weight_bps; Some (amount, power).

Section handlers.
Context `{!Borsh GovernanceConfig, !Borsh Proposal, !Borsh VoteRecord}.

(** ** Reading and writing the accounts *)

Definition GovernanceConfig_deserialize (data : list Byte.byte) : option GovernanceConfig := read_tagged GOVERNANCE_CONFIG_DISCRIMINATOR data.
Definition GovernanceConfig_serialize_into (c : GovernanceConfig) (data : list Byte.byte) : option (list Byte.byte) :=
  if (length data <? GovernanceConfig_SERIALIZED_SIZE)%nat then None else write_tagged GOVERNANCE_CONFIG_DISCRIMINATOR c data.
Definition Proposal_deserialize (data : list Byte.byte) : option Proposal := read_tagged PROPOSAL_DISCRIMINATOR data.
Definition Proposal_serialize_into (p : Proposal) (data : list Byte.byte) : option (list Byte.byte) :=
  if (length data <? Proposal_SERIALIZED_SIZE)%nat then None else write_tagged PROPOSAL_DISCRIMINATOR p data.
Definition VoteRecord_deserialize (data : list Byte.byte) : option VoteRecord := read_tagged VOTE_RECORD_DISCRIMINATOR data.
Definition VoteRecord_serialize_into (r : VoteRecord) (data : list Byte.byte) : option (list Byte.byte) :=
  if (length data <? VoteRecord_SERIALIZED_SIZE)%nat then None else write_tagged VOTE_RECORD_DISCRIMINATOR r data.

(** the body of [load_governance_config] and [load_proposal] *)
Definition load_account {A} (deserialize : list Byte.byte -> option A) (e : GovernanceError) (i : nat) : M A :=
  ix ← get_current_instruction_context;
  borrowing ix i (fun account =>
    owner ← get_owner account;
    require (bool_decide (owner = id)) (into InvalidAccountOwner) ;;
    data ← get_data account;
    lift_opt (deserialize data) (into e)).
Definition load_governance_config (i : nat) : M GovernanceConfig := load_account GovernanceConfig_deserialize NotInitialized i.
Definition load_proposal (i : nat) : M Proposal := load_account Proposal_deserialize InvalidAccountData i.

(** grow the data to [size], serialise into it, store it *)
Definition save_borrowed (size : nat) (serialize_into : list Byte.byte -> option (list Byte.byte)) (account : BorrowedInstructionAccount) : M unit :=
  data ← get_data account;
  let data := if (length data <? size)%nat then resize size data else data in
  data ← lift_opt (serialize_into data) (into InvalidAccountData);
  set_data_from_slice account data.
Definition save_account (size : nat) (serialize_into : list Byte.byte -> option (list Byte.byte)) (i : nat) : M unit :=
  ix ← get_current_instruction_context;
  borrowing ix i (save_borrowed size serialize_into).
Definition save_governance_config (i : nat) (c : GovernanceConfig) : M unit :=
  save_account GovernanceConfig_SERIALIZED_SIZE (GovernanceConfig_serialize_into c) i.
Definition save_proposal (i : nat) (p : Proposal) : M unit := save_account Proposal_SERIALIZED_SIZE (Proposal_serialize_into p) i.

Definition effective_pass_threshold (p : Proposal) (c : GovernanceConfig) : Z :=
  if is_emergency_unlock p then EMERGENCY_UNLOCK_PASS_THRESHOLD_BPS else pass_threshold_bps c.

(** ** Handlers *)

(** the checks on the parameters of a config *)
Definition check_config (quorum pass veto period : Z) : M unit :=
  require (negb ((quorum =? 0) || (10000 <? quorum))) (into InvalidConfigValue) ;;
  require (negb ((pass =? 0) || (10000 <? pass))) (into InvalidConfigValue) ;;
  require (negb ((veto =? 0) || (10000 <? veto))) (into InvalidConfigValue) ;;
  require (negb (period =? 0)) (into InvalidConfigValue).

Definition process_initialize_governance (auth : Pubkey) (threshold period quorum pass veto timelock : Z) (multisig : Pubkey) : M unit :=
  ix ← get_current_instruction_context;
  check_number_of_instruction_accounts ix 2 ;;
  signer ← is_instruction_account_signer ix 0;
  require signer (into MissingAuthoritySignature) ;;
  check_config quorum pass veto period ;;
  borrowing ix 1 (fun config_account =>
    owner ← get_owner config_account;
    require (bool_decide (owner = id)) (into InvalidAccountOwner) ;;
    data ← get_data config_account;
    require (negb (bool_decide (head data = Some GOVERNANCE_CONFIG_DISCRIMINATOR))) (into AlreadyInitialized)) ;;
  save_governance_config 1
    {| is_active := false; authority := auth; proposal_threshold := threshold; voting_period_epochs := period; quorum_bps := quorum;
       pass_threshold_bps := pass; veto_threshold_bps := veto; timelock_epochs := timelock; emergency_multisig := multisig;
       next_proposal_id := 0 |}.

(** the proposal it writes, the title padded with zeros *)
Definition new_proposal (config : GovernanceConfig) (proposer_key : Pubkey) (title_vec : list Byte.byte) (hash : Hash) (ptype : ProposalType)
    (epoch voting_ends execution : Z) : Proposal :=
  {| proposal_id := next_proposal_id config; proposer := proposer_key; title := resize MAX_TITLE_LEN title_vec;
     description_hash := hash; proposal_type := ptype; status := if is_active config then Active else Timelocked;
     created_epoch := epoch; voting_ends_epoch := voting_ends; execution_epoch := execution; votes_for := 0;
     votes_against := 0; votes_abstain := 0; veto_votes := 0; executed := false |}.

Definition process_create_proposal (title_vec : list Byte.byte) (hash : Hash) (ptype : ProposalType) : M unit :=
  ix ← get_current_instruction_context;
  check_number_of_instruction_accounts ix 3 ;;
  signer ← is_instruction_account_signer ix 0;
  require signer (into MissingAuthoritySignature) ;;
  proposer_key ← get_key_of_instruction_account ix 0;
  require (negb (MAX_TITLE_LEN <? length title_vec)%nat) (into TitleTooLong) ;;
  config ← load_governance_config 1;
  (if is_active config then
     check_number_of_instruction_accounts ix 4 ;;
     stake_data ← borrowing ix 3 get_data;
     power ← lift_opt (voting_power_from_passive_stake_data stake_data) (into InsufficientStakeForProposal);
     require (negb (power.2 <? proposal_threshold config)) (into InsufficientStakeForProposal)
   else require (bool_decide (proposer_key = authority config)) (into MultisigOnly)) ;;
  borrowing ix 2 (fun proposal_account =>
    owner ← get_owner proposal_account;
    require (bool_decide (owner = id)) (into InvalidAccountOwner) ;;
    data ← get_data proposal_account;
    require (negb (bool_decide (head data = Some PROPOSAL_DISCRIMINATOR))) (into AlreadyInitialized)) ;;
  clock ← get_clock;
  next ← lift_opt (checked_add u64_max (next_proposal_id config) 1) (into ArithmeticOverflow);
  voting_ends ← lift_opt (checked_add u64_max (clock_epoch clock) (voting_period_epochs config)) (into ArithmeticOverflow);
  execution ← lift_opt (checked_add u64_max voting_ends (timelock_epochs config)) (into ArithmeticOverflow);
  save_governance_config 1 (with_next_id next config) ;;
  save_proposal 2 (new_proposal config proposer_key title_vec hash ptype (clock_epoch clock) voting_ends execution).

Definition apply_vote (v : Vote) (power : Z) (p : Proposal) : option Proposal :=
  match v with
  | For => n ← checked_add u64_max (votes_for p) power; Some (with_votes n (votes_against p) (votes_abstain p) (veto_votes p) p)
  | Against => n ← checked_add u64_max (votes_against p) power; Some (with_votes (votes_for p) n (votes_abstain p) (veto_votes p) p)
  | Abstain => n ← checked_add u64_max (votes_abstain p) power; Some (with_votes (votes_for p) (votes_against p) n (veto_votes p) p)
  | Veto => n ← checked_add u64_max (veto_votes p) power; Some (with_votes (votes_for p) (votes_against p) (votes_abstain p) n p)
  end.

Definition process_cast_vote (pid : Z) (v : Vote) : M unit :=
  ix ← get_current_instruction_context;
  check_number_of_instruction_accounts ix 5 ;;
  signer ← is_instruction_account_signer ix 0;
  require signer (into MissingAuthoritySignature) ;;
  voter_key ← get_key_of_instruction_account ix 0;
  config ← load_governance_config 2;
  require (is_active config) (into GovernanceNotActive) ;;
  proposal ← load_proposal 1;
  require (proposal_id proposal =? pid) (into InvalidAccountData) ;;
  require (bool_decide (status proposal = Active)) (into InvalidProposalStatus) ;;
  clock ← get_clock;
  require (negb (voting_ends_epoch proposal <=? clock_epoch clock)) (into VotingPeriodEnded) ;;
  borrowing ix 4 (fun vote_record_account =>
    owner ← get_owner vote_record_account;
    require (bool_decide (owner = id)) (into InvalidAccountOwner) ;;
    data ← get_data vote_record_account;
    require (negb (bool_decide (head data = Some VOTE_RECORD_DISCRIMINATOR))) (into AlreadyVoted)) ;;
  stake_data ← borrowing ix 3 get_data;
  power ← lift_opt (voting_power_from_passive_stake_data stake_data) (into NoVotingPower);
  require (negb (power.2 =? 0)) (into NoVotingPower) ;;
  proposal ← lift_opt (apply_vote v power.2 proposal) (into ArithmeticOverflow);
  save_proposal 1 proposal ;;
  borrowing ix 4 (save_borrowed VoteRecord_SERIALIZED_SIZE (VoteRecord_serialize_into
    {| vr_proposal_id := pid; voter := voter_key; vr_vote := v; weight := power.2; voted_epoch := clock_epoch clock |})).

(** the votes cast, and the veto votes in basis points of them *)
Definition total_votes_of (p : Proposal) : option Z :=
  a ← checked_add u64_max (votes_for p) (votes_against p);
  b ← checked_add u64_max a (votes_abstain p);
  checked_add u64_max b (veto_votes p).
Definition pct_of (votes total : Z) : option Z :=
  n ← checked_mul u128_max votes BPS_DENOMINATOR;
  checked_div n total.

(** an active proposal: close the vote *)
Definition close_vote (config : GovernanceConfig) (proposal : Proposal) (epoch : Z) : M unit :=
  require (negb (epoch <? voting_ends_epoch proposal)) (into VotingPeriodNotEnded) ;;
  total ← lift_opt (total_votes_of proposal) (into ArithmeticOverflow);
  if total =? 0 then save_proposal 1 (with_status Expired (executed proposal) proposal) ;; fail (into ProposalExpired)
  else
    veto_pct ← lift_opt (pct_of (veto_votes proposal) total) (into ArithmeticOverflow);
    if veto_threshold_bps config <=? veto_pct then
      save_proposal 1 (with_status Vetoed (executed proposal) proposal) ;; fail (into VetoThresholdReached)
    else
      decisive ← lift_opt (checked_add u64_max (votes_for proposal) (votes_against proposal)) (into ArithmeticOverflow);
      let pass_threshold := effective_pass_threshold proposal config in
      if decisive =? 0 then save_proposal 1 (with_status Rejected (executed proposal) proposal) ;; fail (into PassThresholdNotMet)
      else
        for_pct ← lift_opt (pct_of (votes_for proposal) decisive) (into ArithmeticOverflow);
        if for_pct <? pass_threshold then
          save_proposal 1 (with_status Rejected (executed proposal) proposal) ;; fail (into PassThresholdNotMet)
        else save_proposal 1 (with_status Timelocked (executed proposal) proposal).

Definition process_execute_proposal (pid : Z) : M unit :=
  ix ← get_current_instruction_context;
  check_number_of_instruction_accounts ix 3 ;;
  signer ← is_instruction_account_signer ix 0;
  require signer (into MissingAuthoritySignature) ;;
  executor ← get_key_of_instruction_account ix 0;
  config ← load_governance_config 2;
  proposal ← load_proposal 1;
  require (proposal_id proposal =? pid) (into InvalidAccountData) ;;
  require (negb (negb (is_active config) && negb (bool_decide (executor = authority config)))) (into MultisigOnly) ;;
  require (negb (executed proposal)) (into ProposalAlreadyExecuted) ;;
  clock ← get_clock;
  let execute : M unit :=
    require (negb (clock_epoch clock <? execution_epoch proposal)) (into TimelockNotExpired) ;;
    save_proposal 1 (with_status Executed true proposal) in
  if is_active config then
    match status proposal with
    | Active => close_vote config proposal (clock_epoch clock)
    | Passed | Timelocked => execute
    | _ => fail (into InvalidProposalStatus)
    end
  else
    require (bool_decide (status proposal = Timelocked)) (into InvalidProposalStatus) ;;
    execute.

Definition process_cancel_proposal (pid : Z) : M unit :=
  ix ← get_current_instruction_context;
  check_number_of_instruction_accounts ix 3 ;;
  signer ← is_instruction_account_signer ix 0;
  require signer (into MissingAuthoritySignature) ;;
  signer_key ← get_key_of_instruction_account ix 0;
  config ← load_governance_config 2;
  require (bool_decide (signer_key = emergency_multisig config)) (into NotEmergencyMultisig) ;;
  proposal ← load_proposal 1;
  require (proposal_id proposal =? pid) (into InvalidAccountData) ;;
  require (bool_decide (status proposal ∈ [Active; Passed; Timelocked])) (into InvalidProposalStatus) ;;
  save_proposal 1 (with_status Cancelled (executed proposal) proposal).

Definition process_veto_proposal (pid : Z) : M unit :=
  ix ← get_current_instruction_context;
  check_number_of_instruction_accounts ix 3 ;;
  signer ← is_instruction_account_signer ix 0;
  require signer (into MissingAuthoritySignature) ;;
  config ← load_governance_config 2;
  proposal ← load_proposal 1;
  require (proposal_id proposal =? pid) (into InvalidAccountData) ;;
  require (bool_decide (status proposal ∈ [Active; Timelocked])) (into InvalidProposalStatus) ;;
  total ← lift_opt (total_votes_of proposal) (into ArithmeticOverflow);
  require (negb (total =? 0)) (into VetoThresholdReached) ;;
  veto_pct ← lift_opt (pct_of (veto_votes proposal) total) (into ArithmeticOverflow);
  require (negb (veto_pct <? veto_threshold_bps config)) (into InvalidProposalStatus) ;;
  save_proposal 1 (with_status Vetoed (executed proposal) proposal).

Definition process_activate_governance : M unit :=
  ix ← get_current_instruction_context;
  check_number_of_instruction_accounts ix 2 ;;
  signer ← is_instruction_account_signer ix 0;
  require signer (into MissingAuthoritySignature) ;;
  signer_key ← get_key_of_instruction_account ix 0;
  config ← load_governance_config 1;
  require (bool_decide (signer_key = authority config)) (into AuthorityMismatch) ;;
  require (negb (is_active config)) (into GovernanceAlreadyActive) ;;
  save_governance_config 1 (with_activity true config).

Definition process_update_config (threshold period quorum pass veto timelock : Z) (multisig : Pubkey) : M unit :=
  ix ← get_current_instruction_context;
  check_number_of_instruction_accounts ix 2 ;;
  signer ← is_instruction_account_signer ix 0;
  require signer (into MissingAuthoritySignature) ;;
  signer_key ← get_key_of_instruction_account ix 0;
  config ← load_governance_config 1;
  require (bool_decide (signer_key = authority config)) (into AuthorityMismatch) ;;
  check_config quorum pass veto period ;;
  save_governance_config 1
    {| is_active := is_active config; authority := authority config; proposal_threshold := threshold; voting_period_epochs := period;
       quorum_bps := quorum; pass_threshold_bps := pass; veto_threshold_bps := veto; timelock_epochs := timelock;
       emergency_multisig := multisig; next_proposal_id := next_proposal_id config |}.

Definition process_instruction (i : GovernanceInstruction) : M unit :=
  match i with
  | InitializeGovernance a t v q p ve l m => process_initialize_governance a t v q p ve l m
  | CreateProposal t h ty => process_create_proposal t h ty
  | CastVote p v => process_cast_vote p v
  | ExecuteProposal p => process_execute_proposal p
  | CancelProposal p => process_cancel_proposal p
  | VetoProposal p => process_veto_proposal p
  | ActivateGovernance => process_activate_governance
  | UpdateConfig t v q p ve l m => process_update_config t v q p ve l m
  end.

Definition Entrypoint `{!GovernanceBincode} : M unit :=
  ix ← get_current_instruction_context;
  i ← lift_opt (decode_instruction (ix_data ix)) InvalidInstructionData;
  process_instruction i.

(** ** The program respects the runtime's rules *)

#[export] Instance governance_Entrypoint_safe `{!GovernanceBincode} : SafeProgram Entrypoint.
Proof.
  intros ix. unfold Entrypoint. apply safe_current. apply safe_bind; [auto with safe|]. intros i _. destruct i.
  all: unfold process_instruction, process_initialize_governance, process_create_proposal, process_cast_vote, process_execute_proposal,
    process_cancel_proposal, process_veto_proposal, process_activate_governance, process_update_config, close_vote, check_config,
    load_governance_config, load_proposal, load_account, save_governance_config, save_proposal, save_account, save_borrowed; solve_safe.
Qed.

(** ** Runs of the helpers *)

Lemma load_account_Ok {A} (des : list Byte.byte -> option A) e ix i ic s x s' : tx_wf s -> unborrowed s -> current s = Some ix ->
  load_account des e i ic s = (Ok x, s') -> s' = s /\ exists ia a,
    ix_accounts ix !! i = Some ia /\ accs s !! index_in_transaction ia = Some a /\ acc_owner a = id /\ des (acc_data a) = Some x.
Proof.
  intros Hwf Hun Hcur Hr. unfold load_account in Hr. rewrite (current_bind ix) in Hr by done. inv_eval.
  split; [reflexivity|]. do 2 eexists. split_and!; eassumption.
Qed.

Lemma save_borrowed_Ok size ser b ic s u s' : tx_wf s -> save_borrowed size ser b ic s = (Ok u, s') -> exists a d buf rd,
  accs s !! index_in_transaction (b_account b) = Some a /\ is_writable (b_account b) = true /\ owned b s a = true /\ ser d = Some buf
  /\ s' = upd (index_in_transaction (b_account b)) (with_data buf) (delta s) rd s.
Proof.
  intros Hwf Hr. unfold save_borrowed in Hr. inv_eval. do 4 eexists. split_and!; try eassumption. reflexivity.
Qed.

Lemma save_account_Ok size ser ix i ic s u s' : tx_wf s -> unborrowed s -> current s = Some ix ->
  save_account size ser i ic s = (Ok u, s') -> exists ia a d buf rd,
    ix_accounts ix !! i = Some ia /\ accs s !! index_in_transaction ia = Some a /\ is_writable ia = true
    /\ owned {| b_account := ia; b_program := ix_program_index ix |} s a = true /\ ser d = Some buf
    /\ s' = upd (index_in_transaction ia) (with_data buf) (delta s) rd s.
Proof.
  intros Hwf Hun Hcur Hr. unfold save_account, save_borrowed in Hr. rewrite (current_bind ix) in Hr by done. inv_eval.
  do 5 eexists. split_and!; try eassumption. reflexivity.
Qed.

Lemma sized_write {A} `{Borsh A} tag size (x : A) d buf :
  (if (length d <? size)%nat then None else write_tagged tag x d) = Some buf -> head buf = Some tag /\ (value_ok x -> read_tagged tag buf = Some x).
Proof.
  case_match; [done|]. intros Hw. split; [by apply write_tagged_Some in Hw as (_ & rest & ->)|].
  intros Hx. by eapply read_write_tagged.
Qed.

Ltac gov_step := match goal with
  | H : load_governance_config _ _ _ = (Ok _, _) |- _ => unfold load_governance_config in H
  | H : load_proposal _ _ _ = (Ok _, _) |- _ => unfold load_proposal in H
  | H : save_governance_config _ _ _ _ = (Ok _, _) |- _ => unfold save_governance_config in H
  | H : save_proposal _ _ _ _ = (Ok _, _) |- _ => unfold save_proposal in H
  | H : load_account _ _ _ _ _ = (Ok _, _) |- _ =>
      eapply load_account_Ok in H as (-> & ? & ? & ? & ? & ? & ?); [|solve [auto with view_wf]..|autorewrite with view; eassumption]
  | H : save_account _ _ _ _ _ = (Ok _, _) |- _ =>
      eapply save_account_Ok in H as (? & ? & ? & ? & ? & ? & ? & ? & ? & ? & ->); [|solve [auto with view_wf]..|autorewrite with view; eassumption]
  | H : save_borrowed _ _ _ _ _ = (Ok _, _) |- _ =>
      eapply save_borrowed_Ok in H as (? & ? & ? & ? & ? & ? & ? & ? & ->); [|solve [auto with view_wf]]
  end; simpl_view.
Ltac gov_eval Hr := rewrite (current_bind _) in Hr by eassumption; repeat (inv_eval; gov_step); inv_eval.

(** ** Life of a proposal *)

(** The tally of [p] passes under config [c]. *)
Definition passes (c : GovernanceConfig) (p : Proposal) : Prop :=
  let total := votes_for p + votes_against p + votes_abstain p + veto_votes p in
  let decisive := votes_for p + votes_against p in
  veto_votes p * 10000 < veto_threshold_bps c * total /\ 0 < decisive
  /\ effective_pass_threshold p c * decisive <= votes_for p * 10000.

(** [c] is the config in some account of the program *)
Definition a_config (s : TransactionContext) (c : GovernanceConfig) : Prop :=
  exists i a, accs s !! i = Some a /\ acc_owner a = id /\ GovernanceConfig_deserialize (acc_data a) = Some c.

(** What an instruction may make of the data [d] of proposal [p]. *)
Inductive proposal_step (ix : InstructionContext) (ic : InvokeContext) (s : TransactionContext) (p : Proposal) (d : list Byte.byte)
    : list Byte.byte -> Prop :=
  | step_none : proposal_step ix ic s p d d
  | step_vote d' p' ck c v power : sysvar_clock ic = Some ck -> a_config s c -> is_active c = true ->
      status p = Active -> clock_epoch ck < voting_ends_epoch p -> 0 < power -> apply_vote v power p = Some p' ->
      Proposal_deserialize d' = Some p' -> proposal_step ix ic s p d d'
  | step_pass d' ck c : sysvar_clock ic = Some ck -> a_config s c -> is_active c = true ->
      status p = Active -> voting_ends_epoch p <= clock_epoch ck -> executed p = false -> passes c p ->
      Proposal_deserialize d' = Some (with_status Timelocked false p) -> proposal_step ix ic s p d d'
  | step_execute d' ck c : sysvar_clock ic = Some ck -> a_config s c -> status p = Timelocked \/ status p = Passed /\ is_active c = true ->
      (is_active c = false -> signed_by ix s (authority c)) -> execution_epoch p <= clock_epoch ck -> executed p = false ->
      Proposal_deserialize d' = Some (with_status Executed true p) -> proposal_step ix ic s p d d'
  | step_cancel d' c : a_config s c -> signed_by ix s (emergency_multisig c) -> status p ∈ [Active; Passed; Timelocked] ->
      Proposal_deserialize d' = Some (with_status Cancelled (executed p) p) -> proposal_step ix ic s p d d'
  | step_veto d' c : a_config s c -> status p ∈ [Active; Timelocked] ->
      veto_threshold_bps c * (votes_for p + votes_against p + votes_abstain p + veto_votes p) <= veto_votes p * 10000 ->
      Proposal_deserialize d' = Some (with_status Vetoed (executed p) p) -> proposal_step ix ic s p d d'
  | step_overwritten d' : head d' = Some GOVERNANCE_CONFIG_DISCRIMINATOR \/ head d' = Some VOTE_RECORD_DISCRIMINATOR ->
      proposal_step ix ic s p d d'.

(** ** Well-formed accounts *)

Definition config_wf (c : GovernanceConfig) : Prop :=
  0 < quorum_bps c <= 10000 /\ 0 < pass_threshold_bps c <= 10000 /\ 0 < veto_threshold_bps c <= 10000 /\ 0 < voting_period_epochs c.
Definition proposal_wf (p : Proposal) : Prop :=
  created_epoch p < voting_ends_epoch p <= execution_epoch p /\ (executed p = true <-> status p = Executed).
Definition gov_data (d : list Byte.byte) : Prop :=
  (forall c, GovernanceConfig_deserialize d = Some c -> config_wf c) /\ (forall p, Proposal_deserialize d = Some p -> proposal_wf p).

Lemma tag_other {A} `{Borsh A} tag d (x : A) : read_tagged tag d = Some x -> head d = Some tag.
Proof. unfold read_tagged. destruct d; [done|]. simpl. case_decide; congruence. Qed.
Lemma gov_data_config d c : GovernanceConfig_deserialize d = Some c -> config_wf c -> gov_data d.
Proof.
  intros Hc Hw. split; [intros c' Hc'; rewrite Hc in Hc'; by injection Hc' as <-|]. intros p Hp.
  apply tag_other in Hc, Hp. rewrite Hc in Hp. done.
Qed.
Lemma gov_data_proposal d p : Proposal_deserialize d = Some p -> proposal_wf p -> gov_data d.
Proof.
  intros Hp Hw. split; [|intros p' Hp'; rewrite Hp in Hp'; by injection Hp' as <-]. intros c Hc.
  apply tag_other in Hc, Hp. rewrite Hc in Hp. done.
Qed.
Lemma gov_data_other d : head d <> Some GOVERNANCE_CONFIG_DISCRIMINATOR -> head d <> Some PROPOSAL_DISCRIMINATOR -> gov_data d.
Proof. intros H1 H2. split; intros x Hx%tag_other; congruence. Qed.

Lemma step_wf ix ic s p d d' p' : proposal_step ix ic s p d d' -> Proposal_deserialize d = Some p -> Proposal_deserialize d' = Some p' ->
  proposal_wf p -> proposal_wf p'.
Proof.
  intros Hs Hd Hd' [He Hx]. destruct Hs as [|d1 p1 ck c v power _ _ _ _ _ _ Hv Hp1|d1 ck c _ _ _ _ _ _ _ Hp1|d1 ck c _ _ _ _ _ _ Hp1
    |d1 c _ _ Hin Hp1|d1 c _ Hin _ Hp1|d1 Ht].
  1: rewrite Hd in Hd'; injection Hd' as <-; by split.
  6: apply tag_other in Hd'; rewrite Hd' in Ht; by destruct Ht.
  all: rewrite Hp1 in Hd'; injection Hd' as <-.
  - unfold apply_vote in Hv. destruct v; apply bind_Some in Hv as (n & _ & [= <-]); by split.
  - split; [done|]. by split.
  - split; [done|]. by split.
  - split; [done|]. simpl. split; [|done]. intros E%Hx. rewrite E in Hin. by apply (bool_decide_eq_true_2 _) in Hin.
  - split; [done|]. simpl. split; [|done]. intros E%Hx. rewrite E in Hin. by apply (bool_decide_eq_true_2 _) in Hin.
Qed.

(** ** What an instruction leaves of an account *)

Definition accounts_kept ix ic (s s' : TransactionContext) : Prop :=
  forall j a, accs s !! j = Some a -> exists a', accs s' !! j = Some a' /\ acc_owner a' = acc_owner a
    /\ (forall p, Proposal_deserialize (acc_data a) = Some p -> proposal_step ix ic s p (acc_data a) (acc_data a'))
    /\ (owned_data id gov_data s -> acc_data a' = acc_data a \/ gov_data (acc_data a')).

Lemma kept_refl ix ic s : accounts_kept ix ic s s.
Proof. intros j a Hj. exists a. eauto using step_none. Qed.

(** A write after writes that changed the accounts as allowed. *)
Lemma kept_write ix ic s s1 i d rd x : accounts_kept ix ic s s1 ->
  (forall a p, accs s !! i = Some a -> Proposal_deserialize (acc_data a) = Some p -> proposal_step ix ic s p (acc_data a) d) ->
  (owned_data id gov_data s -> gov_data d) -> accounts_kept ix ic s (upd i (with_data d) x rd s1).
Proof.
  intros H1 Hd Hg j a Hj. destruct (H1 _ _ Hj) as (a' & Hj' & Ho & Hs & Hw).
  destruct (with_data_lookup i d s1 x rd j a' Hj') as (a2 & Hj2 & Ho2 & Hd2). exists a2. rewrite Ho2, Hd2.
  case_decide as E; [subst|done]. split_and!; [done|done| |auto]. intros p. by apply Hd.
Qed.

Lemma kept_proposal ix ic s i d rd a p p' x : accs s !! i = Some a -> acc_owner a = id -> Proposal_deserialize (acc_data a) = Some p ->
  Proposal_deserialize d = Some p' -> proposal_step ix ic s p (acc_data a) d -> accounts_kept ix ic s (upd i (with_data d) x rd s).
Proof.
  intros Ha Ho Hp Hp' Hs. apply kept_write; [apply kept_refl|intros a' q Ha' Hq|intros Hg].
  - rewrite Ha in Ha'. injection Ha' as <-. rewrite Hp in Hq. by injection Hq as <-.
  - eapply gov_data_proposal; [done|]. eapply step_wf; [done|done|done|]. by apply (Hg _ _ Ha Ho).
Qed.
Lemma kept_config ix ic s s1 i d rd x c : accounts_kept ix ic s s1 -> GovernanceConfig_deserialize d = Some c ->
  (owned_data id gov_data s -> config_wf c) -> accounts_kept ix ic s (upd i (with_data d) x rd s1).
Proof.
  intros H Hc Hw. apply kept_write; [done|intros a p _ _; apply step_overwritten; left; exact (tag_other _ _ _ Hc)|].
  intros Hg. eapply gov_data_config; eauto.
Qed.
Lemma kept_vote ix ic s s1 i d rd x : accounts_kept ix ic s s1 -> head d = Some VOTE_RECORD_DISCRIMINATOR ->
  accounts_kept ix ic s (upd i (with_data d) x rd s1).
Proof.
  intros H Ht. apply kept_write; [done|intros; by apply step_overwritten; right|]. intros _. apply gov_data_other; by rewrite Ht.
Qed.
Lemma kept_fresh ix ic s s1 i a d rd x p : accounts_kept ix ic s s1 -> accs s !! i = Some a ->
  head (acc_data a) <> Some PROPOSAL_DISCRIMINATOR -> Proposal_deserialize d = Some p -> (owned_data id gov_data s -> proposal_wf p) ->
  accounts_kept ix ic s (upd i (with_data d) x rd s1).
Proof.
  intros H Ha Hn Hp Hw. apply kept_write; [done| |intros Hg; eapply gov_data_proposal; eauto].
  intros a' q Ha' Hq%tag_other. rewrite Ha in Ha'. injection Ha' as <-. done.
Qed.

Lemma a_config_intro s ia a c : accs s !! index_in_transaction ia = Some a -> acc_owner a = id ->
  GovernanceConfig_deserialize (acc_data a) = Some c -> a_config s c.
Proof. intros H1 H2 H3. exact (ex_intro _ _ (ex_intro _ a (conj H1 (conj H2 H3)))). Qed.

Lemma proposal_ok d p : Proposal_deserialize d = Some p -> value_ok p.
Proof. apply read_tagged_ok. Qed.
Lemma with_status_ok st ex p : value_ok p -> value_ok (with_status st ex p).
Proof. done. Qed.
Lemma apply_vote_ok v power p p' : value_ok p -> 0 <= power -> apply_vote v power p = Some p' -> value_ok p'.
Proof.
  intros [H1 H2] Hp. unfold apply_vote. destruct v; intros (n & Hn & [= <-])%bind_Some; inv_checked; (split; [exact H1|]); simpl; lia.
Qed.

Lemma total_votes_Some p t : total_votes_of p = Some t -> t = votes_for p + votes_against p + votes_abstain p + veto_votes p.
Proof. unfold total_votes_of. intros (a & Ha & (b & Hb & Hc)%bind_Some)%bind_Some. inv_checked. lia. Qed.
Lemma pct_of_Some votes total x : pct_of votes total = Some x -> 0 <= total ->
  0 < total /\ forall k, k <= x <-> k * total <= votes * 10000.
Proof.
  unfold pct_of, checked_div. intros (n & Hn & Hd)%bind_Some Ht. inv_checked. case_match eqn:E; [done|]. unfold BPS_DENOMINATOR in *.
  injection Hd as <-. breflect. subst. assert (0 < total) as Hpos by lia. split; [done|]. intros k.
  pose proof (Z.mul_div_le (votes * 10000) total Hpos). pose proof (Z.mul_succ_div_gt (votes * 10000) total Hpos). nia.
Qed.

Lemma weigh_nonneg amount w p : 0 <= amount -> 0 <= w -> weigh amount w = Some p -> 0 <= p.
Proof.
  unfold weigh, checked_div. intros Ha Hw (n & Hn & (q & Hq & Hp)%bind_Some)%bind_Some. inv_checked. subst.
  injection Hq as <-. apply Z.div_pos; [nia|done].
Qed.
Lemma voting_power_nonneg data x : voting_power_from_passive_stake_data data = Some x -> 0 <= x.2.
Proof.
  unfold voting_power_from_passive_stake_data. repeat case_match; try done. intros (p & Hp & [= <-])%bind_Some. simpl.
  eapply weigh_nonneg; [| |exact Hp]; apply le_combine_bound.
Qed.

Ltac written_proposal := match goal with E : Proposal_serialize_into ?p _ = Some _ |- _ =>
  apply (sized_write PROPOSAL_DISCRIMINATOR Proposal_SERIALIZED_SIZE) in E as [_ E]; specialize (E ltac:(eauto using with_status_ok, proposal_ok)) end.

Ltac gov_config := eapply a_config_intro; [..|eassumption]; eassumption.

Lemma cancel_kept ix ic s pid s' : ready ix ic s -> process_cancel_proposal pid ic s = (Ok tt, s') -> accounts_kept ix ic s s'.
Proof.
  intros [Hwf Hcur Hun Hd Hck Hkeys] Hr. unfold process_cancel_proposal in Hr. gov_eval Hr. written_proposal.
  eapply kept_proposal; [eassumption..|]. eapply step_cancel; [gov_config| |eassumption|eassumption].
  eapply signed_by_intro; [symmetry; eassumption|eassumption..].
Qed.

Lemma votes_nonneg p : value_ok p -> 0 <= votes_for p /\ 0 <= votes_against p /\ 0 <= votes_abstain p /\ 0 <= veto_votes p.
Proof. intros [_ H]. lia. Qed.

Lemma veto_kept ix ic s pid s' : ready ix ic s -> process_veto_proposal pid ic s = (Ok tt, s') -> accounts_kept ix ic s s'.
Proof.
  intros [Hwf Hcur Hun Hd Hck Hkeys] Hr. unfold process_veto_proposal in Hr. gov_eval Hr. written_proposal.
  match goal with E : Proposal_deserialize _ = Some ?p |- _ => pose proof (votes_nonneg p (proposal_ok _ _ E)) end.
  match goal with E : total_votes_of _ = Some _ |- _ => apply total_votes_Some in E; subst end.
  match goal with E : pct_of _ _ = Some _ |- _ => apply pct_of_Some in E as [_ Hpct]; [|lia] end.
  eapply kept_proposal; [eassumption..|]. eapply step_veto; [gov_config|eassumption| |eassumption]. by apply Hpct.
Qed.

Lemma close_vote_Ok config p now ic s s' : close_vote config p now ic s = (Ok tt, s') -> value_ok p ->
  voting_ends_epoch p <= now /\ passes config p /\ save_proposal 1 (with_status Timelocked (executed p) p) ic s = (Ok tt, s').
Proof.
  unfold close_vote. intros Hr Hok. apply votes_nonneg in Hok. inv_eval.
  match goal with E : total_votes_of _ = Some _ |- _ => apply total_votes_Some in E; subst end.
  repeat match goal with E : pct_of _ _ = Some ?x |- _ => apply pct_of_Some in E as [? ?]; [|lia] end.
  split; [done|]. split; [|done]. unfold passes. split_and!; [|done|naive_solver].
  match goal with E : forall k, k <= ?x <-> _, L : ?x < veto_threshold_bps _ |- _ => specialize (E (veto_threshold_bps config)) end. lia.
Qed.

Lemma save_proposal_Ok ix ic s ia p u s' : ready ix ic s -> ix_accounts ix !! 1%nat = Some ia -> value_ok p ->
  save_proposal 1 p ic s = (Ok u, s') -> exists d rd, Proposal_deserialize d = Some p
    /\ s' = upd (index_in_transaction ia) (with_data d) (delta s) rd s.
Proof.
  intros [Hwf Hcur Hun Hd _ _] Hia Hok Hr. repeat gov_step.
  match goal with H : ix_accounts ix !! _ = Some _ |- _ => rewrite Hia in H; injection H as <- end.
  written_proposal. eauto.
Qed.

(** the two endings of an execution *)
Lemma pass_kept ix ic s p c ck a ia s' : ready ix ic s -> sysvar_clock ic = Some ck -> a_config s c -> is_active c = true ->
  ix_accounts ix !! 1%nat = Some ia -> accs s !! index_in_transaction ia = Some a -> acc_owner a = id ->
  Proposal_deserialize (acc_data a) = Some p -> status p = Active -> executed p = false -> close_vote c p (clock_epoch ck) ic s = (Ok tt, s') -> accounts_kept ix ic s s'.
Proof.
  intros Hready Hck Hc Hact Hia Ha Ho Hp Hst Hex (Hv & Hpass & Hr)%close_vote_Ok; [|by eapply proposal_ok].
  rewrite Hex in Hr. eapply save_proposal_Ok in Hr as (d & rd & Hd & ->); [|eassumption..|by eapply with_status_ok, proposal_ok].
  eapply kept_proposal; [eassumption..|]. eapply step_pass; eassumption.
Qed.
Lemma executed_kept ix ic s p c ck a ia s' : ready ix ic s -> sysvar_clock ic = Some ck -> a_config s c ->
  status p = Timelocked \/ status p = Passed /\ is_active c = true -> (is_active c = false -> signed_by ix s (authority c)) ->
  ix_accounts ix !! 1%nat = Some ia -> accs s !! index_in_transaction ia = Some a -> acc_owner a = id ->
  Proposal_deserialize (acc_data a) = Some p -> executed p = false -> execution_epoch p <= clock_epoch ck -> save_proposal 1 (with_status Executed true p) ic s = (Ok tt, s') ->
  accounts_kept ix ic s s'.
Proof.
  intros Hready Hck Hc Hst Hsig Hia Ha Ho Hp Hex Hle Hr.
  eapply save_proposal_Ok in Hr as (d & rd & Hd & ->); [|eassumption..|by eapply with_status_ok, proposal_ok].
  eapply kept_proposal; [eassumption..|]. eapply step_execute; eassumption.
Qed.

Ltac contradict_active := let Hf := fresh in intros Hf;
  match goal with E : is_active _ = true |- _ => rewrite Hf in E; discriminate E end.

Lemma execute_kept ix ic s pid s' : ready ix ic s -> process_execute_proposal pid ic s = (Ok tt, s') -> accounts_kept ix ic s s'.
Proof.
  intros Hready Hr. pose proof Hready as [Hwf Hcur Hun Hd Hck Hkeys]. unfold process_execute_proposal in Hr.
  rewrite (current_bind _) in Hr by eassumption. repeat (inv_eval; match goal with H : load_account _ _ _ _ _ = _ |- _ => gov_step
    | H : load_governance_config _ _ _ = _ |- _ => gov_step | H : load_proposal _ _ _ = _ |- _ => gov_step end).
  - match goal with H : Proposal_deserialize _ = Some ?p |- _ => destruct (status p) eqn:Est end;
      try match goal with H : fail _ _ _ = _ |- _ => inv_eval; fail end.
    + eapply pass_kept; [exact Hready|eassumption|gov_config|eassumption..].
    + inv_eval. eapply executed_kept; [exact Hready|eassumption|gov_config|right; split; eassumption|contradict_active|eassumption..].
    + inv_eval. eapply executed_kept; [exact Hready|eassumption|gov_config|left; eassumption|contradict_active|eassumption..].
  - eapply executed_kept; [exact Hready|eassumption|gov_config|left; eassumption| |eassumption..].
    intros _. match goal with H : false = true \/ _ |- _ => destruct H as [H|H]; [discriminate H|] end.
    eapply signed_by_intro; [symmetry|..]; eassumption.
Qed.

Lemma cast_vote_kept ix ic s pid v s' : ready ix ic s -> process_cast_vote pid v ic s = (Ok tt, s') -> accounts_kept ix ic s s'.
Proof.
  intros [Hwf Hcur Hun Hd Hck Hkeys] Hr. unfold process_cast_vote in Hr. gov_eval Hr.
  match goal with H : voting_power_from_passive_stake_data _ = Some _ |- _ => pose proof (voting_power_nonneg _ _ H) end.
  match goal with H : apply_vote _ _ _ = Some _, D : Proposal_deserialize _ = Some _ |- _ =>
    pose proof (apply_vote_ok _ _ _ _ (proposal_ok _ _ D) ltac:(eassumption) H) end.
  written_proposal. eapply kept_vote; [|eapply sized_write; eassumption].
  eapply kept_proposal; [eassumption..|]. eapply step_vote; [eassumption|gov_config|eassumption|eassumption|eassumption| |eassumption|eassumption]. lia.
Qed.
Lemma config_written c d buf : value_ok c -> GovernanceConfig_serialize_into c d = Some buf -> GovernanceConfig_deserialize buf = Some c.
Proof. intros Hc Hw. by apply (sized_write GOVERNANCE_CONFIG_DISCRIMINATOR GovernanceConfig_SERIALIZED_SIZE) in Hw as [_ Hw]; apply Hw. Qed.
Lemma config_ok d c : GovernanceConfig_deserialize d = Some c -> value_ok c.
Proof. apply read_tagged_ok. Qed.
Lemma config_at s i a c : owned_data id gov_data s -> accs s !! i = Some a -> acc_owner a = id ->
  GovernanceConfig_deserialize (acc_data a) = Some c -> config_wf c.
Proof. intros Hg Ha Ho Hc. by apply (Hg _ _ Ha Ho). Qed.

Lemma governance_initialize_kept ix ic s a t v q p ve l m s' : ready ix ic s -> value_ok (InitializeGovernance a t v q p ve l m) ->
  process_initialize_governance a t v q p ve l m ic s = (Ok tt, s') -> accounts_kept ix ic s s'.
Proof.
  intros [Hwf Hcur Hun Hd Hck Hkeys] (? & ? & ? & ? & ? & ? & ? & ?) Hr. unfold process_initialize_governance, check_config in Hr. gov_eval Hr.
  eapply kept_config; [apply kept_refl|eapply config_written; [|eassumption]|intros _].
  - unfold value_ok, GovernanceConfig_value; simpl. repeat (split; [assumption|]). lia.
  - unfold config_wf; simpl. lia.
Qed.

Lemma update_kept ix ic s t v q p ve l m s' : ready ix ic s -> value_ok (UpdateConfig t v q p ve l m) ->
  process_update_config t v q p ve l m ic s = (Ok tt, s') -> accounts_kept ix ic s s'.
Proof.
  intros [Hwf Hcur Hun Hd Hck Hkeys] (? & ? & ? & ? & ? & ? & ?) Hr. unfold process_update_config, check_config in Hr. gov_eval Hr.
  match goal with E : GovernanceConfig_deserialize _ = Some _ |- _ => destruct (config_ok _ _ E) as (? & _ & _ & _ & _ & _ & _ & _ & ?) end.
  eapply kept_config; [apply kept_refl|eapply config_written; [|eassumption]|intros _].
  - unfold value_ok, GovernanceConfig_value; simpl. repeat (split; [assumption|]). assumption.
  - unfold config_wf; simpl. lia.
Qed.

Lemma activate_kept ix ic s s' : ready ix ic s -> process_activate_governance ic s = (Ok tt, s') -> accounts_kept ix ic s s'.
Proof.
  intros [Hwf Hcur Hun Hd Hck Hkeys] Hr. unfold process_activate_governance in Hr. gov_eval Hr.
  eapply kept_config; [apply kept_refl|eapply config_written; [|eassumption]|intros Hg].
  - match goal with E : GovernanceConfig_deserialize _ = Some _ |- _ => exact (config_ok _ _ E) end.
  - match goal with |- config_wf (with_activity _ ?c) => change (config_wf c) end. eapply config_at; eassumption.
Qed.

Lemma with_next_id_ok n c : value_ok c -> in_u64 n -> value_ok (with_next_id n c).
Proof. intros H Hn. unfold value_ok, GovernanceConfig_value in *. simpl in *. repeat (split; [apply H|]). exact Hn. Qed.

Lemma new_proposal_ok c k t h ty now ve ex : value_ok c -> in_pubkey k -> in_pubkey h -> value_ok ty -> in_u64 now -> in_u64 ve -> in_u64 ex ->
  value_ok (new_proposal c k t h ty now ve ex).
Proof.
  intros Hc Hk Hh Hty Hn Hv He. unfold value_ok, Proposal_value; simpl. split; [|lia].
  refine (conj _ (conj Hk (conj (length_resize _ _) (conj Hh (conj Hty (conj Hn (conj Hv He))))))). apply Hc.
Qed.
Lemma proposal_written p d buf : value_ok p -> Proposal_serialize_into p d = Some buf -> Proposal_deserialize buf = Some p.
Proof. intros Hc Hw. by apply (sized_write PROPOSAL_DISCRIMINATOR Proposal_SERIALIZED_SIZE) in Hw as [_ Hw]; apply Hw. Qed.

(** the writes of a creation *)
Lemma created_kept ix ic s c k t h ty now next ve ex i1 i2 a1 a2 d1 d2 b1 b2 x1 x2 r1 r2 :
  GovernanceConfig_serialize_into (with_next_id next c) d1 = Some b1 ->
  Proposal_serialize_into (new_proposal c k t h ty now ve ex) d2 = Some b2 ->
  accs s !! i1 = Some a1 -> acc_owner a1 = id -> GovernanceConfig_deserialize (acc_data a1) = Some c -> accs s !! i2 = Some a2 ->
  head (acc_data a2) <> Some PROPOSAL_DISCRIMINATOR ->
  value_ok c -> in_pubkey k -> in_pubkey h -> value_ok ty -> in_u64 now -> in_u64 next ->
  ve = now + voting_period_epochs c -> ve <= u64_max -> ex = ve + timelock_epochs c -> ex <= u64_max ->
  accounts_kept ix ic s (upd i2 (with_data b2) x2 r2 (upd i1 (with_data b1) x1 r1 s)).
Proof.
  intros Hw1 Hw2 Ha1 Ho1 Hd1 Ha2 Hh2 Hc Hk Hh Hty Hn Hnext -> Hve -> Hex.
  assert (in_u64 (voting_period_epochs c) /\ in_u64 (timelock_epochs c)) as [Hvp Htl] by (split; apply Hc).
  assert (owned_data id gov_data s -> config_wf c) as Hcw by exact (fun Hg => config_at _ _ _ _ Hg Ha1 Ho1 Hd1).
  eapply kept_fresh; [|exact Ha2|exact Hh2|eapply proposal_written; [|exact Hw2]|].
  - eapply kept_config; [apply kept_refl|eapply config_written; [|exact Hw1]|exact Hcw]. apply with_next_id_ok; assumption.
  - apply new_proposal_ok; first [assumption|lia].
  - intros (_ & _ & _ & Hp)%Hcw. unfold proposal_wf; simpl. split; [lia|]. clear. destruct (is_active c); split; discriminate.
Qed.

Lemma create_kept ix ic s t h ty s' : ready ix ic s -> value_ok (CreateProposal t h ty) ->
  process_create_proposal t h ty ic s = (Ok tt, s') -> accounts_kept ix ic s s'.
Proof.
  intros [Hwf Hcur Hun Hd Hck Hkeys] [Hh Hty] Hr. unfold process_create_proposal in Hr. gov_eval Hr;
    match goal with E : GovernanceConfig_deserialize _ = Some ?c |- _ => pose proof (config_ok _ _ E) as Hok end;
    match goal with E : sysvar_clock ic = Some _ |- _ => destruct (Hck _ E) as (_ & ? & _) end;
    match type of Hok with value_ok ?c => assert (in_u64 (next_proposal_id c)) by apply Hok end;
    (eapply created_kept; [eassumption|eassumption|eassumption|eassumption|eassumption|eassumption|eassumption|exact Hok
      |eapply Hkeys; eassumption|exact Hh|exact Hty|eassumption|..]); lia.
Qed.
End handlers.
End Governance.
