(* ===== verification/GovernanceSafety.v ===== *)
(** * The governance program: theorems

    The life of a proposal, the accounts after any message, the effect of a vote
    and of a cancellation, and the agreement of the voting power with what the
    passive-stake program writes. *)

From coqutil Require Import Byte Word.LittleEndianList.
From Stdlib Require Import ZArith Lia String.
From stdpp Require Import base numbers list option.
From S2P Require Import Prelude Borsh TxContext TxSafety TxEval TxInvariant PassiveStake Governance.
Import Governance.
Local Open Scope Z_scope.

Section handlers.
Context `{!Borsh GovernanceConfig, !Borsh Proposal, !Borsh VoteRecord}.

Lemma governance_Entrypoint_kept `{!GovernanceBincode} ix ic s s' : ready ix ic s -> Entrypoint ic s = (Ok tt, s') -> accounts_kept ix ic s s'.
Proof.
  intros Hready Hr. unfold Entrypoint in Hr. rewrite (current_bind ix) in Hr by apply Hready. inv_run.
  match goal with E : decode_instruction _ = Some ?i |- _ => apply decode_range in E as Hok; destruct i end;
    match goal with E : process_instruction _ _ _ = _ |- _ => rename E into Hr; cbn [process_instruction] in Hr end.
  - exact (governance_initialize_kept _ _ _ _ _ _ _ _ _ _ _ _ Hready Hok Hr).
  - exact (create_kept _ _ _ _ _ _ _ Hready Hok Hr).
  - exact (cast_vote_kept _ _ _ _ _ _ Hready Hr).
  - exact (execute_kept _ _ _ _ _ Hready Hr).
  - exact (cancel_kept _ _ _ _ _ Hready Hr).
  - exact (veto_kept _ _ _ _ _ Hready Hr).
  - exact (activate_kept _ _ _ _ Hready Hr).
  - exact (update_kept _ _ _ _ _ _ _ _ _ _ _ Hready Hok Hr).
Qed.

Lemma zeroed_gov_data d : is_zeroed d = true -> gov_data d.
Proof.
  intros Hz. assert (head d = None \/ head d = Some Byte.x00) as Hh.
  { destruct d as [|b d]; [by left|]. right. cbn [is_zeroed forallb] in Hz.
    apply andb_true_iff in Hz as [Hb%bool_decide_eq_true_1 _]. by rewrite Hb. }
  apply gov_data_other; by destruct Hh as [->| ->].
Qed.

#[export] Instance gov_invariant `{!GovernanceBincode} : DataInvariant id Entrypoint gov_data (fun _ => True).
Proof.
  split; [exact zeroed_gov_data|]. intros ix ic s s' Hready Hpk HI Hr. split; [|exact I]. intros j a' Ha' Ho.
  pose proof (safe_program ix _ _ _ _ (ready_wf _ _ _ Hready) (ready_current _ _ _ Hready) Hr) as Hs.
  destruct (step_ok_back _ _ _ _ _ Hs Ha') as (a & Ha & _).
  destruct (governance_Entrypoint_kept _ _ _ _ Hready Hr _ _ Ha) as (a2 & Ha2 & Ho2 & _ & Hw). rewrite Ha' in Ha2. injection Ha2 as <-.
  destruct (Hw HI) as [->|]; [|assumption]. apply (HI _ _ Ha). rewrite <- Ho2. exact Ho.
Qed.

(** ** Claims *)

(** C16. What can happen to a proposal in one instruction of the program, whoever
    sends it: nothing; a positive voting power is added to one tally, in an active
    proposal whose vote is still open; once the vote has ended, a proposal that
    passes (vetoes under the veto threshold of all votes, approvals at the
    threshold of approvals and rejections) is timelocked; a timelocked or passed
    proposal that was not executed and whose execution epoch is reached is
    executed; the emergency multisig of some config cancels it; vetoes over the
    threshold veto it; or its account is overwritten by a config or a vote
    record.  Everything else in it stays. *)
Theorem proposal_lifecycle `{!GovernanceBincode} ix ic s s' j a p : ready ix ic s -> Entrypoint ic s = (Ok tt, s') ->
  accs s !! j = Some a -> Proposal_deserialize (acc_data a) = Some p ->
  exists a', accs s' !! j = Some a' /\ acc_owner a' = acc_owner a /\ proposal_step ix ic s p (acc_data a) (acc_data a').
Proof.
  intros Hready Hr Hj Hp. destruct (governance_Entrypoint_kept ix ic s s' Hready Hr j a Hj) as (a' & Ha' & Ho & Hs & _).
  exact (ex_intro _ a' (conj Ha' (conj Ho (Hs p Hp)))).
Qed.

(** C17. Accounts of the governance program stay well formed: if all of them were
    before a message, they are after it, whatever other programs it calls: a config has its quorum, pass and veto
    thresholds in 1..10000 and a positive voting period; a proposal ends its vote
    after it was created and is executed no earlier than that, and it is marked
    executed exactly when its status says so. *)
Theorem governance_well_formed `{!GovernanceBincode} `{Hsys : InstructionsSysvar} signer writable (program : SvmInstruction -> M unit)
    `{!forall si, SafeProgram (program si)} accs0 stack_capacity trace_capacity l ic u s' :
  clock_ok ic -> id <> sysvar_id -> Forall (fun a => in_u64 (acc_lamports a) /\ in_pubkey (acc_key a)) accs0 ->
  runs_entry id Entrypoint program accs0 -> accounts_data id gov_data accs0 ->
  process_message signer writable program 0 l ic (TransactionContext_new accs0 stack_capacity trace_capacity (length l))
    = (Ok u, s') ->
  accounts_data id gov_data (accs s').
Proof.
  intros Hck Hid Hr He HI Hm. destruct (message_keeps signer writable id Entrypoint gov_data (fun _ => True) Hid program l 0 ic
    (TransactionContext_new accs0 stack_capacity trace_capacity (length l)) u s') as (_ & HI' & _ & _);
    [exact Hck|by apply between_new|exact He|exact HI|exact Hm|]. exact HI'.
Qed.

(** ** Runs that succeed *)

Lemma run_load_account {A} (des : list Byte.byte -> option A) e ix i ia a x ic s : tx_wf s -> unborrowed s -> current s = Some ix ->
  ix_accounts ix !! i = Some ia -> accs s !! index_in_transaction ia = Some a -> acc_owner a = id -> des (acc_data a) = Some x ->
  load_account des e i ic s = (Ok x, s).
Proof. intros Hwf Hun Hcur Hia Ha Ho Hd. unfold load_account. rewrite (current_bind ix) by exact Hcur. run_step. Qed.

(** a writable account of the program with room for [size] bytes *)
Record room (s : TransactionContext) (size : nat) (ia : InstructionAccount) (a : Account) : Prop := {
  room_at : accs s !! index_in_transaction ia = Some a;
  room_writable : is_writable ia = true;
  room_owner : acc_owner a = id;
  room_size : (size <= length (acc_data a))%nat;
  room_max : Z.of_nat (length (acc_data a)) <= MAX_ACCOUNT_DATA_LEN
}.

Lemma run_save {A} `{Borsh A} tag size (x : A) ix i ia a ic s : tx_wf s -> unborrowed s -> resize_room s ->
  program_key ix s = Some id -> ix_accounts ix !! i = Some ia -> room s size ia a -> (length (to_vec x) < size)%nat ->
  exists buf, borrowing ix i (save_borrowed size (fun data => if (length data <? size)%nat then None else write_tagged tag x data)) ic s
    = (Ok tt, upd (index_in_transaction ia) (with_data buf) (delta s) (resize_delta (tx_accounts s)) s)
  /\ (value_ok x -> read_tagged tag buf = Some x).
Proof.
  intros Hwf Hun Hrd Hpk Hia [Ha Hw Ho Hsz Hmax] Hlen.
  assert (write_tagged tag x (acc_data a) = Some (tag :: to_vec x ++ drop (length (to_vec x)) (tail (acc_data a)))) as Hwr.
  { unfold write_tagged. destruct (acc_data a) as [|b tl]; simpl in *; [lia|].
    replace (length (to_vec x) <=? length tl)%nat with true by (symmetry; apply Nat.leb_le; lia). reflexivity. }
  assert ((length (acc_data a) <? size)%nat = false) as Hlt by (apply Nat.ltb_ge; lia).
  pose proof (write_tagged_Some _ _ _ _ Hwr) as [Hl _]. pose proof (owned_of_key ix s ia a id Hpk Ho) as Hown.
  eexists. split; [|intros Hx; eapply read_write_tagged; [exact Hx|exact Hwr]].
  set (buf := tag :: _) in *. clearbody buf. unfold save_borrowed.
  eapply run_borrowing; [eassumption..|eapply run_bind; [run_step|cbv beta zeta; rewrite !Hlt, Hwr]|]; [run_step|solve_unlock].
Qed.
Lemma run_save_account {A} `{Borsh A} tag size (x : A) ix i ia a ic s : tx_wf s -> unborrowed s -> current s = Some ix -> resize_room s ->
  program_key ix s = Some id -> ix_accounts ix !! i = Some ia -> room s size ia a -> (length (to_vec x) < size)%nat ->
  exists buf, save_account size (fun data => if (length data <? size)%nat then None else write_tagged tag x data) i ic s
    = (Ok tt, upd (index_in_transaction ia) (with_data buf) (delta s) (resize_delta (tx_accounts s)) s)
  /\ (value_ok x -> read_tagged tag buf = Some x).
Proof. intros Hwf Hun Hcur. unfold save_account. rewrite (current_bind ix) by exact Hcur. by apply run_save. Qed.

Lemma room_resize i d x s : resize_room s -> resize_room (upd i (with_data d) x (resize_delta (tx_accounts s)) s).
Proof. unfold resize_room. by rewrite resize_upd. Qed.
Lemma program_key_data ix i d x rd s k : program_key ix s = Some k -> program_key ix (upd i (with_data d) x rd s) = Some k.
Proof.
  unfold program_key. autorewrite with view. intros (a & Ha & ->)%fmap_Some. destruct (decide (i = ix_program_index ix)) as [->|].
  - by rewrite list_lookup_alter_eq, Ha.
  - by rewrite list_lookup_alter_ne, Ha by done.
Qed.
Lemma room_other i d x rd s size ia a : i <> index_in_transaction ia -> room s size ia a ->
  room (upd i (with_data d) x rd s) size ia a.
Proof. intros Hne [Ha Hw Ho Hs Hm]. split; [|assumption..]. autorewrite with view. rewrite list_lookup_alter_ne by exact Hne. exact Ha. Qed.

Lemma voting_power_range data amount power : voting_power_from_passive_stake_data data = Some (amount, power) -> in_u64 power.
Proof.
  intros Hx. split; [exact (voting_power_nonneg _ _ Hx)|]. revert Hx. unfold voting_power_from_passive_stake_data, weigh.
  repeat case_match; try done. intros (q & (? & _ & (? & _ & Hq)%bind_Some)%bind_Some & [= _ <-])%bind_Some. inv_checked. lia.
Qed.
Lemma record_ok i k v w e : in_u64 i -> in_pubkey k -> in_u64 w -> in_u64 e ->
  value_ok {| vr_proposal_id := i; voter := k; vr_vote := v; weight := w; voted_epoch := e |}.
Proof. intros H1 H2 H3 H4. exact (conj H1 (conj H2 (conj H3 H4))). Qed.

(** Run a handler that reads configs and proposals. *)
Ltac gov_run :=
  lazymatch goal with
  | |- (_ ≫= _) _ _ = (Ok _, _) => eapply run_bind; [gov_run|cbv beta zeta; try gov_run]
  | |- load_governance_config _ _ _ = _ => eapply (run_load_account GovernanceConfig_deserialize); solve_view
  | |- load_proposal _ _ _ = _ => eapply (run_load_account Proposal_deserialize); solve_view
  | |- save_proposal _ _ _ _ = _ => eassumption
  | |- borrowing _ _ (save_borrowed _ _) _ _ = _ => eassumption
  | |- require (bool_decide _) _ _ _ = _ => apply run_require, bool_decide_eq_true_2; first [assumption | symmetry; assumption]
  | |- require (_ =? _) _ _ _ = _ => apply run_require, Z.eqb_refl
  | |- _ => run_step
  end.

Section progress.
Hypothesis proposal_fits : forall p : Proposal, value_ok p -> (length (to_vec p) < Proposal_SERIALIZED_SIZE)%nat.
Hypothesis record_fits : forall r : VoteRecord, value_ok r -> (length (to_vec r) < VoteRecord_SERIALIZED_SIZE)%nat.

(** A config is not tied to the proposals created under it: whoever signs as
    the emergency multisig of any config account of the program, such as one they
    have just initialised themselves, cancels any proposal that is active, passed
    or timelocked.  Nothing else changes. *)
Theorem any_multisig_cancels ix ic s ia0 ia1 ia2 rest signer a1 a2 c p : ready ix ic s -> resize_room s -> program_key ix s = Some id ->
  ix_accounts ix = ia0 :: ia1 :: ia2 :: rest -> is_signer ia0 = true -> accs s !! index_in_transaction ia0 = Some signer ->
  room s Proposal_SERIALIZED_SIZE ia1 a1 -> Proposal_deserialize (acc_data a1) = Some p -> status p ∈ [Active; Passed; Timelocked] ->
  accs s !! index_in_transaction ia2 = Some a2 -> acc_owner a2 = id -> GovernanceConfig_deserialize (acc_data a2) = Some c ->
  emergency_multisig c = acc_key signer ->
  exists s' buf, process_cancel_proposal (proposal_id p) ic s = (Ok tt, s')
    /\ accs s' = alter (with_data buf) (index_in_transaction ia1) (accs s)
    /\ Proposal_deserialize buf = Some (with_status Cancelled (executed p) p).
Proof.
  intros [Hwf Hcur Hun Hd Hck Hkeys] Hrd Hpk Hixs Hsig L0 Hroom Hp Hst L2 Ho2 Hc Hm.
  assert (ix_accounts ix !! 0%nat = Some ia0 /\ ix_accounts ix !! 1%nat = Some ia1 /\ ix_accounts ix !! 2%nat = Some ia2
    /\ (3 <= length (ix_accounts ix))%nat) as (I0 & I1 & I2 & Hn) by (rewrite Hixs; simpl; repeat split; lia).
  pose proof (with_status_ok Cancelled (executed p) p (proposal_ok _ _ Hp)) as Hok.
  destruct (run_save_account PROPOSAL_DISCRIMINATOR _ _ ix 1 ia1 a1 ic s Hwf Hun Hcur Hrd Hpk I1 Hroom (proposal_fits _ Hok)) as (buf & Hr & Hb).
  eexists (upd _ _ _ _ _), buf. split; [|split; [|exact (Hb Hok)]].
  2: { autorewrite with view. reflexivity. }
  pose proof (room_at _ _ _ _ Hroom) as L1. pose proof (room_owner _ _ _ _ Hroom) as Ho1.
  unfold process_cancel_proposal. rewrite (current_bind ix) by exact Hcur. gov_run.
Qed.

(** The effect of a vote: a signer who shows a stake account with voting power
    for an open proposal adds that power to the tally they choose, and the record
    of it goes to the account they name.  The stake account may belong to anyone
    and to any program (only its bytes are read), and the record may be any account
    of the program that is not yet a record: so the same stake votes again with
    each new record account. *)
Theorem cast_vote_counts ix ic s ia0 ia1 ia2 ia3 ia4 rest signer a1 a2 a3 a4 c p p' v amount power clock :
  ready ix ic s -> resize_room s -> program_key ix s = Some id -> ix_accounts ix = ia0 :: ia1 :: ia2 :: ia3 :: ia4 :: rest ->
  is_signer ia0 = true -> accs s !! index_in_transaction ia0 = Some signer ->
  room s Proposal_SERIALIZED_SIZE ia1 a1 -> Proposal_deserialize (acc_data a1) = Some p -> status p = Active ->
  sysvar_clock ic = Some clock -> clock_epoch clock < voting_ends_epoch p ->
  accs s !! index_in_transaction ia2 = Some a2 -> acc_owner a2 = id -> GovernanceConfig_deserialize (acc_data a2) = Some c -> is_active c = true ->
  accs s !! index_in_transaction ia3 = Some a3 -> voting_power_from_passive_stake_data (acc_data a3) = Some (amount, power) -> power <> 0 ->
  room s VoteRecord_SERIALIZED_SIZE ia4 a4 -> head (acc_data a4) <> Some VOTE_RECORD_DISCRIMINATOR ->
  index_in_transaction ia1 <> index_in_transaction ia4 -> apply_vote v power p = Some p' ->
  exists s' buf1 buf4, process_cast_vote (proposal_id p) v ic s = (Ok tt, s')
    /\ accs s' = alter (with_data buf4) (index_in_transaction ia4) (alter (with_data buf1) (index_in_transaction ia1) (accs s))
    /\ Proposal_deserialize buf1 = Some p'
    /\ VoteRecord_deserialize buf4 = Some {| vr_proposal_id := proposal_id p; voter := acc_key signer; vr_vote := v;
         weight := power; voted_epoch := clock_epoch clock |}.
Proof.
  intros [Hwf Hcur Hun Hd Hck Hkeys] Hrd Hpk Hixs Hsig L0 Hroom1 Hp Hst Hclk Hopen L2 Ho2 Hc Hact L3 Hpow Hnz Hroom4 Htag Hne Hv.
  pose proof (voting_power_range _ _ _ Hpow) as Hpr. pose proof (proposal_ok _ _ Hp) as Hok.
  assert (ix_accounts ix !! 0%nat = Some ia0 /\ ix_accounts ix !! 1%nat = Some ia1 /\ ix_accounts ix !! 2%nat = Some ia2
    /\ ix_accounts ix !! 3%nat = Some ia3 /\ ix_accounts ix !! 4%nat = Some ia4 /\ (5 <= length (ix_accounts ix))%nat)
    as (I0 & I1 & I2 & I3 & I4 & Hn) by (rewrite Hixs; simpl; repeat split; lia).
  pose proof (apply_vote_ok v power p p' Hok (proj1 Hpr) Hv) as Hok'.
  pose proof (record_ok (proposal_id p) (acc_key signer) v power (clock_epoch clock)) as Hrec.
  specialize (Hrec ltac:(apply Hok) (Hkeys _ _ L0) Hpr (proj1 (proj2 (Hck _ Hclk)))).
  destruct (run_save_account PROPOSAL_DISCRIMINATOR _ _ ix 1 ia1 a1 ic s Hwf Hun Hcur Hrd Hpk I1 Hroom1 (proposal_fits _ Hok')) as (buf1 & Hr1 & Hb1).
  destruct (run_save VOTE_RECORD_DISCRIMINATOR VoteRecord_SERIALIZED_SIZE _ ix 4 ia4 a4 ic (upd (index_in_transaction ia1) (with_data buf1)
    (delta s) (resize_delta (tx_accounts s)) s) (wf_upd_data _ _ _ _ _ Hwf) (proj2 (unborrowed_upd _ _ _ _ _) Hun)
    (room_resize _ _ _ _ Hrd) (program_key_data _ _ _ _ _ _ _ Hpk) I4 (room_other _ _ _ _ _ _ _ _ Hne Hroom4) (record_fits _ Hrec)) as (buf4 & Hr4 & Hb4).
  pose proof (room_at _ _ _ _ Hroom1) as L1. pose proof (room_owner _ _ _ _ Hroom1) as Ho1.
  pose proof (room_at _ _ _ _ Hroom4) as L4. pose proof (room_owner _ _ _ _ Hroom4) as Ho4.
  eexists (upd _ _ _ _ (upd _ _ _ _ _)), buf1, buf4. split; [|split; [|exact (conj (Hb1 Hok') (Hb4 Hrec))]].
  2: { autorewrite with view. reflexivity. }
  unfold process_cast_vote. rewrite (current_bind ix) by exact Hcur. gov_run.
Qed.
End progress.
End handlers.

(** ** Stakes as the passive-stake program writes them *)

#[local] Existing Instance PassiveStake.PassiveStakeAccount_value.

Section stakes.
Context `{!Borsh PassiveStake.PassiveStakeAccount}.

(** the Borsh format of a position: its fields, little-endian, in order *)
Hypothesis position_layout : forall p : PassiveStake.PassiveStakeAccount, value_ok p -> to_vec p =
  enc codec_key (PassiveStake.authority p) ++ le_split 8 (PassiveStake.amount p) ++ le_split 8 (PassiveStake.lock_days p)
  ++ le_split 8 (PassiveStake.lock_start p) ++ le_split 8 (PassiveStake.lock_end p) ++ le_split 8 (PassiveStake.unclaimed_rewards p)
  ++ le_split 8 (PassiveStake.last_reward_epoch p) ++ enc codec_bool (PassiveStake.is_permanent p)
  ++ le_split 2 (PassiveStake.vote_weight_bps p).

Lemma read_field (pre tl : list Byte.byte) i n z : length pre = i -> 0 <= z < 2 ^ (Z.of_nat n * 8) ->
  le_combine (take n (drop i (pre ++ le_split n z ++ tl))) = z.
Proof.
  intros <- Hz. rewrite drop_app_length, take_app_le, take_ge by (rewrite length_le_split; lia).
  by rewrite le_combine_split, Z.mod_small.
Qed.

(** The governance program reads from the account of a well-formed position,
    at fixed offsets, exactly the amount and the weight the passive-stake program
    wrote there, and its own table of weights agrees with the weight stored: the
    voting power is [calculate_voting_power] of the amount and the tier.  A
    position without lock has no voting power. *)
Theorem position_voting_power p buf buf' : value_ok p -> PassiveStake.position_ok p -> PassiveStake.serialize_into p buf = Some buf' ->
  voting_power_from_passive_stake_data buf' =
    if PassiveStake.lock_days p =? PassiveStake.TIER_NO_LOCK then None
    else power ← calculate_voting_power (PassiveStake.amount p) (FromPassiveStake (PassiveStake.lock_days p));
         Some (PassiveStake.amount p, power).
Proof.
  intros Hok (Htier & Hpos & Hw & _) Hser. unfold PassiveStake.serialize_into in Hser.
  destruct (Nat.ltb_spec (length buf) PassiveStake.SERIALIZED_SIZE) as [|Hlen]; [done|].
  apply write_tagged_Some in Hser as (Hl & rest & Hbuf). rewrite <- Hl in Hlen. rewrite (position_layout p Hok) in Hbuf.
  assert (le_combine (take 8 (drop 33 buf')) = PassiveStake.amount p) as Ha.
  { rewrite Hbuf, <- !app_assoc, app_comm_cons. apply read_field; [|destruct Hok as (_ & ? & _); lia].
    cbn [length]. by rewrite length_enc_key. }
  assert (le_combine (take 2 (drop 82 buf')) = PassiveStake.vote_weight_bps p) as Hv.
  { rewrite Hbuf, <- !app_assoc, app_comm_cons, !app_assoc, <- app_assoc. apply read_field.
    - rewrite !length_app, !length_le_split, length_enc_bool. cbn [length]. by rewrite length_enc_key.
    - pose proof (PassiveStake.vote_weight_range _ _ Hw). change (2 ^ (Z.of_nat 2 * 8)) with 65536. lia. }
  unfold voting_power_from_passive_stake_data. rewrite Ha, Hv. destruct (Nat.ltb_spec (length buf') 84) as [Hc|_]; [exfalso; cbn in Hlen; lia|].
  rewrite bool_decide_true by (by rewrite Hbuf). cbn [negb]. revert Hw Htier.
  unfold calculate_voting_power, vote_weight_bps, PassiveStake.vote_weight_bps_for_tier, PassiveStake.is_valid_tier, PassiveStake.match_tier.
  repeat case_if; intros Hw Htier; try discriminate Hw; injection Hw as Hw; breflect; first [reflexivity | rewrite <- Hw; reflexivity | exfalso; lia].
Qed.
End stakes.

(** ** Governance on the documented formats *)

(** an array of [n] bytes *)
Definition codec_bytes (n : nat) : Codec (fun l : list Byte.byte => length l = n).
Proof.
  refine {| enc := fun l => l; dec := read_bytes n |}.
  - intros l rest Hl. by apply read_bytes_app.
  - intros bs l rest [_ Hl]%read_bytes_Some. exact Hl.
Defined.

Definition ProposalStatus_codec : Codec (fun _ : ProposalStatus => True).
Proof.
  refine {| enc := fun s => [match s with Draft => Byte.x00 | Active => Byte.x01 | Passed => Byte.x02 | Rejected => Byte.x03 | Vetoed => Byte.x04
              | Timelocked => Byte.x05 | Executed => Byte.x06 | Cancelled => Byte.x07 | Expired => Byte.x08 end];
            dec := fun bs => match bs with
              | Byte.x00 :: r => Some (Draft, r) | Byte.x01 :: r => Some (Active, r) | Byte.x02 :: r => Some (Passed, r)
              | Byte.x03 :: r => Some (Rejected, r) | Byte.x04 :: r => Some (Vetoed, r) | Byte.x05 :: r => Some (Timelocked, r)
              | Byte.x06 :: r => Some (Executed, r) | Byte.x07 :: r => Some (Cancelled, r) | Byte.x08 :: r => Some (Expired, r)
              | _ => None end |}.
  - by intros [].
  - done.
Defined.
Definition Vote_codec : Codec (fun _ : Vote => True).
Proof.
  refine {| enc := fun v => [match v with For => Byte.x00 | Against => Byte.x01 | Abstain => Byte.x02 | Veto => Byte.x03 end];
            dec := fun bs => match bs with
              | Byte.x00 :: r => Some (For, r) | Byte.x01 :: r => Some (Against, r) | Byte.x02 :: r => Some (Abstain, r)
              | Byte.x03 :: r => Some (Veto, r) | _ => None end |}.
  - by intros [].
  - done.
Defined.

Definition ProposalType_codec : Codec (A := ProposalType) value_ok.
Proof.
  refine {| enc := fun t => match t with
              | ParameterChange p v => Byte.x00 :: enc (codec_pair (codec_uint 4) (codec_uint 8)) (p, v)
              | TreasurySpend r a m => Byte.x01 :: enc (codec_pair codec_key (codec_pair (codec_uint 8) (codec_bytes 32))) (r, (a, m))
              | EmergencyUnlock a => Byte.x02 :: enc codec_key a
              | ProgramUpgrade p b => Byte.x03 :: enc (codec_pair codec_key codec_key) (p, b)
              | FeatureToggle f e => Byte.x04 :: enc (codec_pair (codec_uint 4) codec_bool) (f, e)
              | TextProposal => [Byte.x05]
              end;
            dec := fun bs => match bs with
              | Byte.x00 :: bs => '(x, r) ← dec (codec_pair (codec_uint 4) (codec_uint 8)) bs; Some (ParameterChange x.1 x.2, r)
              | Byte.x01 :: bs => '(x, r) ← dec (codec_pair codec_key (codec_pair (codec_uint 8) (codec_bytes 32))) bs;
                                  Some (TreasurySpend x.1 x.2.1 x.2.2, r)
              | Byte.x02 :: bs => '(x, r) ← dec codec_key bs; Some (EmergencyUnlock x, r)
              | Byte.x03 :: bs => '(x, r) ← dec (codec_pair codec_key codec_key) bs; Some (ProgramUpgrade x.1 x.2, r)
              | Byte.x04 :: bs => '(x, r) ← dec (codec_pair (codec_uint 4) codec_bool) bs; Some (FeatureToggle x.1 x.2, r)
              | Byte.x05 :: r => Some (TextProposal, r)
              | _ => None
              end |}.
  - intros [p v|r a m|a|p b|f e|] rest Hok; unfold value_ok, ProposalType_value in Hok; try reflexivity; rewrite <- app_comm_cons;
      rewrite codec_roundtrip; try reflexivity; try exact Hok; cbn [fst snd]; change (2 ^ (8 * Z.of_nat 8)) with (u64_max + 1);
      change (2 ^ (8 * Z.of_nat 4)) with (u32_max + 1).
    + lia.
    + destruct Hok as (Hr & Ha & Hm). refine (conj Hr (conj _ Hm)). lia.
    + lia.
  - intros bs t rest H. destruct bs as [|[] bs]; try discriminate H; try (injection H as <- _; exact I);
      apply bind_Some in H as ([x r] & Hx%codec_range & [= <- _]); try exact Hx; cbn [fst snd] in Hx;
      change (2 ^ (8 * Z.of_nat 8)) with (u64_max + 1) in Hx; change (2 ^ (8 * Z.of_nat 4)) with (u32_max + 1) in Hx.
    + split; lia.
    + destruct Hx as (Hr & Ha & Hm). refine (conj Hr (conj _ Hm)). cbv beta in Ha. lia.
    + destruct Hx as [Hf _]. cbv beta in Hf. unfold value_ok, ProposalType_value. lia.
Defined.

Lemma length_enc_type t : value_ok t -> (length (enc ProposalType_codec t) <= 73)%nat.
Proof.
  intros Ht. unfold ProposalType_codec. cbn [enc]. destruct t; cbn [codec_pair codec_uint codec_bytes enc length fst snd];
    rewrite ?length_app, ?length_enc_key, ?length_le_split, ?length_enc_bool; try lia. destruct Ht as (_ & _ & Hm). lia.
Qed.

Definition GovernanceConfig_codec : Codec (A := GovernanceConfig) value_ok.
Proof.
  refine (codec_map (fun '(b, (k, (t, (v, (q, (p, (ve, (l, (m, n))))))))) =>
            {| is_active := b; authority := k; proposal_threshold := t; voting_period_epochs := v; quorum_bps := q; pass_threshold_bps := p;
               veto_threshold_bps := ve; timelock_epochs := l; emergency_multisig := m; next_proposal_id := n |})
          (fun c => (is_active c, (authority c, (proposal_threshold c, (voting_period_epochs c, (quorum_bps c, (pass_threshold_bps c,
            (veto_threshold_bps c, (timelock_epochs c, (emergency_multisig c, next_proposal_id c)))))))))) _ _
          (codec_pair codec_bool (codec_pair codec_key (codec_pair (codec_uint 8) (codec_pair (codec_uint 8) (codec_pair (codec_uint 2)
            (codec_pair (codec_uint 2) (codec_pair (codec_uint 2) (codec_pair (codec_uint 8) (codec_pair codec_key (codec_uint 8))))))))))).
  - intros [] (Hk & Ht & Hv & Hq & Hp & Hve & Hl & Hm & Hn). split; [reflexivity|]. cbn [fst snd] in *.
    change (2 ^ (8 * Z.of_nat 8)) with (u64_max + 1). change (2 ^ (8 * Z.of_nat 2)) with (u16_max + 1).
    cbn [proposal_threshold voting_period_epochs quorum_bps pass_threshold_bps veto_threshold_bps timelock_epochs next_proposal_id] in *.
    refine (conj I (conj Hk _)). repeat (split; [lia|]). refine (conj Hm _). lia.
  - intros (b & k & t & v & q & p & ve & l & m & n) (_ & Hk & Ht & Hv & Hq & Hp & Hve & Hl & Hm & Hn). cbn [fst snd] in *.
    change (2 ^ (8 * Z.of_nat 8)) with (u64_max + 1) in *. change (2 ^ (8 * Z.of_nat 2)) with (u16_max + 1) in *. cbv beta in *.
    refine (conj Hk _). cbn [proposal_threshold voting_period_epochs quorum_bps pass_threshold_bps veto_threshold_bps timelock_epochs next_proposal_id].
    repeat (split; [lia|]). refine (conj Hm _). cbn [next_proposal_id]. lia.
Defined.
#[local] Instance GovernanceConfig_borsh : Borsh GovernanceConfig := GovernanceConfig_codec.

Definition Proposal_codec : Codec (A := Proposal) value_ok.
Proof.
  refine (codec_map (fun '(i, (k, (t, (h, (ty, (st, (ce, (ve, (ee, (f, (ag, (ab, (vt, ex))))))))))))) =>
            {| proposal_id := i; proposer := k; title := t; description_hash := h; proposal_type := ty; status := st; created_epoch := ce;
               voting_ends_epoch := ve; execution_epoch := ee; votes_for := f; votes_against := ag; votes_abstain := ab; veto_votes := vt;
               executed := ex |})
          (fun p => (proposal_id p, (proposer p, (title p, (description_hash p, (proposal_type p, (status p, (created_epoch p,
            (voting_ends_epoch p, (execution_epoch p, (votes_for p, (votes_against p, (votes_abstain p, (veto_votes p, executed p)))))))))))))) _ _
          (codec_pair (codec_uint 8) (codec_pair codec_key (codec_pair (codec_bytes 64) (codec_pair codec_key (codec_pair ProposalType_codec
            (codec_pair ProposalStatus_codec (codec_pair (codec_uint 8) (codec_pair (codec_uint 8) (codec_pair (codec_uint 8) (codec_pair (codec_uint 8)
            (codec_pair (codec_uint 8) (codec_pair (codec_uint 8) (codec_pair (codec_uint 8) codec_bool)))))))))))))).
  - intros [] ((Hi & Hk & Ht & Hh & Hty & Hc & Hv & He) & Hvotes). split; [reflexivity|]. cbn [fst snd] in *.
    change (2 ^ (8 * Z.of_nat 8)) with (u64_max + 1).
    cbn [proposal_id created_epoch voting_ends_epoch execution_epoch votes_for votes_against votes_abstain veto_votes] in *.
    refine (conj _ (conj Hk (conj Ht (conj Hh (conj Hty (conj I _)))))); [lia|]. repeat (split; [lia|]). exact I.
  - intros (i & k & t & h & ty & st & ce & ve & ee & f & ag & ab & vt & ex) (Hi & Hk & Ht & Hh & Hty & _ & H). cbn [fst snd] in *.
    change (2 ^ (8 * Z.of_nat 8)) with (u64_max + 1) in *. cbv beta in *. unfold value_ok, Proposal_value.
    cbn [proposal_id proposer title description_hash proposal_type created_epoch voting_ends_epoch execution_epoch votes_for votes_against votes_abstain veto_votes].
    split; [|lia]. refine (conj _ (conj Hk (conj Ht (conj Hh (conj Hty _))))); lia.
Defined.
#[local] Instance Proposal_borsh : Borsh Proposal := Proposal_codec.

Definition VoteRecord_codec : Codec (A := VoteRecord) value_ok.
Proof.
  refine (codec_map (fun '(i, (k, (v, (w, e)))) => {| vr_proposal_id := i; voter := k; vr_vote := v; weight := w; voted_epoch := e |})
    (fun r => (vr_proposal_id r, (voter r, (vr_vote r, (weight r, voted_epoch r))))) _ _
    (codec_pair (codec_uint 8) (codec_pair codec_key (codec_pair Vote_codec (codec_pair (codec_uint 8) (codec_uint 8)))))).
  - intros [] (Hi & Hk & Hw & He). split; [reflexivity|]. cbn [fst snd vr_proposal_id voter weight voted_epoch] in *.
    change (2 ^ (8 * Z.of_nat 8)) with (u64_max + 1). refine (conj _ (conj Hk (conj I _))); lia.
  - intros (i & k & v & w & e) (Hi & Hk & _ & Hw & He). cbn [fst snd] in *. change (2 ^ (8 * Z.of_nat 8)) with (u64_max + 1) in *.
    cbv beta in *. refine (conj _ (conj Hk (conj _ _))); cbn [vr_proposal_id weight voted_epoch]; lia.
Defined.
#[local] Instance VoteRecord_borsh : Borsh VoteRecord := VoteRecord_codec.

Lemma demo_proposal_fits (p : Proposal) : value_ok p -> (length (to_vec p) < Proposal_SERIALIZED_SIZE)%nat.
Proof.
  intros ((_ & _ & Ht & _ & Hty & _) & _). unfold to_vec, borsh, Proposal_borsh, Proposal_codec. cbn [codec_map codec_pair enc fst snd].
  rewrite !length_app, !length_enc_key, !length_enc_uint, length_enc_bool. pose proof (length_enc_type _ Hty).
  cbn [codec_bytes ProposalStatus_codec enc length]. rewrite Ht. unfold Proposal_SERIALIZED_SIZE. lia.
Qed.
Lemma demo_record_fits (r : VoteRecord) : value_ok r -> (length (to_vec r) < VoteRecord_SERIALIZED_SIZE)%nat.
Proof.
  intros _. unfold to_vec, borsh, VoteRecord_borsh, VoteRecord_codec. cbn [codec_map codec_pair enc fst snd].
  rewrite !length_app, !length_enc_key, !length_enc_uint. cbn [Vote_codec enc length]. unfold VoteRecord_SERIALIZED_SIZE. lia.
Qed.

(** [bincode]: a 32-bit tag, then the fields; of the proposals only text *)
Definition params_codec := codec_pair (codec_uint 8) (codec_pair (codec_uint 8) (codec_pair (codec_uint 2) (codec_pair (codec_uint 2)
  (codec_pair (codec_uint 2) (codec_pair (codec_uint 8) codec_key))))).
Definition decode_demo (bs : list Byte.byte) : option GovernanceInstruction :=
  '(tag, bs) ← dec (codec_uint 4) bs;
  match tag with
  | 0 => '((a, (t, (v, (q, (p, (ve, (l, m))))))), _) ← dec (codec_pair codec_key params_codec) bs; Some (InitializeGovernance a t v q p ve l m)
  | 1 => '(n, bs) ← dec (codec_uint 8) bs; '(t, bs) ← read_bytes (Z.to_nat n) bs; '((h, ty), _) ← dec (codec_pair codec_key (codec_uint 4)) bs;
         if ty =? 5 then Some (CreateProposal t h TextProposal) else None
  | 2 => '((p, v), _) ← dec (codec_pair (codec_uint 8) (codec_uint 4)) bs;
         (fun v => CastVote p v) <$> (match v with 0 => Some For | 1 => Some Against | 2 => Some Abstain | 3 => Some Veto | _ => None end)
  | 3 => '(p, _) ← dec (codec_uint 8) bs; Some (ExecuteProposal p)
  | 4 => '(p, _) ← dec (codec_uint 8) bs; Some (CancelProposal p)
  | 5 => '(p, _) ← dec (codec_uint 8) bs; Some (VetoProposal p)
  | 6 => Some ActivateGovernance
  | 7 => '((t, (v, (q, (p, (ve, (l, m)))))), _) ← dec params_codec bs; Some (UpdateConfig t v q p ve l m)
  | _ => None
  end.

Lemma params_range bs t v q p ve l m r : dec params_codec bs = Some ((t, (v, (q, (p, (ve, (l, m)))))), r) ->
  in_u64 t /\ in_u64 v /\ in_u16 q /\ in_u16 p /\ in_u16 ve /\ in_u64 l /\ in_pubkey m.
Proof.
  intros (Ht & Hv & Hq & Hp & Hve & Hl & Hm)%codec_range. cbn [fst snd] in *. cbv beta in *.
  change (2 ^ (8 * Z.of_nat 8)) with (u64_max + 1) in *. change (2 ^ (8 * Z.of_nat 2)) with (u16_max + 1) in *.
  repeat (split; [lia|]). exact Hm.
Qed.
Lemma u64_range bs z r : dec (codec_uint 8) bs = Some (z, r) -> in_u64 z.
Proof. intros H%codec_range. cbv beta in H. change (2 ^ (8 * Z.of_nat 8)) with (u64_max + 1) in H. lia. Qed.

Lemma decode_demo_range bs i : decode_demo bs = Some i -> value_ok i.
Proof.
  unfold decode_demo. intros ([tag bs1] & _ & H)%bind_Some. repeat (case_match; try discriminate H); try (injection H as <-; exact I).
  all: clear -H; first
    [ by apply bind_Some in H as ([p r] & Hp%u64_range & [= <-])
    | apply bind_Some in H as ([(t & v & q & p & ve & l & m) r] & H & [= <-]); exact (params_range _ _ _ _ _ _ _ _ _ H)
    | apply bind_Some in H as ([[a (t & v & q & p & ve & l & m)] r] & H & [= <-]);
      apply bind_Some in H as ([a' r1] & Ha%codec_range & ([x r2] & Hx & [= -> -> _])%bind_Some); exact (conj Ha (params_range _ _ _ _ _ _ _ _ _ Hx))
    | apply bind_Some in H as ([[p v] r] & H & (v' & _ & ->)%fmap_Some);
      apply bind_Some in H as ([p' r1] & Hp%u64_range & ([x r2] & _ & [= -> _ _])%bind_Some); exact Hp
    | apply bind_Some in H as ([n b1] & _ & ([t b2] & _ & ([[h ty] b3] & [Hh _]%codec_range & H)%bind_Some)%bind_Some);
      case_match; [injection H as <-; exact (conj Hh I)|done] ].
Qed.
#[local] Instance demo_bincode : GovernanceBincode := {| decode_instruction := decode_demo; decode_range := decode_demo_range |}.

(** The config of a running governance and one a stranger (30) set up with
    themselves as the multisig; a proposal; a stake of 1000 lamports of 40 locked
    for 90 days. *)
Definition demo_config (active : bool) (multisig : Pubkey) : GovernanceConfig :=
  {| is_active := active; authority := 10; proposal_threshold := 0; voting_period_epochs := 5; quorum_bps := 3000; pass_threshold_bps := 5000;
     veto_threshold_bps := 3300; timelock_epochs := 2; emergency_multisig := multisig; next_proposal_id := 1 |}.
Definition demo_proposal : Proposal :=
  {| proposal_id := 0; proposer := 10; title := zero_bytes 64; description_hash := 0; proposal_type := TextProposal; status := Active;
     created_epoch := 1; voting_ends_epoch := 6; execution_epoch := 8; votes_for := 0; votes_against := 0; votes_abstain := 0; veto_votes := 0;
     executed := false |}.
Definition demo_stake : PassiveStake.PassiveStakeAccount :=
  {| PassiveStake.authority := 40; PassiveStake.amount := 1000; PassiveStake.lock_days := 90; PassiveStake.lock_start := 0;
     PassiveStake.lock_end := 7776000; PassiveStake.unclaimed_rewards := 0; PassiveStake.last_reward_epoch := 0; PassiveStake.is_permanent := false;
     PassiveStake.vote_weight_bps := 2000 |}.
Definition config_data (c : GovernanceConfig) : list Byte.byte := GOVERNANCE_CONFIG_DISCRIMINATOR :: to_vec c.
Definition proposal_data (p : Proposal) : list Byte.byte := resize Proposal_SERIALIZED_SIZE (PROPOSAL_DISCRIMINATOR :: to_vec p).
Definition stake_account_data : list Byte.byte :=
  PassiveStake.PASSIVE_STAKE_ACCOUNT_DISCRIMINATOR :: enc PassiveStake.PassiveStakeAccount_codec demo_stake.

Definition demo_accounts : list Account :=
  [ plain_account 30 0 10 []; plain_account 31 id 1 (proposal_data demo_proposal); plain_account 32 id 1 (config_data (demo_config true 11));
    plain_account 33 id 1 (config_data (demo_config false 30)); plain_account 34 PassiveStake.id 1000 stake_account_data;
    plain_account 35 id 1 (zero_bytes 58); plain_account 36 id 1 (zero_bytes 58); plain_account id 0 1 [] ].
Definition demo_ic : InvokeContext :=
  {| sysvar_clock := Some {| clock_slot := 100; clock_epoch := 2; clock_unix_timestamp := 0 |} |}.
Definition demo_signer (i : nat) : bool := (i =? 0)%nat.
Definition demo_writable (i : nat) : bool := (1 <=? i)%nat && (i <? 7)%nat.
Definition demo_instruction (accounts : list nat) (data : list Byte.byte) : SvmInstruction :=
  {| si_program := 7; si_accounts := accounts; si_data := data |}.
Definition demo_vote (record : nat) : SvmInstruction :=
  demo_instruction [0; 1; 2; 4; record]%nat (enc (codec_uint 4) 2 ++ enc (codec_uint 8) 0 ++ enc (codec_uint 4) 0).
Definition demo_cancel : SvmInstruction := demo_instruction [0; 1; 3]%nat (enc (codec_uint 4) 4 ++ enc (codec_uint 8) 0).
Definition demo_enter (si : SvmInstruction) : TransactionContext :=
  enter (H := sdk_instructions_sysvar) demo_signer demo_writable demo_accounts si demo_ic.
Definition vote_state : TransactionContext := Eval vm_compute in demo_enter (demo_vote 5).
Definition cancel_state : TransactionContext := Eval vm_compute in demo_enter demo_cancel.

(** The stranger votes with the stake of 40. *)
Lemma proposal_lifecycle_witness : exists s', Entrypoint demo_ic vote_state = (Ok tt, s')
  /\ exists a', accs s' !! 1%nat = Some a'
    /\ proposal_step (current_ix vote_state) demo_ic vote_state demo_proposal (proposal_data demo_proposal) (acc_data a').
Proof.
  exists (Entrypoint demo_ic vote_state).2. split; [vm_compute; reflexivity|].
  destruct (proposal_lifecycle (current_ix vote_state) demo_ic vote_state (Entrypoint demo_ic vote_state).2 1
    (plain_account 31 id 1 (proposal_data demo_proposal)) demo_proposal) as (a' & Ha & _ & Hstep).
  - apply readyb_ready; vm_compute; reflexivity.
  - vm_compute. reflexivity.
  - vm_compute. reflexivity.
  - vm_compute. reflexivity.
  - exists a'. split; [exact Ha|exact Hstep].
Defined.

(** A wallet sets up a config and creates a proposal under it. *)
Definition setup_accounts : list Account :=
  [ plain_account 30 0 10 []; plain_account 31 id 1 (zero_bytes 104); plain_account 32 id 1 (zero_bytes 512); plain_account id 0 1 [] ].
Definition setup_message : list SvmInstruction :=
  [ {| si_program := 3; si_accounts := [0; 1]%nat; si_data := enc (codec_uint 4) 0 ++ enc (codec_pair codec_key params_codec)
         (30, (0, (5, (3000, (5000, (3300, (2, 30))))))) |};
    {| si_program := 3; si_accounts := [0; 1; 2]%nat; si_data := enc (codec_uint 4) 1 ++ enc (codec_uint 8) 1 ++ [Byte.x61]
         ++ enc codec_key 5 ++ enc (codec_uint 4) 5 |} ].
Lemma governance_well_formed_witness : exists s',
  process_message (H := sdk_instructions_sysvar) demo_signer demo_writable (fun _ => Entrypoint) 0 setup_message demo_ic
    (TransactionContext_new setup_accounts 5 64 2) = (Ok tt, s')
  /\ (exists p, Proposal_deserialize (acc_data (nth 2 (accs s') (plain_account 0 0 0 []))) = Some p) /\ accounts_data id gov_data (accs s').
Proof.
  exists (process_message (H := sdk_instructions_sysvar) demo_signer demo_writable (fun _ => Entrypoint) 0 setup_message demo_ic
    (TransactionContext_new setup_accounts 5 64 2)).2. split; [vm_compute; reflexivity|].
  split; [eexists; vm_compute; reflexivity|].
  refine (governance_well_formed (Hsys := sdk_instructions_sysvar) demo_signer demo_writable (fun _ => Entrypoint) setup_accounts 5 64
    setup_message demo_ic tt _ _ _ _ _ _ _).
  - intros c [= <-]. vm_compute. repeat split; discriminate.
  - vm_compute. discriminate.
  - repeat constructor; vm_compute; try discriminate; reflexivity.
  - intros si a _ _. reflexivity.
  - apply accounts_data_Forall. repeat first [apply Forall_nil_2 | apply Forall_cons_2; [intros _; apply zeroed_gov_data; vm_compute; reflexivity|]].
  - vm_compute. reflexivity.
Defined.

(** an account of an instruction *)
Definition demo_ia (i : nat) (s w : bool) : InstructionAccount := {| index_in_transaction := i; is_signer := s; is_writable := w |}.

Ltac demo_room := split; [vm_compute; reflexivity | reflexivity | reflexivity | apply Nat.leb_le; vm_compute; reflexivity
  | apply Z.leb_le; vm_compute; reflexivity].

(** The stranger cancels the proposal under a config of their own. *)
Lemma any_multisig_cancels_witness : exists s' buf, process_cancel_proposal 0 demo_ic cancel_state = (Ok tt, s')
  /\ accs s' = alter (with_data buf) 1%nat (accs cancel_state)
  /\ Proposal_deserialize buf = Some (with_status Cancelled false demo_proposal).
Proof.
  refine (any_multisig_cancels demo_proposal_fits (current_ix cancel_state) demo_ic cancel_state (demo_ia 0 true false)
    (demo_ia 1 false true) (demo_ia 3 false true) [] (plain_account 30 0 10 []) (plain_account 31 id 1 (proposal_data demo_proposal))
    (plain_account 33 id 1 (config_data (demo_config false 30))) (demo_config false 30) demo_proposal _ _ _ _ _ _ _ _ _ _ _ _ _).
  all: try (vm_compute; reflexivity).
  - apply readyb_ready; vm_compute; reflexivity.
  - vm_compute. split; discriminate.
  - demo_room.
  - apply elem_of_cons. left. reflexivity.
Defined.

(** The stranger votes with the stake of 40: 1000 lamports at weight 0.2. *)
Lemma cast_vote_counts_witness : exists s' buf1 buf4, process_cast_vote 0 For demo_ic vote_state = (Ok tt, s')
  /\ accs s' = alter (with_data buf4) 5%nat (alter (with_data buf1) 1%nat (accs vote_state))
  /\ Proposal_deserialize buf1 = Some (with_votes 200 0 0 0 demo_proposal)
  /\ VoteRecord_deserialize buf4 = Some {| vr_proposal_id := 0; voter := 30; vr_vote := For; weight := 200; voted_epoch := 2 |}.
Proof.
  refine (cast_vote_counts demo_proposal_fits demo_record_fits (current_ix vote_state) demo_ic vote_state (demo_ia 0 true false)
    (demo_ia 1 false true) (demo_ia 2 false true) (demo_ia 4 false true) (demo_ia 5 false true) [] (plain_account 30 0 10 [])
    (plain_account 31 id 1 (proposal_data demo_proposal)) (plain_account 32 id 1 (config_data (demo_config true 11)))
    (plain_account 34 PassiveStake.id 1000 stake_account_data) (plain_account 35 id 1 (zero_bytes 58)) (demo_config true 11) demo_proposal
    (with_votes 200 0 0 0 demo_proposal) For 1000 200 {| clock_slot := 100; clock_epoch := 2; clock_unix_timestamp := 0 |}
    _ _ _ _ _ _ _ _ _ _ _ _ _ _ _ _ _ _ _ _ _ _).
  all: try (vm_compute; reflexivity).
  - apply readyb_ready; vm_compute; reflexivity.
  - vm_compute. split; discriminate.
  - demo_room.
  - discriminate.
  - demo_room.
  - vm_compute. discriminate.
  - discriminate.
Defined.

(** 1000 lamports locked for 90 days vote with 200. *)
Lemma position_voting_power_witness : exists buf,
  @PassiveStake.serialize_into PassiveStake.PassiveStakeAccount_codec demo_stake (zero_bytes 84) = Some buf
  /\ voting_power_from_passive_stake_data buf = Some (1000, 200).
Proof.
  eexists. split; [vm_compute; reflexivity|]. etransitivity.
  - refine (position_voting_power (Borsh0 := PassiveStake.PassiveStakeAccount_codec) _ demo_stake (zero_bytes 84) _ _ _ _).
    + intros p _. unfold to_vec, borsh, PassiveStake.PassiveStakeAccount_codec. reflexivity.
    + vm_compute. repeat split; discriminate.
    + unfold PassiveStake.position_ok. repeat (split; [vm_compute; reflexivity|]). vm_compute. repeat split; discriminate.
    + vm_compute. reflexivity.
  - vm_compute. reflexivity.
Defined.
