(* ===== verification/AccountCache.v ===== *)
(** * The hot-tier account cache

    Models accounts-db/src/account_cache.rs, the LRU cache in front of the
    accounts database, and the parts of accounts-db/src/tiered_storage_config.rs it
    uses.  The cache is a doubly linked list threaded through a vector of nodes,
    with a free list and a map from keys to nodes; the theorems relate it to a plain
    list of entries, most recent first.

    A [NodeIndex] is an [option nat]: [None] is the sentinel [NIL], which is
    [usize::MAX] and no index of a vector.  [None] as the result of an operation is a
    panic (an index out of bounds), or a loop that has not ended within its fuel.
    The time is an argument of the operations that read the clock. *)

From Stdlib Require Import ZArith Lia Permutation.
From stdpp Require Import base numbers list option gmap.
From S2P Require Import Prelude F64.
Local Open Scope Z_scope.

(** ** Configuration and statistics *)

Inductive EvictionPolicy := LRU | LFU | ARC.

(** without the paths of the warm and cold storage *)
Record TieredStorageConfig := {
  hot_cache_size : Z;
  eviction_policy : EvictionPolicy;
  warm_threshold_slots : Z;
  cold_threshold_days : Z;
  enable_state_rent_expiry : bool;
  eviction_batch_size : nat;
  target_utilization : f64
}.

Definition eviction_watermark (c : TieredStorageConfig) : Z :=
  f64_as_u64 (f64_mul (f64_of_Z (hot_cache_size c)) (target_utilization c)).

(** the statistics of the hot tier *)
Record TierStats := {
  hot_accounts : Z;
  hot_size_bytes : Z;
  cache_hit_rate : f64;
  cache_miss_rate : f64;
  total_hits : Z;
  total_misses : Z;
  hot_to_warm_demotions : Z
}.
Definition TierStats_default : TierStats :=
  {| hot_accounts := 0; hot_size_bytes := 0; cache_hit_rate := f64_of_Z 0; cache_miss_rate := f64_of_Z 0; total_hits := 0;
     total_misses := 0; hot_to_warm_demotions := 0 |}.

Definition recalculate_rates (s : TierStats) : TierStats :=
  let total := saturating_add u64_max (total_hits s) (total_misses s) in
  if 0 <? total then
    {| hot_accounts := hot_accounts s; hot_size_bytes := hot_size_bytes s;
       cache_hit_rate := f64_div (f64_of_Z (total_hits s)) (f64_of_Z total);
       cache_miss_rate := f64_div (f64_of_Z (total_misses s)) (f64_of_Z total);
       total_hits := total_hits s; total_misses := total_misses s; hot_to_warm_demotions := hot_to_warm_demotions s |}
  else s.

Definition count_hit (s : TierStats) : TierStats :=
  recalculate_rates
    {| hot_accounts := hot_accounts s; hot_size_bytes := hot_size_bytes s; cache_hit_rate := cache_hit_rate s;
       cache_miss_rate := cache_miss_rate s; total_hits := saturating_add u64_max (total_hits s) 1; total_misses := total_misses s;
       hot_to_warm_demotions := hot_to_warm_demotions s |}.
Definition count_miss (s : TierStats) : TierStats :=
  recalculate_rates
    {| hot_accounts := hot_accounts s; hot_size_bytes := hot_size_bytes s; cache_hit_rate := cache_hit_rate s;
       cache_miss_rate := cache_miss_rate s; total_hits := total_hits s; total_misses := saturating_add u64_max (total_misses s) 1;
       hot_to_warm_demotions := hot_to_warm_demotions s |}.
Definition count_hot (accounts size : Z) (s : TierStats) : TierStats :=
  {| hot_accounts := accounts; hot_size_bytes := size; cache_hit_rate := cache_hit_rate s; cache_miss_rate := cache_miss_rate s;
     total_hits := total_hits s; total_misses := total_misses s; hot_to_warm_demotions := hot_to_warm_demotions s |}.
Definition count_demotions (evicted : Z) (s : TierStats) : TierStats :=
  {| hot_accounts := hot_accounts s; hot_size_bytes := hot_size_bytes s; cache_hit_rate := cache_hit_rate s;
     cache_miss_rate := cache_miss_rate s; total_hits := total_hits s; total_misses := total_misses s;
     hot_to_warm_demotions := saturating_add u64_max (hot_to_warm_demotions s) evicted |}.

Section cache.
(** the account type of the SDK and the length of an account's data *)
Context {AccountSharedData : Type} (account_data_len : AccountSharedData -> Z).

(** ** Data *)

Definition NodeIndex : Type := option nat.
Definition NIL : NodeIndex := None.

Record CachedAccount := {
  ca_data : AccountSharedData;
  last_accessed : Z;
  access_count : Z;
  ca_data_len : Z
}.
Definition CachedAccount_new (data : AccountSharedData) (now : Z) : CachedAccount :=
  {| ca_data := data; last_accessed := now; access_count := 1; ca_data_len := account_data_len data |}.
Definition memory_size (a : CachedAccount) : Z := wrapping_add u64_max 160 (ca_data_len a).

Record LruNode := {
  n_pubkey : Pubkey;
  n_account : CachedAccount;
  n_next : NodeIndex;
  n_prev : NodeIndex
}.
Definition set_next (x : NodeIndex) (n : LruNode) : LruNode :=
  {| n_pubkey := n_pubkey n; n_account := n_account n; n_next := x; n_prev := n_prev n |}.
Definition set_prev (x : NodeIndex) (n : LruNode) : LruNode :=
  {| n_pubkey := n_pubkey n; n_account := n_account n; n_next := n_next n; n_prev := x |}.
Definition set_account (a : CachedAccount) (n : LruNode) : LruNode :=
  {| n_pubkey := n_pubkey n; n_account := a; n_next := n_next n; n_prev := n_prev n |}.

Record AccountCache := {
  c_config : TieredStorageConfig;
  c_map : gmap Pubkey nat;
  c_nodes : list LruNode;
  free_indices : list nat;  (** the top of the stack first *)
  c_head : NodeIndex;
  c_tail : NodeIndex;
  current_size_bytes : Z;
  c_stats : TierStats
}.
Definition with_map (m : gmap Pubkey nat) (c : AccountCache) : AccountCache :=
  {| c_config := c_config c; c_map := m; c_nodes := c_nodes c; free_indices := free_indices c; c_head := c_head c; c_tail := c_tail c;
     current_size_bytes := current_size_bytes c; c_stats := c_stats c |}.
Definition with_nodes (l : list LruNode) (c : AccountCache) : AccountCache :=
  {| c_config := c_config c; c_map := c_map c; c_nodes := l; free_indices := free_indices c; c_head := c_head c; c_tail := c_tail c;
     current_size_bytes := current_size_bytes c; c_stats := c_stats c |}.
Definition with_free (l : list nat) (c : AccountCache) : AccountCache :=
  {| c_config := c_config c; c_map := c_map c; c_nodes := c_nodes c; free_indices := l; c_head := c_head c; c_tail := c_tail c;
     current_size_bytes := current_size_bytes c; c_stats := c_stats c |}.
Definition with_head (i : NodeIndex) (c : AccountCache) : AccountCache :=
  {| c_config := c_config c; c_map := c_map c; c_nodes := c_nodes c; free_indices := free_indices c; c_head := i; c_tail := c_tail c;
     current_size_bytes := current_size_bytes c; c_stats := c_stats c |}.
Definition with_tail (i : NodeIndex) (c : AccountCache) : AccountCache :=
  {| c_config := c_config c; c_map := c_map c; c_nodes := c_nodes c; free_indices := free_indices c; c_head := c_head c; c_tail := i;
     current_size_bytes := current_size_bytes c; c_stats := c_stats c |}.
Definition with_size (z : Z) (c : AccountCache) : AccountCache :=
  {| c_config := c_config c; c_map := c_map c; c_nodes := c_nodes c; free_indices := free_indices c; c_head := c_head c; c_tail := c_tail c;
     current_size_bytes := z; c_stats := c_stats c |}.
Definition with_stats (s : TierStats) (c : AccountCache) : AccountCache :=
  {| c_config := c_config c; c_map := c_map c; c_nodes := c_nodes c; free_indices := free_indices c; c_head := c_head c; c_tail := c_tail c;
     current_size_bytes := current_size_bytes c; c_stats := s |}.

Definition AccountCache_new (config : TieredStorageConfig) : AccountCache :=
  {| c_config := config; c_map := ∅; c_nodes := []; free_indices := []; c_head := NIL; c_tail := NIL; current_size_bytes := 0;
     c_stats := TierStats_default |}.

(** ** Linked list operations *)

Definition upd_node (i : nat) (f : LruNode -> LruNode) (c : AccountCache) : option AccountCache :=
  n ← c_nodes c !! i; Some (with_nodes (<[i := f n]> (c_nodes c)) c).

Definition alloc_node (node : LruNode) (c : AccountCache) : option (nat * AccountCache) :=
  match free_indices c with
  | idx :: rest => c ← upd_node idx (fun _ => node) (with_free rest c); Some (idx, c)
  | [] => Some (length (c_nodes c), with_nodes (c_nodes c ++ [node]) c)
  end.

Definition push_head (idx : nat) (c : AccountCache) : option AccountCache :=
  c ← upd_node idx (set_prev NIL) c;
  c ← upd_node idx (set_next (c_head c)) c;
  c ← (match c_head c with Some h => upd_node h (set_prev (Some idx)) c | None => Some c end);
  let c := with_head (Some idx) c in
  Some (match c_tail c with None => with_tail (Some idx) c | Some _ => c end).

Definition unlink (idx : nat) (c : AccountCache) : option AccountCache :=
  n ← c_nodes c !! idx;
  let prev := n_prev n in
  let next := n_next n in
  c ← (match prev with Some p => upd_node p (set_next next) c | None => Some (with_head next c) end);
  c ← (match next with Some q => upd_node q (set_prev prev) c | None => Some (with_tail prev c) end);
  c ← upd_node idx (set_prev NIL) c;
  upd_node idx (set_next NIL) c.

Definition move_to_head (idx : nat) (c : AccountCache) : option AccountCache :=
  if decide (Some idx = c_head c) then Some c else c ← unlink idx c; push_head idx c.

(** ** Cache operations *)

Definition get (k : Pubkey) (now : Z) (c : AccountCache) : option (option AccountSharedData * AccountCache) :=
  match c_map c !! k with
  | Some node_idx =>
      let c := with_stats (count_hit (c_stats c)) c in
      c ← upd_node node_idx (fun n => set_account
        {| ca_data := ca_data (n_account n); last_accessed := now; access_count := saturating_add u64_max (access_count (n_account n)) 1;
           ca_data_len := ca_data_len (n_account n) |} n) c;
      c ← move_to_head node_idx c;
      n ← c_nodes c !! node_idx;
      Some (Some (ca_data (n_account n)), c)
  | None => Some (None, with_stats (count_miss (c_stats c)) c)
  end.

Definition contains (k : Pubkey) (c : AccountCache) : bool := bool_decide (is_Some (c_map c !! k)).

(** the end of [insert], [remove] and [evict_to_warm] *)
Definition update_hot_stats (c : AccountCache) : AccountCache :=
  with_stats (count_hot (Z.of_nat (size (c_map c))) (current_size_bytes c) (c_stats c)) c.

Definition insert (k : Pubkey) (account : AccountSharedData) (now : Z) (c : AccountCache) : option AccountCache :=
  let cached := CachedAccount_new account now in
  let entry_size := memory_size cached in
  c ← (match c_map c !! k with
       | Some existing_idx =>
           n ← c_nodes c !! existing_idx;
           let old_size := memory_size (n_account n) in
           c ← upd_node existing_idx (set_account cached) c;
           let c := with_size (saturating_add u64_max (saturating_sub (current_size_bytes c) old_size) entry_size) c in
           move_to_head existing_idx c
       | None =>
           '(node_idx, c) ← alloc_node {| n_pubkey := k; n_account := cached; n_next := NIL; n_prev := NIL |} c;
           let c := with_map (<[k := node_idx]> (c_map c)) c in
           c ← push_head node_idx c;
           Some (with_size (saturating_add u64_max (current_size_bytes c) entry_size) c)
       end);
  Some (update_hot_stats c).

Definition remove (k : Pubkey) (c : AccountCache) : option (option AccountSharedData * AccountCache) :=
  match c_map c !! k with
  | Some node_idx =>
      let c := with_map (delete k (c_map c)) c in
      n ← c_nodes c !! node_idx;
      let c := with_size (saturating_sub (current_size_bytes c) (memory_size (n_account n))) c in
      c ← unlink node_idx c;
      let c := update_hot_stats (with_free (node_idx :: free_indices c) c) in
      n ← c_nodes c !! node_idx;
      Some (Some (ca_data (n_account n)), c)
  | None => Some (None, c)
  end.

Definition needs_eviction (c : AccountCache) : bool := eviction_watermark (c_config c) <? current_size_bytes c.

(** the body of both eviction loops: evict the node [idx] *)
Definition evict_node (idx : nat) (c : AccountCache) : option (Pubkey * AccountSharedData * AccountCache) :=
  n ← c_nodes c !! idx;
  let c := with_map (delete (n_pubkey n) (c_map c)) c in
  c ← unlink idx c;
  let c := with_free (idx :: free_indices c) c in
  Some (n_pubkey n, ca_data (n_account n), with_size (saturating_sub (current_size_bytes c) (memory_size (n_account n))) c).

(** the loop of [evict_lru], [count] entries evicted so far *)
Fixpoint evict_lru (fuel : nat) (watermark : Z) (count : nat) (c : AccountCache) (evicted : list (Pubkey * AccountSharedData))
    : option (AccountCache * list (Pubkey * AccountSharedData)) :=
  match fuel with
  | O => None
  | S fuel =>
      if (watermark <? current_size_bytes c) && (count <? eviction_batch_size (c_config c))%nat then
        match c_tail c with
        | Some tail_idx =>
            '(k, d, c) ← evict_node tail_idx c;
            evict_lru fuel watermark (S count) c (evicted ++ [(k, d)])
        | None => Some (c, evicted)
        end
      else Some (c, evicted)
  end.

(** the scan of [evict_lfu], [rest] nodes before the scan limit *)
Fixpoint scan_lfu (rest : nat) (c : AccountCache) (cursor : NodeIndex) (min_count : Z) (min_idx : NodeIndex) : option NodeIndex :=
  match rest, cursor with
  | S rest, Some cur =>
      node ← c_nodes c !! cur;
      if access_count (n_account node) <? min_count
      then scan_lfu rest c (n_next node) (access_count (n_account node)) (Some cur)
      else scan_lfu rest c (n_next node) min_count min_idx
  | _, _ => Some min_idx
  end.

Fixpoint evict_lfu (fuel : nat) (watermark : Z) (count : nat) (c : AccountCache) (evicted : list (Pubkey * AccountSharedData))
    : option (AccountCache * list (Pubkey * AccountSharedData)) :=
  match fuel with
  | O => None
  | S fuel =>
      if (watermark <? current_size_bytes c) && (count <? eviction_batch_size (c_config c))%nat && negb (size (c_map c) =? 0)%nat then
        let scan_limit := Nat.max (size (c_map c) / 4) 1 in
        min_idx ← scan_lfu scan_limit c (c_tail c) u64_max NIL;
        match min_idx with
        | Some idx =>
            '(k, d, c) ← evict_node idx c;
            evict_lfu fuel watermark (S count) c (evicted ++ [(k, d)])
        | None => Some (c, evicted)
        end
      else Some (c, evicted)
  end.

(** fuel: one round per entry and one to see that the cache is empty *)
Definition evict_to_warm (c : AccountCache) : option (list (Pubkey * AccountSharedData) * AccountCache) :=
  let watermark := eviction_watermark (c_config c) in
  let fuel := S (size (c_map c)) in
  '(c, evicted) ← (match eviction_policy (c_config c) with
                   | LRU => evict_lru fuel watermark 0 c []
                   | LFU => evict_lfu fuel watermark 0 c []
                   | ARC => evict_lru fuel watermark 0 c []
                   end);
  Some (evicted, update_hot_stats (with_stats (count_demotions (Z.of_nat (length evicted)) (c_stats c)) c)).

(** ** The specification: a list of entries, the most recent first *)

Definition entry : Type := Pubkey * CachedAccount.

Definition lru_find (k : Pubkey) (es : list entry) : option CachedAccount := snd <$> head (filter (fun e => e.1 = k) es).
Definition lru_remove (k : Pubkey) (es : list entry) : list entry := filter (fun e => e.1 <> k) es.
Definition lru_size (es : list entry) : Z := zsum ((fun e => memory_size e.2) <$> es).

Definition touch (now : Z) (a : CachedAccount) : CachedAccount :=
  {| ca_data := ca_data a; last_accessed := now; access_count := saturating_add u64_max (access_count a) 1; ca_data_len := ca_data_len a |}.

(** evict up to [batch] of the oldest entries, until the rest is below the watermark *)
Fixpoint lru_evict (batch : nat) (watermark : Z) (oldest : list entry) : list (Pubkey * AccountSharedData) * list entry :=
  match batch, oldest with
  | S batch, (k, a) :: rest =>
      if watermark <? lru_size oldest then
        let '(evicted, kept) := lru_evict batch watermark rest in ((k, ca_data a) :: evicted, kept)
      else ([], oldest)
  | _, _ => ([], oldest)
  end.

(** ** Operations and runs *)

Inductive cache_op :=
  | Get (k : Pubkey) (now : Z)
  | Insert (k : Pubkey) (account : AccountSharedData) (now : Z)
  | Remove (k : Pubkey)
  | Evict.
Inductive output :=
  | Found (account : option AccountSharedData)
  | Inserted
  | Evicted (accounts : list (Pubkey * AccountSharedData)).

Definition run_op (op : cache_op) (c : AccountCache) : option (output * AccountCache) :=
  match op with
  | Get k now => '(r, c) ← get k now c; Some (Found r, c)
  | Insert k a now => c ← insert k a now c; Some (Inserted, c)
  | Remove k => '(r, c) ← remove k c; Some (Found r, c)
  | Evict => '(l, c) ← evict_to_warm c; Some (Evicted l, c)
  end.
Fixpoint run (ops : list cache_op) (c : AccountCache) : option (list output * AccountCache) :=
  match ops with
  | [] => Some ([], c)
  | op :: ops => '(o, c) ← run_op op c; '(os, c) ← run ops c; Some (o :: os, c)
  end.

Definition lru_op (config : TieredStorageConfig) (op : cache_op) (es : list entry) : output * list entry :=
  match op with
  | Get k now =>
      match lru_find k es with
      | Some a => (Found (Some (ca_data a)), (k, touch now a) :: lru_remove k es)
      | None => (Found None, es)
      end
  | Insert k a now => (Inserted, (k, CachedAccount_new a now) :: lru_remove k es)
  | Remove k => (Found (ca_data <$> lru_find k es), lru_remove k es)
  | Evict =>
      let '(l, kept) := lru_evict (eviction_batch_size config) (eviction_watermark config) (rev es) in (Evicted l, rev kept)
  end.
Fixpoint lru_run (config : TieredStorageConfig) (ops : list cache_op) (es : list entry) : list output * list entry :=
  match ops with
  | [] => ([], es)
  | op :: ops => let '(o, es) := lru_op config op es in let '(os, es) := lru_run config ops es in (o :: os, es)
  end.

(** the bytes an operation adds *)
Definition op_bytes (op : cache_op) : Z :=
  match op with Insert _ a now => memory_size (CachedAccount_new a now) | _ => 0 end.
Definition inserted_bytes (ops : list cache_op) : Z := zsum (op_bytes <$> ops).

(** ** The linked list *)

Definition hd (q : NodeIndex) (l : list nat) : NodeIndex := match l with [] => q | j :: _ => Some j end.
Definition lst (p : NodeIndex) (l : list nat) : NodeIndex := match last l with Some j => Some j | None => p end.

(** the nodes [l], linked to each other and to [p] and [q] at the ends *)
Fixpoint seg (ns : list LruNode) (p : NodeIndex) (l : list nat) (q : NodeIndex) : Prop :=
  match l with
  | [] => True
  | i :: tl => (exists n, ns !! i = Some n /\ n_prev n = p /\ n_next n = hd q tl) /\ seg ns (Some i) tl q
  end.

Lemma hd_app q l1 l2 : hd q (l1 ++ l2) = hd (hd q l2) l1.
Proof. by destruct l1. Qed.
Lemma lst_cons p i l : lst p (i :: l) = lst (Some i) l.
Proof. unfold lst. rewrite last_cons. by destruct (last l). Qed.
Lemma lst_snoc p l i : lst p (l ++ [i]) = Some i.
Proof. unfold lst. by rewrite last_snoc. Qed.
Lemma lst_app p l1 l2 : lst p (l1 ++ l2) = lst (lst p l1) l2.
Proof. unfold lst. rewrite last_app. by destruct (last l2). Qed.

Lemma seg_app ns p l1 l2 q : seg ns p (l1 ++ l2) q <-> seg ns p l1 (hd q l2) /\ seg ns (lst p l1) l2 q.
Proof.
  revert p. induction l1 as [|i l1 IH]; intros p; [simpl; tauto|]. cbn [app seg]. rewrite IH, hd_app, lst_cons. tauto.
Qed.
Lemma seg_frame ns p l q i n : i ∉ l -> seg ns p l q -> seg (<[i := n]> ns) p l q.
Proof.
  revert p. induction l as [|j l IH]; intros p; [done|]. rewrite not_elem_of_cons. intros [Hne Hni] [(m & Hm & Hp & Hq) Hs].
  split; [|by apply IH]. exists m. by rewrite list_lookup_insert_ne.
Qed.
Lemma seg_grow ns ns' p l q : seg ns p l q -> seg (ns ++ ns') p l q.
Proof.
  revert p. induction l as [|j l IH]; intros p; [done|]. intros [(m & Hm & Hl) Hs]. split; [|by apply IH].
  exists m. split; [by apply lookup_app_l_Some|done].
Qed.
Lemma seg_set_next ns p l j q n q' : j ∉ l -> ns !! j = Some n -> seg ns p (l ++ [j]) q -> seg (<[j := set_next q' n]> ns) p (l ++ [j]) q'.
Proof.
  intros Hj Hn. rewrite !seg_app. cbn [hd seg]. intros [Hs [(m & Hm & Hp & Hq) _]]. rewrite Hn in Hm. injection Hm as <-.
  split; [by apply seg_frame|]. split; [|done]. exists (set_next q' n).
  rewrite list_lookup_insert_eq by (by eapply lookup_lt_Some). done.
Qed.
Lemma seg_set_prev ns p l j q n p' : j ∉ l -> ns !! j = Some n -> seg ns p (j :: l) q -> seg (<[j := set_prev p' n]> ns) p' (j :: l) q.
Proof.
  intros Hj Hn [(m & Hm & Hp & Hq) Hs]. rewrite Hn in Hm. injection Hm as <-. split; [|by apply seg_frame].
  exists (set_prev p' n). rewrite list_lookup_insert_eq by (by eapply lookup_lt_Some). done.
Qed.

(** ** Operations on the list *)

Definition entry_at (ns : list LruNode) (i : nat) : option entry := (fun n => (n_pubkey n, n_account n)) <$> ns !! i.

(** everything but the links *)
Record unlinked_eq (c c' : AccountCache) : Prop := {
  ue_entries j : entry_at (c_nodes c') j = entry_at (c_nodes c) j;
  ue_config : c_config c' = c_config c;
  ue_map : c_map c' = c_map c;
  ue_free : free_indices c' = free_indices c;
  ue_size : current_size_bytes c' = current_size_bytes c
}.
Lemma unlinked_refl c : unlinked_eq c c.
Proof. done. Qed.
Lemma unlinked_trans c1 c2 c3 : unlinked_eq c1 c2 -> unlinked_eq c2 c3 -> unlinked_eq c1 c3.
Proof. intros [He1 ? ? ? ?] [He2 ? ? ? ?]. split; [intros j; by rewrite He2|congruence..]. Qed.

Lemma upd_node_Some i f c n : c_nodes c !! i = Some n -> upd_node i f c = Some (with_nodes (<[i := f n]> (c_nodes c)) c).
Proof. unfold upd_node. by intros ->. Qed.
Lemma unlinked_upd i c n n' : c_nodes c !! i = Some n -> n_pubkey n' = n_pubkey n -> n_account n' = n_account n ->
  unlinked_eq c (with_nodes (<[i := n']> (c_nodes c)) c).
Proof.
  intros Hi Hk Ha. split; [|done..]. intros j. unfold entry_at. simpl. destruct (decide (i = j)) as [->|].
  - rewrite list_lookup_insert_eq by (by eapply lookup_lt_Some). rewrite Hi. simpl. by rewrite Hk, Ha.
  - by rewrite list_lookup_insert_ne.
Qed.

(** the nodes in use, the most recent first *)
Record list_ok (c : AccountCache) (l : list nat) : Prop := {
  lo_seg : seg (c_nodes c) None l None;
  lo_nodup : NoDup l;
  lo_head : c_head c = hd None l;
  lo_tail : c_tail c = lst None l
}.

Lemma unlink_left c l1 i l2 n : NoDup (l1 ++ i :: l2) -> c_nodes c !! i = Some n -> n_prev n = lst None l1 ->
  seg (c_nodes c) None l1 (Some i) -> seg (c_nodes c) (Some i) l2 None -> c_head c = hd None (l1 ++ i :: l2) ->
  exists c1, match n_prev n with Some p => upd_node p (set_next (hd None l2)) c | None => Some (with_head (hd None l2) c) end = Some c1
    /\ unlinked_eq c c1 /\ seg (c_nodes c1) None l1 (hd None l2) /\ c_nodes c1 !! i = Some n /\ seg (c_nodes c1) (Some i) l2 None
    /\ c_head c1 = hd None (l1 ++ l2) /\ c_tail c1 = c_tail c.
Proof.
  intros Hnd Hi Hp Hs1 Hs2 Hh. destruct l1 as [|j l1 _] using rev_ind.
  - rewrite Hp. eexists. split; [reflexivity|]. split_and!; done.
  - rewrite Hp, lst_snoc. rewrite <- app_assoc in Hnd. apply NoDup_app in Hnd as (_ & Hd & Hnd). simpl in Hnd.
    apply NoDup_cons in Hnd as [Hj Hnd]. apply not_elem_of_cons in Hj as [Hji Hj2].
    assert (j ∉ l1) as Hj1 by (intros Hin; apply (Hd _ Hin); left).
    destruct (proj1 (seg_app _ _ _ _ _) Hs1) as [_ [(m & Hm & _) _]].
    eexists. split; [by apply upd_node_Some|]. split; [by eapply unlinked_upd|]. cbn [c_nodes c_head c_tail with_nodes].
    refine (conj _ (conj _ (conj _ (conj _ _)))).
    + by apply seg_set_next with (q := Some i).
    + by rewrite list_lookup_insert_ne.
    + by apply seg_frame.
    + rewrite Hh. by destruct l1.
    + done.
Qed.

Lemma unlink_right c l1 i l2 n : NoDup (l1 ++ i :: l2) -> c_nodes c !! i = Some n -> n_next n = hd None l2 ->
  seg (c_nodes c) None l1 (hd None l2) -> seg (c_nodes c) (Some i) l2 None -> c_tail c = lst None (l1 ++ i :: l2) ->
  exists c1, match n_next n with Some q => upd_node q (set_prev (lst None l1)) c | None => Some (with_tail (lst None l1) c) end = Some c1
    /\ unlinked_eq c c1 /\ seg (c_nodes c1) None l1 (hd None l2) /\ c_nodes c1 !! i = Some n /\ seg (c_nodes c1) (lst None l1) l2 None
    /\ c_head c1 = c_head c /\ c_tail c1 = lst None (l1 ++ l2).
Proof.
  intros Hnd Hi Hq Hs1 Hs2 Ht. destruct l2 as [|j l2].
  - rewrite Hq. eexists. split; [reflexivity|]. split_and!; try done. simpl. by rewrite app_nil_r.
  - rewrite Hq. simpl. apply NoDup_app in Hnd as (_ & Hd & Hnd).
    apply NoDup_cons in Hnd as [Hni Hnd]. apply NoDup_cons in Hnd as [Hj Hnd]. apply not_elem_of_cons in Hni as [Hij _].
    assert (j ∉ l1) as Hj1 by (intros Hin; apply (Hd _ Hin); right; left).
    destruct Hs2 as [(m & Hm & Hp' & Hq') Hs2].
    eexists. split; [by apply upd_node_Some|]. split; [by eapply unlinked_upd|]. cbn [c_nodes c_head c_tail with_nodes].
    refine (conj _ (conj _ (conj _ (conj _ _)))).
    + by apply seg_frame.
    + by rewrite list_lookup_insert_ne.
    + eapply (seg_set_prev _ (Some i)); [done|done|]. split; [|done]. by exists m.
    + done.
    + rewrite Ht, !lst_app, !lst_cons. done.
Qed.

Lemma unlink_spec c l1 i l2 : list_ok c (l1 ++ i :: l2) ->
  exists c', unlink i c = Some c' /\ unlinked_eq c c' /\ list_ok c' (l1 ++ l2).
Proof.
  intros [Hs Hnd Hh Ht]. apply seg_app in Hs as [Hs1 [(n & Hn & Hp & Hq) Hs2]].
  unfold unlink. rewrite Hn. cbn [mbind option_bind].
  destruct (unlink_left c l1 i l2 n) as (c1 & H1 & E1 & Hs1' & Hn1 & Hs2' & Hh1 & Ht1); [done..|].
  rewrite <- Hq in H1. rewrite H1. cbn [mbind option_bind].
  destruct (unlink_right c1 l1 i l2 n) as (c2 & H2 & E2 & Hs1'' & Hn2 & Hs2'' & Hh2 & Ht2); [done..|congruence|].
  rewrite <- Hp in H2. rewrite H2. cbn [mbind option_bind].
  rewrite (upd_node_Some i _ c2 n) by done. cbn [mbind option_bind].
  set (c3 := with_nodes _ c2). assert (c_nodes c3 !! i = Some (set_prev NIL n)) as Hn3
    by (apply list_lookup_insert_eq; by eapply lookup_lt_Some).
  rewrite (upd_node_Some i _ c3 (set_prev NIL n)) by done. eexists. split; [reflexivity|].
  apply NoDup_app in Hnd as (Hnd1 & Hd & [Hi Hnd2]%NoDup_cons). assert (i ∉ l1) by (intros Hin; apply (Hd _ Hin); left).
  split.
  - eapply unlinked_trans; [exact E1|]. eapply unlinked_trans; [exact E2|]. eapply unlinked_trans; [by eapply (unlinked_upd i c2 n (set_prev NIL n))|].
    by eapply (unlinked_upd i c3).
  - split; cbn [c_nodes c_head c_tail with_nodes].
    + apply seg_app. split; by repeat apply seg_frame.
    + apply NoDup_app. split_and!; [done| |done]. intros x Hx Hx2. apply (Hd x Hx). by right.
    + simpl. congruence.
    + done.
Qed.

Lemma push_head_spec c l i n : list_ok c l -> i ∉ l -> c_nodes c !! i = Some n ->
  exists c', push_head i c = Some c' /\ unlinked_eq c c' /\ list_ok c' (i :: l).
Proof.
  intros [Hs Hnd Hh Ht] Hi Hn. unfold push_head. rewrite (upd_node_Some i _ c n) by done. cbn [mbind option_bind].
  set (c1 := with_nodes _ c). assert (c_nodes c1 !! i = Some (set_prev NIL n)) as Hn1 by (apply list_lookup_insert_eq; by eapply lookup_lt_Some).
  rewrite (upd_node_Some i _ c1 (set_prev NIL n)) by done. cbn [mbind option_bind].
  set (c2 := with_nodes _ c1). assert (c_nodes c2 !! i = Some (set_next (c_head c) (set_prev NIL n))) as Hn2
    by (apply list_lookup_insert_eq; by eapply lookup_lt_Some).
  assert (unlinked_eq c c2) as E2 by (eapply unlinked_trans; [by eapply (unlinked_upd i c n (set_prev NIL n))|by eapply (unlinked_upd i c1)]).
  assert (seg (c_nodes c2) None l None) as Hs2 by (by repeat apply seg_frame).
  destruct l as [|j l]; change (c_head c2) with (c_head c); rewrite Hh; cbn [hd mbind option_bind c_tail with_head].
  - change (c_tail c2) with (c_tail c). rewrite Ht. eexists. split; [reflexivity|]. split; [by destruct E2; split|].
    split; simpl; [|by apply NoDup_singleton|done|done]. split; [|done]. eexists. split; [exact Hn2|]. by rewrite Hh.
  - destruct Hs2 as [(m & Hm & Hp & Hq) Hs2]. apply not_elem_of_cons in Hi as [Hij Hil].
    rewrite (upd_node_Some j _ c2 m) by done. cbn [mbind option_bind].
    set (c3 := with_nodes _ c2). assert (unlinked_eq c2 c3) as E3 by (by eapply unlinked_upd).
    change (c_tail c3) with (c_tail c). rewrite Ht, lst_cons.
    assert (exists t, lst (Some j) l = Some t) as [t Et] by (unfold lst; destruct (last l); eauto). rewrite Et.
    eexists. split; [reflexivity|]. split; [by destruct (unlinked_trans _ _ _ E2 E3); split|].
    apply NoDup_cons in Hnd as [Hjl Hnd].
    split; cbn [c_nodes c_head c_tail with_head]; [|by rewrite !NoDup_cons, not_elem_of_cons|done|].
    + split; [|eapply (seg_set_prev _ None); [done|done|by split; [exists m|]]].
      eexists. unfold c3. cbn [c_nodes with_nodes]. rewrite list_lookup_insert_ne by done. split; [exact Hn2|]. by rewrite Hh.
    + change (c_tail c3) with (c_tail c). rewrite Ht, !lst_cons. done.
Qed.

Lemma move_to_head_spec c l1 i l2 : list_ok c (l1 ++ i :: l2) ->
  exists c', move_to_head i c = Some c' /\ unlinked_eq c c' /\ list_ok c' (i :: l1 ++ l2).
Proof.
  intros Hl. pose proof Hl as [Hs Hnd Hh _]. unfold move_to_head. case_decide as E.
  - destruct l1 as [|j l1]; [eauto using unlinked_refl|]. exfalso. rewrite Hh in E. injection E as <-.
    apply NoDup_cons in Hnd as [Hn _]. apply Hn, elem_of_app. right. left.
  - destruct (unlink_spec _ _ _ _ Hl) as (c1 & -> & E1 & Hl1). cbn [mbind option_bind].
    apply seg_app in Hs as [_ [(n & Hn & _) _]].
    assert (exists n1, c_nodes c1 !! i = Some n1) as [n1 Hn1].
    { pose proof (ue_entries _ _ E1 i) as He. unfold entry_at in He. rewrite Hn in He. by apply fmap_Some in He as (n1 & ? & _); eauto. }
    destruct (push_head_spec c1 (l1 ++ l2) i n1) as (c2 & -> & E2 & Hl2); [done| |done|].
    + apply NoDup_app in Hnd as (_ & Hd & [Hi _]%NoDup_cons). rewrite elem_of_app. intros [Hin|Hin]; [|done]. apply (Hd _ Hin). left.
    + eauto using unlinked_trans.
Qed.

(** ** The invariant of the cache *)

Definition entries (c : AccountCache) (l : list nat) : list entry := omap (entry_at (c_nodes c)) l.

Record cache_wf (c : AccountCache) (l : list nat) : Prop := {
  cw_list : list_ok c l;
  cw_map k i : c_map c !! k = Some i <-> i ∈ l /\ fst <$> entry_at (c_nodes c) i = Some k;
  cw_count : size (c_map c) = length l;
  cw_free i : i ∈ free_indices c -> is_Some (entry_at (c_nodes c) i) /\ i ∉ l;
  cw_free_nodup : NoDup (free_indices c);
  cw_size : current_size_bytes c = lru_size (entries c l)
}.

Lemma entries_app c l1 l2 : entries c (l1 ++ l2) = entries c l1 ++ entries c l2.
Proof. apply omap_app. Qed.
Lemma entries_ext c c' l : (forall i, i ∈ l -> entry_at (c_nodes c') i = entry_at (c_nodes c) i) -> entries c' l = entries c l.
Proof. intros H. apply list_omap_ext, Forall_Forall2_diag, Forall_forall. exact H. Qed.
Lemma entries_cons c i l e : entry_at (c_nodes c) i = Some e -> entries c (i :: l) = e :: entries c l.
Proof. unfold entries. simpl. by intros ->. Qed.
Lemma entry_at_lookup ns i e : entry_at ns i = Some e <-> exists n, ns !! i = Some n /\ e = (n_pubkey n, n_account n).
Proof. unfold entry_at. rewrite fmap_Some. done. Qed.

Lemma seg_entry ns p l q i : seg ns p l q -> i ∈ l -> is_Some (entry_at ns i).
Proof.
  revert p. induction l as [|j l IH]; intros p; [by intros _ ?%not_elem_of_nil|]. intros [(n & Hn & _) Hs] [->|Hin]%elem_of_cons.
  - exists (n_pubkey n, n_account n). apply entry_at_lookup. eauto.
  - by eapply IH.
Qed.
Lemma length_entries c l : list_ok c l -> length (entries c l) = length l.
Proof.
  intros [Hs _ _ _]. revert Hs. generalize (None : NodeIndex) at 1. induction l as [|i l IH]; intros p; [done|].
  intros Hs. destruct (seg_entry _ _ _ _ i Hs) as [e He]; [left|]. rewrite (entries_cons _ _ _ _ He). simpl. f_equal. by eapply IH, Hs.
Qed.

(** keys are unique *)
Lemma keys_nodup c l : cache_wf c l -> NoDup (entries c l).*1.
Proof.
  intros [[_ Hnd _ _] Hm _ _ _ _].
  assert (forall i j k, i ∈ l -> j ∈ l -> fst <$> entry_at (c_nodes c) i = Some k -> fst <$> entry_at (c_nodes c) j = Some k -> i = j) as Hinj.
  { intros i j k Hi Hj Ei Ej. pose proof (proj2 (Hm k i) (conj Hi Ei)). pose proof (proj2 (Hm k j) (conj Hj Ej)). congruence. }
  clear Hm. induction l as [|i l IH]; [apply NoDup_nil_2|]. apply NoDup_cons in Hnd as [Hi Hnd]. 
  assert (NoDup (entries c l).*1) as IH' by (apply IH; [done|intros ?????; apply Hinj; by right]).
  change (entries c (i :: l)) with (match entry_at (c_nodes c) i with Some e => e :: entries c l | None => entries c l end).
  destruct (entry_at (c_nodes c) i) as [[k a]|] eqn:E; [|done]. simpl. apply NoDup_cons. split; [|done].
  intros ([k' a'] & -> & (j & Hj & Ej)%list_elem_of_omap)%list_elem_of_fmap. apply Hi.
  rewrite (Hinj i j k'); [done|left|by right|by rewrite E|by rewrite Ej].
Qed.

Lemma filter_none {A} (P : A -> Prop) `{!forall x, Decision (P x)} (l : list A) : (forall x, P x -> x ∉ l) -> filter P l = [].
Proof.
  induction l as [|x l IH]; [done|]. intros Hn. rewrite filter_cons_False by (intros Hx; apply (Hn x Hx); left).
  apply IH. intros y Hy Hin. apply (Hn y Hy). by right.
Qed.
Lemma lru_find_middle k a es1 es2 : NoDup (es1 ++ (k, a) :: es2).*1 -> lru_find k (es1 ++ (k, a) :: es2) = Some a.
Proof.
  rewrite fmap_app. intros (_ & Hd & _)%NoDup_app. unfold lru_find. rewrite filter_app.
  rewrite (filter_none _ es1); [|intros [k' a'] E Hin; simpl in E; subst; apply (Hd k); [|left]; by apply (list_elem_of_fmap_2 fst _ (k, a'))].
  simpl. by rewrite filter_cons_True.
Qed.
Lemma lru_remove_none k es : k ∉ es.*1 -> lru_remove k es = es.
Proof.
  intros Hk. apply filter_all, Forall_forall. intros [k' a] Hin E. apply Hk. apply list_elem_of_fmap. by exists (k', a).
Qed.
Lemma lru_remove_middle k a es1 es2 : NoDup (es1 ++ (k, a) :: es2).*1 -> lru_remove k (es1 ++ (k, a) :: es2) = es1 ++ es2.
Proof.
  rewrite fmap_app. intros (_ & Hd & Hnd)%NoDup_app. unfold lru_remove. rewrite filter_app. simpl in Hnd. apply NoDup_cons in Hnd as [Hk _].
  rewrite filter_cons_False by (simpl; tauto). f_equal; [|by apply lru_remove_none].
  apply lru_remove_none. intros Hin. apply (Hd k Hin). left.
Qed.
Lemma lru_find_none k es : k ∉ es.*1 -> lru_find k es = None.
Proof.
  intros Hk. unfold lru_find. rewrite (filter_none _ es); [done|].
  intros [k' a] E Hin. simpl in E. subst. apply Hk. by apply (list_elem_of_fmap_2 fst _ (k, a)).
Qed.
Lemma lru_size_cons k a es : lru_size ((k, a) :: es) = memory_size a + lru_size es.
Proof. done. Qed.
Lemma lru_size_app es1 es2 : lru_size (es1 ++ es2) = lru_size es1 + lru_size es2.
Proof. unfold lru_size. by rewrite fmap_app, zsum_app. Qed.

(** ** What the operations do to the invariant *)

Definition same_but (c c' : AccountCache) (i : nat) (e : entry) : Prop :=
  entry_at (c_nodes c') i = Some e /\ forall j, j <> i -> entry_at (c_nodes c') j = entry_at (c_nodes c) j.

Lemma entries_same_but c c' i e l : same_but c c' i e -> i ∉ l -> entries c' l = entries c l.
Proof. intros [_ Hs] Hi. apply entries_ext. intros j Hj. apply Hs. by intros ->. Qed.

Lemma lookup_map c l k i : cache_wf c l -> c_map c !! k = Some i ->
  exists l1 l2 a, l = l1 ++ i :: l2 /\ entry_at (c_nodes c) i = Some (k, a)
    /\ entries c l = entries c l1 ++ (k, a) :: entries c l2 /\ (i ∉ l1) /\ (i ∉ l2).
Proof.
  intros Hc [Hin Hk]%(cw_map _ _ Hc). apply fmap_Some in Hk as ([k' a] & He & Hk). simpl in Hk. subst k'.
  apply list_elem_of_split in Hin as (l1 & l2 & ->). exists l1, l2, a. split; [done|]. split; [done|]. split.
  - by rewrite entries_app, (entries_cons _ _ _ _ He).
  - pose proof (lo_nodup _ _ (cw_list _ _ Hc)) as Hnd. apply NoDup_app in Hnd as (_ & Hd & [Hi _]%NoDup_cons).
    split; [|done]. intros Hin. apply (Hd _ Hin). left.
Qed.
Lemma lookup_none c l k : cache_wf c l -> c_map c !! k = None -> k ∉ (entries c l).*1.
Proof.
  intros Hc Hk ([k' a] & -> & (i & Hi & He)%list_elem_of_omap)%list_elem_of_fmap.
  assert (c_map c !! k' = Some i) by (apply (cw_map _ _ Hc); by rewrite He). simpl in Hk. congruence.
Qed.

(** the node [i] moves to the front, with a new account *)
Lemma wf_move c c' l1 i l2 k a a' : cache_wf c (l1 ++ i :: l2) -> entry_at (c_nodes c) i = Some (k, a) ->
  list_ok c' (i :: l1 ++ l2) -> same_but c c' i (k, a') -> c_map c' = c_map c -> free_indices c' = free_indices c ->
  current_size_bytes c' = current_size_bytes c - memory_size a + memory_size a' ->
  cache_wf c' (i :: l1 ++ l2) /\ entries c' (i :: l1 ++ l2) = (k, a') :: entries c l1 ++ entries c l2.
Proof.
  intros [[_ Hnd _ _] Hm Hn Hf Hfn Hsz] He Hl' [Hi Hj] Em Ef Es.
  assert (entries c' (i :: l1 ++ l2) = (k, a') :: entries c l1 ++ entries c l2) as Hes.
  { rewrite (entries_cons _ _ _ _ Hi). f_equal. rewrite <- entries_app. apply (entries_same_but _ _ i (k, a')); [done|].
    pose proof (lo_nodup _ _ Hl') as Hnd'. by apply NoDup_cons in Hnd' as [? _]. }
  split; [|done]. split; [done| | | |by rewrite Ef|].
  - intros k' j. rewrite Em, Hm. destruct (decide (j = i)) as [->|Hne].
    + rewrite Hi, He. simpl. rewrite !elem_of_app, !elem_of_cons. tauto.
    + rewrite (Hj _ Hne). rewrite !elem_of_cons, !elem_of_app, !elem_of_cons. tauto.
  - rewrite Em, Hn. simpl. rewrite !length_app. simpl. lia.
  - intros j [[e Hje] Hjl]%(eq_ind_r (fun f => j ∈ f -> _) (Hf j) Ef). rewrite elem_of_app, elem_of_cons in Hjl.
    rewrite elem_of_cons, elem_of_app. assert (j <> i) as Hne by tauto. rewrite (Hj _ Hne). split; [eauto|tauto].
  - rewrite Es, Hsz, Hes, entries_app, (entries_cons _ _ _ _ He). rewrite lru_size_cons, !lru_size_app, lru_size_cons. lia.
Qed.

(** the node [i] leaves the list *)
Lemma wf_drop c c' l1 i l2 k a : cache_wf c (l1 ++ i :: l2) -> entry_at (c_nodes c) i = Some (k, a) ->
  list_ok c' (l1 ++ l2) -> (forall j, entry_at (c_nodes c') j = entry_at (c_nodes c) j) -> c_map c' = delete k (c_map c) ->
  free_indices c' = i :: free_indices c -> current_size_bytes c' = current_size_bytes c - memory_size a ->
  cache_wf c' (l1 ++ l2) /\ entries c' (l1 ++ l2) = entries c l1 ++ entries c l2.
Proof.
  intros [[_ Hnd _ _] Hm Hn Hf Hfn Hsz] He Hl' Hj Em Ef Es.
  assert (entries c' (l1 ++ l2) = entries c l1 ++ entries c l2) as Hes.
  { rewrite <- entries_app. apply entries_ext. intros j _. apply Hj. }
  assert (c_map c !! k = Some i) as Hki by (apply Hm; rewrite He, elem_of_app, elem_of_cons; tauto).
  apply NoDup_app in Hnd as (_ & Hd & [Hi2 _]%NoDup_cons). assert (i ∉ l1) as Hi1 by (intros Hin; apply (Hd _ Hin); left).
  split; [|done]. split; [done| | | | |].
  - intros k' j. rewrite Em, Hj. destruct (decide (k' = k)) as [->|Hne].
    + rewrite lookup_delete_eq. split; [done|]. intros [Hin Hjk].
      assert (c_map c !! k = Some j) as Hkj by (apply Hm; split; [|done]; rewrite elem_of_app, elem_of_cons; rewrite elem_of_app in Hin; tauto).
      rewrite Hki in Hkj. injection Hkj as <-. rewrite elem_of_app in Hin. tauto.
    + rewrite lookup_delete_ne by done. rewrite Hm, !elem_of_app, elem_of_cons. split; [|tauto]. intros [[H1|[->|H2]] Hk]; [tauto| |tauto].
      rewrite He in Hk. simpl in Hk. congruence.
  - rewrite Em, map_size_delete_Some by eauto. rewrite Hn, !length_app. simpl. lia.
  - intros j. rewrite Ef, elem_of_cons, Hj. rewrite elem_of_app. intros [->|Hin].
    + rewrite He. split; [eauto|tauto].
    + destruct (Hf _ Hin) as [Hs Hnl]. rewrite elem_of_app, elem_of_cons in Hnl. tauto.
  - rewrite Ef. apply NoDup_cons. split; [|done]. intros Hin. destruct (Hf _ Hin) as [_ Hnl]. apply Hnl. rewrite elem_of_app, elem_of_cons. tauto.
  - rewrite Es, Hsz, Hes, entries_app, (entries_cons _ _ _ _ He). rewrite !lru_size_app, lru_size_cons. lia.
Qed.

(** a new node [i] at the front *)
Lemma wf_add c c' l i k a : cache_wf c l -> c_map c !! k = None -> i ∉ l -> i ∉ free_indices c' -> NoDup (free_indices c') ->
  (forall j, j ∈ free_indices c' -> j ∈ free_indices c) ->
  list_ok c' (i :: l) -> same_but c c' i (k, a) -> c_map c' = <[k := i]> (c_map c) -> current_size_bytes c' = current_size_bytes c + memory_size a ->
  cache_wf c' (i :: l) /\ entries c' (i :: l) = (k, a) :: entries c l.
Proof.
  intros [[_ Hnd _ _] Hm Hn Hf Hfn Hsz] Hk Hi Hif Hfn' Hff Hl' [He Hj] Em Es.
  assert (entries c' (i :: l) = (k, a) :: entries c l) as Hes.
  { rewrite (entries_cons _ _ _ _ He). f_equal. by apply (entries_same_but _ _ i (k, a)). }
  split; [|done]. split; [done| | | |done|].
  - intros k' j. rewrite Em. destruct (decide (k' = k)) as [->|Hne].
    + rewrite lookup_insert_eq. split; [intros [= <-]; rewrite He; split; [left|done]|]. intros [[->|Hin]%elem_of_cons Hjk]; [done|].
      exfalso. rewrite Hj in Hjk by (by intros ->). assert (c_map c !! k = Some j) by (by apply Hm). congruence.
    + rewrite lookup_insert_ne by done. rewrite Hm, elem_of_cons. destruct (decide (j = i)) as [->|Hji].
      * rewrite He. simpl. split; [tauto|]. intros [_ E]. congruence.
      * rewrite (Hj _ Hji). tauto.
  - rewrite Em, map_size_insert_None, Hn by done. done.
  - intros j Hin. destruct (Hf _ (Hff _ Hin)) as [Hs Hnl]. assert (j <> i) as Hji by (by intros ->). rewrite (Hj _ Hji), elem_of_cons. tauto.
  - rewrite Es, Hsz, Hes, lru_size_cons. lia.
Qed.

(** ** Each operation refines its specification *)

Lemma memory_size_range a : 0 <= memory_size a <= u64_max.
Proof. unfold memory_size, wrapping_add. pose proof (Z.mod_pos_bound (160 + ca_data_len a) (u64_max + 1)). lia. Qed.
Lemma lru_size_nonneg es : 0 <= lru_size es.
Proof. apply zsum_nonneg, Forall_fmap, Forall_forall. intros e _. simpl. pose proof (memory_size_range e.2). lia. Qed.

Lemma seg_same_links ns p l q i n n' : ns !! i = Some n -> n_prev n' = n_prev n -> n_next n' = n_next n ->
  seg ns p l q -> seg (<[i := n']> ns) p l q.
Proof.
  intros Hn Hp Hq. revert p. induction l as [|j l IH]; intros p; [done|]. intros [(m & Hm & Hmp & Hmq) Hs]. split; [|by apply IH].
  destruct (decide (i = j)) as [->|Hne].
  - rewrite Hn in Hm. injection Hm as <-. exists n'. rewrite list_lookup_insert_eq by (by eapply lookup_lt_Some). split_and!; congruence.
  - exists m. by rewrite list_lookup_insert_ne.
Qed.

(** a new account in the node [i] *)
Lemma set_account_ok c l i k a a' : list_ok c l -> entry_at (c_nodes c) i = Some (k, a) ->
  exists n, c_nodes c !! i = Some n /\ n_pubkey n = k /\ n_account n = a
    /\ let c' := with_nodes (<[i := set_account a' n]> (c_nodes c)) c in list_ok c' l /\ same_but c c' i (k, a').
Proof.
  intros [Hs Hnd Hh Ht] (n & Hn & [= -> ->])%entry_at_lookup. exists n. split_and!; [done..|]. split.
  - split; [by eapply seg_same_links|done..].
  - split; simpl.
    + apply entry_at_lookup. eexists. split; [apply list_lookup_insert_eq; by eapply lookup_lt_Some|done].
    + intros j Hj. unfold entry_at. by rewrite list_lookup_insert_ne.
Qed.
Lemma same_but_unlinked c c1 c2 i e : same_but c c1 i e -> unlinked_eq c1 c2 -> same_but c c2 i e.
Proof. intros [Hi Hj] [He _ _ _ _]. split; [by rewrite He|]. intros j Hne. rewrite He. by apply Hj. Qed.
Lemma same_but_lookup c c' i e : same_but c c' i e -> exists n, c_nodes c' !! i = Some n /\ e = (n_pubkey n, n_account n).
Proof. intros [Hi _]. by apply entry_at_lookup in Hi. Qed.

(** an operation that returns [o] and leaves the entries [es] *)
Definition refines {A} (c : AccountCache) (m : option (A * AccountCache)) (o : A) (es : list entry) : Prop :=
  exists c' l', m = Some (o, c') /\ cache_wf c' l' /\ c_config c' = c_config c /\ entries c' l' = es.

Lemma wf_with_stats c l st : cache_wf c l -> cache_wf (with_stats st c) l.
Proof. intros [[] ? ? ? ? ?]. constructor; [constructor|..]; assumption. Qed.

Lemma get_refines c l k now : cache_wf c l ->
  refines c (get k now c) (ca_data <$> lru_find k (entries c l))
    (match lru_find k (entries c l) with Some a => (k, touch now a) :: lru_remove k (entries c l) | None => entries c l end).
Proof.
  intros Hc. unfold get. destruct (c_map c !! k) as [i|] eqn:Ek.
  - pose proof (keys_nodup _ _ Hc) as Hnd. destruct (lookup_map _ _ _ _ Hc Ek) as (l1 & l2 & a & -> & He & Hes & _).
    rewrite Hes in *. rewrite lru_find_middle, lru_remove_middle by done. set (c0 := with_stats _ c).
    destruct (set_account_ok c0 (l1 ++ i :: l2) i k a (touch now a)) as (n & Hn & <- & <- & Hl1 & Hb1); [by destruct (cw_list _ _ Hc)|done|].
    rewrite (upd_node_Some i _ c0 n) by done. cbn [mbind option_bind]. fold (touch now (n_account n)).
    destruct (move_to_head_spec _ _ _ _ Hl1) as (c2 & -> & E2 & Hl2). cbn [mbind option_bind].
    pose proof (same_but_unlinked _ _ _ _ _ Hb1 E2) as Hb2. destruct (same_but_lookup _ _ _ _ Hb2) as (n2 & -> & E). pose proof (f_equal (fun e => ca_data e.2) E) as Ha2. simpl in Ha2.
    destruct E2 as [_ E2c E2m E2f E2s]. destruct (wf_move c c2 l1 i l2 (n_pubkey n) (n_account n) (touch now (n_account n))) as [Hc2 Hes2]; [done..| |].
    { rewrite E2s. unfold memory_size. simpl. lia. }
    exists c2, (i :: l1 ++ l2). cbn [mbind option_bind]. rewrite <- Ha2. by refine (conj _ (conj _ (conj _ _))).
  - pose proof (lookup_none _ _ _ Hc Ek) as Hk. rewrite lru_find_none by done. eexists _, l. split; [reflexivity|].
    split_and!; [by apply wf_with_stats|done|done].
Qed.
Lemma wf_update_hot_stats c l : cache_wf c l -> cache_wf (update_hot_stats c) l.
Proof. apply wf_with_stats. Qed.

Lemma insert_existing c l k i a now : cache_wf c l -> c_map c !! k = Some i ->
  lru_size (entries c l) + memory_size (CachedAccount_new a now) <= u64_max ->
  exists c' l', insert k a now c = Some c' /\ cache_wf c' l' /\ c_config c' = c_config c
    /\ entries c' l' = (k, CachedAccount_new a now) :: lru_remove k (entries c l).
Proof.
  intros Hc Ek Hroom. unfold insert. rewrite Ek. set (new := CachedAccount_new a now) in *.
  pose proof (keys_nodup _ _ Hc) as Hnd. destruct (lookup_map _ _ _ _ Hc Ek) as (l1 & l2 & old & -> & He & Hes & _).
  pose proof (cw_size _ _ Hc) as Hsz. rewrite Hes in *. rewrite lru_remove_middle by done.
  rewrite lru_size_app, lru_size_cons in Hsz, Hroom.
  destruct (set_account_ok c (l1 ++ i :: l2) i k old new) as (n & Hn & <- & <- & Hl1 & Hb1); [by destruct (cw_list _ _ Hc)|done|].
  rewrite Hn. cbn [mbind option_bind]. rewrite (upd_node_Some i _ c n) by done. cbn [mbind option_bind].
  set (c1 := with_nodes _ c) in *. set (c2 := with_size _ c1).
  assert (list_ok c2 (l1 ++ i :: l2)) as Hl2 by (by destruct Hl1; split).
  destruct (move_to_head_spec _ _ _ _ Hl2) as (c3 & -> & E3 & Hl3). cbn [mbind option_bind].
  assert (same_but c c3 i (n_pubkey n, new)) as Hb3 by (by apply (same_but_unlinked c c2)).
  destruct E3 as [_ E3c E3m E3f E3s]. destruct (wf_move c c3 l1 i l2 (n_pubkey n) (n_account n) new) as [Hc3 Hes3]; [done..| |].
  { rewrite E3s. simpl. pose proof (memory_size_range new). pose proof (memory_size_range (n_account n)).
    pose proof (lru_size_nonneg (entries c l1)). pose proof (lru_size_nonneg (entries c l2)).
    unfold saturating_add, saturating_sub. lia. }
  eexists _, (i :: l1 ++ l2). split; [reflexivity|]. by refine (conj (wf_update_hot_stats _ _ Hc3) (conj _ _)).
Qed.

(** the new node: a freed slot or one more *)
Lemma alloc_node_spec c l node : cache_wf c l ->
  exists i c', alloc_node node c = Some (i, c') /\ i ∉ l /\ i ∉ free_indices c' /\ NoDup (free_indices c')
    /\ (forall j, j ∈ free_indices c' -> j ∈ free_indices c) /\ list_ok c' l /\ same_but c c' i (n_pubkey node, n_account node)
    /\ c_map c' = c_map c /\ current_size_bytes c' = current_size_bytes c /\ c_config c' = c_config c.
Proof.
  intros [[Hs Hnd Hh Ht] Hm Hn Hf Hfn Hsz]. unfold alloc_node. destruct (free_indices c) as [|i rest] eqn:Ef.
  - exists (length (c_nodes c)). eexists. split; [reflexivity|]. simpl. rewrite Ef.
    assert (length (c_nodes c) ∉ l) as Hni.
    { intros Hin. destruct (seg_entry _ _ _ _ _ Hs Hin) as [e (n & Hl & _)%entry_at_lookup]. apply lookup_lt_Some in Hl. lia. }
    refine (conj Hni (conj _ (conj _ (conj _ (conj _ (conj _ _)))))); [by intros ?%not_elem_of_nil|done|done| | |done].
    + split; [by apply seg_grow|done..].
    + split; simpl; unfold entry_at.
      * by rewrite list_lookup_middle.
      * intros j Hj. destruct (decide (j < length (c_nodes c))%nat); [by rewrite lookup_app_l|].
        rewrite !lookup_ge_None_2; [done|lia|]. rewrite length_app. simpl. lia.
  - destruct (Hf i) as [[e (n & Hl & _)%entry_at_lookup] Hil]; [left|]. apply NoDup_cons in Hfn as [Hi Hfn].
    rewrite (upd_node_Some i _ _ n) by done. exists i. eexists. split; [reflexivity|]. simpl.
    refine (conj Hil (conj Hi (conj Hfn (conj _ (conj _ (conj _ _)))))); [by right| | |done].
    + split; [by apply seg_frame|done..].
    + split; simpl; unfold entry_at.
      * by rewrite list_lookup_insert_eq by (by eapply lookup_lt_Some).
      * intros j Hj. by rewrite list_lookup_insert_ne.
Qed.

Lemma insert_new c l k a now : cache_wf c l -> c_map c !! k = None ->
  lru_size (entries c l) + memory_size (CachedAccount_new a now) <= u64_max ->
  exists c' l', insert k a now c = Some c' /\ cache_wf c' l' /\ c_config c' = c_config c
    /\ entries c' l' = (k, CachedAccount_new a now) :: lru_remove k (entries c l).
Proof.
  intros Hc Ek Hroom. unfold insert. rewrite Ek. set (new := CachedAccount_new a now) in *.
  rewrite lru_remove_none by (by apply lookup_none). set (node := Build_LruNode _ _ _ _).
  destruct (alloc_node_spec c l node Hc) as (i & c1 & -> & Hil & Hif & Hfn & Hff & Hl1 & Hb1 & Em & Es & Ec). cbn [mbind option_bind].
  set (c2 := with_map _ c1). assert (list_ok c2 l) as Hl2 by (by destruct Hl1; split).
  destruct (same_but_lookup _ _ _ _ Hb1) as (n & Hn & _).
  destruct (push_head_spec c2 l i n Hl2 Hil Hn) as (c3 & -> & E3 & Hl3). cbn [mbind option_bind].
  assert (same_but c c3 i (k, new)) as Hb3 by (by apply (same_but_unlinked c c2)).
  destruct E3 as [_ E3c E3m E3f E3s]. set (c4 := with_size _ c3).
  destruct (wf_add c c4 l i k new) as [Hc4 Hes4]; [done|done|done|by simpl; rewrite E3f|by simpl; rewrite E3f|by simpl; rewrite E3f| |done| | |].
  - by destruct Hl3; split.
  - simpl. rewrite E3m. simpl. by rewrite Em.
  - simpl. rewrite E3s. simpl. rewrite Es, (cw_size _ _ Hc). unfold saturating_add. lia.
  - eexists _, (i :: l). split; [reflexivity|]. refine (conj (wf_update_hot_stats _ _ Hc4) (conj _ Hes4)). simpl. by rewrite E3c.
Qed.

(** the node [i] is unlinked and freed *)
Lemma drop_refines c l1 i l2 k a : cache_wf c (l1 ++ i :: l2) -> entry_at (c_nodes c) i = Some (k, a) ->
  exists n, c_nodes c !! i = Some n /\ n_pubkey n = k /\ n_account n = a /\
  forall z, exists c1, unlink i (with_size z (with_map (delete k (c_map c)) c)) = Some c1
    /\ (exists n1, c_nodes c1 !! i = Some n1 /\ n_account n1 = a) /\ current_size_bytes c1 = z /\ c_config c1 = c_config c
    /\ forall c', c_nodes c' = c_nodes c1 -> c_head c' = c_head c1 -> c_tail c' = c_tail c1 -> c_map c' = c_map c1 ->
         free_indices c' = i :: free_indices c1 ->
         current_size_bytes c' = current_size_bytes c - memory_size a ->
         cache_wf c' (l1 ++ l2) /\ entries c' (l1 ++ l2) = entries c l1 ++ entries c l2.
Proof.
  intros Hc He. pose proof He as (n & Hn & [= -> ->])%entry_at_lookup. exists n. split_and!; [done..|]. intros z.
  assert (list_ok (with_size z (with_map (delete (n_pubkey n) (c_map c)) c)) (l1 ++ i :: l2)) as Hl by (by destruct (cw_list _ _ Hc); split).
  destruct (unlink_spec _ _ _ _ Hl) as (c1 & Hu & [He1 Ec1 Em1 Ef1 Es1] & Hl1). exists c1. split; [done|]. split.
  { pose proof (He1 i) as Hi. simpl in Hi. rewrite He in Hi. apply entry_at_lookup in Hi as (n1 & Hn1 & [= _ Ha]). eauto. }
  split; [done|]. split; [done|]. intros c' En Eh Et Em' Ef Es.
  apply (wf_drop c c' l1 i l2 (n_pubkey n) (n_account n)); [done|done| | | | |done].
  - destruct Hl1. split; congruence.
  - intros j. rewrite En. apply He1.
  - rewrite Em', Em1. done.
  - rewrite Ef, Ef1. done.
Qed.

Lemma remove_refines c l k : cache_wf c l ->
  refines c (remove k c) (ca_data <$> lru_find k (entries c l)) (lru_remove k (entries c l)).
Proof.
  intros Hc. unfold remove. destruct (c_map c !! k) as [i|] eqn:Ek.
  - pose proof (keys_nodup _ _ Hc) as Hnd. destruct (lookup_map _ _ _ _ Hc Ek) as (l1 & l2 & a & -> & He & Hes & _).
    pose proof (cw_size _ _ Hc) as Hsz. rewrite Hes in *. rewrite lru_find_middle, lru_remove_middle by done.
    destruct (drop_refines _ _ _ _ _ _ Hc He) as (n & Hn & <- & <- & Hd). cbn [c_nodes with_map]. rewrite Hn. cbn [mbind option_bind].
    destruct (Hd (saturating_sub (current_size_bytes c) (memory_size (n_account n)))) as (c1 & Hu & (n1 & Hn1 & Ha1) & Hz & Hcfg & Hw). cbn [current_size_bytes with_map]. rewrite Hu. cbn [mbind option_bind].
    cbn [c_nodes update_hot_stats with_stats with_free]. rewrite Hn1. cbn [mbind option_bind]. rewrite Ha1.
    eexists _, (l1 ++ l2). split; [reflexivity|]. edestruct Hw as [Hc' Hes']; [..|split; [by apply wf_update_hot_stats|done]]; try done.
    simpl. rewrite Hz. simpl. rewrite Hsz, lru_size_app, lru_size_cons.
    pose proof (lru_size_nonneg (entries c l1)). pose proof (lru_size_nonneg (entries c l2)). unfold saturating_sub. lia.
  - pose proof (lookup_none _ _ _ Hc Ek) as Hk. rewrite lru_find_none, lru_remove_none by done. by exists c, l.
Qed.
Lemma refines_insert c l k a now : cache_wf c l -> lru_size (entries c l) + memory_size (CachedAccount_new a now) <= u64_max ->
  exists c' l', insert k a now c = Some c' /\ cache_wf c' l' /\ c_config c' = c_config c
    /\ entries c' l' = (k, CachedAccount_new a now) :: lru_remove k (entries c l).
Proof. intros Hc. destruct (c_map c !! k) as [i|] eqn:Ek; [by eapply insert_existing|by apply insert_new]. Qed.

(** ** Eviction *)

Lemma lru_size_rev es : lru_size (rev es) = lru_size es.
Proof.
  induction es as [|[k a] es IH]; [done|]. simpl rev. rewrite lru_size_app, IH, !lru_size_cons. change (lru_size []) with 0. lia.
Qed.

Lemma last_entry c l i : cache_wf c (l ++ [i]) -> exists k a, entry_at (c_nodes c) i = Some (k, a) /\ entries c (l ++ [i]) = entries c l ++ [(k, a)].
Proof.
  intros Hc. destruct (seg_entry _ _ _ _ i (lo_seg _ _ (cw_list _ _ Hc))) as [[k a] He]; [rewrite elem_of_app, elem_of_cons; tauto|].
  exists k, a. split; [done|]. by rewrite entries_app, (entries_cons _ _ _ _ He).
Qed.

Lemma evict_node_refines c l i k a : cache_wf c (l ++ [i]) -> entry_at (c_nodes c) i = Some (k, a) ->
  exists c', evict_node i c = Some (k, ca_data a, c') /\ cache_wf c' l /\ c_config c' = c_config c /\ entries c' l = entries c l.
Proof.
  intros Hc He. pose proof (cw_size _ _ Hc) as Hsz. rewrite entries_app, (entries_cons _ _ _ _ He), lru_size_app, lru_size_cons in Hsz.
  destruct (drop_refines _ _ _ _ _ _ Hc He) as (n & Hn & <- & <- & Hd). unfold evict_node. rewrite Hn. cbn [mbind option_bind].
  destruct (Hd (current_size_bytes c)) as (c1 & Hu & _ & Hz & Hcfg & Hw).
  change (with_size _ (with_map _ c)) with (with_map (delete (n_pubkey n) (c_map c)) c) in Hu. rewrite Hu. cbn [mbind option_bind].
  eexists. split; [reflexivity|]. rewrite !app_nil_r in Hw. edestruct Hw as [Hc' Hes']; [..|split; [exact Hc'|done]]; try done.
  simpl. rewrite Hz. pose proof (lru_size_nonneg (entries c l)). change (lru_size (entries c [])) with 0 in Hsz. unfold saturating_sub. lia.
Qed.

Lemma evict_lru_refines w fuel count c l evicted : cache_wf c l -> (length l < fuel)%nat ->
  exists c' l', evict_lru fuel w count c evicted
      = Some (c', evicted ++ fst (lru_evict (eviction_batch_size (c_config c) - count) w (rev (entries c l))))
    /\ cache_wf c' l' /\ c_config c' = c_config c
    /\ entries c' l' = rev (snd (lru_evict (eviction_batch_size (c_config c) - count) w (rev (entries c l)))).
Proof.
  revert count c l evicted. induction fuel as [|fuel IH]; intros count c l evicted Hc Hf; [lia|].
  cbn [evict_lru]. rewrite (cw_size _ _ Hc), (lo_tail _ _ (cw_list _ _ Hc)).
  destruct l as [|i l _] using rev_ind.
  - exists c, []. change (entries c []) with (@nil entry). destruct (_ - count)%nat; simpl; rewrite app_nil_r; by case_match.
  - rewrite lst_snoc. destruct (last_entry _ _ _ Hc) as (k & a & He & Hes). rewrite Hes, rev_unit.
    destruct (count <? eviction_batch_size (c_config c))%nat eqn:Eb; [apply Nat.ltb_lt in Eb|apply Nat.ltb_ge in Eb].
    + destruct (evict_node_refines _ _ _ _ _ Hc He) as (c1 & Hev & Hc1 & Ecfg & Hes1).
      replace (_ - count)%nat with (S (eviction_batch_size (c_config c1) - S count)) by (rewrite Ecfg; lia). cbn [lru_evict].
      rewrite <- rev_unit, lru_size_rev, andb_true_r. destruct (_ <? _) eqn:Ew.
      * rewrite Hev. cbn [mbind option_bind]. rewrite length_app in Hf. simpl in Hf.
        destruct (IH (S count) c1 l (evicted ++ [(k, ca_data a)]) Hc1 ltac:(lia)) as (c2 & l2 & -> & Hc2 & Ec2 & Hes2).
        rewrite Hes1 in *. destruct (lru_evict _ _ _) as [ev kept]. simpl in *. exists c2, l2. rewrite <- app_assoc. simpl. by rewrite Ec2.
      * exists c, (l ++ [i]). simpl. rewrite app_nil_r, rev_app_distr. simpl. by rewrite rev_involutive, Hes.
    + replace (_ - count)%nat with O by lia. rewrite andb_false_r. exists c, (l ++ [i]). simpl.
      by rewrite app_nil_r, rev_involutive, Hes.
Qed.

(** the tail has no next node, so that the scan of LFU looks at the tail only *)
Lemma scan_lfu_tail c l i k a rest : cache_wf c (l ++ [i]) -> entry_at (c_nodes c) i = Some (k, a) -> access_count a < u64_max ->
  scan_lfu (S rest) c (Some i) u64_max NIL = Some (Some i).
Proof.
  intros Hc He Ha. pose proof (lo_seg _ _ (cw_list _ _ Hc)) as [_ [(n & Hn & _ & Hq) _]]%seg_app.
  apply entry_at_lookup in He as (n' & Hn' & [= -> ->]). rewrite Hn in Hn'. injection Hn' as <-.
  cbn [scan_lfu]. rewrite Hn. cbn [mbind option_bind]. rewrite (proj2 (Z.ltb_lt _ _) Ha), Hq. by destruct rest.
Qed.

Lemma evict_lfu_lru w fuel count c l evicted : cache_wf c l -> Forall (fun e => access_count e.2 < u64_max) (entries c l) ->
  evict_lfu fuel w count c evicted = evict_lru fuel w count c evicted.
Proof.
  revert count c l evicted. induction fuel as [|fuel IH]; intros count c l evicted Hc Ha; [done|].
  cbn [evict_lfu evict_lru]. rewrite (cw_count _ _ Hc), (lo_tail _ _ (cw_list _ _ Hc)).
  destruct (w <? _); [|done]. destruct (count <? _)%nat; [|done]. cbn [andb]. destruct l as [|i l _] using rev_ind; [done|].
  rewrite lst_snoc. destruct (last_entry _ _ _ Hc) as (k & a & He & Hes).
  rewrite Hes in Ha. apply Forall_app in Ha as [Hal [Hai _]%Forall_cons].
  assert (exists rest, Nat.max (length (l ++ [i]) / 4) 1 = S rest) as [rest ->] by (exists (Nat.max (length (l ++ [i]) / 4) 1 - 1)%nat; lia).
  rewrite (scan_lfu_tail _ _ _ _ _ _ Hc He) by done. rewrite length_app. simpl (length [i]).
  destruct (_ =? 0)%nat eqn:E0; [apply Nat.eqb_eq in E0; lia|]. cbn [negb mbind option_bind].
  destruct (evict_node_refines _ _ _ _ _ Hc He) as (c1 & -> & Hc1 & _ & Hes1). cbn [mbind option_bind].
  apply (IH _ _ l); [done|by rewrite Hes1].
Qed.

Lemma evict_refines c l : cache_wf c l -> Forall (fun e => access_count e.2 < u64_max) (entries c l) ->
  let '(evicted, kept) := lru_evict (eviction_batch_size (c_config c)) (eviction_watermark (c_config c)) (rev (entries c l)) in
  refines c (evict_to_warm c) evicted (rev kept).
Proof.
  intros Hc Ha. destruct (evict_lru_refines (eviction_watermark (c_config c)) (S (size (c_map c))) 0 c l [] Hc) as (c' & l' & E & Hc' & Ec & Hes);
    [rewrite (cw_count _ _ Hc); lia|]. rewrite Nat.sub_0_r in *.
  destruct (lru_evict _ _ _) as [evicted kept]. unfold evict_to_warm. simpl app in E.
  replace (match eviction_policy _ with LRU => _ | LFU => _ | ARC => _ end) with (Some (c', evicted))
    by (destruct (eviction_policy _); rewrite ?(evict_lfu_lru _ _ _ _ _ _ Hc Ha); by rewrite E).
  cbn [mbind option_bind]. eexists _, l'. split; [reflexivity|]. by refine (conj (wf_update_hot_stats _ _ (wf_with_stats _ _ _ Hc')) _).
Qed.
(** ** Runs *)

(** each account accessed at most [t] times *)
Definition accessed (t : Z) (es : list entry) : Prop := Forall (fun e => access_count e.2 <= t) es.

Lemma op_refines c l op t : cache_wf c l -> lru_size (entries c l) + op_bytes op <= u64_max -> accessed t (entries c l) -> t < u64_max ->
  refines c (run_op op c) (fst (lru_op (c_config c) op (entries c l))) (snd (lru_op (c_config c) op (entries c l))).
Proof.
  intros Hc Hsz Ha Ht. destruct op as [k now|k a now|k|]; simpl.
  - destruct (get_refines c l k now Hc) as (c' & l' & -> & Hr). simpl. exists c', l'. by destruct (lru_find k _).
  - destruct (refines_insert c l k a now Hc Hsz) as (c' & l' & -> & Hr). by exists c', l'.
  - destruct (remove_refines c l k Hc) as (c' & l' & -> & Hr). by exists c', l'.
  - pose proof (evict_refines c l Hc) as He. destruct (lru_evict _ _ _) as [ev kept].
    destruct He as (c' & l' & -> & Hr); [|by exists c', l']. eapply Forall_impl; [exact Ha|]. simpl. intros e. lia.
Qed.

Lemma lru_remove_cons k k' a es : lru_remove k ((k', a) :: es) = if decide (k' = k) then lru_remove k es else (k', a) :: lru_remove k es.
Proof. unfold lru_remove. case_decide; [by rewrite filter_cons_False by (simpl; tauto)|by rewrite filter_cons_True]. Qed.
Lemma lru_find_cons k k' a es : lru_find k ((k', a) :: es) = if decide (k' = k) then Some a else lru_find k es.
Proof. unfold lru_find. case_decide; [by rewrite filter_cons_True|by rewrite filter_cons_False]. Qed.
Lemma lru_remove_size k es : lru_size (lru_remove k es) <= lru_size es.
Proof.
  induction es as [|[k' a] es IH]; [done|]. rewrite lru_remove_cons. pose proof (memory_size_range a).
  case_decide; rewrite !lru_size_cons; lia.
Qed.
Lemma lru_find_size k a es : lru_find k es = Some a -> memory_size a + lru_size (lru_remove k es) <= lru_size es.
Proof.
  induction es as [|[k' a'] es IH]; [done|]. rewrite lru_find_cons, lru_remove_cons, lru_size_cons. case_decide.
  - intros [= ->]. pose proof (lru_remove_size k es). lia.
  - intros Hf. rewrite lru_size_cons. specialize (IH Hf). lia.
Qed.
Lemma lru_find_elem k a es : lru_find k es = Some a -> (k, a) ∈ es.
Proof.
  unfold lru_find. intros ([k' a'] & Hh & ->)%fmap_Some. apply head_Some_elem_of in Hh.
  apply list_elem_of_filter in Hh as [E Hin]. simpl in E. by subst.
Qed.
Lemma lru_evict_suffix batch w es : exists pre, es = pre ++ snd (lru_evict batch w es) /\ fst (lru_evict batch w es) = (fun e => (e.1, ca_data e.2)) <$> pre.
Proof.
  revert es. induction batch as [|batch IH]; intros es; [by exists []|]. destruct es as [|[k a] es]; [by exists []|].
  cbn [lru_evict]. destruct (_ <? _); [|by exists []]. destruct (IH es) as (pre & E & Ef). destruct (lru_evict _ _ _) as [ev kept].
  exists ((k, a) :: pre). simpl in *. by rewrite E, Ef.
Qed.
Lemma lru_op_evict cfg es : exists pre, rev es = pre ++ rev (snd (lru_op cfg Evict es)).
Proof.
  simpl. destruct (lru_evict_suffix (eviction_batch_size cfg) (eviction_watermark cfg) (rev es)) as (pre & E & _).
  destruct (lru_evict _ _ _) as [ev kept]. simpl in *. exists pre. by rewrite rev_involutive.
Qed.

Lemma lru_op_size cfg op es : lru_size (snd (lru_op cfg op es)) <= lru_size es + op_bytes op.
Proof.
  destruct op as [k now|k a now|k|].
  - simpl. destruct (lru_find k es) as [a|] eqn:E; [|simpl; lia]. cbn [snd]. apply lru_find_size in E. rewrite lru_size_cons.
    change (memory_size (touch now a)) with (memory_size a). lia.
  - cbn [lru_op snd op_bytes]. rewrite lru_size_cons. pose proof (lru_remove_size k es). lia.
  - cbn [lru_op snd op_bytes]. pose proof (lru_remove_size k es). lia.
  - destruct (lru_op_evict cfg es) as [pre E]. apply (f_equal lru_size) in E. rewrite lru_size_app, !lru_size_rev in E.
    pose proof (lru_size_nonneg pre). cbn [op_bytes]. lia.
Qed.

Lemma accessed_rev t es : accessed t (rev es) <-> accessed t es.
Proof.
  unfold accessed. induction es as [|e es IH]; [done|]. simpl rev. rewrite Forall_app, IH, !Forall_cons. split; [tauto|]. by intros [].
Qed.
Lemma lru_op_accessed cfg op es t : 0 <= t -> accessed t es -> accessed (t + 1) (snd (lru_op cfg op es)).
Proof.
  intros Ht Ha. assert (accessed (t + 1) es) as Ha1 by (eapply Forall_impl; [exact Ha|]; simpl; intros e; lia).
  assert (forall k, accessed (t + 1) (lru_remove k es)) as Hr.
  { intros k. apply Forall_forall. intros e [_ Hin]%list_elem_of_filter. by eapply Forall_forall in Ha1. }
  destruct op as [k now|k a now|k|]; [| |apply Hr|].
  - simpl. destruct (lru_find k es) as [a|] eqn:E; [|done]. cbn [snd]. apply lru_find_elem in E. constructor; [|apply Hr].
    unfold accessed in Ha. rewrite Forall_forall in Ha. specialize (Ha _ E). simpl in *. unfold saturating_add. lia.
  - constructor; [simpl; lia|apply Hr].
  - destruct (lru_op_evict cfg es) as [pre E]. apply accessed_rev in Ha1. rewrite E in Ha1.
    apply accessed_rev. by apply Forall_app in Ha1 as [_ Ha1].
Qed.

Lemma run_refines_from c l ops t : cache_wf c l -> lru_size (entries c l) + inserted_bytes ops <= u64_max ->
  0 <= t -> accessed t (entries c l) -> t + Z.of_nat (length ops) < u64_max ->
  refines c (run ops c) (fst (lru_run (c_config c) ops (entries c l))) (snd (lru_run (c_config c) ops (entries c l))).
Proof.
  revert c l t. induction ops as [|op ops IH]; intros c l t Hc Hsz Ht0 Ha Ht; [by exists c, l|].
  change (inserted_bytes (op :: ops)) with (op_bytes op + inserted_bytes ops) in Hsz. cbn [length] in Ht.
  assert (0 <= inserted_bytes ops) as Hb.
  { apply zsum_nonneg, Forall_fmap, Forall_forall. intros o _. destruct o as [| a | |]; simpl; try lia.
    match goal with |- 0 <= memory_size ?x => pose proof (memory_size_range x) end. lia. }
  destruct (op_refines c l op t Hc ltac:(lia) Ha ltac:(lia)) as (c1 & l1 & E1 & Hc1 & Ec1 & Hes1).
  pose proof (lru_op_size (c_config c) op (entries c l)) as Hsz1. pose proof (lru_op_accessed (c_config c) op _ _ Ht0 Ha) as Ha1.
  cbn [run lru_run]. rewrite E1. cbn [mbind option_bind]. destruct (lru_op _ _ _) as [o es1]. cbn [fst snd] in *. subst es1.
  destruct (IH c1 l1 (t + 1)) as (c2 & l2 & -> & Hc2 & Ec2 & Hes2); [done|lia|lia|done|lia|]. rewrite Ec1 in *.
  cbn [mbind option_bind]. destruct (lru_run _ _ _) as [os es2]. exists c2, l2. by rewrite Ec2.
Qed.

Lemma cache_new_wf config : cache_wf (AccountCache_new config) [].
Proof.
  split; [split; [done|apply NoDup_nil_2|done|done]| |done| |apply NoDup_nil_2|done]; simpl.
  - intros k i. rewrite lookup_empty. split; [done|]. by intros [?%not_elem_of_nil _].
  - by intros i ?%not_elem_of_nil.
Qed.
Lemma run_refines config ops : inserted_bytes ops <= u64_max -> Z.of_nat (length ops) < u64_max ->
  refines (AccountCache_new config) (run ops (AccountCache_new config)) (fst (lru_run config ops [])) (snd (lru_run config ops [])).
Proof.
  intros Hb Hl. apply (run_refines_from (AccountCache_new config) [] ops 0); [apply cache_new_wf|done|lia|by apply Forall_nil_2|lia].
Qed.
Lemma lru_run_accessed cfg ops es t : 0 <= t -> accessed t es -> accessed (t + Z.of_nat (length ops)) (snd (lru_run cfg ops es)).
Proof.
  revert es t. induction ops as [|op ops IH]; intros es t Ht Ha; [simpl; by rewrite Z.add_0_r|]. cbn [lru_run].
  pose proof (lru_op_accessed cfg op es t Ht Ha) as Ha1. destruct (lru_op _ _ _) as [o es1]. simpl in Ha1.
  specialize (IH es1 (t + 1) ltac:(lia) Ha1). destruct (lru_run _ _ _) as [os es2]. cbn [snd length] in *.
  by replace (t + Z.of_nat (S (length ops))) with (t + 1 + Z.of_nat (length ops)) by lia.
Qed.
Lemma lru_evict_post batch w es : 0 <= w ->
  (length (fst (lru_evict batch w es)) <= batch)%nat
  /\ (lru_size (snd (lru_evict batch w es)) <= w \/ length (fst (lru_evict batch w es)) = batch).
Proof.
  intros Hw. revert es. induction batch as [|batch IH]; intros es; [simpl; lia|]. destruct es as [|[k a] es]; [split; [simpl; lia|by left]|].
  cbn [lru_evict]. destruct (w <? _) eqn:Ew.
  - specialize (IH es). destruct (lru_evict _ _ _) as [ev kept]. cbn [fst snd length] in *.
    destruct IH as [H1 [H2|H2]]; (split; [lia|]); [by left|right; lia].
  - apply Z.ltb_ge in Ew. split; [simpl; lia|by left].
Qed.
Lemma eviction_watermark_nonneg cfg : 0 <= eviction_watermark cfg.
Proof. apply f64_as_u64_nonneg. Qed.

Definition with_policy (p : EvictionPolicy) (cfg : TieredStorageConfig) : TieredStorageConfig :=
  {| hot_cache_size := hot_cache_size cfg; eviction_policy := p; warm_threshold_slots := warm_threshold_slots cfg;
     cold_threshold_days := cold_threshold_days cfg; enable_state_rent_expiry := enable_state_rent_expiry cfg;
     eviction_batch_size := eviction_batch_size cfg; target_utilization := target_utilization cfg |}.
Lemma lru_run_policy p cfg ops es : lru_run (with_policy p cfg) ops es = lru_run cfg ops es.
Proof.
  revert es. induction ops as [|op ops IH]; intros es; [done|]. cbn [lru_run].
  change (lru_op (with_policy p cfg) op es) with (lru_op cfg op es). destruct (lru_op cfg op es) as [o es']. by rewrite IH.
Qed.

(** ** Properties *)

(** C20. The linked-list cache is an LRU list.  Run from [AccountCache::new] through any sequence of [get], [insert], [remove] and
    [evict_to_warm] that inserts at most 2^64 - 1 bytes in fewer than 2^64 - 1 operations: no index is out of bounds, every loop
    ends, every operation returns what it returns on a plain list of entries with the most recent first, and at the end
    [current_size_bytes], [len] and [contains] are the size, the length and the keys of that list. *)
Theorem cache_refines_lru config ops : inserted_bytes ops <= u64_max -> Z.of_nat (length ops) < u64_max ->
  let '(outs, es) := lru_run config ops [] in
  exists c, run ops (AccountCache_new config) = Some (outs, c)
    /\ current_size_bytes c = lru_size es /\ size (c_map c) = length es /\ forall k, contains k c = true <-> k ∈ es.*1.
Proof.
  intros Hb Hl. destruct (run_refines config ops Hb Hl) as (c & l & E & Hc & _ & Hes). destruct (lru_run _ _ _) as [outs es].
  simpl in *. subst es. exists c. split; [done|]. split; [apply (cw_size _ _ Hc)|].
  split; [by rewrite (cw_count _ _ Hc), (length_entries _ _ (cw_list _ _ Hc))|].
  intros k. unfold contains. rewrite bool_decide_eq_true. split.
  - intros [i Hi]. destruct (lookup_map _ _ _ _ Hc Hi) as (l1 & l2 & a & _ & _ & -> & _). rewrite fmap_app, elem_of_app. right. left.
  - intros Hk. destruct (c_map c !! k) eqn:E2; [eauto|]. by destruct (lookup_none _ _ _ Hc E2).
Qed.

(** C22. Eviction ends and does its work: after any such run [evict_to_warm] returns, whichever the policy, with at most
    [eviction_batch_size] accounts, and either the cache no longer needs eviction or the batch is full. *)
Theorem eviction_terminates config ops outs c : inserted_bytes ops <= u64_max -> Z.of_nat (length ops) < u64_max ->
  run ops (AccountCache_new config) = Some (outs, c) ->
  exists evicted c', evict_to_warm c = Some (evicted, c') /\ (length evicted <= eviction_batch_size config)%nat
    /\ (needs_eviction c' = false \/ length evicted = eviction_batch_size config).
Proof.
  intros Hb Hl E. destruct (run_refines config ops Hb Hl) as (c0 & l & E0 & Hc & Ecfg & Hes). rewrite E in E0. injection E0 as _ <-.
  pose proof (lru_run_accessed config ops [] 0 ltac:(lia) (Forall_nil_2 _)) as Ha. rewrite <- Hes in Ha. rewrite Z.add_0_l in Ha.
  pose proof (evict_refines c l Hc) as He.
  destruct (lru_evict_post (eviction_batch_size (c_config c)) (eviction_watermark (c_config c)) (rev (entries c l))
    (eviction_watermark_nonneg _)) as [Hlen Hpost].
  destruct (lru_evict _ _ _) as [evicted kept]. simpl in Hlen, Hpost. rewrite Ecfg in Hlen, Hpost. simpl in Hlen, Hpost.
  destruct He as (c' & l' & E' & Hc' & Ecfg' & Hes'); [eapply Forall_impl; [exact Ha|]; simpl; intros e; lia|].
  exists evicted, c'. split; [done|]. split; [done|]. destruct Hpost as [Hs|Hf]; [left|by right].
  unfold needs_eviction. apply Z.ltb_ge. rewrite Ecfg', Ecfg, (cw_size _ _ Hc'), Hes', lru_size_rev. exact Hs.
Qed.

(** The eviction policy makes no difference: the scan of the LFU policy starts at the tail and follows [next], which leads
    away from the head, so that it only ever looks at the tail, and any run gives the same results under LRU, LFU and ARC. *)
Theorem eviction_policy_ignored p config ops : inserted_bytes ops <= u64_max -> Z.of_nat (length ops) < u64_max ->
  exists outs c c', run ops (AccountCache_new config) = Some (outs, c) /\ run ops (AccountCache_new (with_policy p config)) = Some (outs, c')
    /\ current_size_bytes c' = current_size_bytes c.
Proof.
  intros Hb Hl. destruct (run_refines config ops Hb Hl) as (c & l & E & Hc & _ & Hes).
  destruct (run_refines (with_policy p config) ops Hb Hl) as (c' & l' & E' & Hc' & _ & Hes'). rewrite lru_run_policy in E', Hes'.
  eexists _, c, c'. split; [done|]. split; [done|]. by rewrite (cw_size _ _ Hc'), (cw_size _ _ Hc), Hes', Hes.
Qed.
End cache.

(** ** Witnesses *)

Module AccountCacheExamples.

Definition key (n : Z) : Pubkey := n.
Definition config : TieredStorageConfig :=
  {| hot_cache_size := 1000; eviction_policy := LFU; warm_threshold_slots := 0; cold_threshold_days := 0; enable_state_rent_expiry := false;
     eviction_batch_size := 2; target_utilization := f64_lit 1 2 |}.
Definition ops : list (@cache_op (list Z)) :=
  [Insert (key 1) [7; 7] 0; Insert (key 2) [8] 1; Insert (key 3) [] 2; Insert (key 4) [9] 3; Get (key 1) 4; Get (key 5) 5; Remove (key 3)].
Definition data_len (d : list Z) : Z := Z.of_nat (length d).
Definition full : list (@cache_op (list Z)) := ops ++ [Insert (key 6) [] 6; Insert (key 2) [1; 2] 7; Evict].

Lemma cache_refines_lru_witness :
  exists c, run data_len full (AccountCache_new config)
      = Some ([Inserted; Inserted; Inserted; Inserted; Found (Some [7; 7]); Found None; Found (Some []); Inserted; Inserted;
               Evicted [(key 4, [9])]], c)
    /\ current_size_bytes c = 484 /\ size (c_map c) = 3%nat.
Proof.
  pose proof (cache_refines_lru data_len config full) as H. destruct (lru_run data_len config full []) as [outs es] eqn:E.
  vm_compute in E. injection E as <- <-. destruct H as (c & H1 & H2 & H3 & _); [vm_compute; discriminate|vm_compute; reflexivity|].
  exists c. exact (conj H1 (conj H2 H3)).
Defined.

Lemma eviction_terminates_witness :
  exists outs c evicted c', run data_len ops (AccountCache_new config) = Some (outs, c)
    /\ evict_to_warm c = Some (evicted, c') /\ (length evicted <= 2)%nat /\ (needs_eviction c' = false \/ length evicted = 2%nat).
Proof.
  destruct (run data_len ops (AccountCache_new config)) as [[outs c]|] eqn:E; [|vm_compute in E; discriminate E].
  destruct (eviction_terminates data_len config ops outs c) as (evicted & c' & H); [vm_compute; discriminate|vm_compute; reflexivity|exact E|].
  exists outs, c, evicted, c'. exact (conj eq_refl H).
Defined.

Lemma eviction_policy_ignored_witness :
  exists outs c c', run data_len full (AccountCache_new config) = Some (outs, c)
    /\ run data_len full (AccountCache_new (with_policy ARC config)) = Some (outs, c') /\ current_size_bytes c' = current_size_bytes c.
Proof. apply (eviction_policy_ignored data_len ARC config full); [vm_compute; discriminate|vm_compute; reflexivity]. Defined.

(** an account read twice is evicted before one read once *)
Example lfu_evicts_frequent :
  fst <$> run data_len [Insert (key 1) [] 0; Get (key 1) 1; Get (key 1) 2; Insert (key 2) [] 3; Insert (key 3) [] 4; Insert (key 4) [] 5; Evict]
    (AccountCache_new config) = Some [Inserted; Found (Some []); Found (Some []); Inserted; Inserted; Inserted; Evicted [(key 1, [])]].
Proof. vm_compute. reflexivity. Qed.

End AccountCacheExamples.
