(* ===== verification/FeeDistribution.v ===== *)
(** * Fee distribution at the end of a block

    Models the fee percentages of runtime/src/trv1_constants.rs, the distribution
    of a block's fees in runtime/src/bank/fee_distribution.rs and the rent states
    of svm/src/rent_calculator.rs that decide whether the leader can be paid.
    [Rent::is_exempt] is a parameter.  The bank is the part of it that the
    distribution reads and writes; atomic subtraction wraps. *)

From Stdlib Require Import ZArith Lia QArith Qround Lqa SpecFloat.
From stdpp Require Import base numbers list option gmap.
From S2P Require Import Prelude F64.
Local Open Scope Z_scope.

(** ** Percentages *)

Definition FEE_TRANSITION_EPOCHS : Z := 1825.
Definition LAUNCH_BURN_PCT : f64 := f64_lit 10 100.
Definition LAUNCH_VALIDATOR_PCT : f64 := f64_lit 0 100.
Definition LAUNCH_TREASURY_PCT : f64 := f64_lit 45 100.
Definition LAUNCH_DEV_PCT : f64 := f64_lit 45 100.
Definition MATURE_BURN_PCT : f64 := f64_lit 25 100.
Definition MATURE_VALIDATOR_PCT : f64 := f64_lit 25 100.
Definition MATURE_TREASURY_PCT : f64 := f64_lit 25 100.
Definition MATURE_DEV_PCT : f64 := f64_lit 25 100.

Definition progress (current_epoch : Z) : f64 :=
  if FEE_TRANSITION_EPOCHS =? 0 then f64_of_Z 1
  else f64_min (f64_div (f64_of_Z current_epoch) (f64_of_Z FEE_TRANSITION_EPOCHS)) (f64_of_Z 1).
Definition interpolate (p launch mature : f64) : f64 := f64_add launch (f64_mul p (f64_sub mature launch)).
Definition fee_distribution_for_epoch (current_epoch : Z) : f64 * f64 * f64 * f64 :=
  let p := progress current_epoch in
  (interpolate p LAUNCH_BURN_PCT MATURE_BURN_PCT, interpolate p LAUNCH_VALIDATOR_PCT MATURE_VALIDATOR_PCT,
   interpolate p LAUNCH_TREASURY_PCT MATURE_TREASURY_PCT, interpolate p LAUNCH_DEV_PCT MATURE_DEV_PCT).

(** ** The bank *)

Record CollectorFeeDetails := { transaction_fee : Z; priority_fee : Z }.
Definition total_transaction_fee (d : CollectorFeeDetails) : Z := saturating_add u64_max (transaction_fee d) (priority_fee d).
(** [accumulate], of the base fee and the prioritization fee of a transaction *)
Definition accumulate (d : CollectorFeeDetails) (tx_fee prioritization_fee : Z) : CollectorFeeDetails :=
  {| transaction_fee := saturating_add u64_max (transaction_fee d) tx_fee;
     priority_fee := saturating_add u64_max (priority_fee d) prioritization_fee |}.

Record AccountSharedData := { lamports : Z; data_len : Z; owner : Pubkey }.
Definition AccountSharedData_default : AccountSharedData := {| lamports := 0; data_len := 0; owner := pubkey_default |}.
(** the key of the system program, all zeros *)
Definition system_program_id : Pubkey := pubkey_default.

Record RewardInfo := { reward_lamports : Z; post_balance : Z }.

Record Bank := {
  epoch : Z;
  leader_id : Pubkey;
  collector_fee_details : CollectorFeeDetails;
  accounts : gmap Pubkey AccountSharedData;
  capitalization : Z;
  rewards : list (Pubkey * RewardInfo)
}.
Definition store_account (k : Pubkey) (a : AccountSharedData) (b : Bank) : Bank :=
  {| epoch := epoch b; leader_id := leader_id b; collector_fee_details := collector_fee_details b; accounts := <[k := a]> (accounts b);
     capitalization := capitalization b; rewards := rewards b |}.
Definition push_reward (r : Pubkey * RewardInfo) (b : Bank) : Bank :=
  {| epoch := epoch b; leader_id := leader_id b; collector_fee_details := collector_fee_details b; accounts := accounts b;
     capitalization := capitalization b; rewards := rewards b ++ [r] |}.
Definition fetch_sub_capitalization (z : Z) (b : Bank) : Bank :=
  {| epoch := epoch b; leader_id := leader_id b; collector_fee_details := collector_fee_details b; accounts := accounts b;
     capitalization := (capitalization b - z) mod (u64_max + 1); rewards := rewards b |}.

(** ** The split *)

Record FeeDistribution := { deposit : Z; burn : Z; treasury : Z; dev : Z }.
Definition FeeDistribution_default : FeeDistribution := {| deposit := 0; burn := 0; treasury := 0; dev := 0 |}.

(** [(total_fee as f64 * pct) as u64] *)
Definition fee_share (total_fee : Z) (pct : f64) : Z := f64_as_u64 (f64_mul (f64_of_Z total_fee) pct).

Definition calculate_reward_and_burn_fee_details (current_epoch : Z) (d : CollectorFeeDetails) : FeeDistribution :=
  if transaction_fee d =? 0 then FeeDistribution_default
  else
    let total_fee := saturating_add u64_max (transaction_fee d) (priority_fee d) in
    let '(burn_pct, validator_pct, treasury_pct, dev_pct) := fee_distribution_for_epoch current_epoch in
    let burn := fee_share total_fee burn_pct in
    let deposit := fee_share total_fee validator_pct in
    let treasury := fee_share total_fee treasury_pct in
    let dev := fee_share total_fee dev_pct in
    let distributed := saturating_add u64_max (saturating_add u64_max (saturating_add u64_max burn deposit) treasury) dev in
    let remainder_burn := saturating_sub total_fee distributed in
    {| deposit := deposit; burn := saturating_add u64_max burn remainder_burn; treasury := treasury; dev := dev |}.

(** ** Rent states *)

Inductive RentState := Uninitialized | RentPaying (lamports data_size : Z) | RentExempt.

Definition transition_allowed (pre post : RentState) : bool :=
  match post with
  | Uninitialized | RentExempt => true
  | RentPaying post_lamports post_size =>
      match pre with
      | Uninitialized | RentExempt => false
      | RentPaying pre_lamports pre_size => (post_size =? pre_size) && (post_lamports <=? pre_lamports)
      end
  end.

Inductive DepositFeeError := InvalidRentPayingAccount | LamportOverflow | InvalidAccountOwner.

(** ** The percentages are sound *)

(** a percentage times 2^80 *)
Definition scaled (p : f64) : Z := match p with S754_finite false m e => Z.pos m * 2 ^ (e + 80) | _ => 0 end.
Definition pct_wf (p : f64) : bool :=
  match p with
  | S754_zero false => true
  | S754_finite false m e => (2 ^ 52 <=? Z.pos m) && (Z.pos m <? 2 ^ 53) && (-80 <=? e) && (e <=? -52)
  | _ => false
  end.
(** four well-formed percentages with a sum of at most 1 + 2^-53 *)
Definition split_ok (x : f64 * f64 * f64 * f64) : bool :=
  let '(a, b, c, d) := x in
  pct_wf a && pct_wf b && pct_wf c && pct_wf d && (scaled a + scaled b + scaled c + scaled d <=? 2 ^ 80 + 2 ^ 27).

Lemma early_split : forallb (fun n => split_ok (fee_distribution_for_epoch (Z.of_nat n))) (seq 0 1826) = true.
Proof. vm_compute. reflexivity. Qed.

Lemma qval_le_inv m m' e : (qval m e <= qval m' e)%Q -> m <= m'.
Proof. unfold qval. intros H. apply Qmult_le_r in H; [|apply pow2Q_pos]. by rewrite <- Zle_Qle in H. Qed.

Lemma progress_mature e : FEE_TRANSITION_EPOCHS <= e <= u64_max -> progress e = f64_of_Z 1.
Proof.
  intros He. destruct (decide (e = 1825)) as [->|Hne]; [vm_compute; reflexivity|]. unfold FEE_TRANSITION_EPOCHS in He.
  destruct (f64_of_Z_spec e) as (m1 & e1 & E1 & Hm1 & He1 & [Hlo _] & _); [lia|]. unfold progress. rewrite E1.
  change (FEE_TRANSITION_EPOCHS =? 0) with false. cbn iota.
  change (f64_of_Z FEE_TRANSITION_EPOCHS) with (S754_finite false 8026434882764800 (-42)).
  assert (qval 8026434882764800 (-42) <= qval (Z.pos m1) e1)%Q as Hge.
  { change (qval 8026434882764800 (-42)) with (inject_Z 8026434882764800 * (1 # 4398046511104))%Q.
    assert (inject_Z 1826 <= inject_Z e)%Q as He2 by (rewrite <- Zle_Qle; lia).
    change (inject_Z (2 ^ 53 - 1)) with (9007199254740991 # 1)%Q in Hlo. change (inject_Z (2 ^ 53)) with (9007199254740992 # 1)%Q in Hlo.
    unfold inject_Z at 1. unfold inject_Z at 1 in He2. lra. }
  destruct (f64_div_ge_one m1 e1 8026434882764800 (-42)) as (m & k & -> & Hm & Hk); [done|lia|lia| |apply f64_min_one; lia].
  destruct (Z.ltb_spec (-42) e1); [by left|]. right. replace (-42) with (e1 + (-42 - e1)) in Hge by lia. rewrite qval_shift in Hge by lia.
  apply qval_le_inv in Hge. destruct (decide (e1 = -42)) as [->|Hn]; [split; [done|]; simpl in Hge; lia|].
  exfalso. pose proof (Z.pow_le_mono_r 2 1 (-42 - e1) ltac:(lia) ltac:(lia)). lia.
Qed.

Lemma all_epochs_split e : 0 <= e <= u64_max -> split_ok (fee_distribution_for_epoch e) = true.
Proof.
  intros He. destruct (Z.leb_spec 1826 e) as [Hl|Hl].
  - unfold fee_distribution_for_epoch. rewrite progress_mature by (unfold FEE_TRANSITION_EPOCHS; lia). vm_compute. reflexivity.
  - pose proof early_split as H. rewrite forallb_forall in H. rewrite <- (Z2Nat.id e) by lia. apply H, in_seq. lia.
Qed.

(** ** The shares *)

Lemma fee_share_upper f p : 0 < f <= 2 ^ 50 -> pct_wf p = true ->
  0 <= fee_share f p /\ fee_share f p * 2 ^ 131 <= (2 ^ 51 + 1) * (f * scaled p).
Proof.
  intros Hf Hp. split; [apply f64_as_u64_nonneg|]. unfold fee_share. destruct p as [[]| | |[] m2 e2]; try done.
  - destruct (f64_of_Z_spec f) as (m & e & -> & _); [lia|]. simpl. lia.
  - unfold pct_wf in Hp. breflect. destruct_and!. destruct (f64_scale_spec f m2 e2) as (m & e & -> & Hm & He & _ & Hup); [lia..|].
    rewrite f64_as_u64_floor. set (x := qval (Z.pos m) e) in *. cbn [scaled].
    assert (inject_Z (Z.min u64_max (Qfloor x)) <= x)%Q as Ha.
    { eapply Qle_trans; [|apply Qfloor_le]. rewrite <- Zle_Qle. lia. }
    set (a := Z.min u64_max (Qfloor x)) in *.
    assert (inject_Z (Z.pos m2 * 2 ^ (e2 + 80)) == qval (Z.pos m2) e2 * inject_Z (2 ^ 80))%Q as Es.
    { rewrite inject_Z_mult. unfold qval. rewrite <- !pow2Q_Z by lia. rewrite pow2Q_add. ring. }
    rewrite Zle_Qle, !inject_Z_mult, Es.
    assert (inject_Z a * inject_Z (2 ^ 51) <= inject_Z (2 ^ 51 + 1) * (inject_Z f * qval (Z.pos m2) e2))%Q as Hprod.
    { eapply Qle_trans; [|exact Hup]. rewrite Qmult_comm. change (inject_Z (2 ^ 51)) with (2251799813685248 # 1)%Q. lra. }
    apply (Qmult_le_compat_r _ _ (inject_Z (2 ^ 80))) in Hprod; [|by vm_compute].
    rewrite <- Qmult_assoc, <- inject_Z_mult, <- !Qmult_assoc in Hprod. exact Hprod.
Qed.

Lemma mature_share f : 0 < f <= 2 ^ 50 -> f - 4 <= 4 * fee_share f MATURE_VALIDATOR_PCT <= f.
Proof.
  intros Hf. destruct (fee_share_upper f MATURE_VALIDATOR_PCT Hf ltac:(reflexivity)) as [H0 Hup].
  change (scaled MATURE_VALIDATOR_PCT) with (2 ^ 78) in Hup. split; [|lia]. clear Hup H0.
  unfold fee_share. change MATURE_VALIDATOR_PCT with (S754_finite false 4503599627370496 (-54)).
  destruct (f64_scale_spec f 4503599627370496 (-54)) as (m & e & -> & Hm & He & Hlo & Hup); [lia..|]. rewrite f64_as_u64_floor.
  set (x := qval (Z.pos m) e) in *. change (qval (Z.pos 4503599627370496) (-54)) with (inject_Z 4503599627370496 * (1 # 18014398509481984))%Q in *.
  pose proof (Qlt_floor x) as Hfl. pose proof (Qfloor_le x) as Hfl2. rewrite inject_Z_plus in Hfl. change (inject_Z 1) with 1%Q in Hfl.
  assert (inject_Z f <= inject_Z (2 ^ 50) /\ 0 < inject_Z f)%Q as [Hfq Hfq0] by (rewrite <- Zle_Qle, <- (Zlt_Qlt 0); lia).
  change (inject_Z (2 ^ 51 - 1)) with (2251799813685247 # 1)%Q in *. change (inject_Z (2 ^ 51 + 1)) with (2251799813685249 # 1)%Q in *.
  change (inject_Z (2 ^ 51)) with (2251799813685248 # 1)%Q in *. change (inject_Z (2 ^ 50)) with (1125899906842624 # 1)%Q in *.
  change (inject_Z 4503599627370496) with (4503599627370496 # 1)%Q in *.
  assert (Qfloor x <= u64_max) by (rewrite Zle_Qle; change (inject_Z u64_max) with (18446744073709551615 # 1)%Q; lra).
  rewrite Z.min_r by done. enough (f < 4 * Qfloor x + 5) by lia.
  rewrite Zlt_Qlt, inject_Z_plus, inject_Z_mult. change (inject_Z 4) with (4 # 1)%Q. change (inject_Z 5) with (5 # 1)%Q. lra.
Qed.

Lemma shares_bounded f a b c d : 0 < f <= 2 ^ 50 -> split_ok (a, b, c, d) = true ->
  0 <= fee_share f a /\ 0 <= fee_share f b /\ 0 <= fee_share f c /\ 0 <= fee_share f d
  /\ fee_share f a + fee_share f b + fee_share f c + fee_share f d <= f.
Proof.
  intros Hf Hok. unfold split_ok in Hok. rewrite !andb_true_iff, Z.leb_le in Hok. destruct Hok as [[[[Ha Hb] Hc] Hd] Hs].
  destruct (fee_share_upper f a Hf Ha) as [A1 A2]. destruct (fee_share_upper f b Hf Hb) as [B1 B2].
  destruct (fee_share_upper f c Hf Hc) as [C1 C2]. destruct (fee_share_upper f d Hf Hd) as [D1 D2].
  refine (conj A1 (conj B1 (conj C1 (conj D1 _)))).
  apply (Z.mul_le_mono_nonneg_l _ _ f) in Hs; [|lia]. lia.
Qed.

(** every lamport of the fee goes somewhere *)
Lemma split_total e d : 0 <= e <= u64_max -> 0 < transaction_fee d -> 0 <= priority_fee d -> transaction_fee d + priority_fee d <= 2 ^ 50 ->
  let x := calculate_reward_and_burn_fee_details e d in
  0 <= deposit x /\ 0 <= burn x /\ 0 <= treasury x /\ 0 <= dev x
  /\ deposit x + burn x + treasury x + dev x = transaction_fee d + priority_fee d.
Proof.
  intros He Ht Hp Hf. unfold calculate_reward_and_burn_fee_details. rewrite (proj2 (Z.eqb_neq _ 0)) by lia.
  assert (saturating_add u64_max (transaction_fee d) (priority_fee d) = transaction_fee d + priority_fee d) as -> by (unfold saturating_add; lia).
  pose proof (all_epochs_split e He) as Hok. destruct (fee_distribution_for_epoch e) as [[[pb pv] pt] pd].
  destruct (shares_bounded (transaction_fee d + priority_fee d) pb pv pt pd ltac:(lia) Hok) as (H1 & H2 & H3 & H4 & H5).
  cbn [deposit burn treasury dev]. unfold saturating_add, saturating_sub. lia.
Qed.

Section bank.
(** [Rent::is_exempt] of the bank's rent, on a balance and a data length *)
Context (is_exempt : Z -> Z -> bool).

Definition get_account_rent_state (account_lamports account_size : Z) : RentState :=
  if account_lamports =? 0 then Uninitialized
  else if is_exempt account_lamports account_size then RentExempt
  else RentPaying account_lamports account_size.

(** ** Deposits and the distribution *)

Definition deposit_fees (k : Pubkey) (fees : Z) (b : Bank) : DepositFeeError + (Z * Bank) :=
  let account := default AccountSharedData_default (accounts b !! k) in
  if negb (bool_decide (owner account = system_program_id)) then inl InvalidAccountOwner
  else
    let pre := get_account_rent_state (lamports account) (data_len account) in
    match checked_add u64_max (lamports account) fees with
    | None => inl LamportOverflow
    | Some balance =>
        let account := {| lamports := balance; data_len := data_len account; owner := owner account |} in
        let post := get_account_rent_state (lamports account) (data_len account) in
        if negb (transition_allowed pre post) then inl InvalidRentPayingAccount
        else inr (lamports account, store_account k account b)
    end.

(** the lamports to burn instead, and the bank *)
Definition deposit_or_burn_fee (deposit : Z) (b : Bank) : Z * Bank :=
  if deposit =? 0 then (0, b)
  else match deposit_fees (leader_id b) deposit b with
       | inr (post, b) => (0, push_reward (leader_id b, {| reward_lamports := u64_as_i64 deposit; post_balance := post |}) b)
       | inl _ => (deposit, b)
       end.

Definition distribute_transaction_fee_details (b : Bank) : Bank :=
  if total_transaction_fee (collector_fee_details b) =? 0 then b
  else
    let d := calculate_reward_and_burn_fee_details (epoch b) (collector_fee_details b) in
    let undeliverable := saturating_add u64_max (treasury d) (dev d) in
    let '(unpaid, b) := deposit_or_burn_fee (deposit d) b in
    let total_burn := saturating_add u64_max (saturating_add u64_max unpaid (burn d)) undeliverable in
    fetch_sub_capitalization total_burn b.
(** ** Lamports *)

Definition total_lamports (m : gmap Pubkey AccountSharedData) : Z := map_fold (fun _ a z => lamports a + z) 0 m.

Lemma total_lamports_insert m k a :
  total_lamports (<[k := a]> m) = total_lamports m - lamports (default AccountSharedData_default (m !! k)) + lamports a.
Proof.
  assert (forall m k a, m !! k = None -> total_lamports (<[k := a]> m) = lamports a + total_lamports m) as Hnew.
  { intros m' k' a' Hk. unfold total_lamports. rewrite map_fold_insert_L; [done|intros; lia|done]. }
  destruct (m !! k) as [a0|] eqn:E; simpl; [|rewrite Hnew by done; lia].
  rewrite <- (insert_delete_eq m k a), Hnew by apply lookup_delete_eq.
  rewrite <- (insert_delete_id m k a0) at 2 by done. rewrite Hnew by apply lookup_delete_eq. lia.
Qed.

(** the leader is paid in full or not at all *)
Lemma deposit_or_burn_spec x b : 0 <= x -> let '(unpaid, b') := deposit_or_burn_fee x b in
  capitalization b' = capitalization b
  /\ (unpaid = x /\ accounts b' = accounts b \/ unpaid = 0 /\ total_lamports (accounts b') = total_lamports (accounts b) + x).
Proof.
  intros Hx. unfold deposit_or_burn_fee. destruct (Z.eqb_spec x 0) as [->|Hne]; [split; [done|by left]|].
  unfold deposit_fees. destruct (negb (bool_decide _)); [split; [done|by left]|]. destruct (checked_add _ _ _) as [bal|] eqn:Ec; [|split; [done|by left]].
  destruct (negb (transition_allowed _ _)); [split; [done|by left]|]. split; [done|]. right. split; [done|]. simpl. rewrite total_lamports_insert. simpl.
  apply checked_add_Some in Ec as [-> _]. lia.
Qed.

(** ** Properties *)

(** C25. Distributing the fees keeps the capitalization exact: if before the distribution the capitalization is the sum of all balances
    and the fees collected in the block, then afterwards it is the sum of all balances, in every epoch and whether or not the leader
    can be paid (for fees of at most 2^50 lamports with a base fee that is not zero). *)
Theorem fees_conserved b : let d := collector_fee_details b in
  0 <= epoch b <= u64_max -> 0 < transaction_fee d -> 0 <= priority_fee d -> transaction_fee d + priority_fee d <= 2 ^ 50 ->
  0 <= total_lamports (accounts b) ->
  capitalization b = total_lamports (accounts b) + (transaction_fee d + priority_fee d) -> capitalization b <= u64_max ->
  let b' := distribute_transaction_fee_details b in capitalization b' = total_lamports (accounts b').
Proof.
  intros d He Ht Hp Hf Hl Hc Hmax. unfold distribute_transaction_fee_details. fold d.
  rewrite (proj2 (Z.eqb_neq _ 0)) by (unfold total_transaction_fee, saturating_add; lia).
  destruct (split_total (epoch b) d He Ht Hp Hf) as (H1 & H2 & H3 & H4 & H5). set (x := calculate_reward_and_burn_fee_details _ _) in *.
  pose proof (deposit_or_burn_spec (deposit x) b H1) as Hd. destruct (deposit_or_burn_fee (deposit x) b) as [unpaid b1].
  destruct Hd as [Ec Hd]. simpl. rewrite Ec. unfold saturating_add.
  destruct Hd as [[-> ->]|[-> ->]]; rewrite Z.mod_small; lia.
Qed.

(** Who gets the fees: in epoch 0 nobody is paid, the treasury and developer shares are burned with the rest and the capitalization
    falls by the whole fee; from epoch 1825 on the shares of the leader, the treasury and the developers are each a quarter of the fee,
    less at most one lamport, and only the leader's share is ever credited. *)
Theorem fee_schedule b : let d := collector_fee_details b in let f := transaction_fee d + priority_fee d in
  0 < transaction_fee d -> 0 <= priority_fee d -> f <= 2 ^ 50 -> f <= capitalization b <= u64_max ->
  (epoch b = 0 -> let b' := distribute_transaction_fee_details b in
     accounts b' = accounts b /\ rewards b' = rewards b /\ capitalization b' = capitalization b - f)
  /\ (FEE_TRANSITION_EPOCHS <= epoch b <= u64_max -> let x := calculate_reward_and_burn_fee_details (epoch b) d in
     f - 4 <= 4 * deposit x <= f /\ treasury x = deposit x /\ dev x = deposit x /\ burn x = f - 3 * deposit x).
Proof.
  intros d f Ht Hp Hf Hc. split.
  - intros He. unfold distribute_transaction_fee_details. fold d. rewrite (proj2 (Z.eqb_neq _ 0)) by (unfold total_transaction_fee, saturating_add; lia).
    destruct (split_total (epoch b) d ltac:(lia) Ht Hp Hf) as (H1 & H2 & H3 & H4 & H5).
    assert (deposit (calculate_reward_and_burn_fee_details (epoch b) d) = 0) as E0.
    { rewrite He. unfold calculate_reward_and_burn_fee_details. rewrite (proj2 (Z.eqb_neq _ 0)) by lia.
      replace (fee_distribution_for_epoch 0) with (LAUNCH_BURN_PCT, LAUNCH_VALIDATOR_PCT, LAUNCH_TREASURY_PCT, LAUNCH_DEV_PCT)
        by (vm_compute; reflexivity).
      cbn [deposit]. unfold fee_share. change LAUNCH_VALIDATOR_PCT with (S754_zero false).
      destruct (f64_of_Z_spec (saturating_add u64_max (transaction_fee d) (priority_fee d))) as (m & e & -> & _); [unfold saturating_add; lia|done]. }
    set (x := calculate_reward_and_burn_fee_details _ _) in *. rewrite E0 in *. simpl. split; [done|]. split; [done|].
    unfold saturating_add. rewrite Z.mod_small by lia. lia.
  - intros He. destruct (split_total (epoch b) d ltac:(unfold FEE_TRANSITION_EPOCHS in He; lia) Ht Hp Hf) as (_ & _ & _ & _ & H5).
    revert H5. unfold calculate_reward_and_burn_fee_details. rewrite (proj2 (Z.eqb_neq _ 0)) by lia. unfold fee_distribution_for_epoch.
    rewrite progress_mature by done.
    replace (interpolate (f64_of_Z 1) LAUNCH_BURN_PCT MATURE_BURN_PCT) with MATURE_VALIDATOR_PCT by (vm_compute; reflexivity).
    replace (interpolate (f64_of_Z 1) LAUNCH_VALIDATOR_PCT MATURE_VALIDATOR_PCT) with MATURE_VALIDATOR_PCT by (vm_compute; reflexivity).
    replace (interpolate (f64_of_Z 1) LAUNCH_TREASURY_PCT MATURE_TREASURY_PCT) with MATURE_VALIDATOR_PCT by (vm_compute; reflexivity).
    replace (interpolate (f64_of_Z 1) LAUNCH_DEV_PCT MATURE_DEV_PCT) with MATURE_VALIDATOR_PCT by (vm_compute; reflexivity).
    assert (saturating_add u64_max (transaction_fee d) (priority_fee d) = f) as -> by (unfold saturating_add; lia).
    cbn [deposit burn treasury dev]. pose proof (mature_share f ltac:(lia)). lia.
Qed.

(** a block whose transactions only paid priority fees distributes and burns nothing *)
Lemma priority_fees_lost b : transaction_fee (collector_fee_details b) = 0 -> 0 <= capitalization b <= u64_max ->
  distribute_transaction_fee_details b = b.
Proof.
  intros Ht Hc. unfold distribute_transaction_fee_details, calculate_reward_and_burn_fee_details. rewrite Ht. simpl.
  destruct b; simpl in *. destruct (_ =? 0); [done|]. unfold fetch_sub_capitalization. simpl. by rewrite Z.sub_0_r, Z.mod_small by lia.
Qed.
End bank.

(** ** Witnesses *)

Module FeeDistributionExamples.

Definition leader : Pubkey := 5.
Definition bank (e : Z) : Bank :=
  {| epoch := e; leader_id := leader; collector_fee_details := {| transaction_fee := 1000; priority_fee := 303 |};
     accounts := {[ leader := {| lamports := 890880; data_len := 0; owner := system_program_id |} ]}; capitalization := 892183; rewards := [] |}.
(** the default rent: 128 bytes of overhead, 3480 lamports per byte and year, two years *)
Definition is_exempt (balance size : Z) : bool := 2 * 3480 * (128 + size) <=? balance.

Lemma fees_conserved_witness :
  capitalization (distribute_transaction_fee_details is_exempt (bank 2000))
    = total_lamports (accounts (distribute_transaction_fee_details is_exempt (bank 2000)))
  /\ capitalization (distribute_transaction_fee_details is_exempt (bank 2000)) = 891205.
Proof. split; [|vm_compute; reflexivity]. apply (fees_conserved is_exempt (bank 2000)); vm_compute; try reflexivity; try discriminate; split; discriminate. Defined.

Lemma fee_schedule_witness :
  deposit (calculate_reward_and_burn_fee_details 2000 (collector_fee_details (bank 2000))) = 325
  /\ burn (calculate_reward_and_burn_fee_details 2000 (collector_fee_details (bank 2000)))
     = 1303 - 3 * deposit (calculate_reward_and_burn_fee_details 2000 (collector_fee_details (bank 2000))).
Proof.
  destruct (fee_schedule is_exempt (bank 2000)) as [_ H]; [simpl; lia..|]. destruct H as (_ & _ & _ & H); [unfold FEE_TRANSITION_EPOCHS; simpl; lia|].
  split; [vm_compute; reflexivity|exact H].
Defined.

End FeeDistributionExamples.
