(* ===== verification/Slashing.v ===== *)
(** * Slashing and jailing

    Models runtime/src/slashing.rs, the jail status of each validator, its
    penalties, its sentences and the automatic jailing of offline validators, and
    the scan of the vote accounts at an epoch boundary in runtime/src/bank.rs.

    A [HashMap] that is only looked up is a [gmap]; one that is iterated is the
    list of its entries in the order of the iteration. *)

From Stdlib Require Import ZArith Lia Permutation QArith Qround Lqa SpecFloat.
From stdpp Require Import base numbers list option gmap relations.
From S2P Require Import Prelude F64.
Local Open Scope Z_scope.

(** ** Data *)

Record SlashingConfig := {
  double_sign_penalty : f64;
  invalid_block_penalty : f64;
  repeat_offense_penalty : f64;
  max_offenses : Z;
  jail_duration_first : Z;
  jail_duration_second : Z;
  offline_jail_threshold : Z
}.
Definition SlashingConfig_default : SlashingConfig :=
  {| double_sign_penalty := f64_lit 5 100; invalid_block_penalty := f64_lit 10 100; repeat_offense_penalty := f64_lit 25 100;
     max_offenses := 3; jail_duration_first := 1512000; jail_duration_second := 6480000; offline_jail_threshold := 216000 |}.

Inductive SlashOffense := DoubleSigning | InvalidBlock.
Inductive JailDuration := First | Second | Permanent | Offline.

Record ValidatorJailStatus := {
  is_jailed : bool;
  jail_until_epoch : Z;
  offense_count : Z;
  permanently_banned : bool;
  last_seen_slot : Z
}.
Definition ValidatorJailStatus_default : ValidatorJailStatus :=
  {| is_jailed := false; jail_until_epoch := 0; offense_count := 0; permanently_banned := false; last_seen_slot := 0 |}.
Definition set_jailed (b : bool) (s : ValidatorJailStatus) : ValidatorJailStatus :=
  {| is_jailed := b; jail_until_epoch := jail_until_epoch s; offense_count := offense_count s;
     permanently_banned := permanently_banned s; last_seen_slot := last_seen_slot s |}.
Definition set_until (e : Z) (s : ValidatorJailStatus) : ValidatorJailStatus :=
  {| is_jailed := is_jailed s; jail_until_epoch := e; offense_count := offense_count s;
     permanently_banned := permanently_banned s; last_seen_slot := last_seen_slot s |}.
Definition set_offenses (n : Z) (s : ValidatorJailStatus) : ValidatorJailStatus :=
  {| is_jailed := is_jailed s; jail_until_epoch := jail_until_epoch s; offense_count := n;
     permanently_banned := permanently_banned s; last_seen_slot := last_seen_slot s |}.
Definition set_banned (s : ValidatorJailStatus) : ValidatorJailStatus :=
  {| is_jailed := is_jailed s; jail_until_epoch := jail_until_epoch s; offense_count := offense_count s;
     permanently_banned := true; last_seen_slot := last_seen_slot s |}.
Definition set_seen (slot : Z) (s : ValidatorJailStatus) : ValidatorJailStatus :=
  {| is_jailed := is_jailed s; jail_until_epoch := jail_until_epoch s; offense_count := offense_count s;
     permanently_banned := permanently_banned s; last_seen_slot := slot |}.

Record SlashResult := { lamports_slashed : Z; new_status : ValidatorJailStatus }.

Record SlashingState := { config : SlashingConfig; jail_statuses : gmap Pubkey ValidatorJailStatus }.
Definition SlashingState_new : SlashingState := {| config := SlashingConfig_default; jail_statuses := ∅ |}.

(** [self.jail_statuses.entry(v).or_default()], updated by [f] *)
Definition status_of (v : Pubkey) (st : SlashingState) : ValidatorJailStatus :=
  default ValidatorJailStatus_default (jail_statuses st !! v).
Definition upd_status (v : Pubkey) (f : ValidatorJailStatus -> ValidatorJailStatus) (st : SlashingState) : SlashingState :=
  {| config := config st; jail_statuses := <[v := f (status_of v st)]> (jail_statuses st) |}.

(** ** Operations *)

(** slots to epochs; the sum wraps *)
Definition duration_epochs (slots : Z) : Z := wrapping_add u64_max slots 431999 / 432000.

Definition jail_status (c : SlashingConfig) (duration : JailDuration) (current_epoch : Z) (s : ValidatorJailStatus) : ValidatorJailStatus :=
  let s := set_jailed true s in
  match duration with
  | Permanent => set_banned s
  | First | Offline => set_until (saturating_add u64_max current_epoch (duration_epochs (jail_duration_first c))) s
  | Second => set_until (saturating_add u64_max current_epoch (duration_epochs (jail_duration_second c))) s
  end.
Definition apply_jail (v : Pubkey) (duration : JailDuration) (current_epoch : Z) (st : SlashingState) : SlashingState :=
  upd_status v (jail_status (config st) duration current_epoch) st.

Definition penalty_fraction (c : SlashingConfig) (offense : SlashOffense) (count : Z) : f64 :=
  if max_offenses c <=? count then repeat_offense_penalty c
  else match offense with DoubleSigning => double_sign_penalty c | InvalidBlock => invalid_block_penalty c end.
Definition jail_duration (c : SlashingConfig) (count : Z) : JailDuration :=
  if max_offenses c <=? count then Permanent else if 2 <=? count then Second else First.

Definition slash_validator (v : Pubkey) (offense : SlashOffense) (own_stake_lamports current_epoch : Z) (st : SlashingState)
    : option SlashResult * SlashingState :=
  let st := upd_status v id st in
  if permanently_banned (status_of v st) then (None, st)
  else
    let st := upd_status v (fun s => set_offenses (saturating_add u8_max (offense_count s) 1) s) st in
    let count := offense_count (status_of v st) in
    let slashed := f64_as_u64 (f64_round (f64_mul (f64_of_Z own_stake_lamports) (penalty_fraction (config st) offense count))) in
    let st := apply_jail v (jail_duration (config st) count) current_epoch st in
    (Some {| lamports_slashed := slashed; new_status := status_of v st |}, st).

Definition jail_validator (v : Pubkey) (duration : JailDuration) (current_epoch : Z) (st : SlashingState) : SlashingState :=
  apply_jail v duration current_epoch st.

Definition unjail_validator (v : Pubkey) (current_epoch : Z) (st : SlashingState) : bool * SlashingState :=
  match jail_statuses st !! v with
  | None => (false, st)
  | Some s =>
      if permanently_banned s then (false, st)
      else if current_epoch <? jail_until_epoch s then (false, st)
      else (true, upd_status v (set_jailed false) st)
  end.

(** one round of the loop of [check_offline_validators] *)
Definition check_offline (current_slot current_epoch : Z) (acc : list Pubkey * SlashingState) (entry : Pubkey * Z)
    : list Pubkey * SlashingState :=
  let '(newly_jailed, st) := acc in
  let '(node, last_slot) := entry in
  let st := upd_status node (set_seen last_slot) st in
  let s := status_of node st in
  if is_jailed s || permanently_banned s then (newly_jailed, st)
  else if offline_jail_threshold (config st) <? saturating_sub current_slot last_slot
  then (newly_jailed ++ [node], apply_jail node Offline current_epoch st)
  else (newly_jailed, st).
Definition check_offline_validators (last_vote_slots : list (Pubkey * Z)) (current_slot current_epoch : Z) (st : SlashingState)
    : list Pubkey * SlashingState :=
  foldl (check_offline current_slot current_epoch) ([], st) last_vote_slots.

Definition jailed_or_banned (s : ValidatorJailStatus) : bool := is_jailed s || permanently_banned s.
Definition is_jailed_or_banned (v : Pubkey) (st : SlashingState) : bool :=
  match jail_statuses st !! v with Some s => jailed_or_banned s | None => false end.
Definition jailed_set (st : SlashingState) : gset Pubkey := dom (filter (fun e => jailed_or_banned e.2 = true) (jail_statuses st)).

(** the last vote of each node over its vote accounts, each [(node, last_voted_slot)] *)
Definition last_vote_slots (votes : list (Pubkey * option Z)) : gmap Pubkey Z :=
  foldl (fun m '(node, last_voted) =>
    let last_vote := default 0 last_voted in
    let entry := default 0 (m !! node) in
    <[node := if entry <? last_vote then last_vote else entry]> m) ∅ votes.

(** ** Runs *)

Inductive slash_op :=
  | Slash (v : Pubkey) (offense : SlashOffense) (own_stake epoch : Z)
  | Jail (v : Pubkey) (duration : JailDuration) (epoch : Z)
  | Unjail (v : Pubkey) (epoch : Z)
  | EpochBoundary (votes : list (Pubkey * Z)) (slot epoch : Z).

Definition op_epoch (op : slash_op) : Z :=
  match op with Slash _ _ _ e | Jail _ _ e | Unjail _ e | EpochBoundary _ _ e => e end.
Definition exec (st : SlashingState) (op : slash_op) : SlashingState :=
  match op with
  | Slash v o stake e => snd (slash_validator v o stake e st)
  | Jail v d e => jail_validator v d e st
  | Unjail v e => snd (unjail_validator v e st)
  | EpochBoundary votes slot e => snd (check_offline_validators votes slot e st)
  end.
Definition exec_all (st : SlashingState) (ops : list slash_op) : SlashingState := foldl exec st ops.

(** the slashes of [v] that take effect in a run *)
Fixpoint slashes (v : Pubkey) (st : SlashingState) (ops : list slash_op) : nat :=
  match ops with
  | [] => O
  | op :: ops =>
      (match op with
       | Slash w o stake e => if decide (w = v) then match fst (slash_validator w o stake e st) with Some _ => 1 | None => 0 end else 0
       | _ => 0
       end + slashes v (exec st op) ops)%nat
  end.

(** ** Statuses *)

Lemma status_upd v w f st : status_of v (upd_status w f st) = if decide (v = w) then f (status_of v st) else status_of v st.
Proof.
  unfold status_of at 1. simpl. case_decide as E; [subst; by rewrite lookup_insert_eq|by rewrite lookup_insert_ne by done].
Qed.
Lemma config_upd v f st : config (upd_status v f st) = config st.
Proof. done. Qed.
Lemma jailed_or_banned_status v st : is_jailed_or_banned v st = jailed_or_banned (status_of v st).
Proof. unfold is_jailed_or_banned, status_of. by destruct (jail_statuses st !! v). Qed.
Lemma elem_of_jailed_set v st : v ∈ jailed_set st <-> jailed_or_banned (status_of v st) = true.
Proof.
  unfold jailed_set. rewrite elem_of_dom. unfold status_of. split.
  - intros [s [Hs Hj]%map_lookup_filter_Some]. by rewrite Hs.
  - destruct (jail_statuses st !! v) as [s|] eqn:E; [|done]. intros Hj. exists s. by apply map_lookup_filter_Some.
Qed.

(** the status of one validator after a slash *)
Definition slashed_status (c : SlashingConfig) (epoch : Z) (s : ValidatorJailStatus) : ValidatorJailStatus :=
  let s := set_offenses (saturating_add u8_max (offense_count s) 1) s in jail_status c (jail_duration c (offense_count s)) epoch s.

Lemma jail_status_count c d e s : offense_count (jail_status c d e s) = offense_count s.
Proof. by destruct d. Qed.

Lemma slash_banned v o stake e st : permanently_banned (status_of v st) = true ->
  fst (slash_validator v o stake e st) = None /\ forall w, status_of w (snd (slash_validator v o stake e st)) = status_of w st.
Proof.
  intros Hb. unfold slash_validator. rewrite status_upd, decide_True by done. cbn [id]. rewrite Hb. split; [done|].
  intros w. simpl snd. rewrite status_upd. by case_decide.
Qed.
Lemma slash_effective v o stake e st : permanently_banned (status_of v st) = false ->
  let s' := slashed_status (config st) e (status_of v st) in
  fst (slash_validator v o stake e st)
    = Some {| lamports_slashed := f64_as_u64 (f64_round (f64_mul (f64_of_Z stake) (penalty_fraction (config st) o (offense_count s'))));
              new_status := s' |}
  /\ forall w, status_of w (snd (slash_validator v o stake e st)) = if decide (w = v) then s' else status_of w st.
Proof.
  intros Hb. unfold slash_validator. rewrite status_upd, decide_True by done. cbn [id]. rewrite Hb. unfold apply_jail.
  cbn [fst snd config_upd]. rewrite !config_upd. split.
  - repeat (rewrite !status_upd, !decide_True by done). cbn [id].
    unfold slashed_status. by rewrite jail_status_count.
  - intros w. rewrite !status_upd. case_decide; [subst|done]. by rewrite !decide_True.
Qed.

(** ** The steps of one status *)

(** the changes an operation at epoch [e] makes to a status; [j] allows
    [jail_validator] and [k] a slash *)
Inductive status_step (c : SlashingConfig) (e : Z) (j k : bool) : ValidatorJailStatus -> ValidatorJailStatus -> Prop :=
  | step_slash s : k = true -> permanently_banned s = false -> status_step c e j k s (slashed_status c e s)
  | step_jail d s : j = true -> status_step c e j k s (jail_status c d e s)
  | step_unjail s : permanently_banned s = false -> jail_until_epoch s <= e -> status_step c e j k s (set_jailed false s)
  | step_seen slot s : status_step c e j k s (set_seen slot s)
  | step_offline s : is_jailed s = false -> permanently_banned s = false -> status_step c e j k s (jail_status c Offline e s).

Definition is_slash (op : slash_op) : bool := match op with Slash _ _ _ _ => true | _ => false end.
(** a direct jailing of [v] *)
Definition is_jail (v : Pubkey) (op : slash_op) : bool := match op with Jail w _ _ => bool_decide (w = v) | _ => false end.

Lemma check_offline_step j k slot e acc entry v :
  config (check_offline slot e acc entry).2 = config acc.2
  /\ rtc (status_step (config acc.2) e j k) (status_of v acc.2) (status_of v (check_offline slot e acc entry).2).
Proof.
  destruct acc as [l st], entry as [node last_slot]. unfold check_offline. set (st1 := upd_status node _ st).
  assert (rtc (status_step (config st) e j k) (status_of v st) (status_of v st1)) as H1.
  { unfold st1. rewrite status_upd. case_decide; [|done]. apply rtc_once. constructor. }
  destruct (is_jailed (status_of node st1)) eqn:Ej; [done|]. destruct (permanently_banned (status_of node st1)) eqn:Eb; [done|]. simpl orb. cbn iota.
  destruct (_ <? _); [|done]. split; [done|]. simpl. unfold apply_jail. rewrite status_upd. case_decide as E; [subst|done].
  etrans; [exact H1|]. apply rtc_once. by constructor.
Qed.
Lemma check_offline_validators_step j k slot e votes st v :
  config (check_offline_validators votes slot e st).2 = config st
  /\ rtc (status_step (config st) e j k) (status_of v st) (status_of v (check_offline_validators votes slot e st).2).
Proof.
  unfold check_offline_validators. change st with (@nil Pubkey, st).2 at 2 3 4. generalize (@nil Pubkey, st) as acc.
  induction votes as [|entry votes IH]; intros acc; [done|]. simpl foldl.
  destruct (check_offline_step j k slot e acc entry v) as [Ec H1]. destruct (IH (check_offline slot e acc entry)) as [Ec2 H2].
  rewrite Ec in *. split; [done|]. by etrans.
Qed.

Lemma exec_step st op v : config (exec st op) = config st
  /\ rtc (status_step (config st) (op_epoch op) (is_jail v op) (is_slash op)) (status_of v st) (status_of v (exec st op)).
Proof.
  destruct op as [w o stake e|w d e|w e|votes slot e]; simpl; [| | |apply check_offline_validators_step].
  - split; [by unfold slash_validator; case_match|].
    destruct (permanently_banned (status_of w st)) eqn:Eb.
    + by rewrite (proj2 (slash_banned w o stake e st Eb)).
    + rewrite (proj2 (slash_effective w o stake e st Eb)). case_decide; [subst|done]. apply rtc_once. by constructor.
  - split; [done|]. unfold jail_validator, apply_jail. rewrite status_upd. case_decide; [|done]. apply rtc_once. constructor.
    by apply bool_decide_eq_true.
  - unfold unjail_validator. destruct (jail_statuses st !! w) as [s|] eqn:E; [|done].
    destruct (permanently_banned s) eqn:Eb; [done|]. destruct (Z.ltb_spec e (jail_until_epoch s)); [done|]. split; [done|].
    simpl. rewrite status_upd. case_decide; [subst|done]. assert (status_of w st = s) as -> by (unfold status_of; by rewrite E).
    apply rtc_once. by constructor.
Qed.

(** an invariant of the steps of a status is an invariant of the runs *)
Lemma exec_all_inv (P : ValidatorJailStatus -> Prop) ops st v :
  (forall s s' e j k, status_step (config st) e j k s s' -> P s -> P s') -> P (status_of v st) ->
  P (status_of v (exec_all st ops)) /\ config (exec_all st ops) = config st.
Proof.
  revert st. induction ops as [|op ops IH]; intros st HP H0; [done|]. simpl. destruct (exec_step st op v) as [Ec Hs].
  destruct (IH (exec st op)) as [H1 H2]; [by rewrite Ec| |by rewrite H2].
  clear IH. induction Hs as [|s s' s'' H1 H2 IH2]; [done|]. eauto.
Qed.

(** ** Permanent bans *)

Lemma ban_persists v st ops : permanently_banned (status_of v st) = true ->
  permanently_banned (status_of v (exec_all st ops)) = true /\ offense_count (status_of v (exec_all st ops)) = offense_count (status_of v st).
Proof.
  intros Hb. apply (exec_all_inv (fun s => permanently_banned s = true /\ offense_count s = offense_count (status_of v st))); [|done].
  intros s s' e j k Hs [H1 H2]. destruct Hs as [s _ Hf|d s| | |]; try congruence; [|done]. by destruct d.
Qed.
Lemma banned_jailed v st : permanently_banned (status_of v st) = true -> v ∈ jailed_set st.
Proof. intros Hb. apply elem_of_jailed_set. unfold jailed_or_banned. rewrite Hb. apply orb_true_r. Qed.

(** A permanent ban is for ever: once a validator is banned, after any sequence of slashes, jailings, unjailings and epoch
    boundaries it is still banned and in the jailed set, its offense count has not changed, [slash_validator] returns [None] for it
    and [unjail_validator] refuses. *)
Theorem ban_is_permanent v st ops : permanently_banned (status_of v st) = true ->
  let st' := exec_all st ops in
  permanently_banned (status_of v st') = true /\ v ∈ jailed_set st' /\ offense_count (status_of v st') = offense_count (status_of v st)
  /\ (forall o stake e, fst (slash_validator v o stake e st') = None) /\ forall e, fst (unjail_validator v e st') = false.
Proof.
  intros Hb st'. destruct (ban_persists v st ops Hb) as [Hb' Hn]. change (exec_all st ops) with st' in Hb', Hn.
  split; [done|]. split; [by apply banned_jailed|]. split; [done|].
  split; [intros; by apply slash_banned|]. intros e. unfold unjail_validator, status_of in *.
  destruct (jail_statuses st' !! v) as [s|]; [|done]. simpl in Hb'. by rewrite Hb'.
Qed.

(** ** Offense counts *)

(** below the maximum, or banned *)
Definition count_inv (c : SlashingConfig) (s : ValidatorJailStatus) : Prop :=
  0 <= offense_count s <= max_offenses c /\ (offense_count s = max_offenses c -> permanently_banned s = true).

Lemma slashed_count c e s : 1 <= max_offenses c <= u8_max -> count_inv c s -> permanently_banned s = false ->
  offense_count (slashed_status c e s) = offense_count s + 1 /\ count_inv c (slashed_status c e s).
Proof.
  intros Hm [Hr Hb] Hf. assert (offense_count s <> max_offenses c) by (intros E; specialize (Hb E); congruence).
  assert (offense_count (slashed_status c e s) = offense_count s + 1) as E.
  { unfold slashed_status. rewrite jail_status_count. simpl. unfold saturating_add. lia. }
  split; [done|]. split; [lia|]. rewrite E. intros Em. unfold slashed_status. cbn [set_offenses offense_count].
  unfold jail_duration, saturating_add. rewrite (proj2 (Z.leb_le _ _)) by lia. done.
Qed.

Lemma unslashed_count c e j s s' : rtc (status_step c e j false) s s' -> count_inv c s -> offense_count s' = offense_count s /\ count_inv c s'.
Proof.
  induction 1 as [|s s' s'' Hs _ IH]; [done|]. intros Hi.
  assert (offense_count s' = offense_count s /\ count_inv c s') as [E Hi']; [|by destruct (IH Hi') as [-> ?]].
  destruct Hi as [Hr Hb].
  destruct Hs as [|d s| | |]; [done|destruct d|..]; (split; [done|split; [exact Hr|first [exact Hb|done]]]).
Qed.

Lemma exec_all_count v st ops : 1 <= max_offenses (config st) <= u8_max -> count_inv (config st) (status_of v st) ->
  offense_count (status_of v (exec_all st ops)) = offense_count (status_of v st) + Z.of_nat (slashes v st ops)
  /\ count_inv (config st) (status_of v (exec_all st ops)).
Proof.
  intros Hm. revert st Hm. induction ops as [|op ops IH]; intros st Hm Hi; [simpl; split; [lia|done]|].
  cbn [exec_all foldl]. fold (exec_all (exec st op) ops). destruct (exec_step st op v) as [Ec Hs].
  enough (offense_count (status_of v (exec st op)) = offense_count (status_of v st) + Z.of_nat (slashes v st [op])
    /\ count_inv (config st) (status_of v (exec st op))) as [E Hi'].
  { destruct (IH (exec st op)) as [E2 Hi2]; rewrite ?Ec; [done..|]. rewrite Ec in Hi2. split; [|done]. rewrite E2, E. simpl. lia. }
  clear IH. destruct (is_slash op) eqn:Eo.
  - destruct op as [w o stake e| | |]; try done. simpl slashes. simpl exec. destruct (permanently_banned (status_of w st)) eqn:Eb.
    + destruct (slash_banned w o stake e st Eb) as [Hn Hst]. rewrite Hst, Hn. case_decide; simpl; (split; [lia|done]).
    + destruct (slash_effective w o stake e st Eb) as [Hn Hst]. rewrite Hst, Hn. case_decide as Ew.
      * subst. rewrite decide_True by done. destruct (slashed_count (config st) e _ Hm Hi Eb) as [-> ?]. split; [simpl; lia|done].
      * rewrite decide_False by done. split; [simpl; lia|done].
  - destruct (unslashed_count _ _ _ _ _ Hs Hi) as [E Hi']. rewrite E. split; [|done].
    destruct op; try done; simpl; lia.
Qed.

(** Offenses are counted and end in a ban: in any run from an empty state, with [max_offenses] at least 1, the offense count of a
    validator is the number of slashes of it that took effect, it never exceeds [max_offenses], and a validator that reaches
    [max_offenses] is permanently banned. *)
Theorem offenses_counted v c ops : 1 <= max_offenses c <= u8_max ->
  let st := {| config := c; jail_statuses := ∅ |} in
  let s := status_of v (exec_all st ops) in
  offense_count s = Z.of_nat (slashes v st ops) /\ offense_count s <= max_offenses c
  /\ (offense_count s = max_offenses c -> permanently_banned s = true).
Proof.
  intros Hm st s. assert (count_inv c (status_of v st)) as Hi.
  { unfold status_of, st. simpl. rewrite lookup_empty. split; simpl; lia. }
  destruct (exec_all_count v st ops Hm Hi) as [E [Hr Hb]]. fold s in E, Hr, Hb. split; [|split; [apply Hr|exact Hb]].
  rewrite E. unfold status_of, st. simpl. rewrite lookup_empty. done.
Qed.

(** ** Sentences *)

(** the epochs of a sentence under the default configuration *)
Definition term (count : Z) : Z := if 2 <=? count then 15 else 4.

(** no sentence is longer than the term of the offense count, from the epoch [now] *)
Definition sentence_inv (now : Z) (s : ValidatorJailStatus) : Prop :=
  0 <= offense_count s <= u8_max /\ jail_until_epoch s <= saturating_add u64_max now (term (offense_count s)).

Lemma saturating_add_mono m a b c d : a <= c -> b <= d -> saturating_add m a b <= saturating_add m c d.
Proof. unfold saturating_add. lia. Qed.
Lemma term_mono a b : a <= b -> term a <= term b.
Proof. unfold term. destruct (Z.leb_spec 2 a), (Z.leb_spec 2 b); lia. Qed.
Lemma sentence_later now e s : now <= e -> sentence_inv now s -> sentence_inv e s.
Proof. intros He [Hc Hu]. split; [done|]. etrans; [exact Hu|]. by apply saturating_add_mono. Qed.

Lemma slashed_until e s : 0 <= offense_count s <= u8_max ->
  let s' := slashed_status SlashingConfig_default e s in
  offense_count s <= offense_count s' <= u8_max
  /\ (jail_until_epoch s' = jail_until_epoch s \/ jail_until_epoch s' = saturating_add u64_max e (term (offense_count s'))).
Proof.
  intros Hc. unfold slashed_status. rewrite jail_status_count. cbn [set_offenses offense_count].
  set (n := saturating_add u8_max (offense_count s) 1). assert (offense_count s <= n <= u8_max) as Hn by (unfold n, saturating_add; lia).
  split; [done|]. unfold jail_duration, term. destruct (_ <=? n); [by left|]. right. by destruct (2 <=? n).
Qed.
Lemma sentence_step e k s s' : status_step SlashingConfig_default e false k s s' -> sentence_inv e s -> sentence_inv e s'.
Proof.
  intros Hs [Hc Hu]. destruct Hs as [s _ _|d s| | |s]; [|done|done|done|].
  - destruct (slashed_until e s Hc) as [Hn [E|E]]; (split; [lia|]); rewrite E; [|done]. etrans; [exact Hu|].
    apply saturating_add_mono; [done|]. apply term_mono. lia.
  - split; [done|]. simpl. apply saturating_add_mono; [done|]. unfold term. case_match; vm_compute; discriminate.
Qed.
Lemma served_step e k u s s' : status_step SlashingConfig_default e false k s s' -> e < u -> sentence_inv e s ->
  is_jailed s = true /\ u <= jail_until_epoch s -> is_jailed s' = true /\ u <= jail_until_epoch s'.
Proof.
  intros Hs He [Hc Hu] [Hj Hue]. destruct Hs as [s _ _|d s| | |s]; [|done|lia|done|congruence].
  split; [unfold slashed_status, jail_status; by destruct (jail_duration _ _)|].
  destruct (slashed_until e s Hc) as [Hn [E|E]]; rewrite E; [done|]. etrans; [exact Hue|]. etrans; [exact Hu|].
  apply saturating_add_mono; [done|]. apply term_mono. lia.
Qed.

(** epochs that do not decrease, from [now] *)
Fixpoint in_order (now : Z) (ops : list slash_op) : Prop :=
  match ops with [] => True | op :: ops => now <= op_epoch op /\ in_order (op_epoch op) ops end.
Definition last_epoch (now : Z) (ops : list slash_op) : Z := default now (op_epoch <$> last ops).

Lemma last_epoch_cons now op ops : last_epoch now (op :: ops) = last_epoch (op_epoch op) ops.
Proof. unfold last_epoch. rewrite last_cons. by destruct (last ops). Qed.
Lemma in_order_app now ops1 ops2 : in_order now (ops1 ++ ops2) <-> in_order now ops1 /\ in_order (last_epoch now ops1) ops2.
Proof.
  revert now. induction ops1 as [|op ops1 IH]; intros now; [simpl; tauto|]. rewrite last_epoch_cons. simpl. rewrite IH. tauto.
Qed.

Lemma exec_all_sentence v st now ops : config st = SlashingConfig_default -> in_order now ops -> Forall (fun op => is_jail v op = false) ops ->
  sentence_inv now (status_of v st) -> sentence_inv (last_epoch now ops) (status_of v (exec_all st ops)).
Proof.
  revert st now. induction ops as [|op ops IH]; intros st now Ec Ho Hj Hi; [done|]. destruct Ho as [He Ho].
  apply Forall_cons in Hj as [Hj Hjs]. rewrite last_epoch_cons. destruct (exec_step st op v) as [Ec' Hs]. rewrite Ec in *. rewrite Hj in Hs.
  apply IH; [done..|]. apply (sentence_later _ _ _ He) in Hi. clear IH. induction Hs as [|s s' s'' H1 _ IH2]; [done|]. eauto using sentence_step.
Qed.
Lemma exec_all_served v u st now ops : config st = SlashingConfig_default -> in_order now ops -> Forall (fun op => is_jail v op = false) ops ->
  Forall (fun op => op_epoch op < u) ops -> sentence_inv now (status_of v st) ->
  is_jailed (status_of v st) = true /\ u <= jail_until_epoch (status_of v st) -> is_jailed (status_of v (exec_all st ops)) = true.
Proof.
  revert st now. induction ops as [|op ops IH]; intros st now Ec Ho Hj Hu Hi Hd; [by destruct Hd|]. destruct Ho as [He Ho].
  apply Forall_cons in Hj as [Hj Hjs]. apply Forall_cons in Hu as [Hu Hus]. destruct (exec_step st op v) as [Ec' Hs]. rewrite Ec in *. rewrite Hj in Hs.
  apply (sentence_later _ _ _ He) in Hi. simpl.
  assert (sentence_inv (op_epoch op) (status_of v (exec st op))
    /\ is_jailed (status_of v (exec st op)) = true /\ u <= jail_until_epoch (status_of v (exec st op))) as [Hi' Hd'].
  { clear IH. induction Hs as [|s s' s'' H1 _ IH2]; [done|]. apply IH2; [by eapply sentence_step|by eapply served_step]. }
  by apply (IH _ (op_epoch op)).
Qed.

(** A direct jailing can be shortened: a validator jailed by [jail_validator] for the second term, until epoch 15, is after its first
    offense in epoch 1 only jailed until epoch 5, when it can be unjailed. *)
Theorem direct_jailing_shortened v o stake :
  let st := exec_all SlashingState_new [Jail v Second 0] in
  let st' := exec st (Slash v o stake 1) in
  jail_until_epoch (status_of v st) = 15 /\ jail_until_epoch (status_of v st') = 5
  /\ v ∈ jailed_set st' /\ v ∉ jailed_set (exec st' (Unjail v 5)).
Proof.
  intros st st'. assert (status_of v st = jail_status SlashingConfig_default Second 0 ValidatorJailStatus_default) as E
    by (unfold st; simpl; unfold jail_validator, apply_jail; rewrite status_upd, decide_True by done; done).
  assert (permanently_banned (status_of v st) = false) as Hb by (by rewrite E).
  assert (status_of v st' = slashed_status SlashingConfig_default 1 (status_of v st)) as E'.
  { unfold st'. simpl. by rewrite (proj2 (slash_effective v o stake 1 st Hb)), decide_True. }
  rewrite E in E'. rewrite !elem_of_jailed_set, E', E. split; [done|]. split; [done|]. split; [done|]. simpl. unfold unjail_validator.
  destruct (jail_statuses st' !! v) as [s|] eqn:Es; unfold status_of in E'; rewrite Es in E'; cbn [default from_option] in E'.
  - change (s = slashed_status SlashingConfig_default 1 (jail_status SlashingConfig_default Second 0 ValidatorJailStatus_default)) in E'. subst s.
    match goal with |- context [upd_status v ?f st'] => change (~ jailed_or_banned (status_of v (upd_status v f st')) = true) end.
    rewrite status_upd, decide_True by done. unfold status_of. by rewrite Es.
  - discriminate E'.
Qed.

(** C30. A sentence is served: in a run from [SlashingState::new] with epochs that do not decrease, in which [jail_validator] is not
    called for the validator itself, a validator that is jailed (by a slash or the offline check) until epoch [u] is still jailed after
    any further slashes, unjail requests and epoch boundaries, and jailings of others, at epochs before [u]; in particular a later
    offense never shortens such a sentence.  (It can shorten one given directly by [jail_validator]: [direct_jailing_shortened].) *)
Theorem sentence_served v ops1 ops2 now : 0 <= now ->
  in_order now (ops1 ++ ops2) -> Forall (fun op => is_jail v op = false) (ops1 ++ ops2) ->
  is_jailed (status_of v (exec_all SlashingState_new ops1)) = true ->
  Forall (fun op => op_epoch op < jail_until_epoch (status_of v (exec_all SlashingState_new ops1))) ops2 ->
  v ∈ jailed_set (exec_all SlashingState_new (ops1 ++ ops2)).
Proof.
  intros Hnow [Ho1 Ho2]%in_order_app [Hj1 Hj2]%Forall_app Hj Hu. unfold exec_all. rewrite foldl_app. fold (exec_all SlashingState_new ops1).
  apply elem_of_jailed_set. unfold jailed_or_banned. change (foldl exec) with exec_all.
  rewrite (exec_all_served v _ _ _ _ (proj2 (exec_all_inv (fun _ => True) ops1 SlashingState_new v ltac:(done) I)) Ho2 Hj2 Hu); [done| |done].
  apply exec_all_sentence; [done..|]. change (sentence_inv now ValidatorJailStatus_default).
  split; [done|]. change (0 <= saturating_add u64_max now 4). unfold saturating_add. lia.
Qed.

(** ** Amounts *)

Definition slash_amount (stake : Z) (p : f64) : Z := f64_as_u64 (f64_round (f64_mul (f64_of_Z stake) p)).

(** a penalty of [pct] percent, correctly rounded *)
Definition pct_ok (pct : Z) (p : f64) : bool :=
  match p with
  | S754_finite false m e =>
      (2 ^ 52 <=? Z.pos m) && (Z.pos m <? 2 ^ 53) && (-60 <=? e) && (e <=? -53)
      && Z.leb (2 ^ 53 * Z.abs (100 * Z.pos m - pct * 2 ^ (- e))) (pct * 2 ^ (- e))
  | _ => false
  end.

Lemma pct_value pct m e : -60 <= e <= -53 -> 0 < pct -> 2 ^ 53 * Z.abs (100 * Z.pos m - pct * 2 ^ (- e)) <= pct * 2 ^ (- e) ->
  (inject_Z (pct * (2 ^ 53 - 1)) <= inject_Z (100 * 2 ^ 53) * qval (Z.pos m) e
   /\ inject_Z (100 * 2 ^ 53) * qval (Z.pos m) e <= inject_Z (pct * (2 ^ 53 + 1)))%Q.
Proof.
  intros He Hp H. rewrite !qval_scale. assert (forall z, (inject_Z z == qval (z * 2 ^ (- e)) e)%Q) as E by (intros; by rewrite qval_unshift by lia).
  rewrite !E. split; apply qval_le; lia.
Qed.

(** [stake as f64 * p] is [pct] percent of the stake, up to a relative error of 2^-45 percent of the stake *)
Lemma percent_product pct m2 e2 stake : pct_ok pct (S754_finite false m2 e2) = true -> 0 < pct <= 25 -> 0 < stake <= u64_max ->
  exists m e, f64_mul (f64_of_Z stake) (S754_finite false m2 e2) = S754_finite false m e
    /\ Z.pos m < 2 ^ 53 /\ -1000 <= e <= 11 /\ (0 < qval (Z.pos m) e)%Q
    /\ ((35184372088832 # 1) * (100 * qval (Z.pos m) e - inject_Z (pct * stake)) <= inject_Z stake)%Q
    /\ ((35184372088832 # 1) * (inject_Z (pct * stake) - 100 * qval (Z.pos m) e) <= inject_Z stake)%Q.
Proof.
  intros Hok Hpct Hs. unfold pct_ok in Hok. breflect. destruct_and!. destruct (pct_value pct m2 e2) as [Hp1 Hp2]; [lia..|].
  destruct (f64_scale_spec stake m2 e2) as (m & e & -> & Hm & He & Hx1 & Hx2); [lia..|].
  assert (0 < inject_Z stake)%Q as Hzq by (rewrite <- (Zlt_Qlt 0); lia).
  pose proof (Qmult_le_compat_r _ _ (inject_Z stake) Hp1 ltac:(lra)) as Hq1.
  pose proof (Qmult_le_compat_r _ _ (inject_Z stake) Hp2 ltac:(lra)) as Hq2. clear Hp1 Hp2.
  rewrite <- (Qmult_assoc _ (qval _ _)) in Hq1, Hq2. rewrite (Qmult_comm (qval _ _)) in Hq1, Hq2.
  pose proof (qval_pos (Z.pos m) e ltac:(lia)) as Hxpos.
  set (x := qval (Z.pos m) e) in *. set (w := (inject_Z stake * qval (Z.pos m2) e2)%Q) in *.
  rewrite (inject_Z_mult pct), <- Qmult_assoc, (Qmult_comm (inject_Z (2 ^ 53 - 1))), Qmult_assoc, <- inject_Z_mult in Hq1.
  rewrite (inject_Z_mult pct), <- Qmult_assoc, (Qmult_comm (inject_Z (2 ^ 53 + 1))), Qmult_assoc, <- inject_Z_mult in Hq2.
  assert (0 <= inject_Z (pct * stake) /\ inject_Z (pct * stake) <= 25 * inject_Z stake)%Q as [Hn Hn25].
  { rewrite <- (inject_Z_mult 25), <- (Zle_Qle 0), <- Zle_Qle. nia. }
  change (inject_Z (2 ^ 53 - 1)) with (9007199254740991 # 1)%Q in *. change (inject_Z (2 ^ 53 + 1)) with (9007199254740993 # 1)%Q in *.
  change (inject_Z (100 * 2 ^ 53)) with (900719925474099200 # 1)%Q in *. change (inject_Z (2 ^ 51 - 1)) with (2251799813685247 # 1)%Q in *.
  change (inject_Z (2 ^ 51 + 1)) with (2251799813685249 # 1)%Q in *. change (inject_Z (2 ^ 51)) with (2251799813685248 # 1)%Q in *.
  assert (x < inject_Z (2 ^ 64))%Q as Hx64.
  { assert (inject_Z stake <= inject_Z (2 ^ 64))%Q by (rewrite <- Zle_Qle; lia). change (inject_Z (2 ^ 64)) with (18446744073709551616 # 1)%Q in *. lra. }
  exists m, e. split; [done|]. split; [lia|]. split; [split; [lia|by apply (exponent_bound (Z.pos m)); [lia|]]|]. split; [done|]. fold x. split; lra.
Qed.

Lemma slash_amount_spec pct p stake : pct_ok pct p = true -> 0 < pct <= 25 -> 0 <= stake <= u64_max ->
  Z.abs (100 * slash_amount stake p - pct * stake) <= 50 + stake / 2 ^ 45 /\ 0 <= slash_amount stake p <= stake.
Proof.
  intros Hok Hpct Hs. destruct p as [| | |[] m2 e2]; try done.
  destruct (decide (stake = 0)) as [->|Hne]; [change (slash_amount 0 _) with 0; split; [rewrite !Z.mul_0_r; vm_compute; discriminate|lia]|].
  unfold slash_amount. destruct (percent_product pct m2 e2 stake Hok Hpct) as (m & e & -> & Hm & He & Hx & H1 & H2); [lia|].
  rewrite f64_round_spec by lia. set (x := qval (Z.pos m) e) in *. set (a := Qfloor (x + (1 # 2))).
  pose proof (Qfloor_le (x + (1 # 2))) as Hf1. pose proof (Qlt_floor (x + (1 # 2))) as Hf2. fold a in Hf1, Hf2.
  rewrite inject_Z_plus in Hf2. change (inject_Z 1) with 1%Q in Hf2.
  assert (2 ^ 45 * Z.abs (100 * a - pct * stake) <= 2 ^ 45 * 50 + stake) as Herr.
  { assert (forall d, (inject_Z d <= 35184372088832 * 50 + inject_Z stake)%Q -> d <= 2 ^ 45 * 50 + stake) as Hback.
    { intros d Hd. rewrite Zle_Qle, inject_Z_plus. exact Hd. }
    assert (2 ^ 45 * (100 * a - pct * stake) <= 2 ^ 45 * 50 + stake /\ 2 ^ 45 * (pct * stake - 100 * a) <= 2 ^ 45 * 50 + stake); [|lia].
    split; apply Hback; rewrite inject_Z_mult; unfold Z.sub; rewrite inject_Z_plus, inject_Z_opp, (inject_Z_mult 100);
      change (inject_Z (2 ^ 45)) with (35184372088832 # 1)%Q; change (inject_Z 100) with (100 # 1)%Q; lra. }
  assert (0 <= a) as Ha0 by (apply (Qfloor_resp_le 0); lra).
  assert (Z.abs (100 * a - pct * stake) <= 50 + stake / 2 ^ 45) as Habs.
  { pose proof (Z.div_mod stake (2 ^ 45) ltac:(lia)). pose proof (Z.mod_pos_bound stake (2 ^ 45) ltac:(lia)). nia. }
  assert (a <= stake) by nia. rewrite Z.min_r by lia. split; [done|lia].
Qed.

(** the percentage of the stake an offense costs, [count] offenses with this one *)
Definition penalty_percent (o : SlashOffense) (count : Z) : Z :=
  if 3 <=? count then 25 else match o with DoubleSigning => 5 | InvalidBlock => 10 end.

Lemma penalty_ok o count : pct_ok (penalty_percent o count) (penalty_fraction SlashingConfig_default o count) = true
  /\ 0 < penalty_percent o count <= 25.
Proof. unfold penalty_percent, penalty_fraction. simpl max_offenses. destruct (3 <=? count), o; (split; [vm_compute; reflexivity|lia]). Qed.

(** What a slash costs: under the default configuration a slash of a validator that is not banned takes 5% of its own stake for
    double signing and 10% for an invalid block, or 25% when the offense is the third, to the nearest lamport and up to the error
    of the [f64] product (less than 2^-45 percent of the stake), never more than the stake; the validator is jailed for 4 epochs by the
    first offense, for 15 epochs by the second and permanently by the third. *)
Theorem slash_outcome v o stake e st : config st = SlashingConfig_default -> permanently_banned (status_of v st) = false ->
  0 <= offense_count (status_of v st) < 3 -> 0 <= stake <= u64_max -> 0 <= e < u64_max - 15 ->
  let count := offense_count (status_of v st) + 1 in
  exists r, fst (slash_validator v o stake e st) = Some r
    /\ 0 <= lamports_slashed r <= stake
    /\ Z.abs (100 * lamports_slashed r - penalty_percent o count * stake) <= 50 + stake / 2 ^ 45
    /\ status_of v (snd (slash_validator v o stake e st)) = new_status r
    /\ offense_count (new_status r) = count /\ is_jailed (new_status r) = true
    /\ (count = 1 -> jail_until_epoch (new_status r) = e + 4) /\ (count = 2 -> jail_until_epoch (new_status r) = e + 15)
    /\ permanently_banned (new_status r) = (count =? 3).
Proof.
  intros Ec Hb Hn Hs He count. destruct (slash_effective v o stake e st Hb) as [Hr Hst]. rewrite Ec in *. rewrite Hr, Hst, decide_True by done.
  assert (offense_count (slashed_status SlashingConfig_default e (status_of v st)) = count) as Hc.
  { unfold slashed_status. rewrite jail_status_count. simpl. unfold saturating_add. lia. }
  rewrite Hc. destruct (penalty_ok o count) as [Hok Hp]. destruct (slash_amount_spec _ _ stake Hok Hp Hs) as [Ha1 Ha2].
  eexists. split; [reflexivity|]. cbn [lamports_slashed new_status]. split; [exact Ha2|]. split; [exact Ha1|]. split; [done|]. split; [done|].
  unfold slashed_status in *. rewrite jail_status_count in Hc. cbn [set_offenses offense_count] in Hc |- *. rewrite Hc.
  unfold jail_duration. simpl max_offenses.
  assert (count = 1 \/ count = 2 \/ count = 3) as Hk by lia. clearbody count. destruct Hk as [-> | [-> | ->]]; simpl; rewrite ?Hb; (split; [done|]); unfold saturating_add;
    change (duration_epochs 1512000) with 4; change (duration_epochs 6480000) with 15; (split; [lia|]); (split; [lia|done]).
Qed.

(** ** Offline validators *)

Definition is_offline (st : SlashingState) (slot last : Z) : Prop := offline_jail_threshold (config st) < saturating_sub slot last.

Lemma last_vote_slots_snoc votes node lv : last_vote_slots (votes ++ [(node, lv)])
  = <[node := Z.max (default 0 (last_vote_slots votes !! node)) (default 0 lv)]> (last_vote_slots votes).
Proof. unfold last_vote_slots. rewrite foldl_app. simpl. f_equal. case_match eqn:E; [apply Z.ltb_lt in E|apply Z.ltb_ge in E]; lia. Qed.

(** the latest vote of each node *)
Lemma last_vote_slots_spec votes v :
  match last_vote_slots votes !! v with
  | None => v ∉ votes.*1
  | Some x => v ∈ votes.*1 /\ (forall lv, (v, lv) ∈ votes -> default 0 lv <= x) /\ (x = 0 \/ exists lv, (v, lv) ∈ votes /\ default 0 lv = x)
  end.
Proof.
  induction votes as [|[node lv] votes IH] using rev_ind; [apply not_elem_of_nil|]. rewrite last_vote_slots_snoc, fmap_app.
  destruct (decide (node = v)) as [->|Hne].
  - rewrite lookup_insert_eq. split; [rewrite elem_of_app; right; left|]. destruct (last_vote_slots votes !! v) as [x|] eqn:E; simpl default at 2.
    + destruct IH as (Hin & Hmax & Hatt). split.
      * intros lv' [Hin'|Hin']%elem_of_app; [specialize (Hmax _ Hin'); simpl; lia|]. apply list_elem_of_singleton in Hin'. simplify_eq. simpl. lia.
      * simpl. destruct (Z.max_spec x (default 0 lv)) as [[Hm ->]|[Hm ->]].
        -- right. exists lv. rewrite elem_of_app. split; [right; left|done].
        -- destruct Hatt as [?|(lv' & Hin' & ?)]; [by left|]. right. exists lv'. rewrite elem_of_app. by split; [left|].
    + split.
      * intros lv' [Hin'|Hin']%elem_of_app; [|apply list_elem_of_singleton in Hin'; simplify_eq; simpl; lia].
        destruct IH. by apply (list_elem_of_fmap_2 fst _ (v, lv')).
      * simpl. destruct (Z.max_spec 0 (default 0 lv)) as [[Hm ->]|[Hm ->]]; [|by left].
        right. exists lv. rewrite elem_of_app. split; [right; left|done].
  - rewrite lookup_insert_ne by done. assert (forall lv', (v, lv') ∈ votes ++ [(node, lv)] <-> (v, lv') ∈ votes) as E.
    { intros lv'. rewrite elem_of_app, list_elem_of_singleton. split; [intros [?|[= -> ->]]; done|by left]. }
    assert (v ∈ votes.*1 ++ [(node, lv)].*1 <-> v ∈ votes.*1) as E2.
    { rewrite elem_of_app. simpl. rewrite list_elem_of_singleton. split; [intros [?|?]; [done|congruence]|by left]. }
    destruct (last_vote_slots votes !! v) as [x|]; [|by rewrite E2]. rewrite E2. destruct IH as (? & Hmax & Hatt). split; [done|]. split.
    + intros lv' Hin. by apply Hmax, E.
    + destruct Hatt as [?|(lv' & Hin' & ?)]; [by left|]. right. exists lv'. by rewrite E.
Qed.

Lemma check_offline_one slot e l st v last : exists newly st',
  check_offline slot e (l, st) (v, last) = (l ++ newly, st') /\ config st' = config st
  /\ (forall w, w <> v -> status_of w st' = status_of w st)
  /\ (forall w, w ∈ newly <-> w = v /\ jailed_or_banned (status_of v st) = false /\ is_offline st slot last)
  /\ jailed_or_banned (status_of v st') = jailed_or_banned (status_of v st) || bool_decide (v ∈ newly).
Proof.
  unfold check_offline. set (st1 := upd_status v _ st).
  assert (status_of v st1 = set_seen last (status_of v st)) as E1 by (unfold st1; by rewrite status_upd, decide_True).
  assert (forall w, w <> v -> status_of w st1 = status_of w st) as Hw by (intros w Hw; unfold st1; by rewrite status_upd, decide_False).
  change (is_jailed (status_of v st1) || _) with (jailed_or_banned (status_of v st1)).
  assert (jailed_or_banned (status_of v st1) = jailed_or_banned (status_of v st)) as E2 by (by rewrite E1). rewrite E2.
  destruct (jailed_or_banned (status_of v st)) eqn:Ej.
  - exists [], st1. rewrite app_nil_r. split_and!; try done. intros w. rewrite elem_of_nil. split; [done|by intros (_ & ? & _)].
  - change (config st1) with (config st). destruct (Z.ltb_spec (offline_jail_threshold (config st)) (saturating_sub slot last)).
    + exists [v]. eexists. split; [reflexivity|]. unfold apply_jail. split_and!; [done| | |].
      * intros w Hne. rewrite status_upd, decide_False by done. by apply Hw.
      * intros w. rewrite list_elem_of_singleton. split; [done|by intros [? _]].
      * rewrite status_upd, decide_True by done. by rewrite bool_decide_eq_true_2 by left.
    + exists [], st1. rewrite app_nil_r. split_and!; try done. intros w. rewrite elem_of_nil. unfold is_offline. split; [done|intros (_ & _ & ?); lia].
Qed.

Lemma check_offline_all slot e order l st : NoDup order.*1 -> exists newly st',
  foldl (check_offline slot e) (l, st) order = (l ++ newly, st') /\ config st' = config st
  /\ (forall v, v ∈ newly <-> exists last, (v, last) ∈ order /\ jailed_or_banned (status_of v st) = false /\ is_offline st slot last)
  /\ forall v, jailed_or_banned (status_of v st') = jailed_or_banned (status_of v st) || bool_decide (v ∈ newly).
Proof.
  revert l st. induction order as [|[n last] order IH]; intros l st Hnd.
  - exists [], st. rewrite app_nil_r. split_and!; try done; intros v; [|by rewrite orb_false_r]. rewrite elem_of_nil. split; [done|].
    by intros (? & ?%not_elem_of_nil & _).
  - apply NoDup_cons in Hnd as [Hn Hnd]. cbn [foldl].
    destruct (check_offline_one slot e l st n last) as (n1 & st1 & -> & Ec1 & Hw & Hin1 & Hj1).
    destruct (IH (l ++ n1) st1 Hnd) as (n2 & st2 & -> & Ec2 & Hin2 & Hj2). clear IH.
    assert (forall s, (n, s) ∉ order) as Hno by (intros s Hs; apply Hn; by apply (list_elem_of_fmap_2 fst _ (n, s))).
    assert (n ∉ n2) as Hn2 by (rewrite Hin2; intros (s & Hs & _); by apply (Hno s)).
    exists (n1 ++ n2), st2. rewrite app_assoc. split; [done|]. split; [congruence|]. split; intros v; destruct (decide (v = n)) as [->|Hne].
    + rewrite elem_of_app, Hin1. split.
      * intros [(_ & ? & ?)|?]; [|done]. exists last. split; [left|done].
      * intros (s & [[= <-]|Hs]%elem_of_cons & ? & ?); [by left|by destruct (Hno s)].
    + rewrite elem_of_app, Hin1, Hin2. setoid_rewrite elem_of_cons. rewrite Hw by done. unfold is_offline in *. rewrite Ec1. split.
      * intros [[? _]|(s & ? & ?)]; [done|]. eauto.
      * intros (s & [[= ? _]|Hs] & ?); [done|]. right. eauto.
    + rewrite Hj2, Hj1, (bool_decide_eq_false_2 (n ∈ n2)), orb_false_r by done. f_equal. apply bool_decide_ext. rewrite elem_of_app. tauto.
    + rewrite Hj2, Hw by done. f_equal. apply bool_decide_ext. rewrite elem_of_app, Hin1. tauto.
Qed.

(** Automatic jailing is exact: at an epoch boundary, whatever the order in which the vote slots are visited, the validators that
    are newly jailed are the nodes with a vote account, not jailed or banned before, each of whose vote accounts last voted more than
    [offline_jail_threshold] slots ago; nobody is released, and nobody else is jailed. *)
Theorem offline_jailing_exact votes order slot e st : order ≡ₚ map_to_list (last_vote_slots votes) ->
  Forall (fun p => 0 <= default 0 p.2) votes ->
  let '(newly, st') := check_offline_validators order slot e st in
  (forall v, v ∈ newly <-> v ∈ votes.*1 /\ (v ∉ jailed_set st) /\ forall lv, (v, lv) ∈ votes -> is_offline st slot (default 0 lv))
  /\ jailed_set st' = jailed_set st ∪ list_to_set newly.
Proof.
  intros Ho Hpos. assert (NoDup order.*1) as Hnd by (rewrite Ho; apply NoDup_fst_map_to_list).
  unfold check_offline_validators. destruct (check_offline_all slot e order [] st Hnd) as (newly & st' & -> & _ & Hin & Hj). simpl app.
  split; [intros v; rewrite Hin, elem_of_jailed_set|].
  - pose proof (last_vote_slots_spec votes v) as Hs. rewrite Forall_forall in Hpos. unfold is_offline, saturating_sub. split.
    + intros (last & Hl & Hj0 & Hoff). rewrite Ho, elem_of_map_to_list in Hl. rewrite Hl in Hs. destruct Hs as (Hk & Hmax & _).
      split; [done|]. split; [by rewrite Hj0|]. intros lv Hlv. specialize (Hmax _ Hlv). lia.
    + intros (Hk & Hj0 & Hoff). destruct (last_vote_slots votes !! v) as [x|] eqn:El; [|done]. destruct Hs as (_ & _ & Hatt).
      exists x. rewrite Ho, elem_of_map_to_list. split; [done|]. split; [by apply not_true_iff_false|].
      destruct Hatt as [->|(lv & Hlv & <-)]; [|by apply Hoff]. apply list_elem_of_fmap in Hk as ([v' lv] & -> & Hlv).
      specialize (Hoff _ Hlv). specialize (Hpos _ Hlv). simpl in Hpos. lia.
  - apply set_eq. intros v. rewrite elem_of_union, !elem_of_jailed_set, elem_of_list_to_set, Hj, orb_true_iff, bool_decide_eq_true. done.
Qed.

(** ** Witnesses *)

Module SlashingExamples.

Definition v : Pubkey := 7.
Definition three : list slash_op := [Slash v DoubleSigning 1000 1; Slash v InvalidBlock 1000 2; Slash v DoubleSigning 1000 20].

Lemma ban_is_permanent_witness :
  permanently_banned (status_of v (exec_all SlashingState_new three)) = true
  /\ v ∈ jailed_set (exec_all (exec_all SlashingState_new three) [Unjail v 1000; EpochBoundary [(v, 5)] 6 1000; Slash v InvalidBlock 1 1001]).
Proof.
  assert (permanently_banned (status_of v (exec_all SlashingState_new three)) = true) as Hb by (vm_compute; reflexivity).
  split; [exact Hb|]. destruct (ban_is_permanent v _ [Unjail v 1000; EpochBoundary [(v, 5)] 6 1000; Slash v InvalidBlock 1 1001] Hb) as (_ & H & _).
  exact H.
Defined.

Lemma offenses_counted_witness :
  offense_count (status_of v (exec_all SlashingState_new (three ++ [Slash v DoubleSigning 1000 21; Slash 8 InvalidBlock 5 21]))) = 3.
Proof.
  destruct (offenses_counted v SlashingConfig_default (three ++ [Slash v DoubleSigning 1000 21; Slash 8 InvalidBlock 5 21])) as (E & _);
    [simpl; lia|].
  etransitivity; [exact E|]. vm_compute. reflexivity.
Defined.

Lemma sentence_served_witness :
  v ∈ jailed_set (exec_all SlashingState_new ([Slash v DoubleSigning 1000 1] ++ [Unjail v 2; EpochBoundary [(v, 9)] 10 3; Unjail v 4])).
Proof.
  apply (sentence_served v [Slash v DoubleSigning 1000 1] [Unjail v 2; EpochBoundary [(v, 9)] 10 3; Unjail v 4] 0).
  - lia.
  - simpl. lia.
  - repeat constructor.
  - vm_compute. reflexivity.
  - repeat (constructor; [vm_compute; reflexivity|]). constructor.
Defined.

Lemma slash_outcome_witness :
  exists r, fst (slash_validator v InvalidBlock 1000005 9 SlashingState_new) = Some r /\ 0 <= lamports_slashed r <= 1000005.
Proof.
  destruct (slash_outcome v InvalidBlock 1000005 9 SlashingState_new) as (r & Hr & Hb & _);
    [reflexivity|vm_compute; reflexivity|vm_compute; split; [discriminate|reflexivity]|lia|lia|].
  exists r. exact (conj Hr Hb).
Defined.

Definition votes : list (Pubkey * option Z) := [(v, Some 100); (8, Some 300000); (v, None); (9, None)].
Lemma offline_jailing_exact_witness :
  let '(newly, st') := check_offline_validators [(9, 0); (8, 300000); (v, 100)] 400000 1 SlashingState_new in
  newly = [9; v] /\ jailed_set st' = jailed_set SlashingState_new ∪ list_to_set newly.
Proof.
  pose proof (offline_jailing_exact votes [(9, 0); (8, 300000); (v, 100)] 400000 1 SlashingState_new) as H.
  destruct (check_offline_validators _ _ _ _) as [newly st'] eqn:E. vm_compute in E. injection E as <- <-. split; [reflexivity|].
  apply H; [|repeat constructor; vm_compute; discriminate].
  apply (bool_decide_unpack _). vm_compute. exact I.
Defined.

End SlashingExamples.
