(* ===== verification/ActiveSet.v ===== *)
(** * The active validator set

    Models runtime/src/trv1_active_set.rs, the choice of the 200 validators that
    may lead, and the part of runtime/src/leader_schedule_utils.rs that feeds the
    leader schedule.  A [VoteAccountsHashMap] is the list of its entries in the
    order of the iteration; the vote account is a parameter with its node key. *)

From Stdlib Require Import ZArith Lia Permutation Sorting.
From stdpp Require Import base numbers list option gmap sorting.
From S2P Require Import Prelude Slashing.
Local Open Scope Z_scope.

Definition MAX_ACTIVE_VALIDATORS : nat := 200.

Record ActiveValidatorSet := {
  active_validators : gset Pubkey;
  standby_validators : gset Pubkey;
  active_ranked : list (Pubkey * Z);
  standby_ranked : list (Pubkey * Z)
}.
Definition no_validators : ActiveValidatorSet :=
  {| active_validators := ∅; standby_validators := ∅; active_ranked := []; standby_ranked := [] |}.
Definition push_active (v : Pubkey * Z) (s : ActiveValidatorSet) : ActiveValidatorSet :=
  {| active_validators := active_validators s ∪ {[v.1]}; standby_validators := standby_validators s;
     active_ranked := active_ranked s ++ [v]; standby_ranked := standby_ranked s |}.
Definition push_standby (v : Pubkey * Z) (s : ActiveValidatorSet) : ActiveValidatorSet :=
  {| active_validators := active_validators s; standby_validators := standby_validators s ∪ {[v.1]};
     active_ranked := active_ranked s; standby_ranked := standby_ranked s ++ [v] |}.

(** the larger stake first, then the smaller key *)
Definition rank_le (a b : Pubkey * Z) : Prop := b.2 < a.2 \/ (b.2 = a.2 /\ a.1 <= b.1).
#[export] Instance rank_le_dec a b : Decision (rank_le a b).
Proof. unfold rank_le. apply _. Defined.
#[export] Instance rank_le_total : Total rank_le.
Proof. intros [k1 s1] [k2 s2]. unfold rank_le. simpl. lia. Qed.
#[export] Instance rank_le_trans : Transitive rank_le.
Proof. intros [k1 s1] [k2 s2] [k3 s3]. unfold rank_le. simpl. lia. Qed.
#[export] Instance rank_le_antisymm : AntiSymm eq rank_le.
Proof. intros [k1 s1] [k2 s2]. unfold rank_le, Pubkey in *. simpl. intros ??. f_equal; lia. Qed.

Section active_set.
Context {VoteAccount : Type} (node_pubkey : VoteAccount -> Pubkey).
Definition VoteAccountsHashMap : Type := list (Pubkey * (Z * VoteAccount)).

(** ** Operations *)

Definition add_stake (m : gmap Pubkey Z) (entry : Pubkey * (Z * VoteAccount)) : gmap Pubkey Z :=
  let '(_, (stake, vote_account)) := entry in
  if stake =? 0 then m
  else let node := node_pubkey vote_account in <[node := wrapping_add u64_max (default 0 (m !! node)) stake]> m.
Definition node_stakes (accounts : VoteAccountsHashMap) : gmap Pubkey Z := foldl add_stake ∅ accounts.

Definition place (jailed : gset Pubkey) (s : ActiveValidatorSet) (v : Pubkey * Z) : ActiveValidatorSet :=
  if bool_decide (v.1 ∈ jailed) then push_standby v s
  else if (length (active_ranked s) <? MAX_ACTIVE_VALIDATORS)%nat then push_active v s
  else push_standby v s.
Definition compute (accounts : VoteAccountsHashMap) (jailed : gset Pubkey) : ActiveValidatorSet :=
  let ranked := merge_sort rank_le (map_to_list (node_stakes accounts)) in
  foldl (place jailed) no_validators ranked.

Definition is_active (node : Pubkey) (s : ActiveValidatorSet) : bool := bool_decide (node ∈ active_validators s).
Definition lowest_active (s : ActiveValidatorSet) : option (Pubkey * Z) := last (active_ranked s).
Definition highest_standby (s : ActiveValidatorSet) : option (Pubkey * Z) := head (standby_ranked s).
Definition filter_active_vote_accounts (s : ActiveValidatorSet) (accounts : VoteAccountsHashMap) : VoteAccountsHashMap :=
  filter (fun e => node_pubkey e.2.2 ∈ active_validators s) accounts.

(** the vote accounts that [leader_schedule] gives to [LeaderSchedule::new] *)
Definition leader_candidates (slashing : SlashingState) (accounts : VoteAccountsHashMap) : VoteAccountsHashMap :=
  filter_active_vote_accounts (compute accounts (jailed_set slashing)) accounts.

(** ** Stakes *)

(** the stake of a node over its vote accounts *)
Definition node_stake (accounts : VoteAccountsHashMap) (n : Pubkey) : Z :=
  zsum ((fun e => if decide (node_pubkey e.2.2 = n) then e.2.1 else 0) <$> accounts).
Definition staked_nodes (accounts : VoteAccountsHashMap) (n : Pubkey) : Prop :=
  exists k s va, (k, (s, va)) ∈ accounts /\ s <> 0 /\ node_pubkey va = n.

Lemma add_stake_comm m e1 e2 : add_stake (add_stake m e1) e2 = add_stake (add_stake m e2) e1.
Proof.
  destruct e1 as [k1 [s1 v1]], e2 as [k2 [s2 v2]]. unfold add_stake.
  destruct (s1 =? 0), (s2 =? 0); try done. destruct (decide (node_pubkey v1 = node_pubkey v2)) as [E|E].
  - rewrite E, !lookup_insert_eq, !insert_insert_eq. f_equal. simpl. unfold wrapping_add.
    rewrite !Zplus_mod_idemp_l. f_equal. lia.
  - rewrite !lookup_insert_ne by done. by apply insert_insert_ne.
Qed.
Lemma node_stakes_perm accounts accounts' : accounts ≡ₚ accounts' -> node_stakes accounts = node_stakes accounts'.
Proof.
  intros Hp. unfold node_stakes. generalize (∅ : gmap Pubkey Z). induction Hp as [| | |l1 l2 l3 _ IH1 _ IH2]; intros m; simpl.
  - done.
  - done.
  - by rewrite add_stake_comm.
  - by rewrite IH1.
Qed.

Lemma node_stake_app l1 l2 n : node_stake (l1 ++ l2) n = node_stake l1 n + node_stake l2 n.
Proof. unfold node_stake. by rewrite fmap_app, zsum_app. Qed.

(** each node with its stake *)
Lemma node_stakes_spec accounts n : Forall (fun e => 0 <= e.2.1) accounts -> node_stake accounts n <= u64_max ->
  0 <= node_stake accounts n
  /\ match node_stakes accounts !! n with
     | Some s => staked_nodes accounts n /\ s = node_stake accounts n
     | None => (~ staked_nodes accounts n) /\ node_stake accounts n = 0
     end.
Proof.
  induction accounts as [|[k [s va]] accounts IH] using rev_ind; intros Hp Hs.
  - split; [done|]. unfold node_stakes. simpl. rewrite lookup_empty. split; [|done]. by intros (? & ? & ? & ?%not_elem_of_nil & _).
  - apply Forall_app in Hp as [Hp [Hp1 _]%Forall_cons]. simpl in Hp1. rewrite node_stake_app in *.
    assert (node_stake [(k, (s, va))] n = if decide (node_pubkey va = n) then s else 0) as E by (unfold node_stake; simpl; lia).
    rewrite E in *. assert (staked_nodes (accounts ++ [(k, (s, va))]) n <-> staked_nodes accounts n \/ s <> 0 /\ node_pubkey va = n) as Hst.
    { unfold staked_nodes. setoid_rewrite elem_of_app. setoid_rewrite list_elem_of_singleton. split.
      - intros (? & ? & ? & [Hin|[= -> -> ->]] & Hn); [left; eauto 10|by right].
      - intros [(? & ? & ? & ? & ?)|?]; [eauto 10|]. exists k, s, va. auto. }
    clear E.
    assert (node_stake accounts n <= u64_max) as Hs' by (destruct (decide _); lia). destruct (IH Hp Hs') as [H0 Hm]. clear IH.
    split; [destruct (decide _); lia|]. unfold node_stakes. rewrite foldl_app. fold (node_stakes accounts). simpl.
    destruct (Z.eqb_spec s 0) as [->|Hne].
    + replace (node_stake accounts n + (if decide (node_pubkey va = n) then 0 else 0)) with (node_stake accounts n) by (destruct (decide _); lia).
      destruct (node_stakes accounts !! n); destruct Hm; rewrite Hst; split; try done; tauto.
    + destruct (decide (node_pubkey va = n)) as [<-|Hn]; [|rewrite lookup_insert_ne by done; rewrite Z.add_0_r;
        destruct (node_stakes accounts !! n); destruct Hm; rewrite Hst; split; try done; tauto].
      rewrite lookup_insert_eq. split; [apply Hst; by right|]. destruct (node_stakes accounts !! node_pubkey va); destruct Hm as [_ Hm]; simpl;
        unfold wrapping_add; rewrite Z.mod_small; lia.
Qed.

(** ** The split *)

(** the active and the standby validators of a ranked list, with room for [room] active ones *)
Fixpoint split_ranked (jailed : gset Pubkey) (room : nat) (l : list (Pubkey * Z)) : list (Pubkey * Z) * list (Pubkey * Z) :=
  match l with
  | [] => ([], [])
  | v :: l =>
      if bool_decide (v.1 ∈ jailed) then let '(a, b) := split_ranked jailed room l in (a, v :: b)
      else match room with
           | S room => let '(a, b) := split_ranked jailed room l in (v :: a, b)
           | O => let '(a, b) := split_ranked jailed O l in (a, v :: b)
           end
  end.

Definition with_ranked (s : ActiveValidatorSet) (ab : list (Pubkey * Z) * list (Pubkey * Z)) : ActiveValidatorSet :=
  {| active_validators := active_validators s ∪ list_to_set ab.1.*1; standby_validators := standby_validators s ∪ list_to_set ab.2.*1;
     active_ranked := active_ranked s ++ ab.1; standby_ranked := standby_ranked s ++ ab.2 |}.
Lemma with_ranked_standby v s ab : with_ranked (push_standby v s) ab = with_ranked s (ab.1, v :: ab.2).
Proof. unfold with_ranked. simpl. by rewrite <- app_assoc, (assoc_L (∪)). Qed.
Lemma with_ranked_active v s ab : with_ranked (push_active v s) ab = with_ranked s (v :: ab.1, ab.2).
Proof. unfold with_ranked. simpl. by rewrite <- app_assoc, (assoc_L (∪)). Qed.

Lemma place_all jailed s l :
  foldl (place jailed) s l = with_ranked s (split_ranked jailed (MAX_ACTIVE_VALIDATORS - length (active_ranked s)) l).
Proof.
  revert s. induction l as [|v l IH]; intros s.
  - destruct s. unfold with_ranked. simpl. by rewrite !app_nil_r, !(right_id_L ∅ (∪)).
  - cbn [foldl split_ranked]. rewrite IH. unfold place. destruct (bool_decide (v.1 ∈ jailed)).
    + rewrite with_ranked_standby. simpl active_ranked. by destruct (split_ranked _ _ l).
    + destruct (Nat.ltb_spec (length (active_ranked s)) MAX_ACTIVE_VALIDATORS) as [Hl|Hl].
      * rewrite with_ranked_active. simpl active_ranked. rewrite length_app, Nat.add_1_r.
        replace (MAX_ACTIVE_VALIDATORS - length (active_ranked s))%nat with (S (MAX_ACTIVE_VALIDATORS - S (length (active_ranked s))))
          by (unfold MAX_ACTIVE_VALIDATORS in *; lia).
        by destruct (split_ranked _ _ l).
      * rewrite with_ranked_standby. simpl active_ranked. replace (MAX_ACTIVE_VALIDATORS - length (active_ranked s))%nat with O by lia.
        by destruct (split_ranked _ _ l).
Qed.

Lemma split_perm jailed room l : let '(a, b) := split_ranked jailed room l in
  a ++ b ≡ₚ l /\ sublist a l /\ sublist b l /\ (length a <= room)%nat /\ Forall (fun v => v.1 ∉ jailed) a.
Proof.
  revert room. induction l as [|v l IH]; intros room; [refine (conj _ (conj _ (conj _ (conj _ _)))); [done|constructor|constructor|simpl; lia|constructor]|]. cbn [split_ranked].
  destruct (bool_decide (v.1 ∈ jailed)) eqn:Ej.
  - specialize (IH room). destruct (split_ranked _ _ l) as [a b]. destruct IH as (Hp & Ha & Hb & Hl & Hj).
    refine (conj _ (conj _ (conj _ (conj Hl Hj)))); [by rewrite <- Permutation_middle, Hp|by constructor..].
  - apply bool_decide_eq_false in Ej. destruct room as [|room].
    + specialize (IH O). destruct (split_ranked _ _ l) as [a b]. destruct IH as (Hp & Ha & Hb & Hl & Hj).
      refine (conj _ (conj _ (conj _ (conj Hl Hj)))); [by rewrite <- Permutation_middle, Hp|by constructor..].
    + specialize (IH room). destruct (split_ranked _ _ l) as [a b]. destruct IH as (Hp & Ha & Hb & Hl & Hj).
      refine (conj _ (conj _ (conj _ (conj _ _)))); [simpl; by rewrite Hp|by constructor|by constructor|simpl; lia|by constructor].
Qed.

(** a validator on standby is jailed, or comes after a full set of active ones *)
Lemma split_rank jailed room l v : let '(a, b) := split_ranked jailed room l in
  v ∈ b -> v.1 ∈ jailed \/ exists l1 l2, l = l1 ++ v :: l2 /\ sublist a l1 /\ length a = room.
Proof.
  revert room. induction l as [|w l IH]; intros room; [by intros ?%not_elem_of_nil|]. cbn [split_ranked].
  destruct (bool_decide (w.1 ∈ jailed)) eqn:Ej.
  - specialize (IH room). destruct (split_ranked _ _ l) as [a b]. intros [->|Hin]%elem_of_cons; [left; by apply bool_decide_eq_true in Ej|].
    destruct (IH Hin) as [?|(l1 & l2 & -> & Hs & Hl)]; [by left|]. right. exists (w :: l1), l2. by repeat constructor.
  - destruct room as [|room].
    + specialize (IH O). pose proof (split_perm jailed 0 l) as Hp. destruct (split_ranked _ _ l) as [a b]. destruct Hp as (_ & _ & _ & Hl & _).
      assert (a = []) as -> by (destruct a; [done|simpl in Hl; lia]). intros [->|Hin]%elem_of_cons.
      * right. exists [], l. by repeat constructor.
      * destruct (IH Hin) as [?|(l1 & l2 & -> & Hs & _)]; [by left|]. right. exists (w :: l1), l2. by repeat constructor.
    + specialize (IH room). destruct (split_ranked _ _ l) as [a b]. intros Hin.
      destruct (IH Hin) as [?|(l1 & l2 & -> & Hs & Hl)]; [by left|]. right. exists (w :: l1), l2. simpl. split; [done|]. split; [by constructor|lia].
Qed.
Definition ranked_nodes (accounts : VoteAccountsHashMap) : list (Pubkey * Z) := merge_sort rank_le (map_to_list (node_stakes accounts)).
Lemma ranked_sorted accounts : StronglySorted rank_le (ranked_nodes accounts).
Proof. apply (StronglySorted_merge_sort rank_le). Qed.
Lemma ranked_elem accounts n s : (n, s) ∈ ranked_nodes accounts <-> node_stakes accounts !! n = Some s.
Proof. unfold ranked_nodes. by rewrite merge_sort_Permutation, elem_of_map_to_list. Qed.
Lemma ranked_keys accounts : NoDup (ranked_nodes accounts).*1.
Proof. unfold ranked_nodes. rewrite merge_sort_Permutation. apply NoDup_fst_map_to_list. Qed.
Lemma compute_split accounts jailed :
  compute accounts jailed = with_ranked no_validators (split_ranked jailed MAX_ACTIVE_VALIDATORS (ranked_nodes accounts)).
Proof. apply place_all. Qed.
Lemma active_not_jailed accounts jailed n : n ∈ active_validators (compute accounts jailed) -> n ∉ jailed.
Proof.
  rewrite compute_split. pose proof (split_perm jailed MAX_ACTIVE_VALIDATORS (ranked_nodes accounts)) as Hp.
  destruct (split_ranked _ _ _) as [a b]. destruct Hp as (_ & _ & _ & _ & Hj). simpl. rewrite (left_id_L ∅ (∪)), elem_of_list_to_set.
  intros (v & -> & Hv)%list_elem_of_fmap. by rewrite Forall_forall in Hj; apply Hj.
Qed.

Lemma sublist_sorted {A} (R : relation A) l l' : sublist l l' -> StronglySorted R l' -> StronglySorted R l.
Proof.
  induction 1 as [|x l l' Hs IH|x l l' Hs IH]; [done| |]; intros [Hss Hall]%StronglySorted_inv; [|by apply IH].
  constructor; [by apply IH|]. rewrite Forall_forall in *. intros y Hy. apply Hall. by eapply elem_of_sublist.
Qed.

(** ** Properties *)

(** C27. The active set is the top of the ranking: with stakes that do not overflow per node, [compute] ranks each node that has stake,
    with the sum of its vote accounts, in exactly one of the two sets, each in the order of the ranking (more stake first, the
    smaller key first among equal stakes); at most 200 are active and none of them is jailed; and if any validator that is not
    jailed is on standby, then exactly 200 validators are active and every one of them has more stake than it, or as much
    stake and a smaller key. *)
Theorem active_set_is_top accounts jailed : Forall (fun e => 0 <= e.2.1) accounts -> (forall n, node_stake accounts n <= u64_max) ->
  let s := compute accounts jailed in
  (forall n st, (n, st) ∈ active_ranked s ++ standby_ranked s <-> staked_nodes accounts n /\ st = node_stake accounts n)
  /\ active_validators s = list_to_set (active_ranked s).*1 /\ standby_validators s = list_to_set (standby_ranked s).*1
  /\ active_validators s ## standby_validators s /\ active_validators s ## jailed
  /\ (length (active_ranked s) <= MAX_ACTIVE_VALIDATORS)%nat
  /\ StronglySorted rank_le (active_ranked s) /\ StronglySorted rank_le (standby_ranked s)
  /\ forall b, b ∈ standby_ranked s -> b.1 ∉ jailed ->
       length (active_ranked s) = MAX_ACTIVE_VALIDATORS
       /\ forall a, a ∈ active_ranked s -> b.2 < a.2 \/ b.2 = a.2 /\ a.1 <= b.1.
Proof.
  intros Hpos Hmax s. assert (active_validators s ## jailed) as Hjd by (intros n Hn; by apply active_not_jailed in Hn).
  assert (forall n st, (n, st) ∈ ranked_nodes accounts <-> staked_nodes accounts n /\ st = node_stake accounts n) as Hr.
  { intros n st. rewrite ranked_elem. destruct (node_stakes_spec accounts n Hpos (Hmax n)) as [_ Hn].
    destruct (node_stakes accounts !! n) as [x|]; [|naive_solver]. destruct Hn as [Hn ->]. naive_solver. }
  unfold s in *. rewrite compute_split in *. pose proof (split_perm jailed MAX_ACTIVE_VALIDATORS (ranked_nodes accounts)) as Hp.
  pose proof (split_rank jailed MAX_ACTIVE_VALIDATORS (ranked_nodes accounts)) as Hrank.
  destruct (split_ranked _ _ _) as [a b]. destruct Hp as (Hp & Ha & Hb & Hl & _). simpl in *. rewrite !(left_id_L ∅ (∪)) in *.
  pose proof (ranked_sorted accounts) as Hss.
  refine (conj _ (conj eq_refl (conj eq_refl (conj _ (conj Hjd (conj Hl (conj (sublist_sorted _ _ _ Ha Hss) (conj (sublist_sorted _ _ _ Hb Hss) _)))))))).
  - intros n st. rewrite <- Hr. by rewrite Hp.
  - pose proof (ranked_keys accounts) as Hnd. rewrite <- Hp, fmap_app in Hnd. apply NoDup_app in Hnd as (_ & Hd & _).
    intros n. rewrite !elem_of_list_to_set. apply Hd.
  - intros y Hy Hj. destruct (Hrank y Hy) as [?|(l1 & l2 & El & Hs & Hlen)]; [done|]. split; [done|].
    intros x Hx. rewrite El in Hss. apply StronglySorted_app in Hss as (Hss & _ & _).
    apply (Hss x y); [|left]. by eapply elem_of_sublist.
Qed.

(** The active set does not depend on the iteration order of the vote accounts, even if stakes overflow. *)
Theorem compute_order_independent accounts accounts' jailed : accounts ≡ₚ accounts' -> compute accounts jailed = compute accounts' jailed.
Proof. intros Hp. unfold compute. by rewrite (node_stakes_perm _ _ Hp). Qed.

(** C28. A ban outlasts everything that happens to the slashing state: the vote accounts that [leader_schedule] keeps are vote accounts
    of the bank whose node is neither jailed nor banned, and once a validator is permanently banned none of its vote accounts is kept,
    after any sequence of slashes, jailings, unjailings and offline checks and however much stake it has.  (The state is
    that of the process: a restart begins with a new one, in which nobody is banned.) *)
Theorem banned_never_leads v st ops accounts e : permanently_banned (status_of v st) = true ->
  e ∈ leader_candidates (exec_all st ops) accounts ->
  e ∈ accounts /\ node_pubkey e.2.2 <> v /\ is_jailed_or_banned (node_pubkey e.2.2) (exec_all st ops) = false.
Proof.
  intros Hb. unfold leader_candidates, filter_active_vote_accounts. intros [Ha Hin]%list_elem_of_filter. apply active_not_jailed in Ha.
  split; [done|]. split.
  - intros E. apply Ha. rewrite E. apply banned_jailed. by apply ban_persists.
  - rewrite jailed_or_banned_status. apply not_true_iff_false. by rewrite <- elem_of_jailed_set.
Qed.
End active_set.

(** ** Witnesses *)

Module ActiveSetExamples.

Definition accounts : @VoteAccountsHashMap Pubkey := [(101, (50, 1)); (102, (70, 2)); (103, (30, 1)); (104, (0, 3)); (105, (90, 4))].
Definition jailed : gset Pubkey := {[ 4 ]}.

Lemma active_set_is_top_witness :
  (length (active_ranked (compute id accounts jailed)) <= MAX_ACTIVE_VALIDATORS)%nat
  /\ active_ranked (compute id accounts jailed) = [(1, 80); (2, 70)].
Proof.
  destruct (active_set_is_top id accounts jailed) as (_ & _ & _ & _ & _ & H & _); [repeat constructor; simpl; lia| |].
  - intros n. unfold node_stake, accounts. simpl. repeat destruct (decide _); lia.
  - split; [exact H|]. vm_compute. reflexivity.
Defined.

Lemma compute_order_independent_witness : compute id accounts ∅ = compute id (rev accounts) ∅.
Proof. apply (compute_order_independent id). apply Permutation_rev. Defined.

Lemma banned_never_leads_witness :
  id (101, (50, 1)).2.2 <> 2 /\ leader_candidates id (exec_all SlashingState_new [Jail 2 Permanent 1; Unjail 2 5]) accounts
    = [(101, (50, 1)); (103, (30, 1)); (105, (90, 4))].
Proof.
  split; [|vm_compute; reflexivity].
  destruct (banned_never_leads id 2 (exec_all SlashingState_new [Jail 2 Permanent 1]) [Unjail 2 5] accounts (101, (50, 1))) as (_ & H & _);
    [vm_compute; reflexivity|apply (bool_decide_unpack _); vm_compute; exact I|exact H].
Defined.

End ActiveSetExamples.
