(* ===== verification/StateRent.v ===== *)
(** * State rent expiry: the archive of inactive accounts

    Models accounts-db/src/state_rent_expiry.rs: when an account expires, its
    archival to cold storage, its revival with the integrity check, and the Merkle
    proofs.  SHA-256 and the base58 text of a key are parameters; the file system is
    a finite map from paths to contents, and whether the operating system accepts a
    write is an argument. *)

From Stdlib Require Import ZArith Lia Ascii String.
From stdpp Require Import base numbers list option gmap strings pretty.
From coqutil Require Import Byte Word.LittleEndianList.
From S2P Require Import Prelude Borsh BftTypes.
Local Open Scope Z_scope.

(** ** Configuration *)

Definition DEFAULT_LAMPORTS_PER_BYTE_YEAR : Z := 3480.
Definition DEFAULT_ARCHIVE_AFTER_DAYS : Z := 365.
Definition ESTIMATED_SLOTS_PER_DAY : Z := 216000.
Definition MIN_ARCHIVAL_DATA_SIZE : nat := 128.
Definition MIN_REVIVAL_RENT_YEARS : Z := 2.

Definition Path : Type := list string.

Record StateRentConfig := {
  lamports_per_byte_year : Z;
  archive_after_days : Z;
  allow_revival : bool;
  cold_storage_path : Path;
  exempt_system_programs : bool
}.
Definition StateRentConfig_default : StateRentConfig :=
  {| lamports_per_byte_year := DEFAULT_LAMPORTS_PER_BYTE_YEAR; archive_after_days := DEFAULT_ARCHIVE_AFTER_DAYS; allow_revival := true;
     cold_storage_path := ["trv1-cold-storage"%string]; exempt_system_programs := true |}.

Definition calculate_rent (c : StateRentConfig) (data_len : nat) (years : Z) : Z :=
  saturating_mul u64_max (saturating_mul u64_max (Z.of_nat data_len) (lamports_per_byte_year c)) years.
Definition revival_deposit (c : StateRentConfig) (data_len : nat) : Z := calculate_rent c data_len MIN_REVIVAL_RENT_YEARS.

(** ** Accounts *)

Record AccountSharedData := {
  a_lamports : Z;
  a_data : list Byte.byte;
  a_owner : Pubkey;
  a_executable : bool;
  a_rent_epoch : Z
}.
(** the ranges of the fields *)
Definition account_ok (a : AccountSharedData) : Prop :=
  in_u64 (a_lamports a) /\ in_pubkey (a_owner a) /\ Z.of_nat (length (a_data a)) < u64_max - 49.

Record MerkleProof := {
  leaf_hash : Hash;
  proof_hashes : list Hash;
  root_hash : Hash;
  proof_slot : Z;
  leaf_index : Z
}.
Record ArchivedAccount := {
  ar_pubkey : Pubkey;
  archive_slot : Z;
  archive_epoch : Z;
  account_hash : Hash;
  lamports_at_archive : Z;
  ar_data_len : nat;
  ar_owner : Pubkey;
  ar_executable : bool;
  archive_timestamp : Z;
  storage_path : Path;
  merkle_proof : option MerkleProof
}.

(** ** The archive index *)

Record ArchiveIndex := {
  ai_entries : gmap Pubkey ArchivedAccount;
  total_archived : Z;
  total_archived_bytes : Z;
  total_revived : Z
}.
Definition ArchiveIndex_new : ArchiveIndex :=
  {| ai_entries := ∅; total_archived := 0; total_archived_bytes := 0; total_revived := 0 |}.
Definition ArchiveIndex_insert (x : ArchivedAccount) (i : ArchiveIndex) : ArchiveIndex :=
  {| ai_entries := <[ar_pubkey x := x]> (ai_entries i); total_archived := saturating_add u64_max (total_archived i) 1;
     total_archived_bytes := saturating_add u64_max (total_archived_bytes i) (Z.of_nat (ar_data_len x)); total_revived := total_revived i |}.
Definition ArchiveIndex_get (k : Pubkey) (i : ArchiveIndex) : option ArchivedAccount := ai_entries i !! k.
Definition ArchiveIndex_remove (k : Pubkey) (i : ArchiveIndex) : option ArchivedAccount * ArchiveIndex :=
  match ai_entries i !! k with
  | Some x => (Some x, {| ai_entries := delete k (ai_entries i); total_archived := total_archived i;
                          total_archived_bytes := total_archived_bytes i; total_revived := saturating_add u64_max (total_revived i) 1 |})
  | None => (None, i)
  end.
Definition is_archived (k : Pubkey) (i : ArchiveIndex) : bool := bool_decide (is_Some (ai_entries i !! k)).

(** ** Expiry *)

(** the key with the given bytes *)
Definition key_of (l : list Z) : Pubkey := foldl (fun z b => z * 256 + b) 0 l.

Definition system_programs : list Pubkey :=
  [ (** System Program *)
    key_of (replicate 32 0);
    (** BPF Loader *)
    key_of [2; 168; 246; 145; 78; 136; 161; 107; 189; 35; 149; 133; 95; 100; 4; 217; 180; 244; 86; 183; 130; 27; 176; 20; 87; 73; 66; 140;
            0; 0; 0; 0];
    (** Token Program *)
    key_of [6; 221; 246; 225; 215; 101; 161; 147; 217; 203; 225; 70; 206; 235; 121; 172; 28; 180; 133; 237; 95; 91; 55; 145; 58; 140; 245;
            133; 126; 255; 0; 169];
    (** Stake Program *)
    key_of [6; 161; 216; 23; 145; 55; 84; 42; 152; 52; 55; 189; 254; 42; 122; 178; 85; 127; 83; 92; 138; 120; 114; 43; 104; 164; 157; 192;
            0; 0; 0; 0] ].
Definition is_system_program (owner : Pubkey) : bool := bool_decide (owner ∈ system_programs).

Definition check_rent_expiry (a : AccountSharedData) (last_active_slot current_slot : Z) (c : StateRentConfig) : bool :=
  if (length (a_data a) <? MIN_ARCHIVAL_DATA_SIZE)%nat then false
  else if a_lamports a =? 0 then false
  else if exempt_system_programs c && is_system_program (a_owner a) then false
  else
    let inactive_slots := saturating_sub current_slot last_active_slot in
    let inactive_days := inactive_slots / ESTIMATED_SLOTS_PER_DAY in
    archive_after_days c <=? inactive_days.

(** ** Cold storage *)

Definition exec_byte (b : bool) : Byte.byte := if b then Byte.x01 else Byte.x00.

(** [lamports:8][owner:32][executable:1][data_len:8][data:N] *)
Definition serialize_account_for_cold_storage (a : AccountSharedData) : list Byte.byte :=
  le_bytes64 (a_lamports a) ++ key_bytes (a_owner a) ++ [exec_byte (a_executable a)] ++ le_bytes64 (Z.of_nat (length (a_data a))) ++ a_data a.

Inductive io_result (A : Type) := IoOk (a : A) | InvalidData | Panics.
Arguments IoOk {A}. Arguments InvalidData {A}. Arguments Panics {A}.

(** [data[from..to]]; a range that is out of order or out of bounds panics *)
Definition slice (from to : Z) (data : list Byte.byte) : option (list Byte.byte) :=
  if (from <=? to) && (to <=? Z.of_nat (length data)) then Some (take (Z.to_nat (to - from)) (drop (Z.to_nat from) data)) else None.

Definition deserialize_account_from_cold_storage (data : list Byte.byte) : io_result AccountSharedData :=
  if (length data <? 49)%nat then InvalidData
  else
    let lamports := le_combine (take 8 data) in
    let owner := le_combine (rev (take 32 (drop 8 data))) in
    let executable := match data !! 40%nat with Some b => negb (byte.unsigned b =? 0) | None => false end in
    let data_len := le_combine (take 8 (drop 41 data)) in
    if Z.of_nat (length data) <? wrapping_add u64_max 49 data_len then InvalidData
    else match slice 49 (wrapping_add u64_max 49 data_len) data with
         | None => Panics
         | Some account_data =>
             IoOk {| a_lamports := lamports; a_data := account_data; a_owner := owner; a_executable := executable; a_rent_epoch := 0 |}
         end.

Inductive RevivalError :=
  | RevivalDisabled
  | InsufficientRentDeposit (required provided : Z)
  | StorageError
  | IntegrityCheckFailed (expected computed : Hash)
  | MerkleProofFailed.

Inductive revival_result :=
  | Revived (a : AccountSharedData)
  | RevivalFailed (e : RevivalError)
  | RevivalPanics.

Definition hex_digit (n : nat) : ascii := nth n (list_ascii_of_string "0123456789abcdef") "0"%char.
(** [format!("{:02x}", b)] *)
Definition hex_byte (b : Byte.byte) : string :=
  let n := Z.to_nat (byte.unsigned b) in String (hex_digit (n / 16)) (String (hex_digit (n mod 16)) EmptyString).

(** the files, by path *)
Abbreviation FileSystem := (gmap Path (list Byte.byte)).

Section archive.
(** SHA-256, and the text of a key *)
Context (sha256 : list Byte.byte -> Hash) (pubkey_to_string : Pubkey -> string).

Definition combine_hashes (l r : Hash) : Hash := sha256 (key_bytes l ++ key_bytes r).

Definition verify_step (acc : Hash * Z) (sibling : Hash) : Hash * Z :=
  let '(current_hash, index) := acc in
  (if index mod 2 =? 0 then combine_hashes current_hash sibling else combine_hashes sibling current_hash, index / 2).
Definition verify (p : MerkleProof) (account_data_hash : Hash) : bool :=
  if negb (bool_decide (account_data_hash = leaf_hash p)) then false
  else bool_decide (fst (foldl verify_step (leaf_hash p, leaf_index p) (proof_hashes p)) = root_hash p).

Definition account_hash_input (k : Pubkey) (a : AccountSharedData) : list Byte.byte :=
  key_bytes k ++ le_bytes64 (a_lamports a) ++ key_bytes (a_owner a) ++ [exec_byte (a_executable a)] ++ a_data a.
Definition compute_account_hash (k : Pubkey) (a : AccountSharedData) : Hash := sha256 (account_hash_input k a).

Definition cold_storage_path_for_account (k : Pubkey) (base_path : Path) : Path :=
  let bytes := key_bytes k in
  base_path ++ [hex_byte (nth 0 bytes Byte.x00); hex_byte (nth 1 bytes Byte.x00); (pubkey_to_string k +:+ ".bin")%string].

(** [accepted]: the directories could be created and the file written *)
Definition archive_account (k : Pubkey) (a : AccountSharedData) (current_slot current_epoch now : Z) (c : StateRentConfig) (accepted : bool)
    (fs : FileSystem) : option (ArchivedAccount * FileSystem) :=
  let hash := compute_account_hash k a in
  let path := cold_storage_path_for_account k (cold_storage_path c) in
  if negb accepted then None
  else Some ({| ar_pubkey := k; archive_slot := current_slot; archive_epoch := current_epoch; account_hash := hash;
                lamports_at_archive := a_lamports a; ar_data_len := length (a_data a); ar_owner := a_owner a; ar_executable := a_executable a;
                archive_timestamp := now; storage_path := path; merkle_proof := None |},
             <[path := serialize_account_for_cold_storage a]> fs).

Definition revive_account (x : ArchivedAccount) (rent_deposit : Z) (c : StateRentConfig) (fs : FileSystem) : revival_result :=
  if negb (allow_revival c) then RevivalFailed RevivalDisabled
  else
    let min_deposit := revival_deposit c (ar_data_len x) in
    if rent_deposit <? min_deposit then RevivalFailed (InsufficientRentDeposit min_deposit rent_deposit)
    else match fs !! storage_path x with
         | None => RevivalFailed StorageError
         | Some serialized =>
             match deserialize_account_from_cold_storage serialized with
             | InvalidData => RevivalFailed StorageError
             | Panics => RevivalPanics
             | IoOk account =>
                 let computed := compute_account_hash (ar_pubkey x) account in
                 if negb (bool_decide (computed = account_hash x)) then RevivalFailed (IntegrityCheckFailed (account_hash x) computed)
                 else match merkle_proof x with
                      | Some proof => if verify proof computed then Revived account else RevivalFailed MerkleProofFailed
                      | None => Revived account
                      end
             end
         end.

Definition get_archive_proof (k : Pubkey) (i : ArchiveIndex) : option MerkleProof := x ← ArchiveIndex_get k i; merkle_proof x.
(** ** The codec of cold storage *)

Lemma combine_le_bytes64 z : in_u64 z -> le_combine (le_bytes64 z) = z.
Proof. intros Hz. unfold le_bytes64. rewrite le_combine_split. apply Z.mod_small. lia. Qed.
Lemma combine_key_bytes k : in_pubkey k -> le_combine (rev (key_bytes k)) = k.
Proof. intros Hk. unfold key_bytes, in_pubkey in *. rewrite rev_involutive, le_combine_split. apply Z.mod_small. lia. Qed.
Lemma exec_byte_nonzero b : negb (byte.unsigned (exec_byte b) =? 0) = b.
Proof. by destruct b. Qed.

(** what comes back from cold storage: the rent epoch is not stored *)
Definition reset_rent_epoch (a : AccountSharedData) : AccountSharedData :=
  {| a_lamports := a_lamports a; a_data := a_data a; a_owner := a_owner a; a_executable := a_executable a; a_rent_epoch := 0 |}.

Lemma deserialize_serialize a : account_ok a -> deserialize_account_from_cold_storage (serialize_account_for_cold_storage a) = IoOk (reset_rent_epoch a).
Proof.
  intros (Hl & Ho & Hd). unfold serialize_account_for_cold_storage.
  set (A := le_bytes64 (a_lamports a)). set (B := key_bytes (a_owner a)). set (D := le_bytes64 (Z.of_nat (length (a_data a)))).
  assert (length A = 8%nat /\ length B = 32%nat /\ length D = 8%nat) as (HA & HB & HD)
    by (split; [apply length_le_bytes64|split; [apply length_key_bytes|apply length_le_bytes64]]).
  set (bs := A ++ B ++ [exec_byte (a_executable a)] ++ D ++ a_data a).
  assert (length bs = (49 + length (a_data a))%nat) as Hlen by (unfold bs; rewrite !length_app, HA, HB, HD; simpl; lia).
  assert (take 8 bs = A) as E1 by (by apply take_app_length').
  assert (drop 8 bs = B ++ [exec_byte (a_executable a)] ++ D ++ a_data a) as E2 by (by apply drop_app_length').
  assert (bs !! 40%nat = Some (exec_byte (a_executable a))) as E3.
  { unfold bs. rewrite lookup_app_r, HA by lia. rewrite lookup_app_r, HB by lia. done. }
  assert (drop 41 bs = D ++ a_data a) as E4.
  { change 41%nat with (8 + (32 + 1))%nat. rewrite <- drop_drop, E2, <- drop_drop, drop_app_length' by done. done. }
  unfold deserialize_account_from_cold_storage. rewrite Hlen, E1, E2, E3, E4, exec_byte_nonzero.
  rewrite (proj2 (Nat.ltb_ge _ _)) by lia. rewrite !take_app_length' by done. unfold A, B, D.
  rewrite !combine_le_bytes64, combine_key_bytes by (done || lia). unfold wrapping_add. rewrite Z.mod_small by lia.
  rewrite (proj2 (Z.ltb_ge _ _)) by lia. unfold slice. rewrite Hlen, !(proj2 (Z.leb_le _ _)) by lia. cbn [andb].
  assert (drop (Z.to_nat 49) bs = a_data a) as ->.
  { change (Z.to_nat 49) with (41 + 8)%nat. by rewrite <- drop_drop, E4, drop_app_length'. }
  rewrite take_ge by lia. done.
Qed.

Lemma deserialize_range bs a : deserialize_account_from_cold_storage bs = IoOk a -> in_u64 (a_lamports a) /\ in_pubkey (a_owner a) /\ a_rent_epoch a = 0.
Proof.
  unfold deserialize_account_from_cold_storage. destruct (Nat.ltb_spec (length bs) 49); [done|].
  destruct (_ <? _); [done|]. destruct (slice _ _ _); [|done]. intros [= <-]. simpl.
  pose proof (le_combine_bound (take 8 bs)) as H1. pose proof (le_combine_bound (rev (take 32 (drop 8 bs)))) as H2.
  rewrite length_rev in H2. rewrite length_take_le in H1 by lia. rewrite length_take_le in H2 by (rewrite length_drop; lia).
  unfold in_pubkey. split; [lia|]. split; [lia|done].
Qed.

(** a length field near 2^64 wraps past the length check *)
Lemma deserialize_panics bs : (49 <= length bs)%nat -> u64_max - 49 < le_combine (take 8 (drop 41 bs)) ->
  deserialize_account_from_cold_storage bs = Panics.
Proof.
  intros Hl Hd. unfold deserialize_account_from_cold_storage. rewrite (proj2 (Nat.ltb_ge _ _)) by lia.
  set (n := le_combine _) in *. assert (0 <= n <= u64_max) as Hn.
  { pose proof (le_combine_bound (take 8 (drop 41 bs))) as Hb. rewrite length_take_le in Hb by (rewrite length_drop; lia). unfold n. lia. }
  assert (wrapping_add u64_max 49 n = n + 49 - (u64_max + 1)) as ->.
  { unfold wrapping_add. symmetry. apply (Z.mod_unique _ _ 1); lia. }
  rewrite (proj2 (Z.ltb_ge _ _)) by lia. unfold slice. by rewrite (proj2 (Z.leb_gt 49 _)) by lia.
Qed.

(** ** Integrity *)

(** two inputs with one digest *)
Definition collide (m1 m2 : list Byte.byte) : Prop := m1 <> m2 /\ sha256 m1 = sha256 m2.

Lemma sha256_eq m1 m2 : sha256 m1 = sha256 m2 -> m1 = m2 \/ collide m1 m2.
Proof. intros H. destruct (decide (m1 = m2)) as [|Hne]; [by left|by right]. Qed.

Lemma hash_input_inj k a b : in_u64 (a_lamports a) -> in_u64 (a_lamports b) -> in_pubkey (a_owner a) -> in_pubkey (a_owner b) ->
  account_hash_input k a = account_hash_input k b -> reset_rent_epoch a = reset_rent_epoch b.
Proof.
  intros Ha Hb Hao Hbo. unfold account_hash_input. intros [_ H]%app_inj_1; [|done].
  apply app_inj_1 in H as [Hl H]; [|by rewrite !length_le_bytes64]. apply app_inj_1 in H as [Ho H]; [|by rewrite !length_key_bytes].
  simpl in H. injection H as He Hd. apply le_bytes64_inj in Hl. rewrite !Z.mod_small in Hl by lia. apply key_bytes_inj in Ho; [|done..].
  apply (f_equal (fun b => negb (byte.unsigned b =? 0))) in He. rewrite !exec_byte_nonzero in He. unfold reset_rent_epoch. congruence.
Qed.
(** archives of several accounts, one after the other *)
Fixpoint archive_all (l : list (Pubkey * AccountSharedData)) (slot e now : Z) (c : StateRentConfig) (fs : FileSystem) : FileSystem :=
  match l with
  | [] => fs
  | (k, a) :: l => match archive_account k a slot e now c true fs with
                   | Some (_, fs) => archive_all l slot e now c fs
                   | None => archive_all l slot e now c fs
                   end
  end.

(** the text of a key determines the key *)
Context (pubkey_to_string_inj : forall k1 k2, in_pubkey k1 -> in_pubkey k2 -> pubkey_to_string k1 = pubkey_to_string k2 -> k1 = k2).

Lemma string_app_inj_suffix s1 s2 t : (s1 +:+ t)%string = (s2 +:+ t)%string -> s1 = s2.
Proof.
  intros H. rewrite <- (string_of_list_ascii_of_string s1), <- (string_of_list_ascii_of_string s2). f_equal.
  apply (f_equal list_ascii_of_string) in H. revert H.
  assert (forall s, list_ascii_of_string (s +:+ t)%string = list_ascii_of_string s ++ list_ascii_of_string t) as E.
  { intros s. induction s as [|ch s IH]; [done|]. simpl. by rewrite IH. }
  rewrite !E. apply app_inj_2. done.
Qed.
Lemma cold_path_inj k1 k2 base : in_pubkey k1 -> in_pubkey k2 ->
  cold_storage_path_for_account k1 base = cold_storage_path_for_account k2 base -> k1 = k2.
Proof.
  intros H1 H2 H. apply app_inv_head in H. apply (f_equal (fun l => nth 2 l EmptyString)) in H. cbn [nth] in H.
  apply string_app_inj_suffix in H. by apply pubkey_to_string_inj.
Qed.
Lemma archive_all_other l slot e now c fs k : in_pubkey k -> Forall (fun x => in_pubkey x.1 /\ x.1 <> k) l ->
  archive_all l slot e now c fs !! cold_storage_path_for_account k (cold_storage_path c) = fs !! cold_storage_path_for_account k (cold_storage_path c).
Proof.
  intros Hk. revert fs. induction l as [|[k' a] l IH]; intros fs Hl; [done|]. apply Forall_cons in Hl as [[Hk' Hne] Hl]. simpl.
  rewrite IH by done. apply lookup_insert_ne. intros E. by apply cold_path_inj in E.
Qed.

(** ** Properties *)

(** C31. What is archived can be revived: with revival allowed, an account that was written to cold storage, with any other
    accounts archived afterwards, is given back by [revive_account] for a deposit of at least two years of rent with its balance, data, owner and executable flag (the rent
    epoch is reset), and for a smaller deposit the revival fails and names the deposit required. *)
Theorem archive_revive k a l slot e now deposit c fs x fs' : in_pubkey k -> account_ok a -> Forall (fun y => in_pubkey y.1 /\ y.1 <> k) l ->
  allow_revival c = true -> archive_account k a slot e now c true fs = Some (x, fs') ->
  revive_account x deposit c (archive_all l slot e now c fs')
    = if deposit <? revival_deposit c (length (a_data a)) then RevivalFailed (InsufficientRentDeposit (revival_deposit c (length (a_data a))) deposit)
      else Revived (reset_rent_epoch a).
Proof.
  intros Hk Ha Hl Hr Hx. injection Hx as <- <-. unfold revive_account. rewrite Hr. cbn [negb ar_data_len storage_path].
  destruct (_ <? _); [done|]. rewrite archive_all_other, lookup_insert_eq, deserialize_serialize by done.
  cbn [account_hash merkle_proof ar_pubkey]. by rewrite bool_decide_eq_true_2.
Qed.

(** C32. Cold storage cannot be tampered with: whatever the file holds when an archived account is revived, an account that
    [revive_account] returns is the account that was archived, or else its hash input and that of the archived account are a
    SHA-256 collision. *)
Theorem revival_detects_tampering k a slot e now deposit c c' fs x fs' fs'' a' : account_ok a ->
  archive_account k a slot e now c true fs = Some (x, fs') -> revive_account x deposit c' fs'' = Revived a' ->
  a' = reset_rent_epoch a \/ collide (account_hash_input k a') (account_hash_input k a).
Proof.
  intros (Hl & Ho & _) Hx. injection Hx as <- _. unfold revive_account. destruct (negb _); [done|]. destruct (_ <? _); [done|].
  destruct (fs'' !! _) as [bs|]; [|done]. destruct (deserialize_account_from_cold_storage bs) as [b| |] eqn:Eb; [|done..].
  apply deserialize_range in Eb as (Hl' & Ho' & Hr). cbn [account_hash merkle_proof ar_pubkey].
  destruct (bool_decide _) eqn:Eh; [|done]. apply bool_decide_eq_true in Eh. cbn [negb]. intros [= <-].
  destruct (sha256_eq _ _ Eh) as [E|?]; [left|by right]. apply hash_input_inj in E; [|done..]. rewrite <- E.
  destruct b. unfold reset_rent_epoch. simpl in *. congruence.
Qed.

(** ** Merkle proofs *)

(** digests have 32 bytes *)
Context (sha256_range : forall m, in_pubkey (sha256 m)).

Inductive tree := Leaf (h : Hash) | Node (l r : tree).
Fixpoint perfect (d : nat) (t : tree) : Prop :=
  match d, t with
  | O, Leaf h => in_pubkey h
  | S d, Node l r => perfect d l /\ perfect d r
  | _, _ => False
  end.
Fixpoint root (t : tree) : Hash := match t with Leaf h => h | Node l r => combine_hashes (root l) (root r) end.
(** the leaf with an index, and the siblings on its path, the leaf's first *)
Fixpoint leaf_at (d : nat) (t : tree) (i : Z) : Hash :=
  match d, t with
  | S d, Node l r => if Z.testbit i (Z.of_nat d) then leaf_at d r i else leaf_at d l i
  | _, Leaf h => h
  | _, Node _ _ => 0
  end.
Fixpoint siblings (d : nat) (t : tree) (i : Z) : list Hash :=
  match d, t with
  | S d, Node l r => if Z.testbit i (Z.of_nat d) then siblings d r i ++ [root l] else siblings d l i ++ [root r]
  | _, _ => []
  end.

(** what [verify] hashes, and what the tree hashes *)
Fixpoint proof_messages (acc : Hash * Z) (ps : list Hash) : list (list Byte.byte) :=
  match ps with
  | [] => []
  | s :: ps => (if acc.2 mod 2 =? 0 then key_bytes acc.1 ++ key_bytes s else key_bytes s ++ key_bytes acc.1) :: proof_messages (verify_step acc s) ps
  end.
Fixpoint tree_messages (t : tree) : list (list Byte.byte) :=
  match t with Leaf _ => [] | Node l r => (key_bytes (root l) ++ key_bytes (root r)) :: tree_messages l ++ tree_messages r end.

Lemma proof_messages_snoc acc ps s : proof_messages acc (ps ++ [s]) = proof_messages acc ps
  ++ [let '(cur, i) := foldl verify_step acc ps in if i mod 2 =? 0 then key_bytes cur ++ key_bytes s else key_bytes s ++ key_bytes cur].
Proof. revert acc. induction ps as [|s' ps IH]; intros acc; simpl; [by destruct acc|]. by rewrite IH. Qed.

Lemma verify_index h i ps : snd (foldl verify_step (h, i) ps) = i / 2 ^ Z.of_nat (length ps).
Proof.
  induction ps as [|s ps IH] using rev_ind; [simpl; by rewrite Z.div_1_r|]. rewrite foldl_app. simpl foldl.
  destruct (foldl verify_step (h, i) ps) as [x j]. simpl in *. rewrite IH, length_app, Nat.add_1_r, Nat2Z.inj_succ, Z.pow_succ_r by lia.
  rewrite Z.div_div by lia. f_equal. lia.
Qed.
Lemma verify_parity h i ps : snd (foldl verify_step (h, i) ps) mod 2 =? 0 = negb (Z.testbit i (Z.of_nat (length ps))).
Proof.
  rewrite verify_index, Zmod_even, <- Z.negb_odd, <- Z.shiftr_div_pow2, <- Z.testbit_odd by lia. by destruct (Z.testbit _ _).
Qed.
Lemma verify_snoc h i ps s : fst (foldl verify_step (h, i) (ps ++ [s]))
  = if Z.testbit i (Z.of_nat (length ps)) then combine_hashes s (fst (foldl verify_step (h, i) ps))
    else combine_hashes (fst (foldl verify_step (h, i) ps)) s.
Proof.
  rewrite foldl_app. simpl foldl. pose proof (verify_parity h i ps) as Hp. destruct (foldl verify_step (h, i) ps) as [x j]. simpl in *.
  rewrite Hp. by destruct (Z.testbit _ _).
Qed.
Lemma message_snoc h i ps s : (if Z.testbit i (Z.of_nat (length ps)) then key_bytes s ++ key_bytes (fst (foldl verify_step (h, i) ps))
  else key_bytes (fst (foldl verify_step (h, i) ps)) ++ key_bytes s) ∈ proof_messages (h, i) (ps ++ [s]).
Proof.
  rewrite proof_messages_snoc, elem_of_app. right. pose proof (verify_parity h i ps) as Hp.
  destruct (foldl verify_step (h, i) ps) as [x j]. simpl in *. rewrite Hp. destruct (Z.testbit _ _); left.
Qed.
Lemma length_siblings d t i : perfect d t -> length (siblings d t i) = d.
Proof.
  revert t. induction d as [|d IH]; intros [h|l r]; simpl; try done. intros [Hl Hr].
  destruct (Z.testbit i _); rewrite length_app; simpl; rewrite IH by done; lia.
Qed.
Lemma siblings_verify d t i : perfect d t -> fst (foldl verify_step (leaf_at d t i, i) (siblings d t i)) = root t.
Proof.
  revert t. induction d as [|d IH]; intros [h|l r]; simpl; try done. intros [Hl Hr].
  destruct (Z.testbit i _) eqn:E; rewrite verify_snoc, length_siblings by done; rewrite E, IH; done.
Qed.

Lemma root_range d t : perfect d t -> in_pubkey (root t).
Proof. destruct d, t; simpl; try done. intros _. apply sha256_range. Qed.
Lemma verify_range h i ps : in_pubkey h -> in_pubkey (fst (foldl verify_step (h, i) ps)).
Proof.
  intros Hh. destruct ps as [|s ps _] using rev_ind; [done|]. rewrite verify_snoc. destruct (Z.testbit _ _); apply sha256_range.
Qed.
Lemma combine_eq a b a' b' : in_pubkey a -> in_pubkey b -> in_pubkey a' -> in_pubkey b' ->
  combine_hashes a b = combine_hashes a' b' -> (a = a' /\ b = b') \/ collide (key_bytes a ++ key_bytes b) (key_bytes a' ++ key_bytes b').
Proof.
  intros Ha Hb Ha' Hb' H. apply sha256_eq in H as [H|?]; [left|by right].
  apply app_inj_1 in H as [H1 H2]; [|by rewrite !length_key_bytes]. apply key_bytes_inj in H1, H2; done.
Qed.

(** a collision between a message of the proof and a message of the tree *)
Definition proof_collision (t : tree) (h : Hash) (i : Z) (ps : list Hash) : Prop :=
  exists m1 m2, m1 ∈ proof_messages (h, i) ps /\ m2 ∈ tree_messages t /\ collide m1 m2.

Lemma proof_collision_child t t' h i ps s : (forall m, m ∈ tree_messages t -> m ∈ tree_messages t') ->
  proof_collision t h i ps -> proof_collision t' h i (ps ++ [s]).
Proof.
  intros Ht (m1 & m2 & H1 & H2 & Hc). exists m1, m2. split; [|auto]. rewrite proof_messages_snoc, elem_of_app. by left.
Qed.

Lemma verify_leaf d t h i (ps : list Hash) : perfect d t -> in_pubkey h -> Forall in_pubkey ps -> length ps = d ->
  fst (foldl verify_step (h, i) ps) = root t -> h = leaf_at d t i \/ proof_collision t h i ps.
Proof.
  revert t ps. induction d as [|d IH]; intros [h'|l r] ps Hp Hh Hps Hl; simpl in Hp; try done.
  - destruct ps; [|done]. simpl. by left.
  - destruct Hp as [Hpl Hpr]. destruct ps as [|s ps _] using rev_ind; [done|]. rewrite length_app, Nat.add_1_r in Hl. injection Hl as Hl.
    apply Forall_app in Hps as [Hps [Hs _]%Forall_cons]. pose proof (message_snoc h i ps s) as Hm. rewrite verify_snoc, Hl in *. simpl.
    pose proof (verify_range h i ps Hh) as Hv. pose proof (root_range _ _ Hpl). pose proof (root_range _ _ Hpr).
    destruct (Z.testbit i (Z.of_nat d)); (intros [[E1 E2]|Hc]%combine_eq; [| |done..]).
    + destruct (IH r ps) as [?|Hc]; [done..|by left|right]. eapply proof_collision_child, Hc.
      intros m Hin. simpl. rewrite elem_of_cons, elem_of_app. auto.
    + right. do 2 eexists. split; [exact Hm|split; [left|exact Hc]].
    + destruct (IH l ps) as [?|Hc]; [done..|by left|right]. eapply proof_collision_child, Hc.
      intros m Hin. simpl. rewrite elem_of_cons, elem_of_app. auto.
    + right. do 2 eexists. split; [exact Hm|split; [left|exact Hc]].
Qed.

(** C33. Merkle proofs are complete and sound: in a perfect tree the leaf with any index verifies with the siblings on its path, and a proof
    of the tree's depth that [MerkleProof::verify] accepts against the tree's root is for the leaf with the proof's index, or else one of the messages it
    hashes and one of the messages hashed in the tree are a SHA-256 collision. *)
Theorem merkle_verify_sound d t : perfect d t ->
  (forall i slot, verify {| leaf_hash := leaf_at d t i; proof_hashes := siblings d t i; root_hash := root t; proof_slot := slot; leaf_index := i |}
     (leaf_at d t i) = true)
  /\ forall p (h : Hash), root_hash p = root t -> length (proof_hashes p) = d -> in_pubkey h -> Forall in_pubkey (proof_hashes p) -> verify p h = true ->
       h = leaf_at d t (leaf_index p) \/ proof_collision t h (leaf_index p) (proof_hashes p).
Proof.
  intros Hp. split.
  - intros i slot. unfold verify. cbn [leaf_hash proof_hashes root_hash leaf_index]. by rewrite siblings_verify, !bool_decide_eq_true_2.
  - intros p h Hr Hl Hh Hps. unfold verify. destruct (bool_decide (h = leaf_hash p)) eqn:E; cbn [negb]; [|done]. apply bool_decide_eq_true in E as ->.
    intros H%bool_decide_eq_true. rewrite Hr in H. by apply (verify_leaf d t _ _ (proof_hashes p)).
Qed.
End archive.

(** ** Witnesses *)

Module StateRentExamples.

Definition digest (m : list Byte.byte) : Hash := le_combine m mod 2 ^ 256.
Definition text (k : Pubkey) : string := pretty (k : Z).
Lemma text_inj k1 k2 : in_pubkey k1 -> in_pubkey k2 -> text k1 = text k2 -> k1 = k2.
Proof. intros _ _ H. by apply (inj pretty) in H. Qed.
Lemma digest_range m : in_pubkey (digest m).
Proof. apply Z.mod_pos_bound. lia. Qed.

Definition account : AccountSharedData :=
  {| a_lamports := 5000; a_data := replicate 130 Byte.x07; a_owner := 9; a_executable := true; a_rent_epoch := 3 |}.
Definition archived : ArchivedAccount :=
  {| ar_pubkey := 1; archive_slot := 10; archive_epoch := 1; account_hash := compute_account_hash digest 1 account;
     lamports_at_archive := 5000; ar_data_len := 130; ar_owner := 9; ar_executable := true; archive_timestamp := 99;
     storage_path := cold_storage_path_for_account text 1 (cold_storage_path StateRentConfig_default); merkle_proof := None |}.
Definition files : FileSystem :=
  <[cold_storage_path_for_account text 1 (cold_storage_path StateRentConfig_default) := serialize_account_for_cold_storage account]> ∅.

Lemma archive_revive_witness :
  revive_account digest archived 904800 StateRentConfig_default
    (archive_all digest text [(2, account); (3, account)] 10 1 99 StateRentConfig_default files) = Revived (reset_rent_epoch account).
Proof.
  rewrite (archive_revive digest text text_inj 1 account [(2, account); (3, account)] 10 1 99 904800 StateRentConfig_default ∅ archived files).
  - reflexivity.
  - unfold in_pubkey. lia.
  - unfold account_ok, in_pubkey. simpl. lia.
  - repeat constructor; unfold in_pubkey; simpl; lia.
  - reflexivity.
  - reflexivity.
Defined.

Lemma revival_detects_tampering_witness :
  revive_account digest archived 904800 StateRentConfig_default files = Revived (reset_rent_epoch account)
  /\ (reset_rent_epoch account = reset_rent_epoch account
      \/ collide digest (account_hash_input 1 (reset_rent_epoch account)) (account_hash_input 1 account)).
Proof.
  assert (revive_account digest archived 904800 StateRentConfig_default files = Revived (reset_rent_epoch account)) as H by (vm_compute; reflexivity).
  split; [exact H|].
  apply (revival_detects_tampering digest text 1 account 10 1 99 904800 StateRentConfig_default StateRentConfig_default ∅ archived files files);
    [|reflexivity|exact H].
  unfold account_ok, in_pubkey. simpl. lia.
Defined.

Lemma merkle_verify_sound_witness :
  verify digest {| leaf_hash := 12; proof_hashes := [11; combine_hashes digest 13 14];
                   root_hash := combine_hashes digest (combine_hashes digest 11 12) (combine_hashes digest 13 14);
                   proof_slot := 0; leaf_index := 1 |} 12 = true.
Proof.
  destruct (merkle_verify_sound digest digest_range 2 (Node (Node (Leaf 11) (Leaf 12)) (Node (Leaf 13) (Leaf 14)))) as [H _];
    [repeat split; unfold in_pubkey; lia|].
  exact (H 1 0).
Defined.

(** a corrupted length makes a revival panic *)
Example corrupted_length_panics :
  deserialize_account_from_cold_storage (replicate 41 Byte.x00 ++ replicate 8 Byte.xff) = Panics.
Proof. reflexivity. Qed.

(** the keys of the token and stake programs are exempt; that of the upgradeable loader, which owns the programs, is not *)
Example exempt_programs :
  is_system_program (base58 "TokenkegQfeZyiNwAJbNbGKPFXCWuBvf9Ss623VQ5DA") = true
  /\ is_system_program (base58 "Stake11111111111111111111111111111111111111") = true
  /\ is_system_program (base58 "BPFLoaderUpgradeab1e11111111111111111111111") = false.
Proof. vm_compute. repeat split. Qed.

End StateRentExamples.
