(* ===== verification/StorageAdapter.v ===== *)
(** * The storage adapter

    Models accounts-db/src/trv1_storage_adapter.rs, which puts the account cache in
    front of the accounts database and keeps the index of archived accounts, one
    step of accounts-db/src/trv1_maintenance.rs, and the two hooks of
    accounts-db/src/accounts_db.rs that use the adapter.  The load from the accounts
    database behind the cache is a parameter of the hook; for a single fork it is
    instantiated with the accounts the index finds there, and the write of a batch of
    accounts is modelled.  [None] is a panic of the cache. *)

From Stdlib Require Import ZArith Lia String.
From stdpp Require Import base numbers list option gmap.
From S2P Require Import Prelude F64 AccountCache StateRent.
Local Open Scope Z_scope.

(** ** Data *)

Record AtomicTierStats := {
  hot_hits : Z;
  hot_misses : Z;
  hot_inserts : Z;
  hot_evictions : Z;
  warm_to_hot_promotions : Z;
  cold_archives : Z;
  cold_revivals : Z;
  maintenance_ticks : Z
}.
Definition AtomicTierStats_default : AtomicTierStats :=
  {| hot_hits := 0; hot_misses := 0; hot_inserts := 0; hot_evictions := 0; warm_to_hot_promotions := 0; cold_archives := 0;
     cold_revivals := 0; maintenance_ticks := 0 |}.

(** [fetch_add], on each of the counters the adapter changes *)
Definition bump (hits misses inserts evictions archives ticks : Z) (s : AtomicTierStats) : AtomicTierStats :=
  {| hot_hits := wrapping_add u64_max (hot_hits s) hits; hot_misses := wrapping_add u64_max (hot_misses s) misses;
     hot_inserts := wrapping_add u64_max (hot_inserts s) inserts; hot_evictions := wrapping_add u64_max (hot_evictions s) evictions;
     warm_to_hot_promotions := warm_to_hot_promotions s; cold_archives := wrapping_add u64_max (cold_archives s) archives;
     cold_revivals := cold_revivals s; maintenance_ticks := wrapping_add u64_max (maintenance_ticks s) ticks |}.

Record TRv1StorageAdapter := {
  hot_cache : @AccountCache AccountSharedData;
  ta_config : TieredStorageConfig;
  rent_config : StateRentConfig;
  archive_index : ArchiveIndex;
  ta_stats : AtomicTierStats
}.
Definition with_cache (c : @AccountCache AccountSharedData) (s : AtomicTierStats) (t : TRv1StorageAdapter) : TRv1StorageAdapter :=
  {| hot_cache := c; ta_config := ta_config t; rent_config := rent_config t; archive_index := archive_index t; ta_stats := s |}.
Definition TRv1StorageAdapter_new (c : TieredStorageConfig) (r : StateRentConfig) : TRv1StorageAdapter :=
  {| hot_cache := AccountCache_new c; ta_config := c; rent_config := r; archive_index := ArchiveIndex_new; ta_stats := AtomicTierStats_default |}.

Definition account_data_len (a : AccountSharedData) : Z := Z.of_nat (length (a_data a)).

(** ** Operations *)

Definition hot_cache_get (k : Pubkey) (now : Z) (t : TRv1StorageAdapter) : option (option AccountSharedData * TRv1StorageAdapter) :=
  '(r, c) ← AccountCache.get k now (hot_cache t);
  match r with
  | Some a => Some (Some a, with_cache c (bump 1 0 0 0 0 0 (ta_stats t)) t)
  | None => Some (None, with_cache c (bump 0 1 0 0 0 0 (ta_stats t)) t)
  end.

Definition hot_cache_insert (k : Pubkey) (a : AccountSharedData) (now : Z) (t : TRv1StorageAdapter) : option TRv1StorageAdapter :=
  c ← AccountCache.insert account_data_len k a now (hot_cache t);
  Some (with_cache c (bump 0 0 1 0 0 0 (ta_stats t)) t).

Definition hot_cache_remove (k : Pubkey) (t : TRv1StorageAdapter) : option (option AccountSharedData * TRv1StorageAdapter) :=
  '(r, c) ← AccountCache.remove k (hot_cache t); Some (r, with_cache c (ta_stats t) t).

Definition maybe_evict (t : TRv1StorageAdapter) : option (list (Pubkey * AccountSharedData) * TRv1StorageAdapter) :=
  if needs_eviction (hot_cache t) then
    '(evicted, c) ← evict_to_warm (hot_cache t);
    Some (evicted, with_cache c (bump 0 0 0 (Z.of_nat (length evicted)) 0 0 (ta_stats t)) t)
  else Some ([], t).

(** the evicted accounts are dropped, and [check_and_archive_expired_accounts] does nothing *)
Definition maintenance_tick (current_slot current_epoch : Z) (t : TRv1StorageAdapter) : option TRv1StorageAdapter :=
  let t := with_cache (hot_cache t) (bump 0 0 0 0 0 1 (ta_stats t)) t in
  '(_, t) ← maybe_evict t; Some t.

(** the slot and the epoch the maintenance thread estimates at a tick, for an interval in milliseconds *)
Definition estimated_slot (tick_count interval_ms : Z) : Z := saturating_mul u64_max tick_count (interval_ms / 400).
Definition estimated_epoch (tick_count interval_ms : Z) : Z := estimated_slot tick_count interval_ms / 432000.
(** one round of [run_loop], after the sleep *)
Definition maintenance_round (tick_count interval_ms : Z) (t : TRv1StorageAdapter) : option (Z * TRv1StorageAdapter) :=
  let tick_count := wrapping_add u64_max tick_count 1 in
  t ← maintenance_tick (estimated_slot tick_count interval_ms) (estimated_epoch tick_count interval_ms) t; Some (tick_count, t).

Section adapter.
Context (sha256 : list Byte.byte -> Hash) (pubkey_to_string : Pubkey -> string).

Definition archive_account_to_cold (k : Pubkey) (a : AccountSharedData) (last_active_slot current_slot current_epoch now : Z) (accepted : bool)
    (t : TRv1StorageAdapter) (fs : FileSystem) : option (bool * TRv1StorageAdapter * FileSystem) :=
  if negb (check_rent_expiry a last_active_slot current_slot (rent_config t)) then Some (false, t, fs)
  else match archive_account sha256 pubkey_to_string k a current_slot current_epoch now (rent_config t) accepted fs with
       | Some (archived, fs) =>
           '(_, t) ← hot_cache_remove k t;
           Some (true, {| hot_cache := hot_cache t; ta_config := ta_config t; rent_config := rent_config t;
                          archive_index := ArchiveIndex_insert archived (archive_index t);
                          ta_stats := bump 0 0 0 0 1 0 (ta_stats t) |}, fs)
       | None => Some (false, t, fs)
       end.

(** ** The hooks of the accounts database *)

(** the load behind the cache: the fork to read, the key, and whether accounts without lamports count *)
Context {Ancestors : Type}.

Definition do_load (storage_load : Ancestors -> Pubkey -> bool -> option (AccountSharedData * Z)) (ancestors : Ancestors) (k : Pubkey)
    (max_root : option Z) (load_zero_lamports : bool) (now : Z) (t : TRv1StorageAdapter)
    : option (option (AccountSharedData * Z) * TRv1StorageAdapter) :=
  '(hit, t) ← hot_cache_get k now t;
  match hit with
  | Some a =>
      if negb load_zero_lamports && (a_lamports a =? 0) then Some (None, t)
      else Some (Some (a, default 0 max_root), t)
  | None =>
      let result := storage_load ancestors k load_zero_lamports in
      match result with
      | Some (a, _) => t ← hot_cache_insert k a now t; Some (result, t)
      | None => Some (result, t)
      end
  end.

(** the end of [store_accounts_unfrozen]: every account stored goes to the cache *)
Fixpoint store_hook (accounts : list (Pubkey * AccountSharedData)) (now : Z) (t : TRv1StorageAdapter) : option TRv1StorageAdapter :=
  match accounts with
  | [] => Some t
  | (k, a) :: accounts => t ← hot_cache_insert k a now t; store_hook accounts now t
  end.
End adapter.

(** ** One fork *)

(** the accounts the index finds on a single fork, each with the slot it was stored in; the write cache, the read cache and the
    storages hold the account the index points at *)
Abbreviation AccountsDb := (gmap Pubkey (AccountSharedData * Z)).







(** accounts of at most 10 MiB *)
Definition MAX_LEN : Z := 10485760.
Definition small (a : AccountSharedData) : Prop := account_data_len a <= MAX_LEN.




(** ** What a store writes *)




Lemma memory_size_small a now : small a -> memory_size (CachedAccount_new account_data_len a now) <= 160 + MAX_LEN.
Proof.
  unfold small, MAX_LEN, memory_size. simpl. unfold account_data_len, wrapping_add. intros Ha. rewrite Z.mod_small; lia.
Qed.






(** ** Each operation *)










(** ** Properties *)


(** C34. The hot cache ignores forks: after the first store, in a new adapter, of an account with lamports and of at most 10 MiB, a
    load of its key returns that account for every set of ancestors, whatever the database holds on that fork, and with the maximum
    root (or 0) as its slot. *)
Theorem hot_cache_ignores_forks {Ancestors} (storage_load : Ancestors -> Pubkey -> bool -> option (AccountSharedData * Z))
    config rent k a root lz now later ancestors : small a -> a_lamports a <> 0 ->
  exists t t', store_hook [(k, a)] now (TRv1StorageAdapter_new config rent) = Some t
    /\ do_load storage_load ancestors k root lz later t = Some (Some (a, default 0 root), t').
Proof.
  intros Ha Hl. pose proof (memory_size_small a now Ha) as Hm. unfold MAX_LEN in Hm. simpl. unfold hot_cache_insert. simpl hot_cache.
  destruct (refines_insert account_data_len (AccountCache_new config) [] k a now (cache_new_wf config)) as (c & l & -> & Hc & _ & Hes);
    [change (lru_size _) with 0; lia|].
  destruct (get_refines c l k later Hc) as (c' & l' & E & _). cbn [mbind option_bind]. eexists (with_cache c _ _), (with_cache c' _ _).
  split; [reflexivity|]. unfold do_load, hot_cache_get. simpl hot_cache. rewrite E, Hes, lru_find_cons, decide_True by done.
  cbn [mbind option_bind fmap option_fmap option_map]. simpl ca_data.
  rewrite (proj2 (Z.eqb_neq _ _) Hl), andb_false_r. reflexivity.
Qed.

(** ** Witnesses *)

Module StorageAdapterExamples.

Definition account (n : Z) (len : nat) : AccountSharedData :=
  {| a_lamports := n; a_data := replicate len Byte.x00; a_owner := 0; a_executable := false; a_rent_epoch := 0 |}.
Definition config : TieredStorageConfig :=
  {| hot_cache_size := 400; eviction_policy := LRU; warm_threshold_slots := 0; cold_threshold_days := 1; enable_state_rent_expiry := false;
     eviction_batch_size := 4; target_utilization := f64_lit 1 2 |}.


(** two forks with different balances of key 1 *)
Lemma hot_cache_ignores_forks_witness :
  exists t t', store_hook [(1, account 5 10)] 0 (TRv1StorageAdapter_new config StateRentConfig_default) = Some t
    /\ do_load (fun (fork : bool) _ _ => Some (account (if fork then 5 else 9) 10, 42)) false 1 (Some 40) false 1 t = Some (Some (account 5 10, 40), t').
Proof.
  apply (hot_cache_ignores_forks (fun (fork : bool) _ _ => Some (account (if fork then 5 else 9) 10, 42)) config StateRentConfig_default 1 (account 5 10)
    (Some 40) false); vm_compute; discriminate.
Defined.

End StorageAdapterExamples.
