(* ===== verification/BftService.v ===== *)
(** * The consensus service

    Models the code that runs the engine inside a validator:
    core/src/block_producer.rs, core/src/bft_adapter.rs and the loop of
    core/src/consensus_service.rs, with the part of the banks and of the bank
    forks (runtime/src/bank.rs, runtime/src/bank_forks.rs) that they use.  A
    panic is [None].  The clock is an argument: [now] in nanoseconds for
    [Instant::now] and [ts] in milliseconds for [timestamp]; it reads the same
    throughout one call.  The theorems lift the results on one engine to the
    lifetime of a service, show that an idle service moves from round to round,
    describe block creation and execution, and run four honest services into a
    disagreement. *)

From stdpp Require Import base numbers list option gmap.
From Stdlib Require Import ZArith Lia.
From S2P Require Import Prelude F64 ValidatorSet BftTypes Evidence Engine Tendermint EngineSafety.
Local Open Scope Z_scope.
Local Open Scope trv1_scope.

(** ** Banks and bank forks

    The fields of a bank that the consensus code reads or sets. *)

Record Bank := {
  bank_slot : Z;
  bank_hash : Hash;
  bank_parent_hash : Hash;
  bank_parent_slot : Z;
  leader_id : Pubkey;
  bank_block_height : Z;
  ticks_per_slot : Z;
  bank_last_blockhash : Hash
}.

(** [BankForks], without the schedulers and the descendants *)
Record BankForks := { banks : gmap Z Bank; working_slot : Z }.

Definition hash_default : Hash := 0.

Definition set_bank_hash (b : Bank) (h : Hash) : Bank :=
  {| bank_slot := bank_slot b; bank_hash := h; bank_parent_hash := bank_parent_hash b;
     bank_parent_slot := bank_parent_slot b; leader_id := leader_id b;
     bank_block_height := bank_block_height b; ticks_per_slot := ticks_per_slot b;
     bank_last_blockhash := bank_last_blockhash b |}.

Definition working_bank (f : BankForks) : option Bank := banks f !! working_slot f.

(** [self.banks.values().map(|bank| bank.slot()).max().unwrap()] *)
Definition find_highest_slot (m : gmap Z Bank) : option Z :=
  match map (fun kv => bank_slot kv.2) (map_to_list m) with
  | [] => None
  | s :: l => Some (foldr Z.max s l)
  end.

(** [BankForks::insert]: the slot must be new *)
Definition bank_forks_insert (f : BankForks) (b : Bank) : option BankForks :=
  match banks f !! bank_slot b with
  | Some _ => None
  | None =>
      let m := <[bank_slot b := b]> (banks f) in
      s ← find_highest_slot m;
      Some {| banks := m; working_slot := s |}
  end.

(** ** Block producer *)

Inductive BlockProducerError :=
  | NoWorkingBank
  | HeightMismatch (expected got : Z)
  | ParentHashMismatch (expected got : Hash)
  | TooManyTransactions (count max : Z)
  | ExceedsComputeLimit (used max : Z)
  | ExecutionError
  | InvalidProposer (p : Pubkey).

Record BlockProducerConfig := {
  max_transactions_per_block : Z;
  max_compute_units_per_block : Z
}.

Definition BlockProducerConfig_default : BlockProducerConfig :=
  {| max_transactions_per_block := 2048; max_compute_units_per_block := 48000000 |}.

(** the channel is the list of the batches waiting in it *)
Record BlockProducer (Tx : Type) := {
  bank_forks : BankForks;
  transaction_receiver : list (list Tx);
  bp_config : BlockProducerConfig
}.
Arguments Build_BlockProducer {Tx}. Arguments bank_forks {Tx}.
Arguments transaction_receiver {Tx}. Arguments bp_config {Tx}.

(** ** Adapter *)

Record AdapterOutput (Tx : Type) := {
  out_messages : list (ConsensusMessage Tx);
  block_committed : bool;
  committed_hash : option Hash
}.
Arguments Build_AdapterOutput {Tx}. Arguments out_messages {Tx}.
Arguments block_committed {Tx}. Arguments committed_hash {Tx}.

(** the keypair appears through its public key; the bank forks are those of
    the block producer *)
Record BftAdapter (Tx : Type) := {
  engine : ConsensusEngine Tx;
  timeout_scheduler : TimeoutScheduler;
  validator_pubkey : Pubkey;
  block_producer : BlockProducer Tx;
  last_committed_hash : Hash
}.
Arguments Build_BftAdapter {Tx}. Arguments engine {Tx}. Arguments timeout_scheduler {Tx}.
Arguments validator_pubkey {Tx}. Arguments block_producer {Tx}. Arguments last_committed_hash {Tx}.

(** field assignments *)
Definition set_engine {Tx} (a : BftAdapter Tx) (e : ConsensusEngine Tx) : BftAdapter Tx :=
  let 'Build_BftAdapter _ t k p h := a in Build_BftAdapter e t k p h.
Definition set_timer {Tx} (a : BftAdapter Tx) (t : TimeoutScheduler) : BftAdapter Tx :=
  let 'Build_BftAdapter e _ k p h := a in Build_BftAdapter e t k p h.
Definition set_producer {Tx} (a : BftAdapter Tx) (p : BlockProducer Tx) : BftAdapter Tx :=
  let 'Build_BftAdapter e t k _ h := a in Build_BftAdapter e t k p h.
Definition set_last_committed {Tx} (a : BftAdapter Tx) (h : Hash) : BftAdapter Tx :=
  let 'Build_BftAdapter e t k p _ := a in Build_BftAdapter e t k p h.

(** [self.timeout_scheduler.start(step, self.engine.round())] *)
Definition start_timer {Tx} (a : BftAdapter Tx) (now : Z) (s : ConsensusStep) : BftAdapter Tx :=
  set_timer a (ts_start (timeout_scheduler a) now s (round (state (engine a)))).

Definition push_message {Tx} (o : AdapterOutput Tx) (m : ConsensusMessage Tx) : AdapterOutput Tx :=
  {| out_messages := out_messages o ++ [m]; block_committed := block_committed o;
     committed_hash := committed_hash o |}.

Definition adapter_output_empty {Tx} : AdapterOutput Tx :=
  {| out_messages := []; block_committed := false; committed_hash := None |}.

(** ** Service *)

Record ConsensusService (Tx : Type) := { adapter : BftAdapter Tx; current_height : Z }.
Arguments Build_ConsensusService {Tx}. Arguments adapter {Tx}. Arguments current_height {Tx}.

(** what [recv_timeout] returns *)
Inductive Recv (Tx : Type) :=
  | Received (m : ConsensusMessage Tx)
  | Timeout
  | Disconnected.
Arguments Received {Tx}. Arguments Timeout {Tx}. Arguments Disconnected {Tx}.

Definition TIMEOUT_POLL_INTERVAL_MS : Z := 50.

Section service.
Context {Tx : Type} `{!Sha256} `{!HashMapIter}.
(** the hash of a bank's contents, computed when it is frozen *)
Context (hash_internal_state : Bank -> Hash).
Implicit Types (a : BftAdapter Tx) (p : BlockProducer Tx).

Definition freeze (b : Bank) : Bank :=
  if decide (bank_hash b = hash_default) then set_bank_hash b (hash_internal_state b) else b.

(** [Bank::new_from_parent], of a parent it has frozen first *)
Definition new_from_parent (parent : Bank) (leader : Pubkey) (slot : Z) : option Bank :=
  if decide (slot = bank_slot parent) then None
  else
    next ← checked_add u64_max slot 1;
    _ ← checked_mul u64_max next (ticks_per_slot parent);
    h ← checked_add u64_max (bank_block_height parent) 1;
    Some {| bank_slot := slot; bank_hash := hash_default; bank_parent_hash := bank_hash parent;
            bank_parent_slot := bank_slot parent; leader_id := leader; bank_block_height := h;
            ticks_per_slot := ticks_per_slot parent;
            bank_last_blockhash := bank_last_blockhash parent |}.

(** the loop that empties the channel *)
Fixpoint drain (max : Z) (txs : list Tx) (q : list (list Tx)) : list Tx * list (list Tx) :=
  match q with
  | [] => (txs, [])
  | batch :: q' =>
      if Z.of_nat (length txs) <? max then
        let remaining := max - Z.of_nat (length txs) in
        if Z.of_nat (length batch) <=? remaining then drain max (txs ++ batch) q'
        else (txs ++ take (Z.to_nat remaining) batch, q')
      else (txs, q)
  end.

Definition create_block p (ts height : Z) (parent : Hash) (proposer : Pubkey) :
    option (result (ProposedBlock Tx) BlockProducerError * BlockProducer Tx) :=
  bank ← working_bank (bank_forks p);
  let '(txs, q) := drain (max_transactions_per_block (bp_config p)) [] (transaction_receiver p) in
  Some (Ok {| parent_hash := parent; block_height := height; timestamp := u64_as_i64 ts;
              transactions := txs; state_root := bank_last_blockhash bank; block_proposer := proposer |},
        Build_BlockProducer (bank_forks p) q (bp_config p)).

Definition validate_block p (b : ProposedBlock Tx) : option (result unit BlockProducerError) :=
  let count := Z.of_nat (length (transactions b)) in
  let max := max_transactions_per_block (bp_config p) in
  if max <? count then Some (Err (TooManyTransactions count max))
  else _ ← working_bank (bank_forks p); Some (Ok tt).

Definition execute_block p (c : CommittedBlock Tx) :
    option (result Hash BlockProducerError * BlockProducer Tx) :=
  let f := bank_forks p in
  parent ← working_bank f;
  let new_slot := wrapping_add u64_max (bank_slot parent) 1 in
  let parent := freeze parent in
  child ← new_from_parent parent (block_proposer (committed c)) new_slot;
  let f := {| banks := <[bank_slot parent := parent]> (banks f); working_slot := working_slot f |} in
  let hash := bank_hash child in
  let child := freeze child in
  f ← bank_forks_insert f child;
  Some (Ok hash, Build_BlockProducer f (transaction_receiver p) (bp_config p)).

Definition from_engine_output (o : EngineOutput Tx) : AdapterOutput Tx :=
  {| out_messages := messages o;
     block_committed := bool_decide (is_Some (committed_block o));
     committed_hash := (fun cb => block_hash_of (committed cb)) <$> committed_block o |}.

Definition BftAdapter_new (c : BftConfig) (k : Pubkey) (vs : ValidatorSet) p : option (BftAdapter Tx) :=
  bank ← working_bank (bank_forks p);
  Some {| engine := ConsensusEngine_new c k vs; timeout_scheduler := TimeoutScheduler_new c;
          validator_pubkey := k; block_producer := p; last_committed_hash := bank_last_blockhash bank |}.

Definition produce_block a (ts h : Z) :
    option (result (ConsensusMessage Tx) BlockProducerError * BftAdapter Tx) :=
  '(r, p) ← create_block (block_producer a) ts h (last_committed_hash a) (validator_pubkey a);
  Some (let? b := r in
        Ok (MProposal h (round (state (engine a))) b (validator_pubkey a) signature_default
              (valid_round (state (engine a)))),
        set_producer a p).

(** [if self.engine.is_proposer(height, round) { match self.produce_block(height) ... }] *)
Definition propose_if_leader a (o : AdapterOutput Tx) (ts h : Z) : option (BftAdapter Tx * AdapterOutput Tx) :=
  if engine_is_proposer (engine a) h (round (state (engine a))) then
    '(r, a) ← produce_block a ts h;
    Some (a, match r with Ok m => push_message o m | Err _ => o end)
  else Some (a, o).

Definition start_height a (now ts h : Z) : option (BftAdapter Tx * AdapterOutput Tx) :=
  let '(e, o) := start_new_height (engine a) h in
  let a := start_timer (set_engine a e) now Propose in
  propose_if_leader a (from_engine_output o) ts h.

Definition process_engine_output a (o : EngineOutput Tx) : option (BftAdapter Tx * AdapterOutput Tx) :=
  match committed_block o with
  | Some cb =>
      '(r, p) ← execute_block (block_producer a) cb;
      let a := set_producer a p in
      match r with
      | Ok hash =>
          let a := set_last_committed a (block_hash_of (committed cb)) in
          Some (set_timer a (ts_cancel (timeout_scheduler a)),
                {| out_messages := messages o; block_committed := true; committed_hash := Some hash |})
      | Err _ => Some (a, from_engine_output o)
      end
  | None => Some (a, from_engine_output o)
  end.

Definition handle_message a (now : Z) (m : ConsensusMessage Tx) : option (BftAdapter Tx * AdapterOutput Tx) :=
  let '(a, o) :=
    match m with
    | MProposal _ _ _ _ _ _ =>
        let '(e, o) := on_proposal (engine a) m in
        let a := set_engine a e in
        (if step_leb Prevote (step (state e)) then start_timer a now Prevote else a, o)
    | MPrevote _ _ _ _ _ =>
        let '(e, o) := on_prevote (engine a) m in
        let a := set_engine a e in
        (if step_leb Precommit (step (state e)) then start_timer a now Precommit else a, o)
    | MPrecommit _ _ _ _ _ =>
        let '(e, o) := on_precommit (engine a) m in (set_engine a e, o)
    end in
  process_engine_output a o.

Definition check_timeouts a (now ts : Z) : option (BftAdapter Tx * AdapterOutput Tx) :=
  match check_expired (timeout_scheduler a) now with
  | Some expired =>
      let '(e, o) := on_timeout (engine a) expired in
      let a := set_engine a e in
      match step (state e) with
      | Propose => propose_if_leader (start_timer a now Propose) (from_engine_output o) ts (height (state e))
      | Prevote => process_engine_output (start_timer a now Prevote) o
      | Precommit => process_engine_output (start_timer a now Precommit) o
      | Commit => process_engine_output (set_timer a (ts_cancel (timeout_scheduler a))) o
      | NewRound => process_engine_output a o
      end
  | None => Some (a, adapter_output_empty)
  end.

Definition time_to_next_timeout a (now : Z) : option Z := remaining (timeout_scheduler a) now.

Definition adapter_update_validator_set a (vs : ValidatorSet) : BftAdapter Tx :=
  set_engine a (update_validator_set (engine a) vs).

(** how long the loop waits for a message *)
Definition wait_duration a (now : Z) : Z :=
  let poll := TIMEOUT_POLL_INTERVAL_MS * 1000000 in
  match time_to_next_timeout a now with Some d => Z.min d poll | None => poll end.

(** the first call of [run] *)
Definition service_start a (now ts h : Z) : option (ConsensusService Tx * list (ConsensusMessage Tx)) :=
  '(a, o) ← start_height a now ts h;
  Some ({| adapter := a; current_height := h |}, out_messages o).

(** after a commit: count the height, sleep half a block time, start it *)
Definition advance_height (s : ConsensusService Tx) a (now ts : Z) :
    option (ConsensusService Tx * list (ConsensusMessage Tx)) :=
  let h := wrapping_add u64_max (current_height s) 1 in
  let pause := block_time_ms (config (engine a)) / 2 in
  '(a, o) ← start_height a (now + pause * 1000000) (ts + pause) h;
  Some ({| adapter := a; current_height := h |}, out_messages o).

(** One turn of the loop: the state, what it broadcasts, and whether the loop
    goes on. *)
Definition service_step (s : ConsensusService Tx) (now ts : Z) (r : Recv Tx) :
    option (ConsensusService Tx * list (ConsensusMessage Tx) * bool) :=
  match r with
  | Disconnected => Some (s, [], false)
  | Received _ | Timeout =>
      '(a, o) ← match r with
                | Received m => handle_message (adapter s) now m
                | _ => check_timeouts (adapter s) now ts
                end;
      if block_committed o then
        '(s, ms) ← advance_height s a now ts;
        Some (s, out_messages o ++ ms, true)
      else Some ({| adapter := a; current_height := current_height s |}, out_messages o, true)
  end.

(** a run of the loop: the readings of the clock and of the channel *)
Fixpoint service_run (s : ConsensusService Tx) (ins : list (Z * Z * Recv Tx)) :
    option (ConsensusService Tx * list (ConsensusMessage Tx)) :=
  match ins with
  | [] => Some (s, [])
  | (now, ts, r) :: ins' =>
      '(s1, ms, go) ← service_step s now ts r;
      if go : bool then '(s2, ms') ← service_run s1 ins'; Some (s2, ms ++ ms') else Some (s1, ms)
  end.
End service.

(** ** A network of services

    Every message that is delivered was broadcast by one of the services; a
    broadcast reaches its sender too.  The clock is shared and does not run
    backwards. *)

Record ServiceNet (Tx : Type) := {
  services : gmap Pubkey (ConsensusService Tx);
  wire : list (ConsensusMessage Tx);
  (** node, height and hash of the committed blocks, newest first *)
  service_commits : list (Pubkey * Z * Hash);
  clock : Z
}.
Arguments Build_ServiceNet {Tx}. Arguments services {Tx}. Arguments wire {Tx}.
Arguments service_commits {Tx}. Arguments clock {Tx}.

(** a service takes the message with this number off the wire, or finds none *)
Inductive Move := Deliver (k : nat) | Idle.

Section service_net.
Context {Tx : Type} `{!Sha256} `{!HashMapIter} (hash_internal_state : Bank -> Hash).

Definition service_net_step (net : ServiceNet Tx) (n : Pubkey) (now : Z) (mv : Move) : option (ServiceNet Tx) :=
  if now <? clock net then None
  else
    s ← services net !! n;
    r ← match mv with Deliver k => Received <$> wire net !! k | Idle => Some Timeout end;
    '(s', ms, _) ← service_step hash_internal_state s now (now / 1000000) r;
    Some {| services := <[n := s']> (services net); wire := wire net ++ ms;
            service_commits :=
              if current_height s' =? current_height s then service_commits net
              else (n, current_height s, last_committed_hash (adapter s')) :: service_commits net;
            clock := now |}.

Fixpoint service_net_run (net : ServiceNet Tx) (moves : list (Pubkey * Z * Move)) : option (ServiceNet Tx) :=
  match moves with
  | [] => Some net
  | (n, now, mv) :: moves' => net' ← service_net_step net n now mv; service_net_run net' moves'
  end.

(** the services of the validators of a set, started one after another at time 0 *)
Fixpoint start_services (c : BftConfig) (vs : ValidatorSet) (p : Pubkey -> BlockProducer Tx) (h : Z)
    (ks : list Pubkey) : option (ServiceNet Tx) :=
  match ks with
  | [] => Some {| services := ∅; wire := []; service_commits := []; clock := 0 |}
  | k :: ks' =>
      net ← start_services c vs p h ks';
      a ← BftAdapter_new c k vs (p k);
      '(s, ms) ← service_start a 0 0 h;
      Some {| services := <[k := s]> (services net); wire := wire net ++ ms;
              service_commits := []; clock := 0 |}
  end.
End service_net.

(** ** What the adapter does to its engine *)

(** proposals carry no votes *)
Definition no_votes {Tx} (ms : list (ConsensusMessage Tx)) : Prop := new_votes ms = [].

Section events.
Context {Tx : Type} `{!Sha256} `{!HashMapIter} (his : Bank -> Hash).
Implicit Types (a : BftAdapter Tx) (o : AdapterOutput Tx) (s : ConsensusService Tx).

Lemma process_engine_output_frame a eo a' o : process_engine_output his a eo = Some (a', o) ->
  engine a' = engine a /\ validator_pubkey a' = validator_pubkey a /\ out_messages o = messages eo
  /\ block_committed o = bool_decide (is_Some (committed_block eo)).
Proof.
  unfold process_engine_output. destruct a as [e t k p h]. destruct (committed_block eo) as [cb|] eqn:Ecb; simpl.
  - intros ([[hash|err] p'] & _ & Hr)%bind_Some; simplify_eq; simpl; by rewrite ?Ecb.
  - intros [= <- <-]. simpl. by rewrite Ecb.
Qed.

Lemma propose_if_leader_frame a o ts h a' o' : propose_if_leader a o ts h = Some (a', o') ->
  engine a' = engine a /\ validator_pubkey a' = validator_pubkey a /\ timeout_scheduler a' = timeout_scheduler a
  /\ block_committed o' = block_committed o
  /\ exists ps, out_messages o' = out_messages o ++ ps /\ no_votes ps.
Proof.
  unfold propose_if_leader. case_if; [|intros [= <- <-]; repeat split; exists []; by rewrite app_nil_r].
  intros ([r a1] & H1 & [= <- <-])%bind_Some. unfold produce_block in H1.
  apply bind_Some in H1 as ([r1 p1] & _ & [= <- <-]). destruct a. repeat split; destruct r1; try done.
  - eexists. done.
  - exists []. by rewrite app_nil_r.
Qed.

Lemma start_height_engine a now ts h a' o : start_height a now ts h = Some (a', o) ->
  engine a' = (start_new_height (engine a) h).1 /\ no_votes (out_messages o).
Proof.
  unfold start_height. destruct (start_new_height (engine a) h) as [e eo] eqn:E.
  intros (He & _ & _ & _ & ps & Ho & Hps)%propose_if_leader_frame. rewrite He, Ho. destruct a. split; [done|].
  unfold start_new_height, start_round in E. injection E as _ <-. done.
Qed.

Lemma handle_message_engine a now m a' o : handle_message his a now m = Some (a', o) ->
  let '(e, eo) := handle (engine a) (EvMessage m) in
  engine a' = e /\ out_messages o = messages eo /\ block_committed o = bool_decide (is_Some (committed_block eo)).
Proof.
  unfold handle_message. destruct m; cbn [handle].
  1: destruct (on_proposal _ _) as [e eo].
  2: destruct (on_prevote _ _) as [e eo].
  3: destruct (on_precommit _ _) as [e eo].
  all: intros (He & _ & Ho & Hc)%process_engine_output_frame; rewrite He; destruct a; by try case_if.
Qed.

Lemma check_timeouts_engine a now ts a' o : check_timeouts his a now ts = Some (a', o) ->
  (a' = a /\ o = adapter_output_empty) \/
  exists st ps, let '(e, eo) := handle (engine a) (EvTimeout st) in
    engine a' = e /\ out_messages o = messages eo ++ ps /\ no_votes ps
    /\ block_committed o = bool_decide (is_Some (committed_block eo)).
Proof.
  unfold check_timeouts. destruct (check_expired _ _) as [st|]; [|intros [= <- <-]; by left].
  intros Hr. right. exists st. cbn [handle]. destruct (on_timeout _ _) as [e eo].
  destruct (step (state e)).
  2: { apply propose_if_leader_frame in Hr as (He & _ & _ & Hc & ps & Ho & Hps). exists ps. rewrite He. by destruct a. }
  all: exists []; apply process_engine_output_frame in Hr as (He & _ & Ho & Hc); rewrite He, app_nil_r; by destruct a.
Qed.
End events.

(** ** The lifetime of a service *)

(** the votes sent so far: those of the current height, and those of earlier
    heights, which no longer change *)
Record votes_history {Tx} (k : Pubkey) (e : ConsensusEngine Tx) (V : list vote) : Prop := {
  vh_ok : engine_ok e;
  vh_sync : lock_sync e;
  vh_identity : identity e = k;
  vh_voter : Forall (fun x => vk_voter x.1 = k) V;
  vh_split : exists Vc Vo, V = Vc ++ Vo /\ votes_inv (height (state e)) k (view e) Vc
    /\ Forall (fun x => vk_height x.1 < height (state e)) Vo
    /\ (forall key x y, (key, x) ∈ Vo -> (key, y) ∈ Vo -> x = y)
}.

Section lifetime.
Context {Tx : Type} `{!Sha256} `{!HashMapIter} (his : Bank -> Hash).
Implicit Types (a : BftAdapter Tx) (e : ConsensusEngine Tx) (s : ConsensusService Tx).

Definition counters_ok s : bool :=
  in_range 0 (u32_max - 1) (round (state (engine (adapter s)))) && in_range 0 (u64_max - 1) (current_height s).

(** the round stays below [u32::MAX] and the height below [u64::MAX] *)
Fixpoint lifetime_okb s (ins : list (Z * Z * Recv Tx)) : bool :=
  match ins with
  | [] => true
  | (now, ts, r) :: ins' =>
      counters_ok s && match service_step his s now ts r with
                       | Some (s', _, true) => lifetime_okb s' ins'
                       | _ => true
                       end
  end.

Lemma votes_history_uniq k e V key x y : votes_history k e V -> (key, x) ∈ V -> (key, y) ∈ V -> x = y.
Proof.
  intros [_ _ _ Hk (Vc & Vo & -> & Hv & Ho & Hu)] Hx Hy.
  pose proof (proj1 (Forall_forall _ _) Hk _ Hx) as Hkey. simpl in Hkey.
  assert (Hno : forall x y, (key, x) ∈ Vc -> (key, y) ∈ Vo -> False).
  { intros x' y' Hx' Hy'. pose proof (vi_height _ _ _ _ Hv key x' Hkey Hx').
    pose proof (proj1 (Forall_forall _ _) Ho _ Hy'). simpl in *. lia. }
  apply elem_of_app in Hx as [Hx|Hx], Hy as [Hy|Hy]; [|by edestruct Hno|by edestruct Hno|by eapply Hu].
  by eapply (vi_uniq _ _ _ _ Hv).
Qed.

Lemma votes_history_event k e V ev : votes_history k e V -> 0 <= round (state e) < u32_max ->
  let '(e', o) := handle e ev in
  votes_history k e' (new_votes (messages o) ++ V) /\ height (state e') = height (state e).
Proof.
  intros [Hok Hs Hi Hk (Vc & Vo & -> & Hv & Ho & Hu)] Hr.
  assert (Hev : event_ok (fun _ => True) (fun _ _ => True) e ev) by (by destruct ev as [[]|[]]).
  destruct (handle_refines_protocol _ _ e ev Vc Hok Hs Hev) as (Hf & _ & _).
  assert (Hrun : run_okb e [ev] = true).
  { destruct ev as [|[]]; simpl; try done. rewrite andb_true_r, andb_true_iff. split; breflect; lia. }
  rewrite <- Hi in Hv, Hk. apply Forall_app in Hk as [HVc HVo].
  pose proof (run_votes_inv [ev] e Vc Hok Hs Hrun Hv HVc) as Hv'. simpl in Hv'.
  destruct (handle e ev) as [e' o]. unfold sent_messages in Hv'. simpl in Hv', Hf. rewrite app_nil_r in Hv'.
  destruct Hv' as [Hv' HVc']. split; [|apply Hf]. split.
  - by eapply engine_ok_frame.
  - apply Hf.
  - rewrite (sf_identity _ _ Hf). done.
  - rewrite app_assoc. apply Forall_app. rewrite <- Hi. done.
  - exists (new_votes (messages o) ++ Vc), Vo. rewrite (sf_height _ _ Hf), app_assoc, <- Hi. done.
Qed.

Lemma votes_history_start k e V h : votes_history k e V -> height (state e) < h ->
  votes_history k (start_new_height e h).1 V.
Proof.
  intros HV Hh. pose proof HV as [Hok Hs Hi Hk (Vc & Vo & EV & Hv & Ho & Hu)].
  destruct (start_new_height_view e h Hok) as (Hok' & Hs' & Hi' & Hh').
  split; [done|done|by rewrite Hi'|done|]. exists [], V. rewrite Hh'. split; [done|]. split; [apply votes_inv_nil|].
  split; [|intros key x y; by apply (votes_history_uniq k e V)].
  apply Forall_forall. intros [key x] Hx. simpl. pose proof (proj1 (Forall_forall _ _) Hk _ Hx) as Hkey.
  rewrite EV in Hx. apply elem_of_app in Hx as [Hx|Hx].
  - rewrite (vi_height _ _ _ _ Hv key x Hkey Hx). done.
  - pose proof (proj1 (Forall_forall _ _) Ho _ Hx) as Hx'. simpl in Hx'. lia.
Qed.

(** the call of the adapter in a turn of the loop *)
Lemma votes_history_call k s now ts r a o V : votes_history k (engine (adapter s)) V -> counters_ok s = true ->
  match r with
  | Received m => handle_message his (adapter s) now m
  | _ => check_timeouts his (adapter s) now ts
  end = Some (a, o) ->
  votes_history k (engine a) (new_votes (out_messages o) ++ V)
  /\ height (state (engine a)) = height (state (engine (adapter s))).
Proof.
  intros HV Hc Hr. unfold counters_ok, in_range in Hc. assert (Hrd : 0 <= round (state (engine (adapter s))) < u32_max).
  { rewrite !andb_true_iff in Hc. breflect. lia. }
  assert (Ht : check_timeouts his (adapter s) now ts = Some (a, o) ->
    votes_history k (engine a) (new_votes (out_messages o) ++ V)
    /\ height (state (engine a)) = height (state (engine (adapter s)))).
  { intros [[-> ->]|(st & ps & Hev)]%check_timeouts_engine; [done|].
    pose proof (votes_history_event k _ V (EvTimeout st) HV Hrd) as HV'.
    destruct (handle _ _) as [e eo]. destruct Hev as (-> & -> & Hps & _). rewrite new_votes_app, Hps. done. }
  destruct r as [m| |]; [|by apply Ht|by apply Ht].
  apply handle_message_engine in Hr. pose proof (votes_history_event k _ V (EvMessage m) HV Hrd) as HV'.
  destruct (handle _ _) as [e eo]. destruct Hr as (-> & -> & _). done.
Qed.

Lemma votes_history_step k s now ts r s' ms go V :
  votes_history k (engine (adapter s)) V -> height (state (engine (adapter s))) = current_height s ->
  counters_ok s = true -> service_step his s now ts r = Some (s', ms, go) ->
  votes_history k (engine (adapter s')) (new_votes ms ++ V)
  /\ height (state (engine (adapter s'))) = current_height s'.
Proof.
  intros HV Hh Hc Hr.
  assert (Hr' : (s', ms) = (s, []) \/ exists a o, match r with Received m => handle_message his (adapter s) now m
      | _ => check_timeouts his (adapter s) now ts end = Some (a, o)
    /\ (if block_committed o then '(s, ms) ← advance_height s a now ts; Some (s, out_messages o ++ ms, true)
        else Some ({| adapter := a; current_height := current_height s |}, out_messages o, true))
       = Some (s', ms, go)).
  { destruct r; [right|right|left; by injection Hr as <- <-]; apply bind_Some in Hr as ([a o] & H1 & H2); eauto. }
  destruct Hr' as [[= -> ->]|Hr']; [done|].
  destruct Hr' as (a & o & H1 & H2). destruct (votes_history_call k s now ts r a o V HV Hc H1) as [HV' Hh'].
  destruct (block_committed o); [|by simplify_eq; simpl; rewrite Hh'].
  apply bind_Some in H2 as ([s1 ms1] & H2 & [= <- <- _]). unfold advance_height in H2.
  apply bind_Some in H2 as ([a1 o1] & (He & Hn)%start_height_engine & [= <- <-]). simpl.
  rewrite new_votes_app, Hn, He. unfold counters_ok, in_range in Hc. rewrite !andb_true_iff in Hc. breflect.
  unfold wrapping_add. rewrite Z.mod_small by lia. split.
  - apply votes_history_start; [done|]. rewrite Hh', Hh. lia.
  - by destruct (engine a) as [? ? ? [] ? ? ?].
Qed.

Lemma votes_history_run k ins : forall s s' ms V,
  votes_history k (engine (adapter s)) V -> height (state (engine (adapter s))) = current_height s ->
  lifetime_okb s ins = true -> service_run his s ins = Some (s', ms) ->
  votes_history k (engine (adapter s')) (new_votes ms ++ V).
Proof.
  induction ins as [|[[now ts] r] ins IH]; intros s s' ms V HV Hh Hc Hr; simpl in *; [by simplify_eq|].
  apply andb_true_iff in Hc as [Hc Hc']. apply bind_Some in Hr as ([[s1 ms1] go] & H1 & Hr). rewrite H1 in Hc'.
  destruct (votes_history_step k s now ts r s1 ms1 go V HV Hh Hc H1) as [HV1 Hh1].
  destruct go; [|by simplify_eq]. apply bind_Some in Hr as ([s2 ms2] & H2 & [= <- <-]).
  rewrite new_votes_app, <- app_assoc. by eapply IH.
Qed.
End lifetime.

(** C5. A validator never equivocates in its lifetime: whatever a service
    receives and whenever its timers expire, over all the heights it goes
    through, the messages it broadcasts contain no two votes for the same
    height, round and kind with different values, as long as the round counter stays
    below [u32::MAX] and the height below [u64::MAX]. *)
Theorem service_never_equivocates {Tx} `{!Sha256} `{!HashMapIter} (his : Bank -> Hash)
    (a : BftAdapter Tx) now ts h s0 ms0 ins s ms v :
  engine_ok (engine a) -> service_start a now ts h = Some (s0, ms0) ->
  lifetime_okb his s0 ins = true -> service_run his s0 ins = Some (s, ms) ->
  ~ conflicting (ms0 ++ ms) v.
Proof.
  intros Hok Hst Hl Hr. unfold service_start in Hst.
  apply bind_Some in Hst as ([a0 o0] & (He & Hn)%start_height_engine & [= <- <-]).
  destruct (start_new_height_view (engine a) h Hok) as (Hok' & Hs' & Hi' & Hh'). rewrite <- He in *.
  assert (HV : votes_history (identity (engine a)) (engine a0) []).
  { split; [done..|]. exists [], []. split; [done|]. split; [apply votes_inv_nil|]. split; [done|].
    by intros ? ? ? ?%not_elem_of_nil. }
  pose proof (votes_history_run his _ ins (Build_ConsensusService a0 h) _ _ [] HV Hh' Hl Hr) as HV'. rewrite app_nil_r in HV'.
  intros (key & x & y & Hx & Hy & _ & Hxy)%conflicting_votes. rewrite new_votes_app, Hn, app_nil_r in Hx, Hy.
  apply Hxy. by eapply votes_history_uniq.
Qed.

(** ** Creating and executing blocks *)

Section blocks.
Context {Tx : Type}.
Implicit Types (q : list (list Tx)) (p : BlockProducer Tx).

Lemma drain_spec max q : forall txs, Z.of_nat (length txs) <= max ->
  let '(txs', q') := drain max txs q in
  txs' = take (Z.to_nat max) (txs ++ concat q)
  /\ exists lost, txs ++ concat q = txs' ++ lost ++ concat q' /\ (lost = [] \/ Z.of_nat (length txs') = max).
Proof.
  induction q as [|b q IH]; intros txs Hl; simpl.
  - rewrite !app_nil_r, take_ge by lia. split; [done|]. exists []. by rewrite app_nil_r; split; [|left].
  - destruct (Z.ltb_spec (Z.of_nat (length txs)) max) as [Hlt|Hge].
    2: { split; [by rewrite take_app_le, take_ge by lia|]. exists []. split; [done|by left]. }
    destruct (Z.leb_spec (Z.of_nat (length b)) (max - Z.of_nat (length txs))) as [Hb|Hb].
    + specialize (IH (txs ++ b)). destruct (drain max (txs ++ b) q) as [txs' q'].
      rewrite <- !app_assoc in IH. apply IH. rewrite length_app. lia.
    + assert (Hn : (Z.to_nat max = length txs + Z.to_nat (max - Z.of_nat (length txs)))%nat) by lia.
      split.
      * rewrite Hn, take_app_add, take_app_le by lia. done.
      * exists (drop (Z.to_nat (max - Z.of_nat (length txs))) b). split.
        -- by rewrite <- app_assoc, (app_assoc (take _ b)), take_drop.
        -- right. rewrite length_app, length_take. lia.
Qed.
End blocks.

(** Block creation: the transactions of a new block are the first
    [max_transactions_per_block] waiting in the channel, in order, so that
    [validate_block] accepts the block; the channel then holds the remaining
    transactions, apart from the rest of a batch that was cut at the limit, which
    is dropped and reaches no block. *)
Theorem create_block_drains {Tx} (p : BlockProducer Tx) ts h parent proposer r p' :
  0 <= max_transactions_per_block (bp_config p) -> create_block p ts h parent proposer = Some (r, p') ->
  exists b lost, r = Ok b
  /\ transactions b = take (Z.to_nat (max_transactions_per_block (bp_config p))) (concat (transaction_receiver p))
  /\ concat (transaction_receiver p) = transactions b ++ lost ++ concat (transaction_receiver p')
  /\ (lost = [] \/ Z.of_nat (length (transactions b)) = max_transactions_per_block (bp_config p))
  /\ block_height b = h /\ parent_hash b = parent /\ block_proposer b = proposer
  /\ validate_block p' b = Some (Ok tt).
Proof.
  intros Hm Hr. unfold create_block in Hr. apply bind_Some in Hr as (bank & Hb & Hr).
  pose proof (drain_spec (max_transactions_per_block (bp_config p)) (transaction_receiver p) [] Hm) as Hd.
  destruct (drain _ _ _) as [txs q]. simpl in Hd. destruct Hd as (Ht & lost & Hq & Hl). injection Hr as <- <-.
  eexists _, lost. repeat (split; [done|]). unfold validate_block. simpl.
  destruct (Z.ltb_spec (max_transactions_per_block (bp_config p)) (Z.of_nat (length txs))) as [Hlt|_].
  - rewrite Ht, length_take in Hlt. lia.
  - by rewrite Hb.
Qed.

(** the working bank is the one with the highest slot *)
Definition forks_ok (f : BankForks) : Prop :=
  (forall slot b, banks f !! slot = Some b -> bank_slot b = slot /\ slot <= working_slot f)
  /\ is_Some (banks f !! working_slot f).

Lemma find_highest_slot_spec (m : gmap Z Bank) s b : m !! s = Some b -> bank_slot b = s ->
  (forall slot c, m !! slot = Some c -> bank_slot c <= s) -> find_highest_slot m = Some s.
Proof.
  intros Hs Hb Hmax. unfold find_highest_slot.
  assert (Hin : s ∈ map (fun kv => bank_slot kv.2) (map_to_list m)).
  { apply list_elem_of_fmap. exists (s, b). split; [done|]. by apply elem_of_map_to_list. }
  assert (Hle : Forall (fun x => x <= s) (map (fun kv => bank_slot kv.2) (map_to_list m))).
  { apply Forall_forall. intros x ([slot c] & -> & Hc)%list_elem_of_fmap. apply elem_of_map_to_list in Hc. by eapply Hmax. }
  destruct (map _ _) as [|x l]; [by apply not_elem_of_nil in Hin|]. f_equal. clear - Hin Hle.
  induction l as [|y l IH]; simpl in *.
  - apply list_elem_of_singleton in Hin. done.
  - inversion Hle as [|? ? Hx Hl]. inversion Hl as [|? ? Hy Hl']. subst.
    assert (Hfold : foldr Z.max x l <= s).
    { clear - Hx Hl'. induction Hl' as [|z l Hz Hl IH]; simpl; lia. }
    apply elem_of_cons in Hin as [->|[->|Hin]%elem_of_cons]; [|lia|].
    + rewrite IH; [lia|by left|by constructor].
    + rewrite IH; [lia|by right|by constructor].
Qed.

Lemma freeze_slot his b : bank_slot (freeze his b) = bank_slot b.
Proof. unfold freeze. by case_decide. Qed.

Lemma freeze_limits his b :
  ticks_per_slot (freeze his b) = ticks_per_slot b /\ bank_block_height (freeze his b) = bank_block_height b
  /\ leader_id (freeze his b) = leader_id b /\ bank_last_blockhash (freeze his b) = bank_last_blockhash b.
Proof. unfold freeze. by case_decide. Qed.

(** there is room for one more bank after this one *)
Definition bank_room (b : Bank) : Prop :=
  0 <= bank_slot b /\ bank_slot b + 2 <= u64_max /\ (bank_slot b + 2) * ticks_per_slot b <= u64_max
  /\ bank_block_height b < u64_max.

Lemma new_from_parent_succeeds b leader : bank_room b ->
  exists child, new_from_parent b leader (bank_slot b + 1) = Some child
  /\ bank_slot child = bank_slot b + 1 /\ bank_hash child = hash_default /\ leader_id child = leader
  /\ bank_parent_hash child = bank_hash b /\ bank_last_blockhash child = bank_last_blockhash b.
Proof.
  intros (H1 & H2 & H3 & H4). unfold new_from_parent, checked_add, checked_mul.
  rewrite decide_False by lia. rewrite (proj2 (Z.leb_le _ _)) by lia. cbn [mbind option_bind].
  rewrite (proj2 (Z.leb_le _ _)) by lia. cbn [mbind option_bind].
  rewrite (proj2 (Z.leb_le _ _)) by lia. cbn [mbind option_bind]. eexists. split; [done|]. done.
Qed.

Lemma bank_forks_insert_next f child : forks_ok f -> bank_slot child = working_slot f + 1 ->
  bank_forks_insert f child
    = Some {| banks := <[working_slot f + 1 := child]> (banks f); working_slot := working_slot f + 1 |}
  /\ forks_ok {| banks := <[working_slot f + 1 := child]> (banks f); working_slot := working_slot f + 1 |}.
Proof.
  intros [Hf _] Hs. unfold bank_forks_insert. rewrite Hs.
  assert (Hnew : banks f !! (working_slot f + 1) = None).
  { destruct (banks f !! _) as [b|] eqn:E; [|done]. apply Hf in E. lia. }
  rewrite Hnew, (find_highest_slot_spec _ (working_slot f + 1) child); [| |done|].
  - split; [done|]. split; simpl; [|by rewrite lookup_insert_eq].
    intros slot b [[<- <-]|[_ Hb]]%lookup_insert_Some; [lia|]. apply Hf in Hb. lia.
  - apply lookup_insert_eq.
  - intros slot b [[<- <-]|[_ Hb]]%lookup_insert_Some; [lia|]. apply Hf in Hb. lia.
Qed.

(** Executing a committed block never fails and never panics while slots
    remain: it adds one bank, led by the block's proposer, in the slot after
    the working bank, which it freezes, and makes it the new working bank.
    Nothing else of the block matters, its transactions included, and the hash that
    is returned as the committed one is always [Hash::default()], because it is
    read before the bank is frozen. *)
Theorem execute_block_outcome {Tx} his (p : BlockProducer Tx) parent c :
  forks_ok (bank_forks p) -> working_bank (bank_forks p) = Some parent -> bank_room parent ->
  exists p' child, execute_block his p c = Some (Ok hash_default, p')
  /\ forks_ok (bank_forks p')
  /\ working_slot (bank_forks p') = working_slot (bank_forks p) + 1
  /\ banks (bank_forks p') = <[working_slot (bank_forks p) + 1 := child]>
       (<[working_slot (bank_forks p) := freeze his parent]> (banks (bank_forks p)))
  /\ leader_id child = block_proposer (committed c)
  /\ bank_parent_hash child = bank_hash (freeze his parent)
  /\ bank_last_blockhash child = bank_last_blockhash parent
  /\ transaction_receiver p' = transaction_receiver p
  /\ (forall c', block_proposer (committed c') = block_proposer (committed c) ->
        execute_block his p c' = execute_block his p c).
Proof.
  intros Hf Hw Hroom. pose proof Hf as [Hf1 Hf2]. unfold working_bank in Hw. destruct (Hf1 _ _ Hw) as [Hslot _].
  assert (Hroom' : bank_room (freeze his parent)).
  { unfold bank_room. rewrite freeze_slot. destruct (freeze_limits his parent) as (-> & -> & _). done. }
  destruct (new_from_parent_succeeds _ (block_proposer (committed c)) Hroom') as (child & Hc & Hs & Hh & Hl & Hp & Hb).
  rewrite freeze_slot, Hslot in *.
  assert (Hf' : forks_ok {| banks := <[working_slot (bank_forks p) := freeze his parent]> (banks (bank_forks p));
    working_slot := working_slot (bank_forks p) |}).
  { split; simpl; [|by rewrite lookup_insert_eq].
    intros slot b [[<- <-]|[_ Hb']]%lookup_insert_Some; [rewrite freeze_slot; lia|by apply Hf1]. }
  destruct (bank_forks_insert_next _ (freeze his child) Hf') as [Hi Hok]; [by rewrite freeze_slot|].
  destruct (freeze_limits his child) as (_ & _ & Hl' & Hb'). destruct (freeze_limits his parent) as (_ & _ & _ & Hb2).
  eexists _, (freeze his child). split.
  { unfold execute_block, working_bank. rewrite Hw. cbn [mbind option_bind]. destruct Hroom as (? & ? & _).
    unfold wrapping_add. rewrite Z.mod_small, freeze_slot, Hslot by lia. rewrite Hc. cbn [mbind option_bind].
    rewrite Hi. cbn [mbind option_bind]. by rewrite Hh. }
  split; [done|]. split; [done|]. split; [done|]. rewrite Hl', Hl, Hb', Hb, Hb2.
  assert (Hph : bank_parent_hash (freeze his child) = bank_parent_hash child) by (unfold freeze; by case_decide).
  rewrite Hph, Hp. repeat (split; [done|]). intros c' Hc'. unfold execute_block. by rewrite Hc'.
Qed.

(** ** Timers *)

Section timers.
Context {Tx : Type} `{!Sha256} `{!HashMapIter} (his : Bank -> Hash).
Implicit Types (a : BftAdapter Tx) (e : ConsensusEngine Tx) (s : ConsensusService Tx).

Lemma handle_foreign e m : msg_height m <> height (state e) -> handle e (EvMessage m) = (e, output_empty).
Proof. intros Hne. destruct m; simpl in *; by rewrite (proj2 (Z.eqb_neq _ _)). Qed.

Lemma step_foreign s now ts m : msg_height m <> height (state (engine (adapter s))) ->
  exists t, service_step his s now ts (Received m)
    = Some ({| adapter := set_timer (adapter s) t; current_height := current_height s |}, [], true).
Proof.
  intros Hne. pose proof (handle_foreign _ _ Hne) as Hh. destruct s as [[e t k p lc] h]. cbn [adapter engine] in *.
  unfold service_step, handle_message. cbn [adapter].
  destruct m; cbn [handle] in Hh; cbn [engine]; rewrite Hh; unfold process_engine_output; cbn [output_empty committed_block];
    try case_if; cbn; by eexists.
Qed.

(** the timer is armed for [st] of the current round since [t0] *)
Definition armed a (st : ConsensusStep) (t0 : Z) : Prop :=
  started_at (timeout_scheduler a) = Some t0 /\ active_step (timeout_scheduler a) = Some st
  /\ current_round (timeout_scheduler a) = round (state (engine a)).

(** the loop finds the channel empty once the timer has run out *)
Definition tick_due s (now : Z) : bool := bool_decide (time_to_next_timeout (adapter s) now = Some 0).

Fixpoint all_due s (ins : list (Z * Z)) : bool :=
  match ins with
  | [] => true
  | (now, ts) :: ins' =>
      tick_due s now && match service_step his s now ts Timeout with
                        | Some (s', _, _) => all_due s' ins'
                        | None => true
                        end
  end.

Definition ticks (ins : list (Z * Z)) : list (Z * Z * Recv Tx) := map (fun x => (x, Timeout)) ins.

Lemma due_expired a st t0 now : armed a st t0 -> time_to_next_timeout a now = Some 0 ->
  check_expired (timeout_scheduler a) now = Some st.
Proof.
  intros (Hs & Ha & _). unfold time_to_next_timeout, remaining, check_expired. rewrite Hs, Ha. simpl.
  unfold saturating_sub. intros [= Hd]. rewrite (proj2 (Z.leb_le _ _)) by lia. done.
Qed.

(** a service that has heard nothing in the current round and waits in [st] *)
Record waiting s (st : ConsensusStep) : Prop := {
  wt_armed : exists t0, armed (adapter s) st t0;
  wt_step : step (state (engine (adapter s))) = st;
  wt_prevote : sent_prevote (engine (adapter s)) = step_ltb Propose st;
  wt_precommit : sent_precommit (engine (adapter s)) = step_ltb Prevote st;
  wt_key : validator_pubkey (adapter s) = identity (engine (adapter s));
  wt_bank : is_Some (working_bank (bank_forks (block_producer (adapter s))))
}.

(** where a service stands, the round apart *)
Definition place s : Z * Z * Pubkey * ValidatorSet :=
  (current_height s, height (state (engine (adapter s))), identity (engine (adapter s)),
   validator_set (engine (adapter s))).

Lemma tick_vote s st next now ts m :
  waiting s st -> tick_due s now = true ->
  (st = Propose /\ next = Prevote /\ m = make_prevote (engine (adapter s)) None
   \/ st = Prevote /\ next = Precommit /\ m = make_precommit (engine (adapter s)) None) ->
  exists s', service_step his s now ts Timeout = Some (s', [m], true) /\ waiting s' next
  /\ place s' = place s /\ round (state (engine (adapter s'))) = round (state (engine (adapter s))).
Proof.
  intros [[t0 Ha] Hst Hpv Hpc Hk Hb] Hd%bool_decide_eq_true Hm.
  pose proof (due_expired _ _ _ _ Ha Hd) as He. unfold service_step, check_timeouts. rewrite He. clear He Ha Hd.
  destruct s as [[[c i vs [h r st' lv lr vv vr pv pc pr] ev spv spc] t k p lc] ch]. simpl in *. subst st'.
  destruct Hm as [(-> & -> & ->)|(-> & -> & ->)]; simpl in *; subst spv spc; eexists; (split; [reflexivity|]);
    (split; [|done]); (split; [|done..]); eexists; by split.
Qed.

Lemma tick_round s now ts : waiting s Precommit -> tick_due s now = true ->
  0 <= round (state (engine (adapter s))) < u32_max ->
  exists s' ms, service_step his s now ts Timeout = Some (s', ms, true) /\ waiting s' Propose
  /\ place s' = place s /\ round (state (engine (adapter s'))) = round (state (engine (adapter s))) + 1
  /\ (engine_is_proposer (engine (adapter s)) (height (state (engine (adapter s))))
        (round (state (engine (adapter s))) + 1) = true ->
      exists b vr, MProposal (height (state (engine (adapter s)))) (round (state (engine (adapter s))) + 1) b
        (identity (engine (adapter s))) signature_default vr ∈ ms).
Proof.
  intros [[t0 Ha] Hst Hpv Hpc Hk [bank Hb]] Hd%bool_decide_eq_true Hr.
  pose proof (due_expired _ _ _ _ Ha Hd) as He. unfold service_step, check_timeouts. rewrite He. clear He Ha Hd.
  destruct s as [[[c i vs [h r st' lv lr vv vr pv pc pr] ev spv spc] t k p lc] ch]. simpl in *. subst st' k.
  unfold wrapping_add. rewrite (Z.mod_small (r + 1)) by lia. simpl.
  unfold propose_if_leader, engine_is_proposer. simpl. destruct (is_proposer vs i h (r + 1)); simpl.
  - unfold produce_block, create_block. simpl. rewrite Hb. simpl. destruct (drain _ _ _) as [txs q]. simpl.
    eexists _, _. split; [reflexivity|]. split; [split; [eexists; by split|done..]|].
    split; [done|]. split; [done|]. intros _. eexists _, _. by left.
  - eexists _, _. split; [reflexivity|]. split; [split; [eexists; by split|done..]|]. done.
Qed.

Lemma service_run_cons s now ts r s1 ms1 ins :
  service_step his s now ts r = Some (s1, ms1, true) ->
  service_run his s ((now, ts, r) :: ins) = '(s2, ms') ← service_run his s1 ins; Some (s2, ms1 ++ ms').
Proof. intros Hs. cbn [service_run]. by rewrite Hs. Qed.

(** what an idle service sends in round [r], and when it enters the next one *)
Definition round_messages e (h r : Z) (ms : list (ConsensusMessage Tx)) : Prop :=
  MPrevote h r None (identity e) signature_default ∈ ms
  /\ MPrecommit h r None (identity e) signature_default ∈ ms
  /\ (engine_is_proposer e h (r + 1) = true ->
      exists b vr, MProposal h (r + 1) b (identity e) signature_default vr ∈ ms).

Lemma round_messages_place s s' h r ms : place s' = place s ->
  round_messages (engine (adapter s')) h r ms -> round_messages (engine (adapter s)) h r ms.
Proof.
  unfold place, round_messages, engine_is_proposer. intros [= _ _ -> ->]. done.
Qed.

Lemma round_messages_app e h r ms ms' : round_messages e h r ms \/ round_messages e h r ms' ->
  round_messages e h r (ms ++ ms').
Proof.
  unfold round_messages. setoid_rewrite elem_of_app. intros [(? & ? & Hp)|(? & ? & Hp)].
  - split; [auto|]. split; [auto|]. intros (b & vr & ?)%Hp. eauto.
  - split; [auto|]. split; [auto|]. intros (b & vr & ?)%Hp. eauto.
Qed.

Lemma idle_round s x1 x2 x3 ins : waiting s Propose -> all_due s (x1 :: x2 :: x3 :: ins) = true ->
  0 <= round (state (engine (adapter s))) < u32_max ->
  exists s' ms, service_run his s (ticks (x1 :: x2 :: x3 :: ins))
      = ('(s2, ms') ← service_run his s' (ticks ins); Some (s2, ms ++ ms'))
  /\ waiting s' Propose /\ all_due s' ins = true /\ place s' = place s
  /\ round (state (engine (adapter s'))) = round (state (engine (adapter s))) + 1
  /\ round_messages (engine (adapter s)) (height (state (engine (adapter s))))
       (round (state (engine (adapter s)))) ms.
Proof.
  destruct x1 as [n1 t1], x2 as [n2 t2], x3 as [n3 t3]. intros W0 Hd Hr. cbn [all_due] in Hd.
  apply andb_true_iff in Hd as [D1 Hd].
  destruct (tick_vote s Propose Prevote n1 t1 _ W0 D1 ltac:(by left)) as (s1 & E1 & W1 & P1 & R1). rewrite E1 in Hd.
  apply andb_true_iff in Hd as [D2 Hd].
  destruct (tick_vote s1 Prevote Precommit n2 t2 _ W1 D2 ltac:(by right)) as (s2 & E2 & W2 & P2 & R2). rewrite E2 in Hd.
  apply andb_true_iff in Hd as [D3 Hd]. rewrite R1 in R2.
  destruct (tick_round s2 n3 t3 W2 D3 ltac:(by rewrite R2)) as (s3 & ms & E3 & W3 & P3 & R3 & Hp). rewrite E3 in Hd.
  assert (P : place s3 = place s) by congruence. unfold engine_is_proposer in Hp.
  unfold place in P1, P2, P3. injection P1 as P1a P1b P1c P1d. injection P2 as P2a P2b P2c P2d.
  rewrite R2, P2b, P1b, P2c, P1c, P2d, P1d in Hp.
  eexists s3, ([_] ++ [_] ++ ms). split.
  { unfold ticks. cbn [map]. rewrite (service_run_cons _ _ _ _ _ _ _ E1), (service_run_cons _ _ _ _ _ _ _ E2),
      (service_run_cons _ _ _ _ _ _ _ E3). destruct (service_run his s3 _) as [[? ?]|]; [|done].
    cbn [mbind option_bind]. by rewrite <- !app_assoc. }
  split; [done|]. split; [done|]. split; [done|]. split; [by rewrite R3, R2|].
  unfold make_prevote, make_precommit. rewrite R1, P1b, P1c. split; [by left|]. split; [right; by left|].
  intros (b & vr & Hin)%Hp. exists b, vr. right. by right.
Qed.

Lemma idle_rounds n : forall s ins, waiting s Propose -> length ins = (3 * n)%nat -> all_due s ins = true ->
  0 <= round (state (engine (adapter s))) -> round (state (engine (adapter s))) + Z.of_nat n <= u32_max ->
  exists s' ms, service_run his s (ticks ins) = Some (s', ms) /\ place s' = place s
  /\ round (state (engine (adapter s'))) = round (state (engine (adapter s))) + Z.of_nat n
  /\ forall i, 0 <= i < Z.of_nat n -> round_messages (engine (adapter s)) (height (state (engine (adapter s))))
       (round (state (engine (adapter s))) + i) ms.
Proof.
  induction n as [|n IH]; intros s ins W Hl Hd Hr Hm.
  - destruct ins; [|done]. exists s, []. split; [done|]. split; [done|]. split; [lia|]. lia.
  - destruct ins as [|x1 [|x2 [|x3 ins]]]; try (simpl in Hl; lia).
    destruct (idle_round s x1 x2 x3 ins W Hd ltac:(lia)) as (s1 & ms1 & E1 & W1 & D1 & P1 & R1 & M1).
    destruct (IH s1 ins W1 ltac:(simpl in Hl; lia) D1 ltac:(lia) ltac:(lia)) as (s2 & ms2 & E2 & P2 & R2 & M2).
    exists s2, (ms1 ++ ms2). rewrite E1, E2. split; [done|]. split; [congruence|]. split; [lia|].
    intros i Hi. apply round_messages_app. destruct (decide (i = 0)) as [->|Hne]; [left; by rewrite Z.add_0_r|].
    right. apply (round_messages_place s s1); [done|]. specialize (M2 (i - 1) ltac:(lia)).
    rewrite R1 in M2. replace (round (state (engine (adapter s))) + 1 + (i - 1))
      with (round (state (engine (adapter s))) + i) in M2 by lia.
    unfold place in P1. injection P1 as _ P1 _ _. by rewrite P1 in M2.
Qed.
End timers.

(** C13. Rounds go on without messages: from the start of a round, each three
    turns of the loop that find the channel empty once the timer has run
    out take the service to the next round of the same height; in each round
    it prevotes nil and precommits nil, and on entering a round it leads it
    proposes a block. *)
Theorem idle_service_advances {Tx} `{!Sha256} `{!HashMapIter} (his : Bank -> Hash) n (s : ConsensusService Tx) ins :
  waiting s Propose -> length ins = (3 * n)%nat -> all_due his s ins = true ->
  0 <= round (state (engine (adapter s))) -> round (state (engine (adapter s))) + Z.of_nat n <= u32_max ->
  exists s' ms, service_run his s (ticks ins) = Some (s', ms) /\ place s' = place s
  /\ round (state (engine (adapter s'))) = round (state (engine (adapter s))) + Z.of_nat n
  /\ forall i, 0 <= i < Z.of_nat n -> round_messages (engine (adapter s)) (height (state (engine (adapter s))))
       (round (state (engine (adapter s))) + i) ms.
Proof. apply idle_rounds. Qed.

(** Messages keep the timers from firing: as long as the loop always
    finds a message in its channel, be it for another height and from
    anyone, the service neither changes its consensus state nor sends
    anything, however late it gets; the expired timer is looked at only when
    the channel stays empty. *)
Theorem flood_starves_timers {Tx} `{!Sha256} `{!HashMapIter} (his : Bank -> Hash) ins : forall (s : ConsensusService Tx),
  Forall (fun x => exists m, x.2 = Received m /\ msg_height m <> height (state (engine (adapter s)))) ins ->
  exists s', service_run his s ins = Some (s', []) /\ engine (adapter s') = engine (adapter s)
    /\ current_height s' = current_height s.
Proof.
  induction ins as [|[[now ts] r] ins IH]; intros s Hf; [by exists s|].
  apply Forall_cons in Hf as [(m & Hm & Hne) Hf]. simpl in Hm. subst r.
  destruct (step_foreign his s now ts m Hne) as [t Ht]. rewrite (service_run_cons _ _ _ _ _ _ _ _ Ht).
  destruct (IH {| adapter := set_timer (adapter s) t; current_height := current_height s |}) as (s' & E & He & Hh).
  { simpl. by destruct (adapter s). }
  rewrite E. exists s'. split; [done|]. rewrite He, Hh. by destruct s as [[] ?].
Qed.

(** ** Four honest services *)

Module BftServiceExamples.
Definition genesis_bank : Bank :=
  {| bank_slot := 298; bank_hash := 5; bank_parent_hash := 4; bank_parent_slot := 297; leader_id := 1;
     bank_block_height := 298; ticks_per_slot := 64; bank_last_blockhash := 77 |}.
Definition producer (max : Z) : BlockProducer nat :=
  {| bank_forks := {| banks := {[298 := genesis_bank]}; working_slot := 298 |};
     transaction_receiver := [[10%nat; 11%nat]; [12%nat; 13%nat]; [14%nat]];
     bp_config := {| max_transactions_per_block := max; max_compute_units_per_block := 48000000 |} |}.
Definition internal_state (b : Bank) : Hash := 1000 + bank_slot b.

Definition net0 : option (ServiceNet nat) :=
  @start_services nat toy_hash BftConfig_default four (fun _ => producer 2048) 299 [1; 2; 3; 4].

(** these services take the messages with these numbers off the wire *)
Definition deliver (now : Z) (l : list (Pubkey * Z)) : list (Pubkey * Z * Move) :=
  map (fun x => (x.1, now, Deliver (Z.to_nat x.2))) l.
(** these services find the channel empty *)
Definition idle (now : Z) (ks : list Pubkey) : list (Pubkey * Z * Move) := map (fun k => (k, now, Idle)) ks.

(** Validator 3 proposes in round 0 (message 0), all prevote (1 to 4) and, on
    the prevotes of the others, precommit (5 to 8); validator 1 receives the
    precommits and commits.  Those to the others are late: after two seconds they
    enter round 1, where validator 4 proposes (9), and all three prevote (10 to 12)
    and precommit (13 to 15). *)
Definition honest_moves : list (Pubkey * Z * Move) :=
  deliver 0 [(1, 0); (2, 0); (3, 0); (4, 0);
             (1, 2); (1, 3); (2, 1); (2, 3); (3, 1); (3, 2); (4, 1); (4, 2); (1, 6); (1, 7)]
  ++ idle 2000000000 [2; 3; 4]
  ++ deliver 2000000000 [(2, 9); (3, 9); (4, 9);
             (2, 11); (2, 12); (3, 10); (3, 12); (4, 10); (4, 11); (2, 14); (2, 15)].

Definition honest_run : option (ServiceNet nat) :=
  net ← net0; @service_net_run nat toy_hash _ internal_state net honest_moves.

(** a service alone *)
Definition solo_adapter : option (BftAdapter nat) := BftAdapter_new BftConfig_default 3 four (producer 2048).
Definition solo : option (ConsensusService nat * list (ConsensusMessage nat)) :=
  a ← solo_adapter; @service_start nat toy_hash a 0 0 299.
End BftServiceExamples.

(** C2. Honest validators can disagree: four services of equal stake run the
    code as it is, every message that is delivered was sent and is unaltered
    (some come late), a service also receives its own broadcasts, and
    validators 1 and 2 commit different blocks at the same height.  A
    proposer that holds a valid block of an earlier round proposes a new block and
    labels it with that round, which releases the locks of the others. *)
Theorem honest_services_disagree : exists net net' b1 b2,
  @start_services nat toy_hash BftConfig_default four
    (fun _ => BftServiceExamples.producer 2048) 299 [1; 2; 3; 4] = Some net
  /\ @service_net_run nat toy_hash _ BftServiceExamples.internal_state net BftServiceExamples.honest_moves = Some net'
  /\ (1, 299, b1) ∈ service_commits net' /\ (2, 299, b2) ∈ service_commits net' /\ b1 <> b2.
Proof.
  assert (E : exists net net' b1 b2, BftServiceExamples.net0 = Some net
    /\ @service_net_run nat toy_hash _ BftServiceExamples.internal_state net BftServiceExamples.honest_moves = Some net'
    /\ service_commits net' = [(2, 299, b2); (1, 299, b1)] /\ b1 <> b2).
  { assert (Hc : exists b1 b2, service_commits <$> BftServiceExamples.honest_run = Some [(2, 299, b2); (1, 299, b1)]
      /\ b1 <> b2).
    { eexists _, _. split; [vm_compute; reflexivity|]. vm_compute. discriminate. }
    destruct Hc as (b1 & b2 & (net' & Hr & Hc)%fmap_Some & Hne).
    unfold BftServiceExamples.honest_run in Hr. apply bind_Some in Hr as (net & Hn & Hr).
    exists net, net', b1, b2. split; [exact Hn|]. split; [exact Hr|]. split; [symmetry; exact Hc|exact Hne]. }
  destruct E as (net & net' & b1 & b2 & Hn & Hr & Hc & Hne). exists net, net', b1, b2.
  split; [exact Hn|]. split; [exact Hr|]. rewrite Hc. split; [right; by left|]. split; [by left|exact Hne].
Qed.

(** ** The theorems at concrete inputs *)

Module BftServiceWitnesses.
Import BftServiceExamples.

(** the proposer of round 0 hears of its own block, prevotes it and times out *)
Definition solo_ins (m : ConsensusMessage nat) : list (Z * Z * Recv nat) :=
  [(0, 0, Received m); (1500000000, 1500, Timeout); (3000000000, 3000, Timeout); (7000000000, 7000, Timeout)].

Lemma solo_adapter_ok : exists a, solo_adapter = Some a /\ engine_ok (engine a).
Proof. eexists. split; [reflexivity|]. split; [exact four_wf|]. split; vm_compute; reflexivity. Qed.

Lemma service_never_equivocates_witness : exists s0 m s ms,
  solo = Some (s0, [m])
  /\ @service_run nat toy_hash _ internal_state s0 (solo_ins m) = Some (s, ms)
  /\ map msg_round ms = [0; 0; 1] /\ ~ conflicting ([m] ++ ms) 3.
Proof.
  destruct solo_adapter_ok as (a & Ha & Hok).
  assert (E : exists s0 m s ms, solo = Some (s0, [m]) /\ @service_run nat toy_hash _ internal_state s0 (solo_ins m) = Some (s, ms)
    /\ @lifetime_okb nat toy_hash _ internal_state s0 (solo_ins m) = true /\ map msg_round ms = [0; 0; 1]).
  { eexists _, _, _, _. split; [vm_compute; reflexivity|]. split; [vm_compute; reflexivity|].
    split; vm_compute; reflexivity. }
  destruct E as (s0 & m & s & ms & Hs & Hr & Hl & Hm). exists s0, m, s, ms.
  split; [exact Hs|]. split; [exact Hr|]. split; [exact Hm|].
  unfold solo in Hs. rewrite Ha in Hs.
  exact (@service_never_equivocates nat toy_hash _ internal_state a 0 0 299 s0 [m] (solo_ins m) s ms 3 Hok Hs Hl Hr).
Defined.

(** a limit of three cuts the second batch: transaction 13 is lost *)
Lemma create_block_drains_witness : exists b p' lost,
  create_block (producer 3) 5 299 77 3 = Some (Ok b, p')
  /\ concat (transaction_receiver (producer 3)) = transactions b ++ lost ++ concat (transaction_receiver p')
  /\ lost = [13%nat].
Proof.
  destruct (create_block (producer 3) 5 299 77 3) as [[r p']|] eqn:E; [|discriminate E].
  pose proof (create_block_drains (producer 3) 5 299 77 3 r p') as T.
  destruct T as (b & lost & -> & _ & Hq & _); [vm_compute; discriminate|exact E|].
  exists b, p', lost. split; [reflexivity|]. split; [exact Hq|].
  vm_compute in E. injection E as <- <-. vm_compute in Hq. injection Hq as Hq.
  apply (app_inv_tail [14%nat]). symmetry. exact Hq.
Defined.

Definition some_commit : CommittedBlock nat :=
  {| committed := block 1 3; commit_signatures := []; commit_round := 0 |}.

Lemma execute_block_outcome_witness : exists p' child,
  execute_block internal_state (producer 2048) some_commit = Some (Ok hash_default, p')
  /\ banks (bank_forks p') !! 299 = Some child /\ leader_id child = 3.
Proof.
  destruct (execute_block_outcome internal_state (producer 2048) genesis_bank some_commit)
    as (p' & child & He & _ & _ & Hb & Hl & _).
  - split; [|by eexists]. intros slot b Hb. change (({[298 := genesis_bank]} : gmap Z Bank) !! slot = Some b) in Hb.
    apply lookup_singleton_Some in Hb as [<- <-]. split; [reflexivity|]. vm_compute. discriminate.
  - reflexivity.
  - unfold bank_room. vm_compute. repeat split; discriminate.
  - exists p', child. split; [exact He|]. rewrite Hb. split; [reflexivity|exact Hl].
Defined.

(** two rounds of silence *)
Definition quiet : list (Z * Z) :=
  map (fun s => (s * 1000000000, s * 1000)) [3; 4; 5; 9; 10; 11].

Lemma idle_service_advances_witness : exists s0 ms0 s ms,
  solo = Some (s0, ms0)
  /\ @service_run nat toy_hash _ internal_state s0 (ticks quiet) = Some (s, ms)
  /\ round (state (engine (adapter s))) = 2
  /\ MPrecommit 299 1 None 3 signature_default ∈ ms.
Proof.
  assert (E : exists s0 ms0, solo = Some (s0, ms0) /\ waiting s0 Propose
    /\ @all_due nat toy_hash _ internal_state s0 quiet = true
    /\ round (state (engine (adapter s0))) = 0 /\ height (state (engine (adapter s0))) = 299
    /\ identity (engine (adapter s0)) = 3).
  { eexists _, _. split; [vm_compute; reflexivity|]. split.
    { split; [exists 0; repeat split|reflexivity..|eexists; vm_compute; reflexivity]. }
    split; [vm_compute; reflexivity|]. repeat split. }
  destruct E as (s0 & ms0 & Hs & W & D & R & Hh & Hi). exists s0, ms0.
  destruct (@idle_service_advances nat toy_hash _ internal_state 2 s0 quiet W eq_refl D) as (s & ms & Hr & _ & Hrd & Hm).
  - rewrite R. lia.
  - rewrite R. lia.
  - exists s, ms. split; [exact Hs|]. split; [exact Hr|]. split; [rewrite Hrd, R; reflexivity|].
    specialize (Hm 1 ltac:(lia)). rewrite R, Hh in Hm. unfold round_messages in Hm. rewrite Hi in Hm. apply Hm.
Defined.

(** a thousand seconds of messages for height 7 *)
Definition flood : list (Z * Z * Recv nat) :=
  map (fun i => (i * 1000000000, i * 1000, Received (MPrevote 7 0 None 99 0))) (seqZ 0 1000).

Lemma flood_starves_timers_witness : exists s0 ms0 s,
  solo = Some (s0, ms0) /\ @service_run nat toy_hash _ internal_state s0 flood = Some (s, [])
  /\ engine (adapter s) = engine (adapter s0).
Proof.
  destruct solo as [[s0 ms0]|] eqn:E; [|discriminate (f_equal (fun o => bool_decide (is_Some o)) E)].
  assert (Hh : height (state (engine (adapter s0))) = 299).
  { apply (f_equal (fun o => (fun x => height (state (engine (adapter x.1)))) <$> o)) in E.
    vm_compute in E. injection E as E. symmetry. exact E. }
  destruct (@flood_starves_timers nat toy_hash _ internal_state flood s0) as (s & Hr & He & _).
  - apply Forall_forall. intros x (i & -> & _)%list_elem_of_fmap. eexists. split; [reflexivity|]. rewrite Hh. discriminate.
  - exists s0, ms0, s. split; [reflexivity|]. split; [exact Hr|exact He].
Defined.
End BftServiceWitnesses.
