(* ===== verification/ConsensusNet.v ===== *)
(** * Consensus networking

    Models consensus-net: the wire messages with their length-prefixed frames
    (message.rs) and the reader of a connection (transport.rs), the peer
    manager (peer_manager.rs) and the catch-up of missing blocks (sync.rs).
    bincode is a pair of parameters; a connection is the list of bytes that
    arrive before it closes; what the network does with a message and the
    clock are arguments.  The theorems: frames come out of a connection as
    they were sent, also when it is cut; the peer table and the requests in
    flight stay within their limits; and no height is handed on twice. *)

From stdpp Require Import base numbers list option gmap.
From Stdlib Require Import ZArith Lia.
From Stdlib.Floats Require Import SpecFloat.
From coqutil Require Import Word.LittleEndianList.
From S2P Require Import Prelude F64 BftTypes.
Local Open Scope Z_scope.
Local Open Scope trv1_scope.

(** ** Configuration, messages and errors *)

(** socket addresses are opaque *)
Definition SocketAddr : Type := Z.

Record ConsensusNetConfig := {
  max_peers : Z;
  message_timeout_ms : Z;
  heartbeat_interval_ms : Z;
  max_message_size : Z;
  prefer_quic : bool;
  peer_timeout_secs : Z;
  max_sync_requests : Z;
  channel_buffer_size : Z
}.

Definition ConsensusNetConfig_default : ConsensusNetConfig :=
  {| max_peers := 200; message_timeout_ms := 5000; heartbeat_interval_ms := 500; max_message_size := 1048576;
     prefer_quic := true; peer_timeout_secs := 30; max_sync_requests := 16; channel_buffer_size := 10000 |}.

Record PeerInfo := {
  pi_pubkey : Pubkey;
  pi_addr : SocketAddr;
  stake_weight : Z;
  is_active_validator : bool
}.

Record ValidatorInfo := { vi_pubkey : Pubkey; vi_stake_weight : Z; consensus_addr : SocketAddr }.

Record BlockData := {
  bd_slot : Z;
  bd_parent_hash : Hash;
  bd_block_hash : Hash;
  bd_transactions : list (list Byte.byte);
  bd_state_root : Hash;
  merkle_root : Hash;
  bd_merkle_proof : list Hash;
  bd_proposer : Pubkey
}.

(** [V] is the message type of the voting crate *)
Inductive ConsensusNetMessage (V : Type) :=
  | NConsensus (m : V)
  | NBlockData (b : BlockData)
  | NPeerAnnounce (i : PeerInfo)
  | NBlockRequest (height : Z)
  | NBlockResponse (height : Z) (block : BlockData)
  | NValidatorSetUpdate (epoch : Z) (validators : list ValidatorInfo)
  | NHeartbeat (pubkey : Pubkey) (latest_slot : Z)
  | NHeartbeatAck (pubkey : Pubkey) (latest_slot : Z).
Arguments NConsensus {V}. Arguments NBlockData {V}. Arguments NPeerAnnounce {V}. Arguments NBlockRequest {V}.
Arguments NBlockResponse {V}. Arguments NValidatorSetUpdate {V}. Arguments NHeartbeat {V}. Arguments NHeartbeatAck {V}.

Inductive ConsensusNetError :=
  | Serialization
  | MessageTooLarge (size max : Z)
  | UnknownPeer (k : Pubkey)
  | MaxPeersReached (max : Z)
  | Transport
  | ChannelClosed
  | InvalidMessage.

(** ** Frames *)

(** how the reader of a connection ends *)
Inductive Closed := EndOfStream | Oversized (len : Z) | PayloadCut | RouterGone.

Section frames.
Context {V : Type}.
Abbreviation Msg := (ConsensusNetMessage V).
Context (bincode_serialize : Msg -> option (list Byte.byte)) (bincode_deserialize : list Byte.byte -> option Msg).

Definition serialize (m : Msg) : result (list Byte.byte) ConsensusNetError :=
  ok_or (bincode_serialize m) Serialization.
Definition deserialize (data : list Byte.byte) : result Msg ConsensusNetError :=
  ok_or (bincode_deserialize data) Serialization.

(** the prefix and the payload; [payload.len() as u32] keeps the low 32 bits *)
Definition frame (payload : list Byte.byte) : list Byte.byte :=
  le_split 4 (Z.of_nat (length payload) mod 2 ^ 32) ++ payload.

Definition serialize_framed (m : Msg) (max_size : Z) : result (list Byte.byte) ConsensusNetError :=
  let? payload := serialize m in
  if max_size <? Z.of_nat (length payload) then Err (MessageTooLarge (Z.of_nat (length payload)) max_size)
  else Ok (frame payload).

Definition read_frame_len (header : list Byte.byte) : Z := le_combine header.

(** [stream.read_exact] of a buffer of [n] bytes *)
Definition read_exact (n : nat) (stream : list Byte.byte) : option (list Byte.byte * list Byte.byte) :=
  if (n <=? length stream)%nat then Some (take n stream, drop n stream) else None.

(** [handle_connection]: the messages handed to the router and the end; the
    router takes a message as long as [router_open] of those it has taken. *)
Fixpoint read_loop (fuel : nat) (router_open : list Msg -> bool) (max_size : Z) (taken : list Msg)
    (stream : list Byte.byte) : list Msg * Closed :=
  match fuel with
  | O => (taken, EndOfStream)
  | S fuel =>
      match read_exact 4 stream with
      | None => (taken, EndOfStream)
      | Some (header, stream) =>
          let len := read_frame_len header in
          if max_size <? len then (taken, Oversized len)
          else
            match read_exact (Z.to_nat len) stream with
            | None => (taken, PayloadCut)
            | Some (payload, stream) =>
                match deserialize payload with
                | Ok m =>
                    if router_open taken then read_loop fuel router_open max_size (taken ++ [m]) stream
                    else (taken, RouterGone)
                | Err _ => read_loop fuel router_open max_size taken stream
                end
            end
      end
  end.

(** a turn of the loop that goes on takes at least the prefix *)
Definition handle_connection (router_open : list Msg -> bool) (max_size : Z) (stream : list Byte.byte)
    : list Msg * Closed :=
  read_loop (S (length stream)) router_open max_size [] stream.
End frames.

(** ** Peers *)

Record PeerConnection := {
  pc_info : PeerInfo;
  last_seen : Z;
  messages_sent : Z;
  messages_received : Z;
  latency_ms : f64;
  is_connected : bool;
  score : f64
}.

Definition PeerConnection_new (i : PeerInfo) (now : Z) : PeerConnection :=
  {| pc_info := i; last_seen := now; messages_sent := 0; messages_received := 0; latency_ms := f64_of_Z 0;
     is_connected := false; score := f64_of_Z 100 |}.

(** field assignments *)
Definition set_info (i : PeerInfo) (c : PeerConnection) : PeerConnection :=
  let 'Build_PeerConnection _ l s r la co sc := c in Build_PeerConnection i l s r la co sc.
Definition set_connected (co : bool) (c : PeerConnection) : PeerConnection :=
  let 'Build_PeerConnection i l s r la _ sc := c in Build_PeerConnection i l s r la co sc.
Definition set_last_seen (l : Z) (c : PeerConnection) : PeerConnection :=
  let 'Build_PeerConnection i _ s r la co sc := c in Build_PeerConnection i l s r la co sc.

Definition record_received (now : Z) (c : PeerConnection) : PeerConnection :=
  let 'Build_PeerConnection i _ s r la co sc := c in
  Build_PeerConnection i now s (saturating_add u64_max r 1) la co sc.
Definition record_sent (c : PeerConnection) : PeerConnection :=
  let 'Build_PeerConnection i l s r la co sc := c in
  Build_PeerConnection i l (saturating_add u64_max s 1) r la co sc.
Definition update_latency (sample : f64) (c : PeerConnection) : PeerConnection :=
  let 'Build_PeerConnection i l s r la co sc := c in
  let alpha := f64_lit 3 10 in
  let la' := if SFeqb la (f64_of_Z 0) then sample
             else f64_add (f64_mul alpha sample) (f64_mul (f64_sub (f64_of_Z 1) alpha) la) in
  Build_PeerConnection i l s r la' co sc.

(** [Instant]s are nanoseconds *)
Definition silence_secs (now : Z) (c : PeerConnection) : Z := elapsed (last_seen c) now / 1000000000.

Record PeerManager := {
  peers : gmap Pubkey PeerConnection;
  active_validators : gset Pubkey;
  pm_config : ConsensusNetConfig
}.

Definition PeerManager_new (c : ConsensusNetConfig) : PeerManager :=
  {| peers := ∅; active_validators := ∅; pm_config := c |}.

Definition with_peers (m : gmap Pubkey PeerConnection) (p : PeerManager) : PeerManager :=
  {| peers := m; active_validators := active_validators p; pm_config := pm_config p |}.

Definition peer_count (p : PeerManager) : nat := size (peers p).
Definition connected_count (p : PeerManager) : nat :=
  length (filter (fun kv => is_connected kv.2 = true) (map_to_list (peers p))).

Definition add_peer (i : PeerInfo) (now : Z) (p : PeerManager) : result unit ConsensusNetError * PeerManager :=
  match peers p !! pi_pubkey i with
  | Some existing => (Ok tt, with_peers (<[pi_pubkey i := set_info i existing]> (peers p)) p)
  | None =>
      if max_peers (pm_config p) <=? Z.of_nat (size (peers p)) then (Err (MaxPeersReached (max_peers (pm_config p))), p)
      else
        (Ok tt, {| peers := <[pi_pubkey i := PeerConnection_new i now]> (peers p);
                   active_validators := if is_active_validator i then {[pi_pubkey i]} ∪ active_validators p
                                        else active_validators p;
                   pm_config := pm_config p |})
  end.

Definition remove_peer (k : Pubkey) (p : PeerManager) : PeerManager :=
  match peers p !! k with
  | Some _ => {| peers := delete k (peers p); active_validators := active_validators p ∖ {[k]};
                 pm_config := pm_config p |}
  | None => p
  end.

Definition mark_connected (k : Pubkey) (now : Z) (p : PeerManager) : result unit ConsensusNetError * PeerManager :=
  match peers p !! k with
  | Some c => (Ok tt, with_peers (<[k := set_last_seen now (set_connected true c)]> (peers p)) p)
  | None => (Err (UnknownPeer k), p)
  end.

Definition mark_disconnected (k : Pubkey) (p : PeerManager) : PeerManager :=
  match peers p !! k with
  | Some c => with_peers (<[k := set_connected false c]> (peers p)) p
  | None => p
  end.

Definition update_active_validators (vs : gset Pubkey) (p : PeerManager) : PeerManager :=
  {| peers := peers p; active_validators := vs; pm_config := pm_config p |}.

Section peers.
Context `{!HashMapIter}.

Definition connected_validators (p : PeerManager) : list (Pubkey * PeerConnection) :=
  filter (fun kv => is_connected kv.2 = true /\ kv.1 ∈ active_validators p) (hm_iter (peers p)).
Definition connected_peers (p : PeerManager) : list (Pubkey * PeerConnection) :=
  filter (fun kv => is_connected kv.2 = true) (hm_iter (peers p)).

Definition stale (now : Z) (p : PeerManager) : list Pubkey :=
  map fst (filter (fun kv => is_connected kv.2 = true /\ peer_timeout_secs (pm_config p) < silence_secs now kv.2)
             (hm_iter (peers p))).

Definition evict_stale_peers (now : Z) (p : PeerManager) : list Pubkey * PeerManager :=
  let l := stale now p in (l, foldl (fun p k => mark_disconnected k p) p l).
End peers.

(** ** Catch-up *)

Record PendingSyncRequest := {
  ps_height : Z;
  ps_peer : Pubkey;
  ps_addr : SocketAddr;
  sent_at : Z;
  attempts : Z
}.

(** the peer manager is shared with the transport *)
Record BlockSyncer := {
  bs_peers : PeerManager;
  bs_config : ConsensusNetConfig;
  pending : gmap Z PendingSyncRequest;
  completed : gset Z;
  max_retries : Z
}.

Definition BlockSyncer_new (p : PeerManager) (c : ConsensusNetConfig) : BlockSyncer :=
  {| bs_peers := p; bs_config := c; pending := ∅; completed := ∅; max_retries := 5 |}.

Definition with_pending (m : gmap Z PendingSyncRequest) (s : BlockSyncer) : BlockSyncer :=
  {| bs_peers := bs_peers s; bs_config := bs_config s; pending := m; completed := completed s;
     max_retries := max_retries s |}.

Definition in_flight (s : BlockSyncer) : nat := size (pending s).
Definition is_completed (h : Z) (s : BlockSyncer) : bool := bool_decide (h ∈ completed s).

(** what happens outside while a request is sent: the nanoseconds that pick
    the peer, the time, and whether the connection and the write succeed *)
Record Outside := { nanos : Z; now_at : Z; reachable : SocketAddr -> bool }.

Section sync.
Context {V : Type} `{!HashMapIter}.
Context (bincode_serialize : ConsensusNetMessage V -> option (list Byte.byte)).

Definition send_message (w : Outside) (addr : SocketAddr) (m : ConsensusNetMessage V) (max_size : Z)
    : result unit ConsensusNetError :=
  let? _ := serialize_framed bincode_serialize m max_size in
  if reachable w addr then Ok tt else Err Transport.

(** [candidates[idx]] *)
Definition pick (w : Outside) (l : list (Pubkey * PeerConnection)) : option (Pubkey * SocketAddr) :=
  '(k, c) ← l !! Z.to_nat (nanos w mod Z.of_nat (length l)); Some (k, pi_addr (pc_info c)).

Definition pick_peer (w : Outside) (s : BlockSyncer) : result (Pubkey * SocketAddr) ConsensusNetError :=
  match connected_validators (bs_peers s) with
  | [] => ok_or (pick w (connected_peers (bs_peers s))) InvalidMessage
  | l => ok_or (pick w l) InvalidMessage
  end.

(** a request to some peer, of the [n]th attempt *)
Definition send_request (w : Outside) (h n : Z) (s : BlockSyncer) : result BlockSyncer ConsensusNetError :=
  let? target := pick_peer w s in
  let? _ := send_message w target.2 (NBlockRequest h) (max_message_size (bs_config s)) in
  Ok (with_pending (<[h := {| ps_height := h; ps_peer := target.1; ps_addr := target.2; sent_at := now_at w;
                              attempts := n |}]> (pending s)) s).

Definition dispatch_request (w : Outside) (h : Z) (s : BlockSyncer) : result BlockSyncer ConsensusNetError :=
  send_request w h 1 s.

(** the loop of [request_range] over the heights that are left *)
Fixpoint request_heights (world : Z -> Outside) (hs : list Z) (dispatched : Z) (s : BlockSyncer) : Z * BlockSyncer :=
  match hs with
  | [] => (dispatched, s)
  | h :: hs =>
      if bool_decide (h ∈ completed s) || bool_decide (is_Some (pending s !! h))
      then request_heights world hs dispatched s
      else if max_sync_requests (bs_config s) <=? Z.of_nat (size (pending s)) then (dispatched, s)
      else match dispatch_request (world h) h s with
           | Ok s' => request_heights world hs (saturating_add u64_max dispatched 1) s'
           | Err _ => request_heights world hs dispatched s
           end
  end.

Definition request_range (world : Z -> Outside) (from to : Z) (s : BlockSyncer) : Z * BlockSyncer :=
  request_heights world (seqZ from (to - from + 1)) 0 s.

Definition handle_response (h : Z) (b : BlockData) (s : BlockSyncer) : option BlockData * BlockSyncer :=
  match pending s !! h with
  | Some _ => (Some b, {| bs_peers := bs_peers s; bs_config := bs_config s; pending := delete h (pending s);
                          completed := {[h]} ∪ completed s; max_retries := max_retries s |})
  | None => (None, s)
  end.

(** one request of the loop of [retry_timed_out] *)
Definition retry_one (world : Z -> Outside) (acc : list Z * BlockSyncer) (r : PendingSyncRequest) : list Z * BlockSyncer :=
  let '(failed, s) := acc in
  let s := with_pending (delete (ps_height r) (pending s)) s in
  if max_retries s <=? attempts r then (failed ++ [ps_height r], s)
  else match send_request (world (ps_height r)) (ps_height r) (saturating_add u32_max (attempts r) 1) s with
       | Ok s' => (failed, s')
       | Err _ => (failed ++ [ps_height r], s)
       end.

Definition timed_out (now : Z) (s : BlockSyncer) : list PendingSyncRequest :=
  filter (fun r => message_timeout_ms (bs_config s) < elapsed (sent_at r) now / 1000000 mod (u64_max + 1))
    (map snd (hm_iter (pending s))).

Definition retry_timed_out (world : Z -> Outside) (now : Z) (s : BlockSyncer) : list Z * BlockSyncer :=
  foldl (retry_one world) ([], s) (timed_out now s).

Definition reset (s : BlockSyncer) : BlockSyncer :=
  {| bs_peers := bs_peers s; bs_config := bs_config s; pending := ∅; completed := ∅; max_retries := max_retries s |}.

(** *** Runs *)

Inductive sync_op :=
  | SyncRequest (world : Z -> Outside) (from to : Z)
  | SyncResponse (h : Z) (b : BlockData)
  | SyncRetry (world : Z -> Outside) (now : Z)
  | SyncPeers (p : PeerManager).

(** the peers change under the syncer's hands *)
Definition set_peers (p : PeerManager) (s : BlockSyncer) : BlockSyncer :=
  {| bs_peers := p; bs_config := bs_config s; pending := pending s; completed := completed s;
     max_retries := max_retries s |}.

(** the heights of the blocks that were handed on, newest first *)
Definition sync_exec (op : sync_op) (acc : list Z * BlockSyncer) : list Z * BlockSyncer :=
  let '(handed, s) := acc in
  match op with
  | SyncRequest world from to => (handed, (request_range world from to s).2)
  | SyncResponse h b => let '(r, s) := handle_response h b s in (match r with Some _ => h :: handed | None => handed end, s)
  | SyncRetry world now => (handed, (retry_timed_out world now s).2)
  | SyncPeers p => (handed, set_peers p s)
  end.

Definition sync_run (ops : list sync_op) (s : BlockSyncer) : list Z * BlockSyncer :=
  foldl (fun acc op => sync_exec op acc) ([], s) ops.
End sync.

(** ** Frames come out as they went in *)

Section delivery.
Context {V : Type}.
Abbreviation Msg := (ConsensusNetMessage V).
Context (ser : Msg -> option (list Byte.byte)) (des : list Byte.byte -> option Msg).

(** the router never goes away *)
Definition always_open (_ : list Msg) : bool := true.

Abbreviation loop := (read_loop des).

Lemma read_exact_app n (x y : list Byte.byte) : length x = n -> read_exact n (x ++ y) = Some (x, y).
Proof.
  intros <-. unfold read_exact. rewrite (proj2 (Nat.leb_le _ _)) by (rewrite length_app; lia).
  by rewrite take_app_length, drop_app_length.
Qed.

Lemma read_exact_short n (x : list Byte.byte) : (length x < n)%nat -> read_exact n x = None.
Proof. intros ?. unfold read_exact. by rewrite (proj2 (Nat.leb_gt _ _)). Qed.

Lemma frame_header (payload : list Byte.byte) : Z.of_nat (length payload) <= u32_max ->
  read_frame_len (le_split 4 (Z.of_nat (length payload) mod 2 ^ 32)) = Z.of_nat (length payload).
Proof.
  intros ?. unfold read_frame_len. rewrite le_combine_split. change (2 ^ (Z.of_nat 4 * 8)) with (2 ^ 32).
  rewrite Z.mod_mod by lia. apply Z.mod_small. lia.
Qed.

(** one turn of the loop on a whole frame *)
Lemma read_loop_frame fuel router max taken (payload rest : list Byte.byte) :
  Z.of_nat (length payload) <= max -> Z.of_nat (length payload) <= u32_max ->
  loop (S fuel) router max taken (frame payload ++ rest)
  = match des payload with
    | Some m => if router taken then loop fuel router max (taken ++ [m]) rest else (taken, RouterGone)
    | None => loop fuel router max taken rest
    end.
Proof.
  intros Hm Hu. unfold frame. rewrite <- app_assoc. cbn [read_loop].
  rewrite read_exact_app by apply length_le_split. rewrite frame_header by done.
  rewrite (proj2 (Z.ltb_ge _ _)) by done. rewrite Nat2Z.id, read_exact_app by done.
  unfold deserialize. by destruct (des payload).
Qed.

(** a frame that is cut delivers nothing *)
Lemma read_loop_cut fuel router max taken (payload : list Byte.byte) k :
  Z.of_nat (length payload) <= max -> Z.of_nat (length payload) <= u32_max -> (k < length (frame payload))%nat ->
  (loop fuel router max taken (take k (frame payload))).1 = taken.
Proof.
  intros Hm Hu Hk. destruct fuel as [|fuel]; [done|]. unfold frame in *. rewrite length_app, length_le_split in Hk.
  cbn [read_loop]. destruct (decide (k < 4)%nat) as [Hlt|Hge].
  { rewrite read_exact_short; [done|]. rewrite length_take, length_app, length_le_split. lia. }
  rewrite take_app_ge by (rewrite length_le_split; lia). rewrite read_exact_app by apply length_le_split.
  rewrite frame_header by done. rewrite (proj2 (Z.ltb_ge _ _)) by done. rewrite Nat2Z.id, length_le_split.
  by rewrite read_exact_short by (rewrite length_take; lia).
Qed.

(** enough fuel is the length of the stream *)
Lemma read_loop_fuel router max : forall fuel fuel' taken stream,
  (length stream < fuel)%nat -> (length stream < fuel')%nat ->
  loop fuel router max taken stream = loop fuel' router max taken stream.
Proof.
  induction fuel as [|fuel IH]; intros fuel' taken stream H1 H2; [lia|].
  destruct fuel' as [|fuel']; [lia|]. cbn [read_loop].
  destruct (read_exact 4 stream) as [[hd st]|] eqn:E1; [|done].
  assert (Hst : length st = (length stream - 4)%nat /\ (4 <= length stream)%nat).
  { unfold read_exact in E1. destruct (Nat.leb_spec 4 (length stream)); [|done]. simplify_eq. rewrite length_drop. lia. }
  case_if; [done|]. destruct (read_exact _ st) as [[pl st']|] eqn:E2; [|done].
  assert (Hst' : (length st' <= length st)%nat).
  { unfold read_exact in E2. case_if; [|done]. simplify_eq. rewrite length_drop. lia. }
  destruct (deserialize des pl); [case_if; [|done]|]; apply IH; lia.
Qed.

Lemma read_loop_taken max : forall fuel taken stream,
  loop fuel always_open max taken stream
  = (taken ++ (loop fuel always_open max [] stream).1, (loop fuel always_open max [] stream).2).
Proof.
  induction fuel as [|fuel IH]; intros taken stream; cbn [read_loop]; [by rewrite app_nil_r|].
  destruct (read_exact 4 stream) as [[hd st]|]; [|by rewrite app_nil_r].
  case_if; [by rewrite app_nil_r|]. destruct (read_exact _ st) as [[pl st']|]; [|by rewrite app_nil_r].
  destruct (deserialize des pl); [|apply IH]. unfold always_open at 1 3 5. cbn [app].
  rewrite IH, (IH [a]). simpl. by rewrite <- app_assoc.
Qed.

(** what is sent: the frames of the messages, in order *)
Inductive sent_frames (max : Z) : list Msg -> list Byte.byte -> Prop :=
  | sent_nil : sent_frames max [] []
  | sent_cons m ms bytes wire : serialize_framed ser m max = Ok bytes -> sent_frames max ms wire ->
      sent_frames max (m :: ms) (bytes ++ wire).

Lemma serialize_framed_Ok m max bytes : serialize_framed ser m max = Ok bytes ->
  exists payload, ser m = Some payload /\ bytes = frame payload /\ Z.of_nat (length payload) <= max.
Proof.
  unfold serialize_framed, serialize. destruct (ser m) as [payload|]; [|done]. simpl.
  destruct (Z.ltb_spec max (Z.of_nat (length payload))); [done|]. intros [= <-]. eauto.
Qed.

Context (bincode_roundtrip : forall m bytes, ser m = Some bytes -> des bytes = Some m).

Lemma handle_connection_frame (payload : list Byte.byte) m max rest :
  des payload = Some m -> Z.of_nat (length payload) <= max -> Z.of_nat (length payload) <= u32_max ->
  handle_connection des always_open max (frame payload ++ rest)
  = (m :: (handle_connection des always_open max rest).1, (handle_connection des always_open max rest).2).
Proof.
  intros Hd Hm Hu. unfold handle_connection. rewrite read_loop_frame, Hd by done.
  unfold always_open at 1. cbn [app]. rewrite read_loop_taken.
  rewrite (read_loop_fuel always_open max (length (frame payload ++ rest)) (S (length rest))); [done| |lia].
  rewrite length_app. unfold frame. rewrite length_app, length_le_split. lia.
Qed.
End delivery.

(** C37. What is sent on a connection is what arrives: with a bincode that
    decodes what it encodes and a router that stays open, messages framed one after another (within a
    limit that fits the 4-byte prefix and is not larger than the reader's) are
    handed to the router completely and in order, whatever follows on the
    stream; and when the stream is cut anywhere the router gets a prefix of
    them, never part of a message or one that was not sent. *)
Theorem frames_delivered {V} (ser : ConsensusNetMessage V -> option (list Byte.byte)) des max_send max_recv ms wire :
  (forall m bytes, ser m = Some bytes -> des bytes = Some m) ->
  max_send <= max_recv -> max_send <= u32_max -> sent_frames ser max_send ms wire ->
  (forall rest, handle_connection des always_open max_recv (wire ++ rest)
     = (ms ++ (handle_connection des always_open max_recv rest).1,
        (handle_connection des always_open max_recv rest).2))
  /\ forall k, exists n, (handle_connection des always_open max_recv (take k wire)).1 = take n ms.
Proof.
  intros Hrt Hle Hu Hs. induction Hs as [|m ms bytes wire Hf Hs [IH1 IH2]].
  - split; [intros rest; by destruct (handle_connection _ _ _ _)|]. intros k. exists 0%nat. by rewrite take_nil.
  - apply serialize_framed_Ok in Hf as (payload & Hp & -> & Hl). apply Hrt in Hp. split.
    + intros rest. rewrite <- app_assoc, (handle_connection_frame des _ m) by (done || lia). by rewrite IH1.
    + intros k. destruct (decide (k < length (frame payload))%nat) as [Hk|Hk].
      * exists 0%nat. rewrite take_app_le by lia. by apply read_loop_cut; [lia|lia|].
      * rewrite take_app_ge by lia. destruct (IH2 (k - length (frame payload))%nat) as [n Hn].
        exists (S n). rewrite (handle_connection_frame des _ m) by (done || lia). cbn [fst]. by rewrite Hn.
Qed.

(** ** Peers stay within the limit *)

Inductive peer_op :=
  | AddPeer (i : PeerInfo) (now : Z)
  | RemovePeer (k : Pubkey)
  | MarkConnected (k : Pubkey) (now : Z)
  | MarkDisconnected (k : Pubkey)
  | UpdateValidators (vs : gset Pubkey)
  | EvictStale (now : Z).

Definition peer_exec `{!HashMapIter} (p : PeerManager) (op : peer_op) : PeerManager :=
  match op with
  | AddPeer i now => (add_peer i now p).2
  | RemovePeer k => remove_peer k p
  | MarkConnected k now => (mark_connected k now p).2
  | MarkDisconnected k => mark_disconnected k p
  | UpdateValidators vs => update_active_validators vs p
  | EvictStale now => (evict_stale_peers now p).2
  end.

(** the table is keyed by the peers' own keys and holds at most [max_peers] *)
Definition peers_ok (p : PeerManager) : Prop :=
  (forall k c, peers p !! k = Some c -> pi_pubkey (pc_info c) = k)
  /\ Z.of_nat (size (peers p)) <= Z.max 0 (max_peers (pm_config p)).

Section peer_table.
Context `{!HashMapIter}.
Implicit Types (p : PeerManager).

Lemma peers_ok_update p k c c' : peers_ok p -> peers p !! k = Some c -> pi_pubkey (pc_info c') = k ->
  peers_ok (with_peers (<[k := c']> (peers p)) p).
Proof.
  intros [Hk Hs] Hc Hc'. split; simpl.
  - intros k' c'' [[<- <-]|[_ ?]]%lookup_insert_Some; auto.
  - rewrite map_size_insert_Some by done. done.
Qed.

Lemma mark_disconnected_ok k p : peers_ok p -> peers_ok (mark_disconnected k p).
Proof.
  intros Hp. unfold mark_disconnected. destruct (peers p !! k) as [c|] eqn:E; [|done].
  eapply peers_ok_update; eauto. destruct c. simpl. by apply (proj1 Hp) in E.
Qed.

Lemma foldl_disconnect_ok l : forall p, peers_ok p -> peers_ok (foldl (fun p k => mark_disconnected k p) p l).
Proof. induction l as [|k l IH]; intros p Hp; simpl; [done|]. by apply IH, mark_disconnected_ok. Qed.

Lemma peer_exec_ok p op : peers_ok p -> peers_ok (peer_exec p op).
Proof.
  intros Hp. pose proof Hp as [Hk Hs]. destruct op as [i now|k|k now|k|vs|now]; simpl.
  - unfold add_peer. destruct (peers p !! pi_pubkey i) as [c|] eqn:E.
    + eapply peers_ok_update; eauto. by destruct c.
    + destruct (Z.leb_spec (max_peers (pm_config p)) (Z.of_nat (size (peers p)))); [done|]. split; simpl.
      * intros k c [[<- <-]|[_ ?]]%lookup_insert_Some; auto.
      * rewrite map_size_insert_None by done. lia.
  - unfold remove_peer. destruct (peers p !! k) as [c|] eqn:E; [|done]. split; simpl.
    + intros k' c' [_ ?]%lookup_delete_Some. auto.
    + rewrite map_size_delete_Some by (by rewrite E). lia.
  - unfold mark_connected. destruct (peers p !! k) as [c|] eqn:E; [|done].
    eapply peers_ok_update; eauto. destruct c. simpl. by apply Hk in E.
  - by apply mark_disconnected_ok.
  - done.
  - by apply foldl_disconnect_ok.
Qed.

(** eviction leaves exactly the peers that were heard of recently connected *)
Lemma foldl_disconnect_lookup l : forall p k, peers (foldl (fun p k => mark_disconnected k p) p l) !! k
  = (if bool_decide (k ∈ l) then set_connected false else id) <$> peers p !! k.
Proof.
  induction l as [|x l IH]; intros p k; cbn [foldl].
  { rewrite bool_decide_false by apply not_elem_of_nil. by destruct (peers p !! k). }
  rewrite IH. unfold mark_disconnected. destruct (peers p !! x) as [c|] eqn:E; cbn [with_peers peers].
  - destruct (decide (x = k)) as [->|Hne].
    + rewrite lookup_insert_eq, E, (bool_decide_true (k ∈ k :: l)) by (by left).
      case_bool_decide; by destruct c.
    + rewrite lookup_insert_ne by done. f_equal. rewrite (bool_decide_ext (k ∈ l) (k ∈ x :: l)); [done|].
      rewrite elem_of_cons. naive_solver.
  - destruct (decide (x = k)) as [->|Hne].
    + by rewrite E.
    + f_equal. rewrite (bool_decide_ext (k ∈ l) (k ∈ x :: l)); [done|]. rewrite elem_of_cons. naive_solver.
Qed.
End peer_table.

(** The peer table stays sound: after any sequence of calls to a new
    manager it holds at most [max_peers] peers, each under its own key; and
    evicting stale peers disconnects exactly the connected peers that have
    been silent for more than [peer_timeout_secs], which it returns, and
    changes nothing else. *)
Theorem peer_table_sound `{!HashMapIter} config ops now k :
  let p := foldl peer_exec (PeerManager_new config) ops in
  let '(evicted, p') := evict_stale_peers now p in
  peers_ok p /\ peers_ok p'
  /\ (k ∈ evicted <-> exists c, peers p !! k = Some c /\ is_connected c = true
        /\ peer_timeout_secs (pm_config p) < silence_secs now c)
  /\ peers p' !! k = (if bool_decide (k ∈ evicted) then set_connected false else id) <$> peers p !! k.
Proof.
  intros p. assert (Hp : peers_ok p).
  { assert (H0 : peers_ok (PeerManager_new config)).
    { split; simpl; [intros ? ?; by rewrite lookup_empty|]. rewrite map_size_empty. lia. }
    subst p. revert H0. generalize (PeerManager_new config). induction ops as [|op ops IH]; intros q Hq; simpl; [done|].
    by apply IH, peer_exec_ok. }
  unfold evict_stale_peers. split; [done|]. split; [by apply foldl_disconnect_ok|].
  split; [|apply foldl_disconnect_lookup]. unfold stale. rewrite list_elem_of_fmap. split.
  - intros ([k' c] & -> & [[Hc Hs] Hin]%list_elem_of_filter). exists c. split; [|done].
    rewrite hm_iter_perm in Hin. by apply elem_of_map_to_list.
  - intros (c & Hc & Hcon & Hs). exists (k, c). split; [done|]. apply list_elem_of_filter. split; [done|].
    rewrite hm_iter_perm. by apply elem_of_map_to_list.
Qed.

(** ** Requests in flight *)

Record sync_ok (s : BlockSyncer) : Prop := {
  so_pending : forall h r, pending s !! h = Some r ->
    ps_height r = h /\ 1 <= attempts r <= max_retries s /\ h ∉ completed s;
  so_size : Z.of_nat (size (pending s)) <= Z.max 0 (max_sync_requests (bs_config s));
  so_retries : 1 <= max_retries s <= u32_max
}.

(** what a call leaves alone *)
Record same_sync (s s' : BlockSyncer) : Prop := {
  ss_config : bs_config s' = bs_config s;
  ss_completed : completed s' = completed s;
  ss_retries : max_retries s' = max_retries s;
  ss_peers : bs_peers s' = bs_peers s
}.

Section sync_props.
Context {V : Type} `{!HashMapIter} (ser : ConsensusNetMessage V -> option (list Byte.byte)).
Implicit Types (s : BlockSyncer).

Lemma send_request_Ok w h n s s' : send_request ser w h n s = Ok s' ->
  same_sync s s' /\ exists r, pending s' = <[h := r]> (pending s) /\ ps_height r = h /\ attempts r = n
    /\ sent_at r = now_at w.
Proof.
  unfold send_request. destruct (pick_peer w s) as [t|]; [|done]. simpl.
  destruct (send_message _ _ _ _ _); [|done]. simpl. intros [= <-]. split; [done|]. eauto.
Qed.

Lemma request_heights_ok world hs : forall n s, sync_ok s ->
  let s' := (request_heights ser world hs n s).2 in sync_ok s' /\ same_sync s s'.
Proof.
  induction hs as [|h hs IH]; intros n s Hs; simpl; [done|].
  case_bool_decide as Hc; [by apply IH|]. case_bool_decide as Hp; [by apply IH|]. simpl.
  destruct (Z.leb_spec (max_sync_requests (bs_config s)) (Z.of_nat (size (pending s)))); [done|].
  unfold dispatch_request. destruct (send_request ser (world h) h 1 s) as [s1|] eqn:E; [|by apply IH].
  apply send_request_Ok in E as ([Ec Eco Er Ep] & r & Hr & Hh & Ha & _). destruct Hs as [H1 H2 H3].
  assert (Hs1 : sync_ok s1).
  { split; rewrite ?Hr, ?Ec, ?Eco, ?Er; [|rewrite map_size_insert_None by (by apply eq_None_not_Some); lia|done].
    intros h' r' [[<- <-]|[_ Hr']]%lookup_insert_Some; [|by apply H1]. split; [done|]. split; [lia|done]. }
  destruct (IH (saturating_add u64_max n 1) s1 Hs1) as [Hok [Ec' Eco' Er' Ep']]. split; [done|]. split; congruence.
Qed.

(** the fate of the requests that timed out *)
Record retried (world : Z -> Outside) (l : list PendingSyncRequest) (s s' : BlockSyncer) (failed : list Z) : Prop := {
  rt_same : same_sync s s';
  rt_other : forall h, h ∉ (ps_height <$> l) -> pending s' !! h = pending s !! h;
  rt_size : (size (pending s') <= size (pending s))%nat;
  rt_failed : forall h, h ∈ failed -> h ∈ (ps_height <$> l);
  rt_fate : forall r, r ∈ l ->
    (ps_height r ∈ failed /\ pending s' !! ps_height r = None)
    \/ (attempts r < max_retries s /\ ps_height r ∉ failed
        /\ exists r', pending s' !! ps_height r = Some r' /\ ps_height r' = ps_height r
           /\ attempts r' = saturating_add u32_max (attempts r) 1 /\ sent_at r' = now_at (world (ps_height r)))
}.

(** one request: it is gone, and reported, or sent again *)
Lemma retry_one_cases world failed s r : pending s !! ps_height r = Some r ->
  exists s' add, retry_one ser world (failed, s) r = (failed ++ add, s') /\ retried world [r] s s' add.
Proof.
  intros Hr. unfold retry_one. set (s0 := with_pending (delete (ps_height r) (pending s)) s).
  assert (Hsize : size (pending s) = S (size (delete (ps_height r) (pending s)))).
  { rewrite map_size_delete_Some by (by rewrite Hr). pose proof (map_size_ne_0_lookup_2 (pending s)).
    assert (size (pending s) <> 0%nat) by (eapply map_size_ne_0_lookup_2; by rewrite Hr). lia. }
  assert (Hgone : retried world [r] s s0 [ps_height r]).
  { split; simpl; [done| |lia|done|].
    - intros h Hh. rewrite lookup_delete_ne; [done|]. intros <-. apply Hh. by left.
    - intros r' ->%list_elem_of_singleton. left. split; [by left|apply lookup_delete_eq]. }
  destruct (Z.leb_spec (max_retries s0) (attempts r)) as [Hm|Hm]; [by eexists _, _|].
  destruct (send_request ser _ _ _ s0) as [s1|] eqn:E; [|by eexists _, _].
  exists s1, []. rewrite app_nil_r. split; [done|].
  apply send_request_Ok in E as ([Ec Eco Er Ep] & r' & Hp & Hh & Ha & Ht).
  split; [by split| | |by intros h ?%not_elem_of_nil|].
  - intros h Hn. rewrite Hp, lookup_insert_ne; [simpl; rewrite lookup_delete_ne; [done|]|];
      intros <-; apply Hn; by left.
  - rewrite Hp, map_size_insert_None by apply lookup_delete_eq. simpl. lia.
  - intros x ->%list_elem_of_singleton. right. split; [done|]. split; [by intros ?%not_elem_of_nil|].
    exists r'. rewrite Hp, lookup_insert_eq. done.
Qed.

Lemma retry_fold world l : forall failed s, NoDup (ps_height <$> l) ->
  Forall (fun r => pending s !! ps_height r = Some r) l ->
  exists s' add, foldl (retry_one ser world) (failed, s) l = (failed ++ add, s') /\ retried world l s s' add.
Proof.
  induction l as [|r l IH]; intros failed s Hn Hf.
  { exists s, []. rewrite app_nil_r. split; [done|]. split; [done|done|done|by intros h ?%not_elem_of_nil|].
    by intros r ?%not_elem_of_nil. }
  apply NoDup_cons in Hn as [Hr Hn]. apply Forall_cons in Hf as [Hp Hf].
  destruct (retry_one_cases world failed s r Hp) as (s1 & add1 & E1 & R1). cbn [foldl]. rewrite E1.
  destruct R1 as [[Sc Sd Sr Sp] Ho Hsz Hfl Hfate].
  assert (Hf1 : Forall (fun r => pending s1 !! ps_height r = Some r) l).
  { apply Forall_forall. intros x Hx. rewrite Ho; [by apply (proj1 (Forall_forall _ _) Hf)|].
    intros Hin%list_elem_of_singleton. apply Hr. rewrite <- Hin. by apply list_elem_of_fmap_2. }
  destruct (IH (failed ++ add1) s1 Hn Hf1) as (s2 & add2 & E2 & [[Sc2 Sd2 Sr2 Sp2] Ho2 Hsz2 Hfl2 Hfate2]).
  exists s2, (add1 ++ add2). rewrite app_assoc. split; [done|]. split.
  - split; congruence.
  - intros h Hh. rewrite Ho2, Ho; [done| |]; intros Hin; apply Hh; [|by right].
    apply list_elem_of_singleton in Hin. rewrite Hin. by left.
  - lia.
  - intros h [Hh|Hh]%elem_of_app; [|right; by apply Hfl2]. apply Hfl, list_elem_of_singleton in Hh. rewrite Hh. by left.
  - intros x [->|Hx]%elem_of_cons.
    + assert (Hno2 : ps_height r ∉ add2) by (intros Hin; by apply Hr, Hfl2).
      rewrite Ho2 by done. setoid_rewrite elem_of_app.
      destruct (Hfate r) as [[? ?]|(? & ? & ?)]; [by left| |]; [left; auto|right]. split; [done|]. split; [|done]. naive_solver.
    + assert (Hno1 : ps_height x ∉ add1).
      { intros Hin. apply Hfl, list_elem_of_singleton in Hin. apply Hr. simpl. rewrite <- Hin. by apply list_elem_of_fmap_2. }
      setoid_rewrite elem_of_app. rewrite Sr in Hfate2. destruct (Hfate2 x Hx) as [[? ?]|(? & ? & ?)]; [left; auto|right].
      split; [done|]. split; [|done]. naive_solver.
Qed.

Lemma timed_out_spec now s r : sync_ok s ->
  r ∈ timed_out now s <-> pending s !! ps_height r = Some r
    /\ message_timeout_ms (bs_config s) < elapsed (sent_at r) now / 1000000 mod (u64_max + 1).
Proof.
  intros [Hp _ _]. unfold timed_out. rewrite list_elem_of_filter, list_elem_of_fmap. split.
  - intros [Ht ([h x] & -> & Hin)]. rewrite hm_iter_perm in Hin. apply elem_of_map_to_list in Hin. simpl in *.
    by rewrite (proj1 (Hp _ _ Hin)).
  - intros [Hl Ht]. split; [done|]. exists (ps_height r, r). split; [done|]. rewrite hm_iter_perm.
    by apply elem_of_map_to_list.
Qed.

Lemma timed_out_NoDup now s : sync_ok s -> NoDup (ps_height <$> timed_out now s).
Proof.
  intros [Hp _ _]. unfold timed_out. eapply sublist_NoDup; [|apply fmap_sublist, sublist_filter].
  replace (ps_height <$> map snd (hm_iter (pending s))) with ((hm_iter (pending s)).*1).
  { rewrite hm_iter_perm. apply NoDup_fst_map_to_list. }
  change (map snd (hm_iter (pending s))) with ((hm_iter (pending s)).*2). rewrite <- list_fmap_compose.
  apply list_fmap_ext. intros i [h x] Hx. apply list_elem_of_lookup_2 in Hx. rewrite hm_iter_perm in Hx.
  apply elem_of_map_to_list in Hx. simpl. symmetry. by apply (Hp _ _ Hx).
Qed.

Lemma retry_timed_out_retried world now s : sync_ok s ->
  exists s' failed, retry_timed_out ser world now s = (failed, s') /\ retried world (timed_out now s) s s' failed.
Proof.
  intros Hs. destruct (retry_fold world (timed_out now s) [] s (timed_out_NoDup now s Hs)) as (s' & add & E & R).
  { apply Forall_forall. intros r Hr. by apply timed_out_spec in Hr as [? _]. }
  exists s', add. by split.
Qed.

Lemma retry_timed_out_ok world now s : sync_ok s ->
  let s' := (retry_timed_out ser world now s).2 in sync_ok s' /\ same_sync s s'.
Proof.
  intros Hs. destruct (retry_timed_out_retried world now s Hs) as (s' & failed & -> & [Hsame Ho Hsz Hfl Hfate]).
  split; [|done]. pose proof Hs as [Hp Hz Hr]. destruct Hsame as [Ec Ed Er Epe].
  split; simpl; rewrite ?Ec, ?Er; [|lia|done]. intros h r Hh. rewrite Ed.
  destruct (decide (h ∈ (ps_height <$> timed_out now s))) as [Hin|Hout].
  - apply list_elem_of_fmap in Hin as (r0 & -> & Hr0). destruct (Hfate r0 Hr0) as [[_ Hn]|(Hlt & _ & r' & Hr' & Hh' & Ha & _)].
    + by rewrite Hn in Hh.
    + rewrite Hr' in Hh. injection Hh as <-. apply timed_out_spec in Hr0 as [Hr0 _]; [|done].
      apply Hp in Hr0 as (_ & Ha0 & Hc). split; [done|]. split; [|done]. rewrite Ha. unfold saturating_add. lia.
  - rewrite Ho in Hh by done. by apply Hp.
Qed.

(** a state of a run: nothing was handed on twice, and what was is complete *)
Definition run_ok (acc : list Z * BlockSyncer) : Prop :=
  sync_ok acc.2 /\ NoDup acc.1 /\ (forall h, h ∈ acc.1 <-> h ∈ completed acc.2).

Lemma sync_exec_ok op acc : run_ok acc -> run_ok (sync_exec ser op acc).
Proof.
  destruct acc as [handed s]. intros (Hs & Hn & Hc). simpl in *. destruct op as [world from to|h b|world now|p]; simpl.
  - destruct (request_heights_ok world (seqZ from (to - from + 1)) 0 s Hs) as [Hs' [_ Ed _ _]].
    split; [done|]. split; [done|]. intros h. simpl. unfold request_range. by rewrite Ed.
  - unfold handle_response. destruct (pending s !! h) as [r|] eqn:E; simpl; [|done].
    destruct Hs as [Hp Hz Hr]. destruct (Hp _ _ E) as (_ & _ & Hnew). split; [|split]; simpl.
    + split; simpl; [|rewrite map_size_delete_Some by (by rewrite E); lia|done].
      intros h' r' [Hne Hr']%lookup_delete_Some. destruct (Hp _ _ Hr') as (? & ? & ?). split; [done|]. split; [done|]. set_solver.
    + apply NoDup_cons. split; [|done]. by rewrite Hc.
    + intros h'. rewrite elem_of_cons, Hc. set_solver.
  - destruct (retry_timed_out_ok world now s Hs) as [Hs' [_ Ed _ _]]. split; [done|]. split; [done|].
    intros h. simpl. by rewrite Ed.
  - split; [by destruct Hs|]. done.
Qed.
End sync_props.

(** C38. Catch-up is bounded and never repeats itself: after any sequence of
    requests, responses and retries, with peers that come and go and a
    network that loses what it likes, at most [max_sync_requests] requests are
    in flight, each for a height that is not complete and in its fifth attempt
    at most, and the responses handed on are for distinct heights, exactly those
    marked complete (the height of a response, which is not compared with the
    block in it). *)
Theorem sync_bounded {V} `{!HashMapIter} (ser : ConsensusNetMessage V -> option (list Byte.byte)) p config ops :
  let '(handed, s) := sync_run ser ops (BlockSyncer_new p config) in
  Z.of_nat (in_flight s) <= Z.max 0 (max_sync_requests config)
  /\ (forall h r, pending s !! h = Some r -> ps_height r = h /\ 1 <= attempts r <= 5 /\ is_completed h s = false)
  /\ NoDup handed /\ (forall h, h ∈ handed <-> is_completed h s = true).
Proof.
  assert (Hrun : run_ok (sync_run ser ops (BlockSyncer_new p config))
    /\ bs_config (sync_run ser ops (BlockSyncer_new p config)).2 = config
    /\ max_retries (sync_run ser ops (BlockSyncer_new p config)).2 = 5).
  { unfold sync_run. assert (H0 : run_ok ([], BlockSyncer_new p config)
      /\ bs_config (@snd (list Z) _ ([], BlockSyncer_new p config)) = config
      /\ max_retries (@snd (list Z) _ ([], BlockSyncer_new p config)) = 5).
    { split; [|done]. split; [split; simpl; [intros ? ?; by rewrite lookup_empty|rewrite map_size_empty; lia|lia]|].
      split; [by apply NoDup_nil|]. intros h. simpl. rewrite elem_of_empty. by split; [intros ?%not_elem_of_nil|]. }
    revert H0. generalize (([], BlockSyncer_new p config) : list Z * BlockSyncer). induction ops as [|op ops IH];
      intros acc (Hr & Hc & Hm); [done|]. apply IH. split; [by apply sync_exec_ok|].
    destruct acc as [handed s], Hr as [Hs _], op; simpl in *.
    - unfold request_range. destruct (request_heights_ok ser world (seqZ from (to - from + 1)) 0 s Hs) as [_ [-> _ -> _]]. done.
    - unfold handle_response. by destruct (pending s !! h).
    - destruct (retry_timed_out_ok ser world now s Hs) as [_ [-> _ -> _]]. done.
    - done. }
  destruct (sync_run ser ops _) as [handed s]. destruct Hrun as (([Hp Hz Hr] & Hn & Hc) & Hcfg & Hm). simpl in *.
  unfold in_flight, is_completed. rewrite <- Hcfg. split; [done|]. split; [|split; [done|]].
  - intros h r Hh. destruct (Hp h r Hh) as (? & ? & ?). split; [done|]. split; [lia|]. by apply bool_decide_false.
  - intros h. by rewrite bool_decide_eq_true.
Qed.

(** A retry treats exactly the requests that timed out: each is reported as
    failed and forgotten, or sent again with one more attempt; the others stay
    as they are. *)
Theorem retry_exact {V} `{!HashMapIter} (ser : ConsensusNetMessage V -> option (list Byte.byte)) world now s h r :
  sync_ok s -> pending s !! h = Some r ->
  let '(failed, s') := retry_timed_out ser world now s in
  if message_timeout_ms (bs_config s) <? elapsed (sent_at r) now / 1000000 mod (u64_max + 1)
  then (h ∈ failed /\ pending s' !! h = None)
       \/ (h ∉ failed /\ exists r', pending s' !! h = Some r' /\ attempts r' = attempts r + 1)
  else h ∉ failed /\ pending s' !! h = Some r.
Proof.
  intros Hs Hr. pose proof (so_pending s Hs h r Hr) as (Hh & Ha & _). pose proof (so_retries s Hs).
  destruct (retry_timed_out_retried ser world now s Hs) as (s' & failed & -> & [_ Ho _ Hfl Hfate]).
  destruct (Z.ltb_spec (message_timeout_ms (bs_config s)) (elapsed (sent_at r) now / 1000000 mod (u64_max + 1))) as [Ht|Ht].
  - destruct (Hfate r) as [?|(? & ? & r' & Hr' & _ & Ha' & _)]; [|left; by rewrite <- Hh|right; rewrite <- Hh].
    + apply timed_out_spec; [done|]. by rewrite Hh.
    + split; [done|]. exists r'. split; [done|]. rewrite Ha'. unfold saturating_add. lia.
  - assert (Hout : h ∉ (ps_height <$> timed_out now s)).
    { intros (r0 & E & [Hr0 Ht0]%timed_out_spec)%list_elem_of_fmap; [|done]. rewrite <- E in Hr0.
      rewrite Hr0 in Hr. injection Hr as ->. lia. }
    split; [by intros ?%Hfl|]. by rewrite Ho.
Qed.

(** ** The theorems at concrete inputs *)

Module ConsensusNetExamples.

(** an encoding of heartbeats *)
Definition ser (m : ConsensusNetMessage unit) : option (list Byte.byte) :=
  match m with
  | NHeartbeat k slot => if (0 <=? k) && (k <? 256) && (0 <=? slot) && (slot <? 256)
                         then Some (le_split 1 k ++ le_split 1 slot) else None
  | _ => None
  end.
Definition des (l : list Byte.byte) : option (ConsensusNetMessage unit) :=
  match l with [a; b] => Some (NHeartbeat (le_combine [a]) (le_combine [b])) | _ => None end.

Lemma des_ser m bytes : ser m = Some bytes -> des bytes = Some m.
Proof.
  destruct m as [| | | | | |k slot|]; try discriminate. unfold ser.
  destruct (_ && _) eqn:E; [|discriminate]. rewrite !andb_true_iff in E. breflect.
  intros Hb. assert (Hb' : bytes = le_split 1 k ++ le_split 1 slot) by congruence. rewrite Hb'. clear Hb Hb'.
  assert (Hk : forall z, 0 <= z -> z < 256 -> exists b, le_split 1 z = [b] /\ le_combine [b] = z).
  { intros z ? ?. eexists. split; [reflexivity|].
    transitivity (le_combine (le_split 1 z)); [reflexivity|]. rewrite le_combine_split. apply Z.mod_small.
    change (2 ^ (Z.of_nat 1 * 8)) with 256. lia. }
  destruct (Hk k) as (b1 & -> & E1); [lia|lia|]. destruct (Hk slot) as (b2 & -> & E2); [lia|lia|].
  unfold des. cbn [app]. by rewrite E1, E2.
Qed.

Lemma frames_delivered_witness : exists wire,
  sent_frames ser 100 [NHeartbeat 7 1; NHeartbeat 8 2] wire
  /\ (handle_connection des always_open 1048576 wire).1 = [NHeartbeat 7 1; NHeartbeat 8 2]
  /\ (handle_connection des always_open 1048576 (take 11 wire)).1 = [NHeartbeat 7 1].
Proof.
  eexists. assert (Hs : sent_frames ser 100 [NHeartbeat 7 1; NHeartbeat 8 2]
    (frame [Byte.x07; Byte.x01] ++ frame [Byte.x08; Byte.x02] ++ [])).
  { repeat constructor. }
  split; [exact Hs|]. split; [|vm_compute; reflexivity].
  pose proof (proj1 (frames_delivered ser des 100 1048576 _ _ des_ser ltac:(lia) ltac:(lia) Hs) []) as T.
  rewrite app_nil_r in T. rewrite T. reflexivity.
Defined.

(** the active set need not be a subset of the peers *)
Example active_beyond_peers : exists p, p = update_active_validators {[9]} (PeerManager_new ConsensusNetConfig_default)
  /\ 9 ∈ active_validators p /\ peers p !! 9 = None.
Proof. eexists. split; [reflexivity|]. split; [simpl; set_solver|reflexivity]. Qed.

(** a response with any block, of any slot, completes a pending height *)
Example response_unchecked (s : BlockSyncer) h r b : pending s !! h = Some r ->
  (handle_response h b s).1 = Some b /\ is_completed h (handle_response h b s).2 = true.
Proof.
  intros Hr. unfold handle_response. rewrite Hr. split; [done|]. apply bool_decide_true. simpl. set_solver.
Qed.
End ConsensusNetExamples.
