(* ===== verification/EpochRewards.v ===== *)
(** * Epoch rewards

    Models the staking rewards of an epoch: the flat rate of bank.rs, the
    points and the redemption of inflation_rewards, and the calculation over
    all delegations of partitioned_epoch_rewards/calculation.rs, including the
    parallel accumulation.  The stake interface (how much of a delegation is
    effective in an epoch) is a parameter; a panic is [None].  The theorems:
    what is paid never exceeds what was minted for the epoch, whichever way
    the work is split over threads; points count each credit once; jailed
    validators and their delegators earn nothing. *)

From stdpp Require Import base numbers list option gmap.
From Stdlib Require Import ZArith Lia.
From S2P Require Import Prelude F64 BftTypes Slashing.
Local Open Scope Z_scope.
Local Open Scope trv1_scope.

(** ** Data *)

Record Delegation := {
  voter_pubkey : Pubkey;
  d_stake : Z;
  activation_epoch : Z;
  deactivation_epoch : Z
}.
Record Stake := { delegation : Delegation; credits_observed : Z }.
Inductive StakeStateV2 :=
  | StakeUninitialized
  | StakeInitialized
  | StakeActive (s : Stake)
  | StakeRewardsPool.

(** what the code reads of a vote account: the owner and the balance of the
    account, and its vote state; the credits of an epoch are
    [(epoch, credits at its end, credits at its start)] *)
Record VoteAccount := {
  va_owner : Pubkey;
  va_lamports : Z;
  va_node_pubkey : Pubkey;
  va_commission : Z;
  va_commission_bps : Z;
  va_credits : Z;
  va_epoch_credits : list (Z * Z * Z)
}.

Record PointValue := { pv_rewards : Z; pv_points : Z }.

Record CalculatedStakePoints := {
  points : Z;
  new_credits_observed : Z;
  force_credits_update_with_skipped_reward : bool
}.
Record CalculatedStakeRewards := { staker_rewards : Z; voter_rewards : Z; cr_credits_observed : Z }.

Inductive RedeemError := NoCreditsToRedeem | InvalidAccountData.

Definition wrapping_sub (max a b : Z) : Z := (a - b) mod (max + 1).

(** ** The rewards of an epoch *)

Definition STAKING_RATE : f64 := f64_lit 5 100.

Record EpochInflationRewards := {
  validator_rewards_lamports : Z;
  validator_rate : f64;
  foundation_rate : f64
}.

Definition epoch_duration_in_years (slots_in_epoch : Z) (slots_per_year : f64) : f64 :=
  f64_div (f64_of_Z slots_in_epoch) slots_per_year.

(** [effective]: the entry of the epoch in the stake history *)
Definition calculate_epoch_inflation_rewards (effective : option Z) (slots_in_epoch : Z) (slots_per_year : f64)
    : EpochInflationRewards :=
  let staked_supply := default 0 effective in
  {| validator_rewards_lamports :=
       f64_as_u64 (f64_mul (f64_mul (f64_of_Z staked_supply) STAKING_RATE)
                           (epoch_duration_in_years slots_in_epoch slots_per_year));
     validator_rate := STAKING_RATE; foundation_rate := f64_of_Z 0 |}.

(** ** Commission *)

Definition MAX_BPS : Z := 10000.

(** the products fit in [u128] for every [u64] *)
Definition commission_split (commission_bps on : Z) : Z * Z * bool :=
  let split := Z.min commission_bps MAX_BPS in
  if split =? 0 then (0, on, false)
  else if split =? MAX_BPS then (on, 0, false)
  else (on * split / MAX_BPS, on * (MAX_BPS - split) / MAX_BPS, true).

Section rewards.
(** [Delegation::stake]: the effective stake in an epoch *)
Context (effective_stake : Delegation -> Z -> Z).

(** ** Points *)

Definition earned_credits (credits_in_stake observed final initial : Z) : Z :=
  if credits_in_stake <? initial then wrapping_sub u64_max final initial
  else if credits_in_stake <? final then wrapping_sub u64_max final observed
  else 0.

(** one turn of the loop over the epochs of the vote account *)
Definition add_epoch (s : Stake) (acc : Z * Z) (item : Z * Z * Z) : Z * Z :=
  let '(pts, observed) := acc in
  let '(epoch, final, initial) := item in
  let earned := earned_credits (credits_observed s) observed final initial in
  (wrapping_add u128_max pts (wrapping_mul u128_max (effective_stake (delegation s) epoch) earned),
   Z.max observed final).

Definition calculate_stake_points_and_credits (s : Stake) (v : VoteAccount) : CalculatedStakePoints :=
  match va_credits v ?= credits_observed s with
  | Lt => {| points := 0; new_credits_observed := va_credits v; force_credits_update_with_skipped_reward := true |}
  | Eq => {| points := 0; new_credits_observed := credits_observed s;
             force_credits_update_with_skipped_reward := false |}
  | Gt =>
      let '(pts, observed) := foldl (add_epoch s) (0, credits_observed s) (va_epoch_credits v) in
      {| points := pts; new_credits_observed := observed; force_credits_update_with_skipped_reward := false |}
  end.

Definition calculate_stake_points (s : Stake) (v : VoteAccount) : Z := points (calculate_stake_points_and_credits s v).

Definition calculate_points (st : StakeStateV2) (v : VoteAccount) : result Z RedeemError :=
  match st with
  | StakeActive s => Ok (calculate_stake_points s v)
  | _ => Err InvalidAccountData
  end.

(** ** Redemption *)

Definition calculate_stake_rewards (rewarded_epoch : Z) (s : Stake) (pv : PointValue) (bps : Z) (v : VoteAccount)
    : option (option CalculatedStakeRewards) :=
  let c := calculate_stake_points_and_credits s v in
  let force := if pv_rewards pv =? 0 then true
               else if activation_epoch (delegation s) =? rewarded_epoch then true
               else force_credits_update_with_skipped_reward c in
  if force then
    Some (Some {| staker_rewards := 0; voter_rewards := 0; cr_credits_observed := new_credits_observed c |})
  else if points c =? 0 then Some None
  else if pv_points pv =? 0 then Some None
  else
    product ← checked_mul u128_max (points c) (pv_rewards pv);
    rewards ← try_into_u64 (product / pv_points pv);
    if rewards =? 0 then Some None
    else
      let '(voter, staker, is_split) := commission_split bps rewards in
      if ((voter =? 0) || (staker =? 0)) && is_split then Some None
      else Some (Some {| staker_rewards := staker; voter_rewards := voter;
                         cr_credits_observed := new_credits_observed c |}).

Definition redeem_stake_rewards (rewarded_epoch : Z) (s : Stake) (pv : PointValue) (bps : Z) (v : VoteAccount)
    : option (option (Z * Z * Stake)) :=
  r ← calculate_stake_rewards rewarded_epoch s pv bps v;
  Some (match r with
        | Some c =>
            let d := delegation s in
            Some (staker_rewards c, voter_rewards c,
                  {| delegation := {| voter_pubkey := voter_pubkey d;
                                      d_stake := wrapping_add u64_max (d_stake d) (staker_rewards c);
                                      activation_epoch := activation_epoch d;
                                      deactivation_epoch := deactivation_epoch d |};
                     credits_observed := cr_credits_observed c |})
        | None => None
        end).

Definition redeem_rewards (rewarded_epoch : Z) (st : StakeStateV2) (bps : Z) (v : VoteAccount) (pv : PointValue)
    : option (result (Z * Z * Stake) RedeemError) :=
  match st with
  | StakeActive s =>
      r ← redeem_stake_rewards rewarded_epoch s pv bps v;
      Some (ok_or r NoCreditsToRedeem)
  | _ => Some (Err InvalidAccountData)
  end.

(** ** All delegations *)

Record PartitionedStakeReward := {
  ps_stake_pubkey : Pubkey;
  ps_stake : Stake;
  ps_stake_reward : Z;
  ps_commission_bps : Z
}.
Record RewardCommission := { commission_account : VoteAccount; rc_bps : Z; commission_lamports : Z }.
Record DelegationRewards := {
  dr_stake_reward : PartitionedStakeReward;
  commission_pubkey : Pubkey;
  reward_commission : RewardCommission
}.

Record CachedVoteAccounts := {
  snapshot_epoch_vote_accounts : option (gmap Pubkey VoteAccount);
  rewarded_epoch_vote_accounts : option (gmap Pubkey VoteAccount);
  distribution_epoch_vote_accounts : gmap Pubkey VoteAccount
}.

(** the two features the calculation asks for *)
Record RewardFeatures := { delay_commission_updates : bool; commission_rate_in_basis_points : bool }.

Definition voter_commission (feat : RewardFeatures) (cached : CachedVoteAccounts) (k : Pubkey) (v : VoteAccount) : Z :=
  let v' :=
    if delay_commission_updates feat then
      match (m ← snapshot_epoch_vote_accounts cached; m !! k) with
      | Some v' => v'
      | None => match (m ← rewarded_epoch_vote_accounts cached; m !! k) with Some v' => v' | None => v end
      end
    else v in
  if commission_rate_in_basis_points feat then va_commission_bps v' else va_commission v' * 100.

(** a stake account that passed the filter, or nothing *)
Abbreviation StakeDelegation := (option (Pubkey * StakeStateV2)).

(** stake accounts with a delegation are in the state [Stake] *)
Definition delegation_voter (st : StakeStateV2) : option Pubkey :=
  match st with StakeActive s => Some (voter_pubkey (delegation s)) | _ => None end.

Definition redeem_delegation_rewards (slashing : SlashingState) (feat : RewardFeatures) (cached : CachedVoteAccounts)
    (rewarded_epoch : Z) (pv : PointValue) (stake_pubkey : Pubkey) (st : StakeStateV2) : option (option DelegationRewards) :=
  match (k ← delegation_voter st; v ← distribution_epoch_vote_accounts cached !! k; Some (k, v)) with
  | None => Some None
  | Some (k, v) =>
      if is_jailed_or_banned (va_node_pubkey v) slashing then Some None
      else
        let bps := voter_commission feat cached k v in
        r ← redeem_rewards rewarded_epoch st bps v pv;
        Some (match r with
              | Ok (stake_reward, lamports, stake) =>
                  Some {| dr_stake_reward := {| ps_stake_pubkey := stake_pubkey; ps_stake := stake;
                                                ps_stake_reward := stake_reward; ps_commission_bps := bps |};
                          commission_pubkey := k;
                          reward_commission := {| commission_account := v; rc_bps := bps;
                                                  commission_lamports := lamports |} |}
              | Err _ => None
              end)
  end.

(** ** Accumulation *)

Record RewardsAccumulator := {
  reward_commissions : gmap Pubkey RewardCommission;
  num_stake_rewards : Z;
  total_stake_rewards_lamports : Z
}.
Definition RewardsAccumulator_default : RewardsAccumulator :=
  {| reward_commissions := ∅; num_stake_rewards := 0; total_stake_rewards_lamports := 0 |}.

(** [entry(k).and_modify(add the lamports).or_insert(c)] *)
Definition add_commission (m : gmap Pubkey RewardCommission) (kc : Pubkey * RewardCommission) : gmap Pubkey RewardCommission :=
  let '(k, c) := kc in
  <[k := match m !! k with
         | Some dst => {| commission_account := commission_account dst; rc_bps := rc_bps dst;
                          commission_lamports := saturating_add u64_max (commission_lamports dst) (commission_lamports c) |}
         | None => c
         end]> m.

Definition add_reward (acc : RewardsAccumulator) (k : Pubkey) (c : RewardCommission) (stakers_reward : Z) : RewardsAccumulator :=
  {| reward_commissions := add_commission (reward_commissions acc) (k, c);
     num_stake_rewards := saturating_add u64_max (num_stake_rewards acc) 1;
     total_stake_rewards_lamports := saturating_add u64_max (total_stake_rewards_lamports acc) stakers_reward |}.

Context `{!HashMapIter}.

Definition accumulate_into_larger (a b : RewardsAccumulator) : RewardsAccumulator :=
  let '(dst, src) := if (size (reward_commissions b) <=? size (reward_commissions a))%nat then (a, b) else (b, a) in
  {| reward_commissions := foldl add_commission (reward_commissions dst) (hm_iter (reward_commissions src));
     num_stake_rewards := saturating_add u64_max (num_stake_rewards dst) (num_stake_rewards src);
     total_stake_rewards_lamports :=
       saturating_add u64_max (total_stake_rewards_lamports dst) (total_stake_rewards_lamports src) |}.

(** how the thread pool splits the delegations: sequential folds at the
    leaves, merged in pairs *)
Inductive work (A : Type) := Fold (l : list A) | Merge (w1 w2 : work A).
Arguments Fold {A}. Arguments Merge {A}.

Fixpoint work_items {A} (w : work A) : list A :=
  match w with Fold l => l | Merge w1 w2 => work_items w1 ++ work_items w2 end.

Definition fold_reward (acc : RewardsAccumulator) (r : DelegationRewards) : RewardsAccumulator :=
  add_reward acc (commission_pubkey r) (reward_commission r) (ps_stake_reward (dr_stake_reward r)).

Fixpoint accumulate (w : work DelegationRewards) : RewardsAccumulator :=
  match w with
  | Fold l => foldl fold_reward RewardsAccumulator_default l
  | Merge w1 w2 => accumulate_into_larger (accumulate w1) (accumulate w2)
  end.

(** [AccountSharedData::checked_add_lamports] fails on overflow: the commission is not paid *)
Definition calculate_commission_accounts (m : gmap Pubkey RewardCommission) : list (Pubkey * RewardCommission) * Z :=
  foldl (fun acc kc =>
           match checked_add u64_max (va_lamports (commission_account kc.2)) (commission_lamports kc.2) with
           | Some _ => (acc.1 ++ [kc], wrapping_add u64_max acc.2 (commission_lamports kc.2))
           | None => acc
           end) ([], 0) (hm_iter m).

(** ** The calculation *)

Definition redeem_all (slashing : SlashingState) (feat : RewardFeatures) (cached : CachedVoteAccounts)
    (rewarded_epoch : Z) (pv : PointValue) (ds : list StakeDelegation) : option (list (option DelegationRewards)) :=
  mapM (fun d => match d with
                 | Some (k, st) => redeem_delegation_rewards slashing feat cached rewarded_epoch pv k st
                 | None => Some None
                 end) ds.

Record RewardsCalculation := {
  commission_accounts : list (Pubkey * RewardCommission);
  total_reward_commission_lamports : Z;
  stake_rewards : list (option PartitionedStakeReward);
  num_rewards : Z;
  total_stake_rewards : Z
}.

(** [split]: the way the thread pool splits the rewards *)
Definition calculate_stake_rewards_and_commissions (split : list DelegationRewards -> work DelegationRewards)
    (slashing : SlashingState) (feat : RewardFeatures) (cached : CachedVoteAccounts) (rewarded_epoch : Z)
    (pv : PointValue) (ds : list StakeDelegation) : option RewardsCalculation :=
  rs ← redeem_all slashing feat cached rewarded_epoch pv ds;
  let acc := accumulate (split (omap id rs)) in
  let '(accounts, total) := calculate_commission_accounts (reward_commissions acc) in
  Some {| commission_accounts := accounts; total_reward_commission_lamports := total;
          stake_rewards := map (fmap dr_stake_reward) rs; num_rewards := num_stake_rewards acc;
          total_stake_rewards := total_stake_rewards_lamports acc |}.

Definition delegation_points (vote_program : Pubkey) (cached : CachedVoteAccounts) (d : StakeDelegation) : Z :=
  match d with
  | Some (_, st) =>
      match (k ← delegation_voter st; distribution_epoch_vote_accounts cached !! k) with
      | Some v => if decide (va_owner v = vote_program)
                  then match calculate_points st v with Ok p => p | Err _ => 0 end else 0
      | None => 0
      end
  | None => 0
  end.

Definition calculate_reward_points_partitioned (vote_program : Pubkey) (cached : CachedVoteAccounts) (rewards : Z)
    (ds : list StakeDelegation) : option PointValue :=
  let pts := foldl (wrapping_add u128_max) 0 (map (delegation_points vote_program cached) ds) in
  if 0 <? pts then Some {| pv_rewards := rewards; pv_points := pts |} else None.

(** the result and the point value, or nothing when there are no points *)
Definition calculate_validator_rewards (vote_program : Pubkey) (split : list DelegationRewards -> work DelegationRewards)
    (slashing : SlashingState) (feat : RewardFeatures) (cached : CachedVoteAccounts) (rewarded_epoch rewards : Z)
    (ds : list StakeDelegation) : option (option (RewardsCalculation * PointValue)) :=
  match calculate_reward_points_partitioned vote_program cached rewards ds with
  | Some pv =>
      r ← calculate_stake_rewards_and_commissions split slashing feat cached rewarded_epoch pv ds;
      Some (Some (r, pv))
  | None => Some None
  end.
End rewards.
Arguments Fold {A}. Arguments Merge {A}.

(** ** Points count each credit once *)

(** the history of a vote account: epochs in order, credits that only grow *)
Fixpoint history_from (c : Z) (l : list (Z * Z * Z)) : Prop :=
  match l with
  | [] => True
  | (_, final, initial) :: l' => c <= initial <= final /\ final <= u64_max /\ history_from final l'
  end.
Definition history_ok (v : VoteAccount) : Prop := history_from 0 (va_epoch_credits v).

Section points.
Context (effective_stake : Delegation -> Z -> Z).

(** the credits of an epoch after [observed] *)
Definition new_credits (observed : Z) (item : Z * Z * Z) : Z :=
  let '(_, final, initial) := item in Z.max 0 (final - Z.max initial observed).

(** the points of a history: stake times credits not yet observed *)
Definition points_after (d : Delegation) (observed : Z) (l : list (Z * Z * Z)) : Z :=
  zsum (map (fun item => effective_stake d item.1.1 * new_credits observed item) l).

Definition last_credits (observed : Z) (l : list (Z * Z * Z)) : Z := foldl (fun o item => Z.max o item.1.2) observed l.

Lemma earned_credits_exact obs seen final initial :
  0 <= obs -> seen <= initial -> 0 <= initial <= final -> final <= u64_max ->
  earned_credits obs (Z.max obs seen) final initial = Z.max 0 (final - Z.max initial obs).
Proof.
  intros H1 H2 H3 H4. unfold earned_credits, wrapping_sub.
  destruct (Z.ltb_spec obs initial); [rewrite Z.mod_small; lia|].
  destruct (Z.ltb_spec obs final); [rewrite Z.mod_small; lia|lia].
Qed.

Lemma points_after_nonneg d obs l : (forall e, 0 <= effective_stake d e) -> 0 <= points_after d obs l.
Proof.
  intros Hd. unfold points_after. apply zsum_nonneg, Forall_map, Forall_true. intros [[e f] i]. simpl.
  specialize (Hd e). nia.
Qed.

Lemma points_after_cons d obs item l :
  points_after d obs (item :: l) = effective_stake d item.1.1 * new_credits obs item + points_after d obs l.
Proof. done. Qed.

Lemma add_epoch_fold s l : (forall e, 0 <= effective_stake (delegation s) e) -> 0 <= credits_observed s ->
  forall c pts, history_from c l -> 0 <= c -> 0 <= pts ->
  pts + points_after (delegation s) (credits_observed s) l <= u128_max ->
  foldl (add_epoch effective_stake s) (pts, Z.max (credits_observed s) c) l
  = (pts + points_after (delegation s) (credits_observed s) l, last_credits (Z.max (credits_observed s) c) l).
Proof.
  intros Hd Ho. induction l as [|[[e f] i] l IH]; intros c pts Hh Hc Hp Hb.
  - unfold points_after. simpl. by rewrite Z.add_0_r.
  - destruct Hh as (Hi & Hf & Hh). rewrite points_after_cons in Hb |- *. cbn [fst snd new_credits] in Hb |- *.
    pose proof (points_after_nonneg (delegation s) (credits_observed s) l Hd) as Hn.
    cbn [foldl]. unfold add_epoch at 2. rewrite earned_credits_exact by lia. specialize (Hd e).
    assert (Hx : 0 <= effective_stake (delegation s) e * Z.max 0 (f - Z.max i (credits_observed s))) by nia.
    set (x := effective_stake (delegation s) e * Z.max 0 (f - Z.max i (credits_observed s))) in *.
    unfold wrapping_mul, wrapping_add. fold x. rewrite (Z.mod_small x) by lia. rewrite Z.mod_small by lia.
    replace (Z.max (Z.max (credits_observed s) c) f) with (Z.max (credits_observed s) f) by lia.
    rewrite (IH f) by (done || lia). unfold last_credits. cbn [foldl fst snd].
    replace (Z.max (Z.max (credits_observed s) c) f) with (Z.max (credits_observed s) f) by lia. f_equal. lia.
Qed.

Lemma last_credits_ge obs l : obs <= last_credits obs l /\ Forall (fun item => item.1.2 <= last_credits obs l) l.
Proof.
  unfold last_credits. revert obs. induction l as [|x l IH]; intros obs; simpl; [by split|].
  destruct (IH (Z.max obs x.1.2)) as [H1 H2]. split; [lia|]. constructor; [lia|done].
Qed.

Lemma points_after_zero d obs l : Forall (fun item => item.1.2 <= obs) l -> points_after d obs l = 0.
Proof.
  unfold points_after. induction 1 as [|[[e f] i] l Hx Hl IH]; simpl in *; [done|].
  rewrite IH. replace (Z.max 0 (f - Z.max i obs)) with 0 by lia. lia.
Qed.

Lemma calculate_points_exact s v : history_ok v -> 0 <= credits_observed s ->
  (forall e, 0 <= effective_stake (delegation s) e) ->
  points_after (delegation s) (credits_observed s) (va_epoch_credits v) <= u128_max ->
  calculate_stake_points effective_stake s v
    = (if credits_observed s <? va_credits v
       then points_after (delegation s) (credits_observed s) (va_epoch_credits v) else 0)
  /\ (credits_observed s < va_credits v ->
      new_credits_observed (calculate_stake_points_and_credits effective_stake s v)
      = last_credits (credits_observed s) (va_epoch_credits v)).
Proof.
  intros Hh Ho Hd Hb. unfold calculate_stake_points, calculate_stake_points_and_credits.
  pose proof (add_epoch_fold s (va_epoch_credits v) Hd Ho 0 0 Hh ltac:(lia) ltac:(lia) Hb) as Hf.
  rewrite Z.max_l in Hf by lia.
  destruct (Z.compare_spec (va_credits v) (credits_observed s)).
  - rewrite (proj2 (Z.ltb_ge _ _)) by lia. split; [done|lia].
  - rewrite (proj2 (Z.ltb_ge _ _)) by lia. split; [done|lia].
  - rewrite (proj2 (Z.ltb_lt _ _)) by lia. rewrite Hf. split; [simpl; lia|done].
Qed.
End points.

(** a stake that has observed the credits has no points left *)
Lemma no_points_again effective_stake (s : Stake) (v : VoteAccount) d :
  history_ok v -> 0 <= credits_observed s -> (forall e, 0 <= effective_stake (delegation s) e) ->
  points_after effective_stake (delegation s) (credits_observed s) (va_epoch_credits v) <= u128_max ->
  (forall e, 0 <= effective_stake d e) ->
  calculate_stake_points effective_stake
    {| delegation := d;
       credits_observed := new_credits_observed (calculate_stake_points_and_credits effective_stake s v) |} v = 0.
Proof.
  intros Hh Ho Hd Hb Hd'. destruct (calculate_points_exact effective_stake s v Hh Ho Hd Hb) as [_ Hn].
  destruct (Z.lt_trichotomy (credits_observed s) (va_credits v)) as [Hlt|[Heq|Hgt]].
  - rewrite Hn by done. destruct (last_credits_ge (credits_observed s) (va_epoch_credits v)) as [Hge Hall].
    pose proof (points_after_zero effective_stake d _ _ Hall) as Hz.
    destruct (calculate_points_exact effective_stake
      {| delegation := d; credits_observed := last_credits (credits_observed s) (va_epoch_credits v) |} v Hh) as [-> _];
      cbn [credits_observed delegation]; [lia|done|by rewrite Hz|]. rewrite Hz. by case_if.
  - unfold calculate_stake_points, calculate_stake_points_and_credits at 2. rewrite Heq, Z.compare_refl. simpl.
    unfold calculate_stake_points_and_credits. simpl. by rewrite <- Heq, Z.compare_refl.
  - unfold calculate_stake_points, calculate_stake_points_and_credits at 2.
    rewrite (proj2 (Z.compare_lt_iff _ _)) by lia. simpl. unfold calculate_stake_points_and_credits. simpl.
    by rewrite Z.compare_refl.
Qed.

(** Points count each credit once: for a vote account whose credits only
    grow, the points of a stake are the sum over the epochs of its effective
    stake times the credits earned since the stake last observed them,
    although the code keeps a running maximum in the same loop; and once the
    stake has observed the new credits the same vote account yields no more
    points. *)
Theorem points_exact effective_stake (s : Stake) (v : VoteAccount) :
  history_ok v -> 0 <= credits_observed s -> (forall e, 0 <= effective_stake (delegation s) e) ->
  points_after effective_stake (delegation s) (credits_observed s) (va_epoch_credits v) <= u128_max ->
  calculate_stake_points effective_stake s v
    = (if credits_observed s <? va_credits v
       then points_after effective_stake (delegation s) (credits_observed s) (va_epoch_credits v) else 0)
  /\ forall d, (forall e, 0 <= effective_stake d e) ->
     calculate_stake_points effective_stake
       {| delegation := d;
          credits_observed := new_credits_observed (calculate_stake_points_and_credits effective_stake s v) |} v = 0.
Proof.
  intros Hh Ho Hd Hb. split; [by apply calculate_points_exact|]. intros d Hd'. by apply no_points_again.
Qed.

(** ** Splitting the work *)

(** what a delegation pays: within the width of lamports *)
Definition reward_ok (r : DelegationRewards) : Prop :=
  0 <= ps_stake_reward (dr_stake_reward r) /\ 0 <= commission_lamports (reward_commission r) <= u64_max.

(** the account and the rate of a commission depend on its key only *)
Definition consistent (f : Pubkey -> VoteAccount * Z) (r : DelegationRewards) : Prop :=
  commission_account (reward_commission r) = (f (commission_pubkey r)).1
  /\ rc_bps (reward_commission r) = (f (commission_pubkey r)).2.

Definition stakers_total (l : list DelegationRewards) : Z := zsum (map (fun r => ps_stake_reward (dr_stake_reward r)) l).
Definition commission_of (k : Pubkey) (r : DelegationRewards) : Z :=
  if decide (commission_pubkey r = k) then commission_lamports (reward_commission r) else 0.

(** the commissions of a list of rewards, one per key *)
Definition commission_at (f : Pubkey -> VoteAccount * Z) (l : list DelegationRewards) (k : Pubkey) : option RewardCommission :=
  if decide (k ∈ map commission_pubkey l) then
    Some {| commission_account := (f k).1; rc_bps := (f k).2;
            commission_lamports := Z.min u64_max (zsum (map (commission_of k) l)) |}
  else None.

Record represents (f : Pubkey -> VoteAccount * Z) (acc : RewardsAccumulator) (l : list DelegationRewards) : Prop := {
  rp_commissions : forall k, reward_commissions acc !! k = commission_at f l k;
  rp_num : num_stake_rewards acc = Z.min u64_max (Z.of_nat (length l));
  rp_total : total_stake_rewards_lamports acc = Z.min u64_max (stakers_total l)
}.

Lemma commission_sum_nonneg k l : Forall reward_ok l -> 0 <= zsum (map (commission_of k) l).
Proof.
  intros Hl. apply zsum_nonneg, Forall_map. eapply Forall_impl; [exact Hl|]. intros r [_ Hr]. unfold commission_of. simpl.
  case_decide; lia.
Qed.

Lemma commission_sum_absent k l : k ∉ map commission_pubkey l -> zsum (map (commission_of k) l) = 0.
Proof.
  induction l as [|r l IH]; simpl; [done|]. intros [H1 H2]%not_elem_of_cons. rewrite IH by done.
  unfold commission_of. rewrite decide_False by done. done.
Qed.

Lemma stakers_total_nonneg l : Forall reward_ok l -> 0 <= stakers_total l.
Proof. intros Hl. apply zsum_nonneg, Forall_map. eapply Forall_impl; [exact Hl|]. by intros r [Hr _]. Qed.

Lemma add_commission_lookup m k c k' : add_commission m (k, c) !! k'
  = if decide (k' = k)
    then Some (match m !! k with
               | Some dst => {| commission_account := commission_account dst; rc_bps := rc_bps dst;
                                commission_lamports := saturating_add u64_max (commission_lamports dst) (commission_lamports c) |}
               | None => c
               end)
    else m !! k'.
Proof. unfold add_commission. case_decide as Hk; [subst; by rewrite lookup_insert_eq|by rewrite lookup_insert_ne]. Qed.

Lemma represents_fold f acc l r : Forall reward_ok l -> reward_ok r -> consistent f r ->
  represents f acc l -> represents f (fold_reward acc r) (l ++ [r]).
Proof.
  intros Hl Hr [Hc1 Hc2] [H1 H2 H3]. pose proof Hr as [Hr1 Hr2].
  split; unfold fold_reward, add_reward; cbn [reward_commissions num_stake_rewards total_stake_rewards_lamports].
  - intros k. rewrite add_commission_lookup. unfold commission_at. rewrite map_app, map_app, zsum_app. cbn [map zsum foldr].
    pose proof (commission_sum_nonneg k l Hl) as Hn. unfold commission_of at 2. rewrite H1. unfold commission_at.
    destruct (decide (k = commission_pubkey r)) as [->|Hne].
    + rewrite (decide_True (P := commission_pubkey r = commission_pubkey r)) by done.
      rewrite (decide_True (P := commission_pubkey r ∈ _ ++ _)) by (apply elem_of_app; right; by left).
      case_decide as Hin; f_equal; simpl.
      * f_equal. unfold saturating_add. lia.
      * rewrite (commission_sum_absent _ l Hin). destruct (reward_commission r) as [ca bps lam] eqn:E. simpl in *.
        rewrite Hc1, Hc2. f_equal. lia.
    + rewrite (decide_False (P := commission_pubkey r = k)) by done. rewrite H1. unfold commission_at.
      replace (zsum (map (commission_of k) l) + (0 + 0)) with (zsum (map (commission_of k) l)) by lia.
      apply decide_ext. rewrite elem_of_app, list_elem_of_singleton. naive_solver.
  - rewrite H2, length_app. unfold saturating_add. simpl. lia.
  - rewrite H3. unfold stakers_total. rewrite map_app, zsum_app. unfold saturating_add. simpl.
    pose proof (stakers_total_nonneg l Hl). unfold stakers_total in *. lia.
Qed.

Lemma represents_foldl f l : forall acc l0, Forall reward_ok l0 -> Forall reward_ok l -> Forall (consistent f) l ->
  represents f acc l0 -> represents f (foldl fold_reward acc l) (l0 ++ l).
Proof.
  induction l as [|r l IH]; intros acc l0 H0 Hl Hc Hr; simpl; [by rewrite app_nil_r|].
  apply Forall_cons in Hl as [Hr1 Hl], Hc as [Hc1 Hc].
  rewrite cons_middle, app_assoc. apply IH; [by apply Forall_app_2; [|constructor]|done|done|]. by apply represents_fold.
Qed.

Section merging.
Context `{!HashMapIter}.

Lemma foldl_add_commission l : forall m k, NoDup l.*1 ->
  foldl add_commission m l !! k
  = match (list_to_map l : gmap Pubkey RewardCommission) !! k with
    | Some c => add_commission m (k, c) !! k
    | None => m !! k
    end.
Proof.
  induction l as [|[k0 c0] l IH]; intros m k Hn; cbn [foldl]; [done|]. apply NoDup_cons in Hn as [Hk0 Hn].
  rewrite IH by done. rewrite !add_commission_lookup. cbn [list_to_map foldr fst snd].
  assert (Hnone : (list_to_map l : gmap Pubkey RewardCommission) !! k0 = None) by (by apply not_elem_of_list_to_map_1).
  destruct (decide (k = k0)) as [->|Hne].
  - rewrite Hnone, lookup_insert_eq, add_commission_lookup. by rewrite !decide_True by done.
  - rewrite lookup_insert_ne by done. destruct (_ !! k) as [c|] eqn:E; [|done].
    rewrite !add_commission_lookup. rewrite !(decide_True (P := k = k)) by done. by rewrite decide_False by done.
Qed.

Lemma foldl_hm_iter m m' k : foldl add_commission m (hm_iter m') !! k
  = match m' !! k with Some c => add_commission m (k, c) !! k | None => m !! k end.
Proof.
  assert (Hn : NoDup (hm_iter m').*1) by (rewrite hm_iter_perm; apply NoDup_fst_map_to_list).
  rewrite foldl_add_commission by done.
  rewrite (list_to_map_proper (hm_iter m') (map_to_list m')) by (done || apply hm_iter_perm).
  by rewrite list_to_map_to_list.
Qed.

Lemma represents_perm f acc l l' : l ≡ₚ l' -> represents f acc l -> represents f acc l'.
Proof.
  intros Hp [H1 H2 H3]. split.
  - intros k. rewrite H1. unfold commission_at. rewrite (zsum_perm _ (map (commission_of k) l')) by (by apply Permutation_map).
    apply decide_ext. by rewrite Hp.
  - by rewrite <- Hp.
  - rewrite H3. unfold stakers_total. by rewrite (zsum_perm _ _ (Permutation_map _ Hp)).
Qed.

(** merging one accumulator into another *)
Lemma represents_merge f a b l1 l2 : Forall reward_ok l1 -> Forall reward_ok l2 ->
  represents f a l1 -> represents f b l2 ->
  represents f {| reward_commissions := foldl add_commission (reward_commissions a) (hm_iter (reward_commissions b));
                  num_stake_rewards := saturating_add u64_max (num_stake_rewards a) (num_stake_rewards b);
                  total_stake_rewards_lamports :=
                    saturating_add u64_max (total_stake_rewards_lamports a) (total_stake_rewards_lamports b) |} (l1 ++ l2).
Proof.
  intros Hl1 Hl2 [A1 A2 A3] [B1 B2 B3]. split; cbn [reward_commissions num_stake_rewards total_stake_rewards_lamports].
  - intros k. rewrite foldl_hm_iter, B1, A1. unfold commission_at.
    pose proof (commission_sum_nonneg k l1 Hl1). pose proof (commission_sum_nonneg k l2 Hl2).
    rewrite !map_app, zsum_app.
    destruct (decide (k ∈ map commission_pubkey l2)) as [Hd2|Hd2], (decide (k ∈ map commission_pubkey l1)) as [Hd1|Hd1];
      rewrite ?add_commission_lookup, ?A1; unfold commission_at; rewrite ?(decide_True (P := k = k)) by done.
    + rewrite (decide_True (P := k ∈ _ ++ _)) by (apply elem_of_app; by left). rewrite decide_True by done. f_equal. simpl.
      f_equal. unfold saturating_add. lia.
    + rewrite (decide_True (P := k ∈ _ ++ _)) by (apply elem_of_app; by right). rewrite decide_False by done. f_equal. f_equal.
      rewrite (commission_sum_absent k l1) by done. lia.
    + rewrite (decide_True (P := k ∈ _ ++ _)) by (apply elem_of_app; by left). f_equal. f_equal.
      rewrite (commission_sum_absent k l2) by done. lia.
    + rewrite decide_False; [done|]. by intros [?|?]%elem_of_app.
  - rewrite A2, B2, length_app. unfold saturating_add. lia.
  - rewrite A3, B3. unfold stakers_total. rewrite map_app, zsum_app. unfold saturating_add.
    pose proof (stakers_total_nonneg l1 Hl1). pose proof (stakers_total_nonneg l2 Hl2). unfold stakers_total in *. lia.
Qed.

Lemma accumulate_represents f w : Forall reward_ok (work_items w) -> Forall (consistent f) (work_items w) ->
  represents f (accumulate w) (work_items w).
Proof.
  induction w as [l|w1 IH1 w2 IH2]; cbn [work_items accumulate].
  - intros Hl Hc. apply (represents_foldl f l RewardsAccumulator_default []); [done|done|done|].
    split; [intros k; unfold commission_at; by rewrite decide_False by apply not_elem_of_nil|done|done].
  - intros [H1 H2]%Forall_app [C1 C2]%Forall_app. specialize (IH1 H1 C1). specialize (IH2 H2 C2).
    unfold accumulate_into_larger. case_if; [by apply represents_merge|].
    apply (represents_perm f _ (work_items w2 ++ work_items w1)); [apply Permutation_app_comm|]. by apply represents_merge.
Qed.

Lemma represents_eq f a b l : represents f a l -> represents f b l -> a = b.
Proof.
  intros [A1 A2 A3] [B1 B2 B3]. destruct a as [ma na ta], b as [mb nb tb]. simpl in *.
  f_equal; [|congruence..]. apply map_eq. intros k. by rewrite A1, B1.
Qed.
End merging.

(** C26. The split of the work does not matter: whichever way the thread pool
    divides the rewards into folds and merges them, larger map first, and in
    whatever order the maps are iterated, the accumulated commissions, count
    and total are those of one sequential fold. *)
Theorem split_independent (I1 I2 : HashMapIter) f (w : work DelegationRewards) (l : list DelegationRewards) :
  Forall reward_ok l -> Forall (consistent f) l -> work_items w ≡ₚ l ->
  @accumulate I1 w = @accumulate I2 (Fold l).
Proof.
  intros Hr Hc Hp. apply (represents_eq f _ _ l).
  - apply (represents_perm f _ (work_items w)); [done|]. apply accumulate_represents; by rewrite Hp.
  - by apply (@accumulate_represents I2 f (Fold l)).
Qed.

(** ** What is paid stays within the pot *)

Lemma commission_split_bound bps on : 0 <= bps -> 0 <= on ->
  let '(voter, staker, _) := commission_split bps on in 0 <= voter /\ 0 <= staker /\ voter + staker <= on.
Proof.
  intros Hb Ho. unfold commission_split, MAX_BPS. case_if; [lia|]. case_if; [lia|].
  assert (Hs : 0 <= Z.min bps 10000 <= 10000) by lia. set (x := Z.min bps 10000) in *.
  pose proof (Z.mul_div_le (on * x) 10000 ltac:(lia)). pose proof (Z.mul_div_le (on * (10000 - x)) 10000 ltac:(lia)).
  assert (0 <= on * x / 10000) by (apply Z.div_pos; nia). assert (0 <= on * (10000 - x) / 10000) by (apply Z.div_pos; nia).
  lia.
Qed.

Definition vote_account_ok (v : VoteAccount) : Prop := 0 <= va_commission v /\ 0 <= va_commission_bps v.

(** the vote accounts are owned by the vote program *)
Record cached_ok (vote_program : Pubkey) (cached : CachedVoteAccounts) : Prop := {
  co_owner : forall k v, distribution_epoch_vote_accounts cached !! k = Some v -> va_owner v = vote_program;
  co_distribution : forall k v, distribution_epoch_vote_accounts cached !! k = Some v -> vote_account_ok v;
  co_snapshot : forall m k v, snapshot_epoch_vote_accounts cached = Some m -> m !! k = Some v -> vote_account_ok v;
  co_rewarded : forall m k v, rewarded_epoch_vote_accounts cached = Some m -> m !! k = Some v -> vote_account_ok v
}.

Lemma voter_commission_nonneg vp feat cached k v : cached_ok vp cached ->
  distribution_epoch_vote_accounts cached !! k = Some v -> 0 <= voter_commission feat cached k v.
Proof.
  intros [_ Hd Hs Hr] Hv. unfold voter_commission.
  assert (H0 : forall v', vote_account_ok v' ->
    0 <= (if commission_rate_in_basis_points feat then va_commission_bps v' else va_commission v' * 100)).
  { intros v' [? ?]. case_if; lia. }
  apply H0. case_if; [|by eapply Hd].
  destruct (snapshot_epoch_vote_accounts cached) as [m|] eqn:Em; cbn [mbind option_bind];
    [destruct (m !! k) eqn:E; [by eapply Hs|]|];
    (destruct (rewarded_epoch_vote_accounts cached) as [m'|] eqn:Em'; cbn [mbind option_bind];
      [destruct (m' !! k) eqn:E'; [by eapply Hr|]|]; by eapply Hd).
Qed.

Section pot.
Context (effective_stake : Delegation -> Z -> Z).

Lemma calculate_stake_points_nonneg s v : 0 <= calculate_stake_points effective_stake s v.
Proof.
  unfold calculate_stake_points, calculate_stake_points_and_credits. destruct (_ ?= _); [done|done|].
  assert (Hf : forall l acc, 0 <= acc.1 -> 0 <= (foldl (add_epoch effective_stake s) acc l).1).
  { induction l as [|[[e f] i] l IH]; intros [pts obs] Ha; [done|]. cbn [foldl]. apply IH. simpl.
    unfold wrapping_add. apply Z.mod_pos_bound. lia. }
  specialize (Hf (va_epoch_credits v) (0, credits_observed s) ltac:(done)). by destruct (foldl _ _ _).
Qed.

Lemma calculate_stake_rewards_bound epoch s pv bps v :
  0 <= bps -> 0 < pv_points pv -> calculate_stake_points effective_stake s v <= pv_points pv ->
  0 <= pv_rewards pv <= u64_max -> calculate_stake_points effective_stake s v * pv_rewards pv <= u128_max ->
  exists r, calculate_stake_rewards effective_stake epoch s pv bps v = Some r
  /\ match r with
     | Some c => 0 <= staker_rewards c /\ 0 <= voter_rewards c <= u64_max
         /\ staker_rewards c + voter_rewards c <= calculate_stake_points effective_stake s v * pv_rewards pv / pv_points pv
     | None => True
     end.
Proof.
  intros Hb HP Hp HR Hm. pose proof (calculate_stake_points_nonneg s v) as Hn.
  unfold calculate_stake_rewards. change (points (calculate_stake_points_and_credits effective_stake s v))
    with (calculate_stake_points effective_stake s v). set (p := calculate_stake_points effective_stake s v) in *.
  assert (Hq : 0 <= p * pv_rewards pv / pv_points pv) by (apply Z.div_pos; nia).
  case_if; [eexists; split; [done|]; simpl; lia|]. case_if; [by eexists|]. case_if; [by eexists|].
  unfold checked_mul. rewrite (proj2 (Z.leb_le _ _)) by lia. cbn [mbind option_bind].
  assert (Hle : p * pv_rewards pv / pv_points pv <= pv_rewards pv) by (apply Z.div_le_upper_bound; nia).
  unfold try_into_u64. rewrite (proj2 (Z.leb_le _ _)) by lia. cbn [mbind option_bind].
  case_if; [by eexists|]. pose proof (commission_split_bound bps (p * pv_rewards pv / pv_points pv) Hb Hq) as Hs.
  destruct (commission_split _ _) as [[voter staker] is_split]. case_if; [by eexists|].
  eexists. split; [done|]. simpl. lia.
Qed.

(** the share of a delegation in the pot *)
Definition share (vp : Pubkey) (cached : CachedVoteAccounts) (pv : PointValue) (d : option (Pubkey * StakeStateV2)) : Z :=
  delegation_points effective_stake vp cached d * pv_rewards pv / pv_points pv.

Definition paid (r : DelegationRewards) : Z :=
  ps_stake_reward (dr_stake_reward r) + commission_lamports (reward_commission r).

Definition no_vote_account : VoteAccount :=
  {| va_owner := 0; va_lamports := 0; va_node_pubkey := 0; va_commission := 0; va_commission_bps := 0; va_credits := 0;
     va_epoch_credits := [] |}.

(** the account and the rate of the commission of a vote account *)
Definition commission_terms (feat : RewardFeatures) (cached : CachedVoteAccounts) (k : Pubkey) : VoteAccount * Z :=
  match distribution_epoch_vote_accounts cached !! k with
  | Some v => (v, voter_commission feat cached k v)
  | None => (no_vote_account, 0)
  end.

(** what is known of the reward of a delegation *)
Definition reward_spec (slashing : SlashingState) feat cached vp pv (d : option (Pubkey * StakeStateV2))
    (r : option DelegationRewards) : Prop :=
  match r with
  | Some x => reward_ok x /\ consistent (commission_terms feat cached) x /\ paid x <= share vp cached pv d
      /\ exists k st v, d = Some (k, st) /\ delegation_voter st = Some (commission_pubkey x)
         /\ distribution_epoch_vote_accounts cached !! commission_pubkey x = Some v
         /\ is_jailed_or_banned (va_node_pubkey v) slashing = false
  | None => True
  end.

Lemma redeem_delegation_spec slashing feat cached vp epoch pv k st : cached_ok vp cached ->
  0 < pv_points pv -> 0 <= pv_rewards pv <= u64_max ->
  delegation_points effective_stake vp cached (Some (k, st)) <= pv_points pv ->
  delegation_points effective_stake vp cached (Some (k, st)) * pv_rewards pv <= u128_max ->
  exists r, redeem_delegation_rewards effective_stake slashing feat cached epoch pv k st = Some r
  /\ reward_spec slashing feat cached vp pv (Some (k, st)) r.
Proof.
  intros Hok HP HR Hle Hmul. unfold redeem_delegation_rewards.
  destruct st as [| |s|]; try (by eexists). cbn [delegation_voter mbind option_bind].
  destruct (distribution_epoch_vote_accounts cached !! voter_pubkey (delegation s)) as [v|] eqn:Ev; [|by eexists].
  cbn [mbind option_bind]. destruct (is_jailed_or_banned (va_node_pubkey v) slashing) eqn:Ej; [by eexists|].
  assert (Hpts : delegation_points effective_stake vp cached (Some (k, StakeActive s)) = calculate_stake_points effective_stake s v).
  { unfold delegation_points. cbn [delegation_voter mbind option_bind]. rewrite Ev.
    by rewrite decide_True by (by eapply (co_owner _ _ Hok)). }
  unfold share, reward_spec. rewrite Hpts in *.
  pose proof (voter_commission_nonneg vp feat cached _ v Hok Ev) as Hb.
  destruct (calculate_stake_rewards_bound epoch s pv (voter_commission feat cached (voter_pubkey (delegation s)) v) v Hb HP Hle HR Hmul)
    as (r & Hr & Hbound).
  unfold redeem_rewards, redeem_stake_rewards. rewrite Hr. cbn [mbind option_bind]. destruct r as [c|]; [|by eexists].
  eexists. split; [reflexivity|]. simpl. unfold share. rewrite Hpts. split; [unfold reward_ok; simpl; lia|].
  split; [unfold consistent, commission_terms; simpl; by rewrite Ev|]. split; [unfold paid; simpl; lia|].
  by exists k, (StakeActive s), v.
Qed.

(** every delegation gets at most its share *)
Lemma redeem_all_spec slashing feat cached vp epoch pv ds : cached_ok vp cached ->
  0 < pv_points pv -> 0 <= pv_rewards pv <= u64_max ->
  Forall (fun d => delegation_points effective_stake vp cached d <= pv_points pv
            /\ delegation_points effective_stake vp cached d * pv_rewards pv <= u128_max) ds ->
  exists rs, redeem_all effective_stake slashing feat cached epoch pv ds = Some rs
  /\ Forall2 (reward_spec slashing feat cached vp pv) ds rs.
Proof.
  intros Hok HP HR. induction 1 as [|d ds [H1 H2] Hds (rs & IH & Hrs)].
  - exists []. by split.
  - unfold redeem_all in *. destruct d as [[k st]|].
    + destruct (redeem_delegation_spec slashing feat cached vp epoch pv k st Hok HP HR H1 H2) as (r & Hr & Hspec).
      exists (r :: rs). cbn [mapM]. rewrite Hr. cbn [mbind option_bind]. rewrite IH. split; [done|by constructor].
    + exists (None :: rs). cbn [mapM mbind option_bind]. rewrite IH. split; [done|by constructor].
Qed.

Lemma delegation_points_nonneg vp cached d : 0 <= delegation_points effective_stake vp cached d.
Proof.
  unfold delegation_points. destruct d as [[k st]|]; [|done]. destruct (mbind _ _) as [v|]; [|done].
  case_decide; [|done]. destruct st; try done. apply calculate_stake_points_nonneg.
Qed.
End pot.

(** flooring each share loses, never gains *)
Lemma shares_le (P R : Z) ps : 0 < P -> 0 <= R -> zsum (map (fun p => p * R / P) ps) <= zsum ps * R / P.
Proof.
  intros HP HR. induction ps as [|p ps IH]; cbn [map zsum foldr]; [rewrite Z.mul_0_l, Z.div_0_l by lia; lia|].
  change (foldr Z.add 0 (map (fun p => p * R / P) ps)) with (zsum (map (fun p => p * R / P) ps)).
  change (foldr Z.add 0 ps) with (zsum ps). apply Z.div_le_lower_bound; [done|].
  pose proof (Z.mul_div_le (p * R) P HP). pose proof (Z.mul_div_le (zsum ps * R) P HP). nia.
Qed.

Lemma sum_u128 ps : Forall (fun p => 0 <= p) ps -> forall acc, 0 <= acc -> acc + zsum ps <= u128_max ->
  foldl (wrapping_add u128_max) acc ps = acc + zsum ps.
Proof.
  induction 1 as [|p ps Hp Hps IH]; intros acc Ha Hs; cbn [foldl zsum foldr] in *; [lia|].
  change (foldr Z.add 0 ps) with (zsum ps) in *. pose proof (zsum_nonneg ps Hps).
  unfold wrapping_add at 2. rewrite Z.mod_small by lia. rewrite IH by lia. lia.
Qed.

(** the commissions per key are those of the rewards, each counted once *)
Lemma commission_key_sum (ks : list Pubkey) r : NoDup ks -> reward_ok r ->
  zsum (map (fun k => commission_of k r) ks) <= commission_lamports (reward_commission r).
Proof.
  intros Hn [_ Hr]. induction ks as [|k ks IH]; cbn [map zsum foldr]; [lia|].
  apply NoDup_cons in Hn as [Hk Hn]. specialize (IH Hn). change (foldr Z.add 0) with zsum. unfold commission_of at 1.
  case_decide as E; [|lia]. replace (zsum (map (fun k => commission_of k r) ks)) with 0; [lia|].
  clear IH Hn. induction ks as [|k' ks IH]; [done|]. apply not_elem_of_cons in Hk as [Hk1 Hk2].
  cbn [map zsum foldr]. change (foldr Z.add 0) with zsum. rewrite <- IH by done. unfold commission_of.
  rewrite decide_False by congruence. done.
Qed.

Lemma commission_keys_sum (ks : list Pubkey) l : NoDup ks -> Forall reward_ok l ->
  zsum (map (fun k => zsum (map (commission_of k) l)) ks)
  <= zsum (map (fun r => commission_lamports (reward_commission r)) l).
Proof.
  intros Hn. induction 1 as [|r l Hr Hl IH].
  - clear Hn. induction ks as [|k ks IH]; simpl in *; lia.
  - assert (E : zsum (map (fun k => zsum (map (commission_of k) (r :: l))) ks)
      = zsum (map (fun k => commission_of k r) ks) + zsum (map (fun k => zsum (map (commission_of k) l)) ks)).
    { clear. induction ks as [|k ks IH]; [done|]. cbn [map zsum foldr] in *. change (foldr Z.add 0) with zsum in *. lia. }
    rewrite E. cbn [map zsum foldr]. change (foldr Z.add 0) with zsum. pose proof (commission_key_sum ks r Hn Hr). lia.
Qed.

Definition commissions_total (l : list (Pubkey * RewardCommission)) : Z := zsum (map (fun kc => commission_lamports kc.2) l).

Lemma commission_accounts_fold l : Forall (fun kc : Pubkey * RewardCommission => 0 <= commission_lamports kc.2) l ->
  forall acc, 0 <= commissions_total acc -> commissions_total acc + commissions_total l <= u64_max ->
  let res := foldl (fun acc kc =>
           match checked_add u64_max (va_lamports (commission_account kc.2)) (commission_lamports kc.2) with
           | Some _ => (acc.1 ++ [kc], wrapping_add u64_max acc.2 (commission_lamports kc.2))
           | None => acc
           end) (acc, commissions_total acc) l in
  res.2 = commissions_total res.1 /\ 0 <= commissions_total res.1 <= commissions_total acc + commissions_total l.
Proof.
  induction 1 as [|kc l Hkc Hl IH]; intros acc Ha Hb; cbn [foldl].
  { simpl. unfold commissions_total in *. simpl in *. lia. }
  assert (Hn : 0 <= commissions_total l) by (by apply zsum_nonneg, Forall_map).
  unfold commissions_total in Hb. cbn [map zsum foldr] in Hb. change (foldr Z.add 0) with zsum in Hb.
  fold (commissions_total acc) (commissions_total l) in Hb.
  assert (Hcons : commissions_total (kc :: l) = commission_lamports kc.2 + commissions_total l) by done.
  destruct (checked_add _ _ _).
  - assert (Happ : commissions_total (acc ++ [kc]) = commissions_total acc + commission_lamports kc.2).
    { unfold commissions_total. rewrite map_app, zsum_app. simpl. lia. }
    assert (Hw : wrapping_add u64_max (commissions_total acc) (commission_lamports kc.2) = commissions_total (acc ++ [kc])).
    { unfold wrapping_add. rewrite Z.mod_small; lia. }
    cbn [fst snd]. rewrite Hw. destruct (IH (acc ++ [kc])) as [IH1 IH2]; [lia|lia|]. split; [exact IH1|lia].
  - destruct (IH acc) as [IH1 IH2]; [done|lia|]. split; [exact IH1|lia].
Qed.

(** the accounts with room for their commission *)
Lemma commission_accounts_filter l : forall acc,
  (foldl (fun acc kc =>
           match checked_add u64_max (va_lamports (commission_account kc.2)) (commission_lamports kc.2) with
           | Some _ => (acc.1 ++ [kc], wrapping_add u64_max acc.2 (commission_lamports kc.2))
           | None => acc
           end) acc l).1
  = acc.1 ++ filter (fun kc : Pubkey * RewardCommission => va_lamports (commission_account kc.2) + commission_lamports kc.2 <= u64_max) l.
Proof.
  induction l as [|kc l IH]; intros acc; cbn [foldl]; [by rewrite app_nil_r|]. rewrite IH, filter_cons. unfold checked_add.
  case_decide as Hd; [rewrite (proj2 (Z.leb_le _ _)) by done|rewrite (proj2 (Z.leb_gt _ _)) by lia]; [|done]. simpl. by rewrite <- app_assoc.
Qed.

(** the commission accounts of a calculation are distinct vote accounts of the distribution epoch with room for what they get *)
Definition commissions_due (cached : CachedVoteAccounts) (l : list (Pubkey * RewardCommission)) : Prop :=
  NoDup l.*1 /\ forall k c, (k, c) ∈ l -> distribution_epoch_vote_accounts cached !! k = Some (commission_account c)
    /\ 0 <= commission_lamports c /\ va_lamports (commission_account c) + commission_lamports c <= u64_max.

Section pot_theorem.
Context `{!HashMapIter}.

Lemma commission_accounts_due feat cached acc l : Forall reward_ok l -> represents (commission_terms feat cached) acc l ->
  Forall (fun x => is_Some (distribution_epoch_vote_accounts cached !! commission_pubkey x)) l ->
  commissions_due cached (calculate_commission_accounts (reward_commissions acc)).1.
Proof.
  intros Hl [Hc _ _] Hv. unfold calculate_commission_accounts. rewrite commission_accounts_filter. cbn [fst app]. split.
  - eapply sublist_NoDup; [|apply fmap_sublist, sublist_filter]. rewrite hm_iter_perm. apply NoDup_fst_map_to_list.
  - intros k c [Hle Hin]%list_elem_of_filter. rewrite hm_iter_perm in Hin. apply elem_of_map_to_list in Hin. rewrite Hc in Hin.
    unfold commission_at in Hin. case_decide as Hk; [|done]. injection Hin as <-. cbn [commission_account commission_lamports snd] in *.
    apply list_elem_of_fmap in Hk as (x & -> & Hx). destruct (proj1 (Forall_forall _ _) Hv x Hx) as [v Ev].
    pose proof (commission_sum_nonneg (commission_pubkey x) l Hl). unfold commission_terms in *. rewrite Ev in *. split; [done|]. lia.
Qed.

(** the commissions of accumulated rewards *)
Lemma commission_accounts_bound f acc l : Forall reward_ok l -> represents f acc l ->
  zsum (map (fun r => commission_lamports (reward_commission r)) l) <= u64_max ->
  let res := calculate_commission_accounts (reward_commissions acc) in
  res.2 = commissions_total res.1
  /\ 0 <= res.2 <= zsum (map (fun r => commission_lamports (reward_commission r)) l).
Proof.
  intros Hl [Hc _ _] Hb. unfold calculate_commission_accounts.
  assert (Hin : forall k c, (k, c) ∈ hm_iter (reward_commissions acc) ->
    commission_lamports c = Z.min u64_max (zsum (map (commission_of k) l))).
  { intros k c Hk. rewrite hm_iter_perm in Hk. apply elem_of_map_to_list in Hk. rewrite Hc in Hk.
    unfold commission_at in Hk. case_decide; [|done]. by injection Hk as <-. }
  assert (Hle : commissions_total (hm_iter (reward_commissions acc))
    <= zsum (map (fun r => commission_lamports (reward_commission r)) l)).
  { etrans; [|apply (commission_keys_sum (hm_iter (reward_commissions acc)).*1 l); [|done]].
    2: { rewrite hm_iter_perm. apply NoDup_fst_map_to_list. }
    unfold commissions_total. clear Hc Hb. induction (hm_iter (reward_commissions acc)) as [|[k c] r IH]; [done|].
    cbn [map fmap list_fmap fst snd zsum foldr]. change (foldr Z.add 0) with zsum.
    pose proof (Hin k c ltac:(by left)). specialize (IH (fun k' c' H' => Hin k' c' (list_elem_of_further _ _ _ H'))). lia. }
  assert (Hnn : Forall (fun kc : Pubkey * RewardCommission => 0 <= commission_lamports kc.2) (hm_iter (reward_commissions acc))).
  { apply Forall_forall. intros [k c] Hk. simpl. rewrite (Hin k c Hk). pose proof (commission_sum_nonneg k l Hl). lia. }
  destruct (commission_accounts_fold _ Hnn []) as [H1 H2]; [by unfold commissions_total|unfold commissions_total at 1; simpl; lia|].
  change (commissions_total []) with 0 in H1, H2. split; [exact H1|]. rewrite H1. lia.
Qed.

(** the rewards of all delegations together *)
Lemma rewards_facts effective_stake slashing feat cached vp pv ds rs :
  0 < pv_points pv -> 0 <= pv_rewards pv ->
  Forall2 (reward_spec effective_stake slashing feat cached vp pv) ds rs ->
  Forall reward_ok (omap id rs) /\ Forall (consistent (commission_terms feat cached)) (omap id rs)
  /\ zsum (map paid (omap id rs)) <= zsum (map (share effective_stake vp cached pv) ds).
Proof.
  intros HP HR. induction 1 as [|d [x|] ds rs Hd Hds (IH1 & IH2 & IH3)]; [done| |].
  - destruct Hd as (Hok & Hc & Hp & _). change (omap id (Some x :: rs)) with (x :: omap id rs).
    split; [by constructor|]. split; [by constructor|].
    cbn [map zsum foldr]. change (foldr Z.add 0) with zsum. lia.
  - change (omap id (None :: rs)) with (omap id rs). split; [done|]. split; [done|].
    cbn [map zsum foldr]. change (foldr Z.add 0) with zsum.
    assert (0 <= share effective_stake vp cached pv d).
    { unfold share. apply Z.div_pos; [|lia]. pose proof (delegation_points_nonneg effective_stake vp cached d). nia. }
    lia.
Qed.

Lemma rewards_cached effective_stake slashing feat cached vp pv ds rs :
  Forall2 (reward_spec effective_stake slashing feat cached vp pv) ds rs ->
  Forall (fun x => is_Some (distribution_epoch_vote_accounts cached !! commission_pubkey x)) (omap id rs).
Proof.
  induction 1 as [|d [x|] ds rs Hd Hds IH]; [done| |exact IH].
  change (omap id (Some x :: rs)) with (x :: omap id rs). constructor; [|done]. destruct Hd as (_ & _ & _ & ? & ? & v & _ & _ & Hv & _). by exists v.
Qed.

Lemma zsum_paid l : zsum (map paid l) = stakers_total l + zsum (map (fun r => commission_lamports (reward_commission r)) l).
Proof.
  unfold stakers_total. induction l as [|r l IH]; [done|]. cbn [map zsum foldr]. change (foldr Z.add 0) with zsum.
  rewrite IH. unfold paid. lia.
Qed.

Lemma stakers_total_omap rs : stakers_total (omap id rs)
  = zsum (map (fun x => match x with Some s => ps_stake_reward s | None => 0 end) (map (fmap dr_stake_reward) rs)).
Proof.
  unfold stakers_total. induction rs as [|[x|] rs IH]; [done| |].
  - change (omap id (Some x :: rs)) with (x :: omap id rs). cbn [map zsum foldr fmap option_fmap option_map].
    change (foldr Z.add 0) with zsum. lia.
  - change (omap id (None :: rs)) with (omap id rs). cbn [map zsum foldr fmap option_fmap option_map].
    change (foldr Z.add 0) with zsum. lia.
Qed.

(** what the calculation adds up *)
Lemma accumulated_rewards effective_stake split slashing feat cached vp epoch pv ds rs :
  (forall l, work_items (split l) ≡ₚ l) -> 0 < pv_points pv -> in_u64 (pv_rewards pv) ->
  redeem_all effective_stake slashing feat cached epoch pv ds = Some rs ->
  Forall2 (reward_spec effective_stake slashing feat cached vp pv) ds rs ->
  zsum (map (share effective_stake vp cached pv) ds) <= pv_rewards pv ->
  exists r, calculate_stake_rewards_and_commissions effective_stake split slashing feat cached epoch pv ds = Some r
  /\ stake_rewards r = map (fmap dr_stake_reward) rs /\ 0 <= num_rewards r
  /\ total_stake_rewards r = stakers_total (omap id rs)
  /\ total_reward_commission_lamports r = commissions_total (commission_accounts r)
  /\ 0 <= total_stake_rewards r /\ 0 <= total_reward_commission_lamports r
  /\ total_stake_rewards r + total_reward_commission_lamports r <= pv_rewards pv
  /\ commissions_due cached (commission_accounts r).
Proof.
  intros Hsplit HP HR Hrs Hspec Hsum.
  destruct (rewards_facts _ _ _ _ _ _ _ _ HP ltac:(lia) Hspec) as (Hok & Hc & Hp). rewrite zsum_paid in Hp.
  pose proof (stakers_total_nonneg _ Hok) as Hn.
  assert (Hn' : 0 <= zsum (map (fun r => commission_lamports (reward_commission r)) (omap id rs))).
  { apply zsum_nonneg, Forall_map. eapply Forall_impl; [exact Hok|]. intros x [_ Hx]. simpl. lia. }
  assert (Hrep : represents (commission_terms feat cached) (accumulate (split (omap id rs))) (omap id rs)).
  { apply (represents_perm _ _ (work_items (split (omap id rs)))); [apply Hsplit|].
    apply accumulate_represents; by rewrite Hsplit. }
  destruct (commission_accounts_bound _ _ _ Hok Hrep ltac:(lia)) as [Ht Hb].
  pose proof (commission_accounts_due feat cached _ _ Hok Hrep (rewards_cached _ _ _ _ _ _ _ _ Hspec)) as Hdue.
  unfold calculate_stake_rewards_and_commissions. rewrite Hrs. cbn [mbind option_bind].
  destruct (calculate_commission_accounts _) as [accounts total]. cbn [fst snd] in *. eexists. split; [reflexivity|].
  cbn [stake_rewards num_rewards total_stake_rewards total_reward_commission_lamports commission_accounts].
  rewrite (rp_num _ _ _ Hrep), (rp_total _ _ _ Hrep), (Z.min_r _ (stakers_total _)) by lia. split; [done|]. split; [lia|]. split; [done|]. split; [done|]. split; [lia|]. split; [lia|]. by split; [lia|].
Qed.

(** the whole calculation: without points nothing is paid; otherwise every
    delegation is redeemed within its share *)
Lemma validator_rewards_facts effective_stake vote_program split slashing feat cached epoch rewards ds :
  cached_ok vote_program cached -> in_u64 rewards -> (forall l, work_items (split l) ≡ₚ l) ->
  zsum (map (delegation_points effective_stake vote_program cached) ds) <= u128_max ->
  Forall (fun d => delegation_points effective_stake vote_program cached d * rewards <= u128_max) ds ->
  let pts := zsum (map (delegation_points effective_stake vote_program cached) ds) in
  let pv := {| pv_rewards := rewards; pv_points := pts |} in
  let res := calculate_validator_rewards effective_stake vote_program split slashing feat cached epoch rewards ds in
  (pts = 0 /\ res = Some None)
  \/ exists r rs, 0 < pts /\ res = Some (Some (r, pv))
     /\ redeem_all effective_stake slashing feat cached epoch pv ds = Some rs
     /\ Forall2 (reward_spec effective_stake slashing feat cached vote_program pv) ds rs
     /\ stake_rewards r = map (fmap dr_stake_reward) rs /\ 0 <= num_rewards r
     /\ total_stake_rewards r = stakers_total (omap id rs)
     /\ total_reward_commission_lamports r = commissions_total (commission_accounts r)
     /\ 0 <= total_stake_rewards r /\ 0 <= total_reward_commission_lamports r
     /\ total_stake_rewards r + total_reward_commission_lamports r <= rewards
     /\ commissions_due cached (commission_accounts r).
Proof.
  intros Hok HR Hsplit HP Hmul pts pv res.
  assert (Hnn : Forall (fun p => 0 <= p) (map (delegation_points effective_stake vote_program cached) ds)).
  { apply Forall_map, Forall_true. intros d. apply delegation_points_nonneg. }
  unfold res, calculate_validator_rewards, calculate_reward_points_partitioned. rewrite sum_u128 by (done || lia).
  rewrite Z.add_0_l. fold pts in HP |- *. destruct (Z.ltb_spec 0 pts) as [Hpos|Hneg].
  2: { left. pose proof (zsum_nonneg _ Hnn) as Hz. fold pts in Hz. split; [lia|done]. }
  right. fold pv.
  assert (Hall : Forall (fun d => delegation_points effective_stake vote_program cached d <= pv_points pv
    /\ delegation_points effective_stake vote_program cached d * pv_rewards pv <= u128_max) ds).
  { apply Forall_forall. intros d Hd. split; [|by apply (proj1 (Forall_forall _ _) Hmul)].
    apply zsum_le_elem; [done|]. by apply in_map, list_elem_of_In. }
  destruct (redeem_all_spec effective_stake slashing feat cached vote_program epoch pv ds Hok Hpos HR Hall) as (rs & Hrs & Hspec).
  assert (Hsum : zsum (map (share effective_stake vote_program cached pv) ds) <= pv_rewards pv).
  { pose proof (shares_le pts rewards (map (delegation_points effective_stake vote_program cached) ds) Hpos ltac:(lia)) as Hs.
    rewrite map_map in Hs. fold pts in Hs. rewrite (Z.mul_comm pts), Z.div_mul in Hs by lia. exact Hs. }
  destruct (accumulated_rewards effective_stake split slashing feat cached vote_program epoch pv ds rs Hsplit Hpos HR Hrs Hspec Hsum)
    as (r & Hr & Hrest).
  exists r, rs. rewrite Hr. done.
Qed.
End pot_theorem.

(** C12. The rewards of an epoch stay within what was minted for them: with
    vote accounts owned by the vote program and points that fit their
    widths, the calculation over all delegations does not panic, and
    what it credits to stakes and pays as commissions, saturating sums,
    floors and threads included, adds up exactly and is at most [rewards];
    no reward goes to a delegation to a jailed or banned validator. *)
Theorem rewards_within_pot effective_stake `{!HashMapIter} vote_program split slashing feat cached epoch rewards ds :
  cached_ok vote_program cached -> in_u64 rewards ->
  (forall l, work_items (split l) ≡ₚ l) ->
  zsum (map (delegation_points effective_stake vote_program cached) ds) <= u128_max ->
  Forall (fun d => delegation_points effective_stake vote_program cached d * rewards <= u128_max) ds ->
  exists res, calculate_validator_rewards effective_stake vote_program split slashing feat cached epoch rewards ds = Some res
  /\ match res with
     | Some (r, pv) =>
         pv = {| pv_rewards := rewards; pv_points := zsum (map (delegation_points effective_stake vote_program cached) ds) |}
         /\ total_stake_rewards r = zsum (map (fun x => match x with Some s => ps_stake_reward s | None => 0 end) (stake_rewards r))
         /\ total_reward_commission_lamports r = commissions_total (commission_accounts r)
         /\ 0 <= total_stake_rewards r /\ 0 <= total_reward_commission_lamports r
         /\ total_stake_rewards r + total_reward_commission_lamports r <= rewards
         /\ Forall2 (fun d x => forall y, x = Some y -> exists k st voter v, d = Some (k, st)
              /\ delegation_voter st = Some voter /\ distribution_epoch_vote_accounts cached !! voter = Some v
              /\ is_jailed_or_banned (va_node_pubkey v) slashing = false) ds (stake_rewards r)
     | None => zsum (map (delegation_points effective_stake vote_program cached) ds) = 0
     end.
Proof.
  intros Hok HR Hsplit HP Hmul.
  destruct (validator_rewards_facts effective_stake vote_program split slashing feat cached epoch rewards ds Hok HR Hsplit HP Hmul)
    as [[H0 E]|(r & rs & _ & E & _ & Hspec & Hl & _ & Ht & Hc & Hrest)].
  { exists None. by split. }
  exists (Some (r, {| pv_rewards := rewards; pv_points := zsum (map (delegation_points effective_stake vote_program cached) ds) |})).
  split; [done|]. split; [done|]. rewrite Hl, <- stakers_total_omap. split; [done|]. split; [done|].
  destruct Hrest as (? & ? & ? & _). split; [done|]. split; [done|]. split; [done|].
  revert Hspec. clear. induction 1 as [|d [x|] ds' rs' Hd Hds IH]; constructor; try done.
  destruct Hd as (_ & _ & _ & k & st & v & Hd). intros y _. by exists k, st, (commission_pubkey x), v.
Qed.

(** ** The theorems at concrete inputs *)

Module EpochRewardsExamples.

(** every delegation is fully effective *)
Definition full (d : Delegation) (_ : Z) : Z := d_stake d.
Definition stake_of_voter (voter amount observed : Z) : Stake :=
  {| delegation := {| voter_pubkey := voter; d_stake := amount; activation_epoch := 0; deactivation_epoch := u64_max |};
     credits_observed := observed |}.
Definition voter (node bps : Z) : VoteAccount :=
  {| va_owner := 33; va_lamports := 1000; va_node_pubkey := node; va_commission := 10; va_commission_bps := bps;
     va_credits := 300; va_epoch_credits := [(7, 100, 0); (8, 200, 100); (9, 300, 200)] |}.
Definition cached : CachedVoteAccounts :=
  {| snapshot_epoch_vote_accounts := None; rewarded_epoch_vote_accounts := None;
     distribution_epoch_vote_accounts := {[1 := voter 101 1000; 2 := voter 102 0]} |}.
Definition features : RewardFeatures := {| delay_commission_updates := true; commission_rate_in_basis_points := true |}.
Definition delegations : list (option (Pubkey * StakeStateV2)) :=
  [Some (51, StakeActive (stake_of_voter 1 5000 150)); None; Some (52, StakeActive (stake_of_voter 2 7001 200));
   Some (53, StakeActive (stake_of_voter 1 900 0))].
(** validator 102 is jailed *)
Definition jailed_102 : SlashingState := jail_validator 102 First 3 SlashingState_new.
(** two threads *)
Definition halves {A} (l : list A) : work A := Merge (Fold (take (length l / 2) l)) (Fold (drop (length l / 2) l)).

Lemma points_exact_witness :
  calculate_stake_points full (stake_of_voter 1 5000 150) (voter 101 1000) = 5000 * 150
  /\ calculate_stake_points full
       {| delegation := delegation (stake_of_voter 1 5750 150);
          credits_observed := new_credits_observed
            (calculate_stake_points_and_credits full (stake_of_voter 1 5000 150) (voter 101 1000)) |} (voter 101 1000) = 0.
Proof.
  destruct (points_exact full (stake_of_voter 1 5000 150) (voter 101 1000)) as [H1 H2].
  - repeat split; vm_compute; discriminate.
  - vm_compute. discriminate.
  - intros e. vm_compute. discriminate.
  - vm_compute. discriminate.
  - split; [rewrite H1; reflexivity|]. apply H2. intros e. vm_compute. discriminate.
Defined.

Definition some_reward (stake_key k stakers lamports : Z) : DelegationRewards :=
  {| dr_stake_reward := {| ps_stake_pubkey := stake_key; ps_stake := stake_of_voter k 1 1; ps_stake_reward := stakers;
                           ps_commission_bps := 1000 |};
     commission_pubkey := k;
     reward_commission := {| commission_account := voter k 1000; rc_bps := 1000; commission_lamports := lamports |} |}.
Definition some_rewards : list DelegationRewards :=
  [some_reward 51 1 90 10; some_reward 52 2 45 5; some_reward 53 1 9 1].

Lemma split_independent_witness :
  accumulate (Merge (Fold (drop 1 some_rewards)) (Fold (take 1 some_rewards))) = accumulate (Fold some_rewards)
  /\ total_stake_rewards_lamports (accumulate (Fold some_rewards)) = 144.
Proof.
  split; [|vm_compute; reflexivity].
  apply (split_independent _ _ (fun k => (voter k 1000, 1000))).
  - repeat constructor; vm_compute; discriminate.
  - repeat constructor.
  - apply Permutation_app_comm.
Defined.

Lemma cached_example_ok : cached_ok 33 cached.
Proof.
  assert (Hv : forall k v, distribution_epoch_vote_accounts cached !! k = Some v -> va_owner v = 33 /\ vote_account_ok v).
  { intros k v Hk. cbn [cached distribution_epoch_vote_accounts] in Hk.
    apply lookup_insert_Some in Hk as [[_ <-]|[_ Hk]]; [split; [reflexivity|]; split; vm_compute; discriminate|].
    apply lookup_singleton_Some in Hk as [_ <-]. split; [reflexivity|]. split; vm_compute; discriminate. }
  split; [intros k v Hk; apply (Hv k v Hk)|intros k v Hk; apply (Hv k v Hk)|discriminate|discriminate].
Qed.

(** of 1000 lamports two stake accounts get 392 and 140 and their voter 58; the share of the jailed validator is not paid *)
Lemma rewards_within_pot_witness : exists r pv,
  calculate_validator_rewards full 33 halves jailed_102 features cached 9 1000 delegations = Some (Some (r, pv))
  /\ total_stake_rewards r + total_reward_commission_lamports r <= 1000
  /\ map (fmap ps_stake_reward) (stake_rewards r) = [Some 392; None; None; Some 140]
  /\ total_reward_commission_lamports r = 58.
Proof.
  destruct (rewards_within_pot full 33 halves jailed_102 features cached 9 1000 delegations) as (res & Hr & Hres).
  - apply cached_example_ok.
  - vm_compute. split; discriminate.
  - intros l. unfold halves. cbn [work_items]. rewrite take_drop. reflexivity.
  - vm_compute. discriminate.
  - repeat constructor; vm_compute; discriminate.
  - destruct res as [[r pv]|].
    + exists r, pv. split; [exact Hr|]. destruct Hres as (_ & _ & _ & _ & _ & Hle & _). split; [exact Hle|].
      vm_compute in Hr. injection Hr as <- _. split; reflexivity.
    + vm_compute in Hr. discriminate.
Defined.
End EpochRewardsExamples.
