(* ===== verification/RewardsDistribution.v ===== *)
(** * Distribution of the epoch rewards

    Models the part of partitioned_epoch_rewards that pays what EpochRewards.v
    calculates: begin_partitioned_rewards at the first block of an epoch
    (calculation.rs), the partitions (epoch_rewards_hasher.rs), the sysvar that
    tracks the payment (sysvar.rs) and the distribution of one partition per
    block (distribution.rs), with the stake accounts of the stakes cache
    (stakes.rs, stake_account.rs).  A panic is [None].  The sysvar account is
    its decoded value, and its own balance, which covers its rent, is left out;
    so are the stakes per vote account that the stakes cache adds up.  The
    theorem follows the rewards of an epoch from the calculation to the last
    partition, with other transactions between the blocks. *)

From stdpp Require Import base numbers list option gmap.
From Stdlib Require Import ZArith Lia.
From S2P Require Import Prelude F64 BftTypes Slashing EpochRewards.
Local Open Scope Z_scope.
Local Open Scope trv1_scope.

(** ** Interfaces to code outside the sources *)

(** the sysvar of solana_epoch_rewards *)
Record EpochRewards := {
  er_distribution_starting_block_height : Z;
  er_num_partitions : Z;
  er_parent_blockhash : Hash;
  er_total_points : Z;
  er_total_rewards : Z;
  er_distributed_rewards : Z;
  er_active : bool
}.
Definition EpochRewards_default : EpochRewards := Build_EpochRewards 0 0 0 0 0 0 false.
Definition with_distributed (z : Z) (e : EpochRewards) : EpochRewards :=
  Build_EpochRewards (er_distribution_starting_block_height e) (er_num_partitions e) (er_parent_blockhash e)
    (er_total_points e) (er_total_rewards e) z (er_active e).
Definition with_active (a : bool) (e : EpochRewards) : EpochRewards :=
  Build_EpochRewards (er_distribution_starting_block_height e) (er_num_partitions e) (er_parent_blockhash e)
    (er_total_points e) (er_total_rewards e) (er_distributed_rewards e) a.

(** What the code relies on of the crates it calls:
    - [AccountSharedData]: an account with its balance, owner and data;
    - [stake_state], [set_state]: [StateMut::state] and [StateMut::set_state]
      of a delegated stake, its meta data, stake and flags; a state is written
      when the data of the account has room for it, and read back;
    - [hash_address_to_partition]: [EpochRewardsHasher], a partition in range;
    - [distribute]: [EpochRewards::distribute], within the total. *)
Class RewardsSdk := {
  AccountSharedData : Type;
  a_lamports : AccountSharedData -> Z;
  a_owner : AccountSharedData -> Pubkey;
  data_len : AccountSharedData -> nat;
  with_lamports : Z -> AccountSharedData -> AccountSharedData;
  Meta : Type;
  StakeFlags : Type;
  stake_program : Pubkey;
  stake_size : nat;
  stake_state : AccountSharedData -> option (Meta * Stake * StakeFlags);
  set_state : AccountSharedData -> Meta * Stake * StakeFlags -> option AccountSharedData;
  hash_address_to_partition : nat -> Hash -> Pubkey -> nat;
  distribute : EpochRewards -> Z -> option EpochRewards;
  with_lamports_spec : forall z a, a_lamports (with_lamports z a) = z /\ a_owner (with_lamports z a) = a_owner a
    /\ data_len (with_lamports z a) = data_len a;
  set_state_fits : forall a s, (stake_size <= data_len a)%nat -> exists a', set_state a s = Some a';
  set_state_spec : forall a s a', set_state a s = Some a' ->
    stake_state a' = Some s /\ a_lamports a' = a_lamports a /\ a_owner a' = a_owner a /\ data_len a' = data_len a;
  hash_in_range : forall n h k, (0 < n)%nat -> (hash_address_to_partition n h k < n)%nat;
  distribute_spec : forall e z, 0 <= z -> er_distributed_rewards e + z <= er_total_rewards e -> er_total_rewards e <= u64_max ->
    distribute e z = Some (with_distributed (er_distributed_rewards e + z) e)
}.

(** [EpochSchedule]: its fields and [get_slots_in_epoch], and the configuration of the stores *)
Record EpochSchedule := {
  slots_per_epoch : Z;
  warmup : bool;
  first_normal_epoch : Z;
  get_slots_in_epoch : Z -> Z;
  stake_account_stores_per_block : Z
}.

Section distribution.
Context `{!RewardsSdk}.

(** ** Data *)

(** an account in the state [Stake], the only one a [StakeAccount<Delegation>] wraps *)
Record StakeAccount := {
  sa_account : AccountSharedData;
  sa_meta : Meta;
  sa_stake : Stake;
  sa_flags : StakeFlags
}.

Record StartBlockHeightAndRewards := {
  cp_start : Z;
  cp_rewards : list (option PartitionedStakeReward)
}.
Record StartBlockHeightAndPartitionedRewards := {
  dp_start : Z;
  dp_rewards : list (option PartitionedStakeReward);
  partition_indices : list (list nat)
}.
Inductive EpochRewardPhase :=
  | Calculation (s : StartBlockHeightAndRewards)
  | Distribution (s : StartBlockHeightAndPartitionedRewards).
Inductive EpochRewardStatus := Active (p : EpochRewardPhase) | Inactive.

Inductive DistributionError := AccountNotFound | ArithmeticOverflow | UnableToSetState.

Inductive RewardType := Staking | Voting.
Record RewardInfo := {
  ri_reward_type : RewardType;
  ri_lamports : Z;
  ri_post_balance : Z;
  ri_commission_bps : option Z
}.
Record StakeReward := {
  sr_stake_pubkey : Pubkey;
  sr_info : RewardInfo;
  sr_account : AccountSharedData
}.
Record DistributionResults := {
  lamports_distributed : Z;
  lamports_burned : Z;
  updated_stake_rewards : list StakeReward
}.

(** the fields of a bank that the rewards use *)
Record Bank := {
  block_height : Z;
  bank_epoch : Z;
  last_blockhash : Hash;
  schedule : EpochSchedule;
  capitalization : Z;
  epoch_reward_status : EpochRewardStatus;
  sysvar : option EpochRewards;
  stakes : gmap Pubkey StakeAccount;
  votes : gmap Pubkey VoteAccount;
  rewards : list (Pubkey * RewardInfo)
}.

Definition with_status (st : EpochRewardStatus) (b : Bank) : Bank :=
  Build_Bank (block_height b) (bank_epoch b) (last_blockhash b) (schedule b) (capitalization b) st (sysvar b)
    (stakes b) (votes b) (rewards b).
Definition with_sysvar (e : EpochRewards) (b : Bank) : Bank :=
  Build_Bank (block_height b) (bank_epoch b) (last_blockhash b) (schedule b) (capitalization b) (epoch_reward_status b)
    (Some e) (stakes b) (votes b) (rewards b).
Definition with_capitalization (z : Z) (b : Bank) : Bank :=
  Build_Bank (block_height b) (bank_epoch b) (last_blockhash b) (schedule b) z (epoch_reward_status b)
    (sysvar b) (stakes b) (votes b) (rewards b).
Definition with_stakes (m : gmap Pubkey StakeAccount) (b : Bank) : Bank :=
  Build_Bank (block_height b) (bank_epoch b) (last_blockhash b) (schedule b) (capitalization b) (epoch_reward_status b)
    (sysvar b) m (votes b) (rewards b).
Definition with_votes (m : gmap Pubkey VoteAccount) (b : Bank) : Bank :=
  Build_Bank (block_height b) (bank_epoch b) (last_blockhash b) (schedule b) (capitalization b) (epoch_reward_status b)
    (sysvar b) (stakes b) m (rewards b).
Definition with_rewards (l : list (Pubkey * RewardInfo)) (b : Bank) : Bank :=
  Build_Bank (block_height b) (bank_epoch b) (last_blockhash b) (schedule b) (capitalization b) (epoch_reward_status b)
    (sysvar b) (stakes b) (votes b) l.

(** ** The sysvar *)

Definition get_epoch_rewards_sysvar (b : Bank) : EpochRewards := default EpochRewards_default (sysvar b).

Definition create_epoch_rewards_sysvar (distributed_rewards start num_partitions : Z) (pv : PointValue) (b : Bank) : option Bank :=
  if distributed_rewards <=? pv_rewards pv then
    Some (with_sysvar (Build_EpochRewards start num_partitions (last_blockhash b) (pv_points pv) (pv_rewards pv)
                         distributed_rewards true) b)
  else None.

Definition update_epoch_rewards_sysvar (distributed : Z) (b : Bank) : option Bank :=
  let e := get_epoch_rewards_sysvar b in
  if er_active e then e' ← distribute e distributed; Some (with_sysvar e' b) else None.

Definition set_epoch_rewards_sysvar_to_inactive (b : Bank) : option Bank :=
  let e := get_epoch_rewards_sysvar b in
  if er_distributed_rewards e <=? er_total_rewards e then Some (with_sysvar (with_active false e) b) else None.

(** ** Partitions *)

(** the rewards that there are, with their index *)
Definition enumerated_rewards_iter (rs : list (option PartitionedStakeReward)) : list (nat * PartitionedStakeReward) :=
  omap (fun ir : nat * option PartitionedStakeReward => (fun r => (ir.1, r)) <$> ir.2) (imap pair rs).

Definition hash_rewards_into_partitions (rs : list (option PartitionedStakeReward)) (parent_blockhash : Hash)
    (num_partitions : nat) : option (list (list nat)) :=
  foldl (fun acc ir =>
           ix ← acc;
           let p := hash_address_to_partition num_partitions parent_blockhash (ps_stake_pubkey ir.2) in
           l ← ix !! p;
           Some (<[p := l ++ [ir.1]]> ix))
        (Some (replicate num_partitions [])) (enumerated_rewards_iter rs).

(** the number of blocks that pay the rewards; the chunks are [num_rewards.div_ceil(stores per block)],
    which panics when no store fits in a block *)
Definition get_reward_distribution_num_blocks (num_rewards : Z) (b : Bank) : option Z :=
  if warmup (schedule b) && (bank_epoch b <? first_normal_epoch (schedule b)) then Some 1
  else
    let per_block := stake_account_stores_per_block (schedule b) in
    if per_block =? 0 then None
    else
      let num_chunks := num_rewards / per_block + (if 0 <? num_rewards mod per_block then 1 else 0) in
      Some (Z.min (Z.max num_chunks 1) (Z.max (slots_per_epoch (schedule b) / 10) 1)).

(** ** The stakes cache *)

Definition StakeAccount_try_from (a : AccountSharedData) : option StakeAccount :=
  if decide (a_owner a = stake_program) then
    '(m, s, f) ← stake_state a; Some {| sa_account := a; sa_meta := m; sa_stake := s; sa_flags := f |}
  else None.

(** [StakesCache::check_and_store] of an account that is not a vote account *)
Definition check_and_store (k : Pubkey) (a : AccountSharedData) (m : gmap Pubkey StakeAccount) : gmap Pubkey StakeAccount :=
  if a_lamports a =? 0 then (if decide (a_owner a = stake_program) then delete k m else m)
  else if decide (a_owner a = stake_program) then
    match StakeAccount_try_from a with Some sa => <[k := sa]> m | None => delete k m end
  else m.

Definition store_stake_accounts (l : list StakeReward) (b : Bank) : Bank :=
  with_stakes (foldl (fun m x => check_and_store (sr_stake_pubkey x) (sr_account x) m) (stakes b) l) b.

(** ** One partition *)

Definition build_updated_stake_reward (m : gmap Pubkey StakeAccount) (r : PartitionedStakeReward)
    : option (result StakeReward DistributionError) :=
  match m !! ps_stake_pubkey r with
  | None => Some (Err AccountNotFound)
  | Some sa =>
      match checked_add u64_max (a_lamports (sa_account sa)) (ps_stake_reward r) with
      | None => Some (Err ArithmeticOverflow)
      | Some z =>
          if saturating_add u64_max (d_stake (delegation (sa_stake sa))) (ps_stake_reward r)
             =? d_stake (delegation (ps_stake r)) then
            match set_state (with_lamports z (sa_account sa)) (sa_meta sa, ps_stake r, sa_flags sa) with
            | None => Some (Err UnableToSetState)
            | Some a =>
                if ps_stake_reward r <=? i64_max then
                  Some (Ok {| sr_stake_pubkey := ps_stake_pubkey r;
                              sr_info := {| ri_reward_type := Staking; ri_lamports := ps_stake_reward r;
                                            ri_post_balance := a_lamports a;
                                            ri_commission_bps := Some (ps_commission_bps r) |};
                              sr_account := a |})
                else None
            end
          else None
      end
  end.

(** a turn of the loop of [store_stake_accounts_in_partition] *)
Definition store_reward (rs : list (option PartitionedStakeReward)) (m : gmap Pubkey StakeAccount)
    (acc : option DistributionResults) (index : nat) : option DistributionResults :=
  res ← acc; x ← rs !! index; r ← x;
  updated ← build_updated_stake_reward m r;
  Some (match updated with
        | Ok sr => {| lamports_distributed := wrapping_add u64_max (lamports_distributed res) (ps_stake_reward r);
                      lamports_burned := lamports_burned res;
                      updated_stake_rewards := updated_stake_rewards res ++ [sr] |}
        | Err _ => {| lamports_distributed := lamports_distributed res;
                      lamports_burned := wrapping_add u64_max (lamports_burned res) (ps_stake_reward r);
                      updated_stake_rewards := updated_stake_rewards res |}
        end).

Definition store_stake_accounts_in_partition (pr : StartBlockHeightAndPartitionedRewards) (partition_index : Z) (b : Bank)
    : option (DistributionResults * Bank) :=
  indices ← partition_indices pr !! Z.to_nat partition_index;
  res ← foldl (store_reward (dp_rewards pr) (stakes b)) (Some (Build_DistributionResults 0 0 [])) indices;
  Some (res, store_stake_accounts (updated_stake_rewards res) b).

Definition update_reward_history_in_partition (l : list StakeReward) (b : Bank) : Bank :=
  with_rewards (rewards b ++ map (fun x => (sr_stake_pubkey x, sr_info x)) (filter (fun x => 0 < ri_lamports (sr_info x)) l)) b.

Definition distribute_epoch_rewards_in_partition (pr : StartBlockHeightAndPartitionedRewards) (partition_index : Z) (b : Bank)
    : option Bank :=
  '(res, b) ← store_stake_accounts_in_partition pr partition_index b;
  let b := with_capitalization (wrapping_add u64_max (capitalization b) (lamports_distributed res)) b in
  b ← update_epoch_rewards_sysvar (wrapping_add u64_max (lamports_distributed res) (lamports_burned res)) b;
  Some (update_reward_history_in_partition (updated_stake_rewards res) b).

(** ** A block *)

Definition set_epoch_reward_status_calculation (start : Z) (rs : list (option PartitionedStakeReward)) (b : Bank) : Bank :=
  with_status (Active (Calculation {| cp_start := start; cp_rewards := rs |})) b.
Definition set_epoch_reward_status_distribution (start : Z) (rs : list (option PartitionedStakeReward))
    (ix : list (list nat)) (b : Bank) : Bank :=
  with_status (Active (Distribution {| dp_start := start; dp_rewards := rs; partition_indices := ix |})) b.

(** epoch rewards are partitioned at the first block that distributes them *)
Definition enter_distribution (phase : EpochRewardPhase) (b : Bank) : option (StartBlockHeightAndPartitionedRewards * Bank) :=
  match phase with
  | Calculation st =>
      let e := get_epoch_rewards_sysvar b in
      ix ← hash_rewards_into_partitions (cp_rewards st) (er_parent_blockhash e) (Z.to_nat (er_num_partitions e));
      Some ({| dp_start := cp_start st; dp_rewards := cp_rewards st; partition_indices := ix |},
            set_epoch_reward_status_distribution (cp_start st) (cp_rewards st) ix b)
  | Distribution pr => Some (pr, b)
  end.

Definition distribute_partitioned_epoch_rewards (b : Bank) : option Bank :=
  match epoch_reward_status b with
  | Inactive => Some b
  | Active phase =>
      let start := match phase with Calculation st => cp_start st | Distribution st => dp_start st end in
      let height := block_height b in
      if height <? start then Some b
      else
        '(pr, b) ← enter_distribution phase b;
        let n := Z.of_nat (length (partition_indices pr)) in
        let end_exclusive := wrapping_add u64_max start n in
        if get_slots_in_epoch (schedule b) (bank_epoch b) <=? n then None
        else
          b ← (if (start <=? height) && (height <? end_exclusive)
               then distribute_epoch_rewards_in_partition pr (height - start) b else Some b);
          if end_exclusive <=? saturating_add u64_max height 1
          then set_epoch_rewards_sysvar_to_inactive (with_status Inactive b)
          else Some b
  end.

(** ** The first block of an epoch *)

Definition REWARD_CALCULATION_NUM_BLOCKS : Z := 1.

Definition store_commission_accounts_partitioned (l : list (Pubkey * RewardCommission)) (b : Bank) : Bank :=
  with_votes (foldl (fun m kc =>
    let v := commission_account kc.2 in
    <[kc.1 := {| va_owner := va_owner v; va_lamports := va_lamports v + commission_lamports kc.2;
                 va_node_pubkey := va_node_pubkey v; va_commission := va_commission v; va_commission_bps := va_commission_bps v;
                 va_credits := va_credits v; va_epoch_credits := va_epoch_credits v |}]> m) (votes b) l) b.

Definition update_reward_commissions (l : list (Pubkey * RewardCommission)) (b : Bank) : Bank :=
  with_rewards (rewards b ++ map (fun kc : Pubkey * RewardCommission =>
    (kc.1, {| ri_reward_type := Voting; ri_lamports := u64_as_i64 (commission_lamports kc.2);
              ri_post_balance := va_lamports (commission_account kc.2) + commission_lamports kc.2;
              ri_commission_bps := Some (rc_bps kc.2) |})) l) b.

Definition distribute_reward_commissions (r : RewardsCalculation) (pv : PointValue) (b : Bank) : option Bank :=
  let b := store_commission_accounts_partitioned (commission_accounts r) b in
  let b := update_reward_commissions (commission_accounts r) b in
  if wrapping_add u64_max (total_reward_commission_lamports r) (total_stake_rewards r) <=? pv_rewards pv
  then Some (with_capitalization (wrapping_add u64_max (capitalization b) (total_reward_commission_lamports r)) b)
  else None.

Definition begin_partitioned_rewards (r : RewardsCalculation) (pv : PointValue) (b : Bank) : option Bank :=
  b ← distribute_reward_commissions r pv b;
  let start := wrapping_add u64_max (block_height b) REWARD_CALCULATION_NUM_BLOCKS in
  n ← get_reward_distribution_num_blocks (num_rewards r) b;
  let b := set_epoch_reward_status_calculation start (stake_rewards r) b in
  create_epoch_rewards_sysvar (total_reward_commission_lamports r) start n pv b.

(** ** The calculation on the accounts of the bank *)

Context `{!HashMapIter}.

(** [FilteredStakeDelegations::par_iter] *)
Definition filtered_delegations (min_stake_delegation : option Z) (b : Bank) : list (option (Pubkey * StakeStateV2)) :=
  map (fun ks : Pubkey * StakeAccount =>
         match min_stake_delegation with
         | Some least => if d_stake (delegation (sa_stake ks.2)) <? least then None else Some (ks.1, StakeActive (sa_stake ks.2))
         | None => Some (ks.1, StakeActive (sa_stake ks.2))
         end) (hm_iter (stakes b)).

Definition no_rewards : RewardsCalculation * PointValue :=
  ({| commission_accounts := []; total_reward_commission_lamports := 0; stake_rewards := []; num_rewards := 0;
      total_stake_rewards := 0 |}, {| pv_rewards := 0; pv_points := 0 |}).

Definition calculate_rewards_for_partitioning (effective_stake : Delegation -> Z -> Z) (vote_program : Pubkey)
    (split : list DelegationRewards -> work DelegationRewards) (slashing : SlashingState) (feat : RewardFeatures)
    (cached : CachedVoteAccounts) (rewarded_epoch validator_rewards_lamports : Z) (min_stake_delegation : option Z) (b : Bank)
    : option (RewardsCalculation * PointValue) :=
  r ← calculate_validator_rewards effective_stake vote_program split slashing feat cached rewarded_epoch
        validator_rewards_lamports (filtered_delegations min_stake_delegation b);
  Some (default no_rewards r).

(** a block on top of [b] in the same epoch, as far as the rewards go *)
Definition next_block (b : Bank) : Bank :=
  Build_Bank (block_height b + 1) (bank_epoch b) (last_blockhash b) (schedule b) (capitalization b) (epoch_reward_status b)
    (sysvar b) (stakes b) (votes b) [].

(** blocks, each before and after it distributes rewards; [fs] is what happens in the block before each *)
Fixpoint distribution_run (fs : list (Bank -> Bank)) (b : Bank) : option (list (Bank * Bank) * Bank) :=
  match fs with
  | [] => Some ([], b)
  | f :: fs =>
      let b0 := next_block (f b) in
      b1 ← distribute_partitioned_epoch_rewards b0;
      '(t, b') ← distribution_run fs b1;
      Some ((b0, b1) :: t, b')
  end.
End distribution.

(** ** Partitions hold every reward once *)

Section partitions.
Context `{!RewardsSdk}.
Implicit Types (rs : list (option PartitionedStakeReward)) (r : PartitionedStakeReward).

Lemma enumerated_snoc rs x :
  enumerated_rewards_iter (rs ++ [x]) = enumerated_rewards_iter rs ++ match x with Some r => [(length rs, r)] | None => [] end.
Proof.
  unfold enumerated_rewards_iter. rewrite imap_app, omap_app. f_equal. cbn. rewrite Nat.add_0_r. by destruct x.
Qed.

Lemma enumerated_lookup rs i r : (i, r) ∈ enumerated_rewards_iter rs -> rs !! i = Some (Some r).
Proof.
  induction rs as [|x rs IH] using rev_ind; [by intros ?%elem_of_nil|].
  rewrite enumerated_snoc, elem_of_app. intros [Hi|Hi].
  - rewrite lookup_app_l; [by apply IH|]. eapply lookup_lt_Some. by apply IH.
  - destruct x as [r'|]; [|by apply elem_of_nil in Hi]. apply list_elem_of_singleton in Hi. injection Hi as -> ->.
    by rewrite lookup_app_r, Nat.sub_diag.
Qed.

Lemma enumerated_rewards rs : (enumerated_rewards_iter rs).*2 = omap id rs.
Proof.
  induction rs as [|x rs IH] using rev_ind; [done|].
  rewrite enumerated_snoc, fmap_app, omap_app, IH. by destruct x.
Qed.

(** the partition of a reward, and the rewards of a partition *)
Definition partition_of (n : nat) (h : Hash) (r : PartitionedStakeReward) : nat :=
  hash_address_to_partition n h (ps_stake_pubkey r).

Lemma hash_rewards_spec rs h n : (0 < n)%nat ->
  exists ix, hash_rewards_into_partitions rs h n = Some ix /\ length ix = n
  /\ forall p, (p < n)%nat ->
     ix !! p = Some (filter (fun ir => partition_of n h ir.2 = p) (enumerated_rewards_iter rs)).*1.
Proof.
  intros Hn. unfold hash_rewards_into_partitions. induction (enumerated_rewards_iter rs) as [|[i r] l IH] using rev_ind.
  { exists (replicate n []). split; [done|]. split; [apply length_replicate|]. intros p Hp. by apply lookup_replicate_2. }
  destruct IH as (ix & E & Hlen & Hix). rewrite foldl_snoc, E. cbn [mbind option_bind fst snd].
  fold (partition_of n h r). pose proof (hash_in_range n h (ps_stake_pubkey r) Hn) as Hlt. fold (partition_of n h r) in Hlt.
  rewrite (Hix _ Hlt). cbn [mbind option_bind]. eexists. split; [reflexivity|]. rewrite length_insert. split; [done|].
  intros p Hp. rewrite filter_app, fmap_app. destruct (decide (p = partition_of n h r)) as [->|Hne].
  - rewrite list_lookup_insert_eq by lia. f_equal. f_equal. rewrite filter_cons_True by done. by rewrite filter_nil.
  - rewrite list_lookup_insert_ne by done. rewrite (Hix p Hp). rewrite filter_cons_False by (cbn; congruence).
    by rewrite filter_nil, app_nil_r.
Qed.
End partitions.

(** ** One partition *)

(** the sum of the rewards of a list *)
Definition total_of (l : list PartitionedStakeReward) : Z := zsum (map ps_stake_reward l).

Lemma total_of_perm l1 l2 : l1 ≡ₚ l2 -> total_of l1 = total_of l2.
Proof. intros Hp. by apply zsum_perm, Permutation_map. Qed.

Lemma total_of_app l1 l2 : total_of (l1 ++ l2) = total_of l1 + total_of l2.
Proof. unfold total_of. by rewrite map_app, zsum_app. Qed.

Lemma total_of_nonneg l : Forall (fun r => 0 <= ps_stake_reward r) l -> 0 <= total_of l.
Proof. intros Hl. by apply zsum_nonneg, Forall_map. Qed.

Lemma total_of_filter (P : PartitionedStakeReward -> Prop) `{!forall r, Decision (P r)} l :
  total_of l = total_of (filter P l) + total_of (filter (fun r => ~ P r) l).
Proof.
  rewrite <- total_of_app. apply total_of_perm. induction l as [|r l IH]; [done|].
  destruct (decide (P r)).
  - rewrite filter_cons_True, (filter_cons_False (fun r => ~ P r)) by (done || by intros ?). cbn. by apply Permutation_cons.
  - rewrite filter_cons_False, (filter_cons_True (fun r => ~ P r)) by done. rewrite <- Permutation_middle. by apply Permutation_cons.
Qed.

Section one_partition.
Context `{!RewardsSdk}.

(** the program of stakes owns the account, which has lamports, at most [most], and room for the state *)
Definition storable (most : Z) (sa : StakeAccount) : Prop :=
  0 < a_lamports (sa_account sa) <= most /\ a_owner (sa_account sa) = stake_program
  /\ (stake_size <= data_len (sa_account sa))%nat.

(** a reward that can be paid to its account in [m] *)
Definition payable (most : Z) (m : gmap Pubkey StakeAccount) (r : PartitionedStakeReward) : Prop :=
  exists sa, m !! ps_stake_pubkey r = Some sa /\ storable most sa
    /\ d_stake (delegation (sa_stake sa)) + ps_stake_reward r = d_stake (delegation (ps_stake r)).

(** the account once [r] is paid to it *)
Definition pays (m : gmap Pubkey StakeAccount) (r : PartitionedStakeReward) (sa' : StakeAccount) : Prop :=
  exists sa, m !! ps_stake_pubkey r = Some sa /\ sa_stake sa' = ps_stake r
    /\ a_lamports (sa_account sa') = a_lamports (sa_account sa) + ps_stake_reward r
    /\ a_owner (sa_account sa') = stake_program.

(** the account of an updated reward is stored with [sa'] *)
Definition updates (m : gmap Pubkey StakeAccount) (r : PartitionedStakeReward) (x : StakeReward) : Prop :=
  sr_stake_pubkey x = ps_stake_pubkey r /\ exists sa', StakeAccount_try_from (sr_account x) = Some sa'
    /\ sa_account sa' = sr_account x /\ 0 < a_lamports (sr_account x) /\ pays m r sa'.

(** the width of a reward *)
Definition reward_range (pot : Z) (r : PartitionedStakeReward) : Prop :=
  0 <= ps_stake_reward r <= pot /\ d_stake (delegation (ps_stake r)) <= u64_max.

Lemma build_updated_spec pot m r : pot <= i64_max -> reward_range pot r -> payable (u64_max - pot) m r ->
  exists x, build_updated_stake_reward m r = Some (Ok x) /\ updates m r x.
Proof.
  intros Hpot [Hr Hd] (sa & Hm & ((Hl & Hl') & Ho & Hs) & Hst). unfold build_updated_stake_reward. rewrite Hm.
  unfold checked_add. rewrite (proj2 (Z.leb_le _ _)) by lia. unfold saturating_add. rewrite Z.min_r, Hst, Z.eqb_refl by lia.
  destruct (set_state_fits (with_lamports (a_lamports (sa_account sa) + ps_stake_reward r) (sa_account sa))
    (sa_meta sa, ps_stake r, sa_flags sa)) as [a Ha]; [by rewrite (proj2 (proj2 (with_lamports_spec _ _)))|].
  rewrite Ha, (proj2 (Z.leb_le _ _)) by lia. eexists. split; [reflexivity|].
  destruct (set_state_spec _ _ _ Ha) as (Hst' & Hla & Hoa & _). split; [done|]. cbn [sr_account].
  destruct (with_lamports_spec (a_lamports (sa_account sa) + ps_stake_reward r) (sa_account sa)) as (El & Eo & _).
  rewrite El in Hla. rewrite Eo in Hoa. unfold StakeAccount_try_from. rewrite Hoa, Ho, decide_True, Hst' by done.
  cbn [mbind option_bind]. eexists. split; [reflexivity|]. split; [done|]. split; [lia|].
  exists sa. cbn [sa_stake sa_account]. by rewrite Hla, Hoa, Ho.
Qed.

(** the loop over a partition *)
Lemma store_rewards_spec pot rs m l : pot <= i64_max ->
  Forall (fun ir : nat * PartitionedStakeReward => rs !! ir.1 = Some (Some ir.2) /\ reward_range pot ir.2
            /\ payable (u64_max - pot) m ir.2) l ->
  forall res, 0 <= lamports_distributed res -> lamports_distributed res + total_of l.*2 <= u64_max ->
  exists xs, foldl (store_reward rs m) (Some res) l.*1
    = Some {| lamports_distributed := lamports_distributed res + total_of l.*2; lamports_burned := lamports_burned res;
              updated_stake_rewards := updated_stake_rewards res ++ xs |}
  /\ Forall2 (updates m) l.*2 xs.
Proof.
  intros Hpot. induction 1 as [|[i r] l (Hi & Hr & Hp) Hl IH]; intros res H0 Hb.
  { exists []. split; [|by constructor]. cbn. rewrite app_nil_r, Z.add_0_r. by destruct res. }
  destruct (build_updated_spec pot m r Hpot Hr Hp) as (x & Hx & Hu). cbn [fmap list_fmap fst snd] in *.
  assert (Hcons : total_of (r :: l.*2) = ps_stake_reward r + total_of l.*2) by done.
  assert (Hn : 0 <= total_of l.*2).
  { apply total_of_nonneg. apply Forall_fmap. eapply Forall_impl; [exact Hl|]. intros [j y] (_ & [[? ?] ?] & _). done. }
  destruct Hr as [Hr _]. cbn [foldl]. unfold store_reward at 2. cbn [mbind option_bind]. rewrite Hi. cbn [mbind option_bind].
  rewrite Hx. cbn [mbind option_bind]. rewrite wrapping_add_small by lia.
  destruct (IH {| lamports_distributed := lamports_distributed res + ps_stake_reward r; lamports_burned := lamports_burned res;
                  updated_stake_rewards := updated_stake_rewards res ++ [x] |}) as (xs & E & Hxs);
    [cbn [lamports_distributed]; lia|cbn [lamports_distributed]; lia|].
  rewrite E. exists (x :: xs). cbn [lamports_distributed lamports_burned updated_stake_rewards]. split; [|by constructor].
  rewrite <- app_assoc, Hcons, Z.add_assoc. done.
Qed.

(** storing the updated accounts *)
Lemma store_stake_accounts_lookup m R xs : Forall2 (updates m) R xs -> NoDup (map ps_stake_pubkey R) ->
  forall m0, let m' := foldl (fun m x => check_and_store (sr_stake_pubkey x) (sr_account x) m) m0 xs in
  (forall r, r ∈ R -> exists sa', m' !! ps_stake_pubkey r = Some sa' /\ pays m r sa')
  /\ (forall k, k ∉ map ps_stake_pubkey R -> m' !! k = m0 !! k).
Proof.
  induction 1 as [|r x R xs (Hk & sa' & Ht & Hacc & Hpos & Hpay) HR IH]; intros Hnd m0.
  { split; [by intros r ?%elem_of_nil|done]. }
  apply NoDup_cons in Hnd as [Hni Hnd]. cbn [foldl].
  assert (E : check_and_store (sr_stake_pubkey x) (sr_account x) m0 = <[ps_stake_pubkey r := sa']> m0).
  { unfold check_and_store. rewrite (proj2 (Z.eqb_neq _ _)) by lia. pose proof Hpay as (sa & _ & _ & _ & Ho).
    rewrite Hacc in Ho. rewrite decide_True, Ht, Hk by done. done. }
  rewrite E. destruct (IH Hnd (<[ps_stake_pubkey r := sa']> m0)) as [IH1 IH2]. split.
  - intros r' [->|Hr']%elem_of_cons; [|by apply IH1]. exists sa'. split; [|done].
    rewrite IH2 by done. by rewrite lookup_insert_eq.
  - intros k [Hne Hk']%not_elem_of_cons. rewrite IH2 by done. by rewrite lookup_insert_ne.
Qed.
End one_partition.

(** ** A block *)

Section blocks.
Context `{!RewardsSdk}.

(** what may happen in a block besides the distribution: the stakes are left
    as they are, as the stake program does while rewards are active; the
    balances of the accounts may change *)
Record keeps (most : Z) (f : Bank -> Bank) : Prop := {
  k_height : forall b, block_height (f b) = block_height b;
  k_epoch : forall b, bank_epoch (f b) = bank_epoch b;
  k_schedule : forall b, schedule (f b) = schedule b;
  k_status : forall b, epoch_reward_status (f b) = epoch_reward_status b;
  k_sysvar : forall b, sysvar (f b) = sysvar b;
  k_stakes : forall b k, sa_stake <$> stakes (f b) !! k = sa_stake <$> stakes b !! k;
  k_storable : forall b k sa sa', stakes b !! k = Some sa -> stakes (f b) !! k = Some sa' -> storable most sa -> storable most sa'
}.

Lemma keeps_lookup most f b k sa : keeps most f -> stakes b !! k = Some sa ->
  exists sa', stakes (f b) !! k = Some sa' /\ sa_stake sa' = sa_stake sa /\ (storable most sa -> storable most sa').
Proof.
  intros Hf Hsa. pose proof (k_stakes _ _ Hf b k) as E. rewrite Hsa in E. apply fmap_Some in E as (sa' & Hsa' & E).
  exists sa'. split; [done|]. split; [done|]. by apply (k_storable _ _ Hf b k).
Qed.

Context (rs : list (option PartitionedStakeReward)) (pot comm pts start : Z) (n : nat) (h : Hash)
  (e : Z) (sch : EpochSchedule) (ix : list (list nat)) (i0 : nat).
Local Abbreviation R := (omap id rs).
Local Abbreviation part := (partition_of n h).
Context (Hkeys : NoDup (map ps_stake_pubkey R)) (Hrange : Forall (reward_range pot) R)
  (Hcomm : 0 <= comm) (Hpot : comm + total_of R <= pot) (Hmax : pot <= i64_max)
  (Hn : (0 < n)%nat) (Hslots : Z.of_nat n < get_slots_in_epoch sch e)
  (Hstart : 0 <= start) (Hend : start + Z.of_nat n <= u64_max)
  (Hix : hash_rewards_into_partitions rs h n = Some ix).

Local Abbreviation pr := {| dp_start := start; dp_rewards := rs; partition_indices := ix |}.

(** before block [i]; the rewards are partitioned by the first block or by a restart *)
Definition status_at (i : nat) (st : EpochRewardStatus) : Prop :=
  if decide (i < n)%nat then
    st = Active (Distribution pr) \/ i = 0%nat /\ st = Active (Calculation {| cp_start := start; cp_rewards := rs |})
  else st = Inactive.

Definition sysvar_at (i : nat) (active : bool) : EpochRewards :=
  Build_EpochRewards start (Z.of_nat n) h pts pot (comm + total_of (filter (fun r => part r < i)%nat R)) active.

(** the stakes when the partitions from [i0] to [i] are paid *)
Definition stakes_at (i : nat) (m : gmap Pubkey StakeAccount) : Prop :=
  forall r, r ∈ R -> (i0 <= part r)%nat -> if decide (part r < i)%nat
    then exists sa, m !! ps_stake_pubkey r = Some sa /\ sa_stake sa = ps_stake r
    else payable (u64_max - pot) m r.

Record paid_until (i : nat) (b : Bank) : Prop := {
  pu_height : block_height b = start + Z.of_nat i - 1;
  pu_epoch : bank_epoch b = e;
  pu_schedule : schedule b = sch;
  pu_status : status_at i (epoch_reward_status b);
  pu_sysvar : sysvar b = Some (sysvar_at i (bool_decide (i < n)%nat));
  pu_from : (i0 <= i)%nat;
  pu_stakes : stakes_at i (stakes b)
}.

(** what the [i]th block of the distribution does to the accounts *)
Record pays_partition (i : nat) (b0 b1 : Bank) : Prop := {
  pp_capitalization : capitalization b1 = wrapping_add u64_max (capitalization b0) (total_of (filter (fun r => part r = i) R));
  pp_paid : forall r, r ∈ R -> part r = i -> exists sa', stakes b1 !! ps_stake_pubkey r = Some sa' /\ pays (stakes b0) r sa';
  pp_others : forall k, k ∉ map ps_stake_pubkey (filter (fun r => part r = i) R) -> stakes b1 !! k = stakes b0 !! k
}.

Lemma total_of_step i l : total_of (filter (fun r => part r < S i)%nat l)
  = total_of (filter (fun r => part r < i)%nat l) + total_of (filter (fun r => part r = i) l).
Proof.
  induction l as [|r l IH]; [done|]. assert (Hc : forall l, total_of (r :: l) = ps_stake_reward r + total_of l) by done.
  rewrite !filter_cons. repeat case_decide; rewrite ?Hc; lia.
Qed.

Lemma total_of_filter_le (P : PartitionedStakeReward -> Prop) `{!forall r, Decision (P r)} : 0 <= total_of (filter P R) <= total_of R.
Proof.
  assert (Hp : Forall (fun r => 0 <= ps_stake_reward r) R) by (eapply Forall_impl; [exact Hrange|]; by intros r [[? ?] ?]).
  assert (Hq : forall (Q : PartitionedStakeReward -> Prop) `{!forall r, Decision (Q r)}, 0 <= total_of (filter Q R)).
  { intros Q HQ. apply total_of_nonneg, Forall_forall. intros r [_ Hr]%list_elem_of_filter.
    by apply (proj1 (Forall_forall _ _) Hp). }
  rewrite (total_of_filter P R). pose proof (Hq P _). pose proof (Hq (fun r => ~ P r) _). lia.
Qed.

Lemma filter_snd (P : PartitionedStakeReward -> Prop) `{!forall r, Decision (P r)}
    `{!forall ir : nat * PartitionedStakeReward, Decision (P ir.2)} (l : list (nat * PartitionedStakeReward)) :
  (filter (fun ir => P ir.2) l).*2 = filter P l.*2.
Proof. induction l as [|[i r] l IH]; [done|]. cbn [fmap list_fmap]. rewrite !filter_cons. cbn [snd].
  do 2 case_decide; cbn; by rewrite ?IH. Qed.

Lemma filter_keys (P : PartitionedStakeReward -> Prop) `{!forall r, Decision (P r)} :
  NoDup (map ps_stake_pubkey (filter P R)).
Proof.
  eapply sublist_NoDup; [exact Hkeys|]. apply fmap_sublist, sublist_filter.
Qed.

(** the rewards of the [i]th partition, with their indices *)
Local Abbreviation indexed i := (filter (fun ir => part ir.2 = i) (enumerated_rewards_iter rs)).

Lemma indexed_rewards i : (indexed i).*2 = filter (fun r => part r = i) R.
Proof. rewrite <- enumerated_rewards. apply (filter_snd (fun r => part r = i)). Qed.

Lemma in_partition i r : r ∈ filter (fun r => part r = i) R <-> r ∈ R /\ part r = i.
Proof. rewrite list_elem_of_filter. tauto. Qed.

Lemma indices_at i : (i < n)%nat -> ix !! i = Some (indexed i).*1 /\ length ix = n.
Proof.
  intros Hi. destruct (hash_rewards_spec rs h n Hn) as (ix' & E & Hl & Hp). assert (ix' = ix) as -> by congruence. by split; [apply Hp|].
Qed.

(** a stake keeps its state unless it is paid *)
Lemma stakes_at_step i m m' : stakes_at i m ->
  (forall r, r ∈ R -> part r = i -> exists sa', m' !! ps_stake_pubkey r = Some sa' /\ pays m r sa') ->
  (forall k, k ∉ map ps_stake_pubkey (filter (fun r => part r = i) R) -> m' !! k = m !! k) -> stakes_at (S i) m'.
Proof.
  intros Hm Hp Ho r Hr H0. destruct (decide (part r = i)) as [Hi|Hi].
  { rewrite decide_True by lia. destruct (Hp r Hr Hi) as (sa' & Hs & sa & _ & Hst & _). by exists sa'. }
  assert (E : m' !! ps_stake_pubkey r = m !! ps_stake_pubkey r).
  { apply Ho. intros (r' & Hk & Hr')%list_elem_of_fmap. apply in_partition in Hr' as [Hr' Hi'].
    assert (r = r') as <-; [|done]. apply list_elem_of_lookup in Hr as [j Hj], Hr' as [j' Hj'].
    assert (j = j') as <-; [|congruence].
    eapply (NoDup_lookup _ j j' (ps_stake_pubkey r) Hkeys); rewrite list_lookup_fmap, ?Hj, ?Hj'; cbn; congruence. }
  specialize (Hm r Hr H0). destruct (decide (part r < i)%nat) as [Hlt|Hlt].
  - rewrite decide_True by lia. destruct Hm as (sa & Hs & Hst). exists sa. by rewrite E.
  - rewrite decide_False by lia. destruct Hm as (sa & Hs & Hst). exists sa. by rewrite E.
Qed.

(** distributing a partition *)
Lemma partition_paid i b : (i0 <= i < n)%nat -> sysvar b = Some (sysvar_at i true) -> stakes_at i (stakes b) ->
  exists b', distribute_epoch_rewards_in_partition pr (Z.of_nat i) b = Some b'
  /\ pays_partition i b b' /\ stakes_at (S i) (stakes b') /\ sysvar b' = Some (sysvar_at (S i) true)
  /\ block_height b' = block_height b /\ bank_epoch b' = bank_epoch b /\ schedule b' = schedule b
  /\ epoch_reward_status b' = epoch_reward_status b.
Proof.
  intros [H0 Hi] Hsys Hst. destruct (indices_at i Hi) as [Hidx _]. pose proof (total_of_filter_le (fun r => part r = i)) as Ht.
  pose proof (total_of_filter_le (fun r => part r < i)%nat) as Ht'. pose proof (total_of_filter_le (fun r => part r < S i)%nat) as Ht''.
  assert (Hall : Forall (fun ir : nat * PartitionedStakeReward => rs !! ir.1 = Some (Some ir.2) /\ reward_range pot ir.2
            /\ payable (u64_max - pot) (stakes b) ir.2) (indexed i)).
  { apply Forall_forall. intros [j r] [Hp Hj]%list_elem_of_filter. cbn [fst snd] in *.
    assert (Hr : r ∈ R). { rewrite <- enumerated_rewards. change r with (j, r).2. by apply list_elem_of_fmap_2. }
    split; [by apply enumerated_lookup|]. split; [by apply (proj1 (Forall_forall _ _) Hrange)|].
    specialize (Hst r Hr ltac:(lia)). by rewrite decide_False in Hst by lia. }
  unfold distribute_epoch_rewards_in_partition, store_stake_accounts_in_partition. cbn [partition_indices dp_rewards].
  rewrite Nat2Z.id, Hidx. cbn [mbind option_bind].
  destruct (store_rewards_spec pot rs (stakes b) _ Hmax Hall (Build_DistributionResults 0 0 [])) as (xs & E & Hxs);
    [done|cbn [lamports_distributed]; rewrite indexed_rewards; lia|].
  rewrite E. rewrite indexed_rewards in *.
  cbn [mbind option_bind lamports_distributed lamports_burned updated_stake_rewards]. rewrite app_nil_l, Z.add_0_l.
  destruct (store_stake_accounts_lookup _ _ _ Hxs (filter_keys _) (stakes b)) as [Hpaid Hoth].
  unfold update_epoch_rewards_sysvar, get_epoch_rewards_sysvar. cbn [with_capitalization store_stake_accounts with_stakes sysvar].
  rewrite Hsys. cbn [default from_option id]. unfold sysvar_at at 1. cbn [er_active].
  rewrite (wrapping_add_small u64_max (total_of (filter (fun r => part r = i) R)) 0), Z.add_0_r by lia.
  rewrite distribute_spec; cycle 1.
  { lia. }
  { cbn [sysvar_at er_distributed_rewards er_total_rewards]. rewrite <- Z.add_assoc, <- total_of_step. lia. }
  { cbn [sysvar_at er_total_rewards]. lia. }
  cbn [mbind option_bind]. eexists. split; [reflexivity|].
  assert (Hp : forall r, r ∈ R -> part r = i -> exists sa', foldl (fun m x => check_and_store (sr_stake_pubkey x) (sr_account x) m)
    (stakes b) xs !! ps_stake_pubkey r = Some sa' /\ pays (stakes b) r sa') by (intros r Hr Hri; by apply Hpaid, in_partition).
  split; [by split|]. split; [by apply (stakes_at_step i (stakes b))|]. split; [|done].
  cbn. unfold with_distributed, sysvar_at. cbn. by rewrite total_of_step, Z.add_assoc.
Qed.

Lemma status_at_active i st : (i < n)%nat -> status_at i st -> exists phase, st = Active phase
  /\ match phase with Calculation st => cp_start st | Distribution st => dp_start st end = start
  /\ forall b, epoch_reward_status b = Active phase -> sysvar b = Some (sysvar_at i true) ->
     enter_distribution phase b = Some (pr, with_status (Active (Distribution pr)) b).
Proof.
  intros Hi. unfold status_at. rewrite decide_True by done. intros [->|[-> ->]]; eexists; (split; [reflexivity|]); (split; [done|]);
    intros b Hb Hs; cbn [enter_distribution].
  - destruct b. cbn in *. by subst.
  - unfold get_epoch_rewards_sysvar. rewrite Hs.
    cbn [default from_option id sysvar_at er_parent_blockhash er_num_partitions cp_rewards cp_start]. by rewrite Nat2Z.id, Hix.
Qed.

Lemma block_pays i f b : (i < n)%nat -> keeps (u64_max - pot) f -> paid_until i b ->
  exists b1, distribute_partitioned_epoch_rewards (next_block (f b)) = Some b1
  /\ pays_partition i (next_block (f b)) b1 /\ paid_until (S i) b1.
Proof.
  intros Hi Hf [P1 P2 P3 P4 P5 P0 P6]. pose proof Hf as [K1 K2 K3 K4 K5 _ _]. rewrite bool_decide_true in P5 by done.
  destruct (status_at_active i _ Hi P4) as (phase & Hph & Hs & Henter).
  assert (Hst : stakes_at i (stakes (next_block (f b)))).
  { intros r Hr H0. specialize (P6 r Hr H0). cbn [next_block stakes]. case_decide.
    - destruct P6 as (sa & Hsa & E). destruct (keeps_lookup _ _ _ _ _ Hf Hsa) as (sa' & Hsa' & E' & _). exists sa'. by rewrite E'.
    - destruct P6 as (sa & Hsa & Hb & E). destruct (keeps_lookup _ _ _ _ _ Hf Hsa) as (sa' & Hsa' & E' & Hs').
      exists sa'. rewrite E'. by split; [|split; [apply Hs'|]]. }
  set (b0 := next_block (f b)) in *.
  assert (Hb0 : block_height b0 = start + Z.of_nat i /\ bank_epoch b0 = e /\ schedule b0 = sch
    /\ epoch_reward_status b0 = Active phase /\ sysvar b0 = Some (sysvar_at i true)).
  { unfold b0. cbn [next_block block_height bank_epoch schedule epoch_reward_status sysvar].
    rewrite K1, K2, K3, K4, K5, P1, Hph. repeat split; try done. lia. }
  destruct Hb0 as (H1 & H2 & H3 & H4 & H5). clearbody b0.
  unfold distribute_partitioned_epoch_rewards. rewrite H4, Hs, H1. rewrite (proj2 (Z.ltb_ge _ _)) by lia.
  rewrite (Henter b0 H4 H5). cbn [mbind option_bind partition_indices]. destruct (indices_at i Hi) as [_ Hlen]. rewrite Hlen.
  cbn [with_status schedule bank_epoch]. rewrite H2, H3, (proj2 (Z.leb_gt (get_slots_in_epoch sch e) _) Hslots).
  rewrite wrapping_add_small by lia.
  rewrite (proj2 (Z.leb_le start (start + Z.of_nat i))), (proj2 (Z.ltb_lt (start + Z.of_nat i) _)) by lia. cbn [andb].
  replace (start + Z.of_nat i - start) with (Z.of_nat i) by lia.
  destruct (partition_paid i (with_status (Active (Distribution pr)) b0) (conj P0 Hi)) as (b' & E & [Q1 Q2 Q3] & Q4 & Q5 & Q6 & Q7 & Q8 & Q9);
    [done|done|].
  rewrite E. cbn [mbind option_bind]. cbn [with_status capitalization stakes block_height bank_epoch schedule epoch_reward_status] in *.
  unfold saturating_add. rewrite Z.min_r by lia. destruct (Z.leb_spec (start + Z.of_nat n) (start + Z.of_nat i + 1)) as [Hlast|Hmore].
  - unfold set_epoch_rewards_sysvar_to_inactive, get_epoch_rewards_sysvar. cbn [with_status sysvar]. rewrite Q5. cbn [default from_option id].
    pose proof (total_of_filter_le (fun r => part r < S i)%nat). rewrite (proj2 (Z.leb_le _ _)) by (cbn; lia).
    eexists. split; [reflexivity|]. split; [by split|]. split; cbn [with_sysvar with_status block_height bank_epoch schedule epoch_reward_status sysvar stakes]; try congruence.
    + lia.
    + unfold status_at. by rewrite decide_False by lia.
    + by rewrite bool_decide_false by lia.
    + lia.
    + done.
  - eexists. split; [reflexivity|]. split; [by split|]. split; try congruence; [lia| | |lia|done].
    + rewrite Q9. unfold status_at. rewrite decide_True by lia. by left.
    + by rewrite Q5, bool_decide_true by lia.
Qed.

(** the lamports an account receives in a block of the distribution *)
Definition lamports_at (k : Pubkey) (b : Bank) : Z :=
  match stakes b !! k with Some sa => a_lamports (sa_account sa) | None => 0 end.
Definition received (k : Pubkey) (bb : Bank * Bank) : Z := lamports_at k bb.2 - lamports_at k bb.1.

Lemma pays_received i b0 b1 r : pays_partition i b0 b1 -> r ∈ R ->
  received (ps_stake_pubkey r) (b0, b1) = if decide (part r = i) then ps_stake_reward r else 0.
Proof.
  intros [_ Hp Ho] Hr. unfold received, lamports_at. cbn [fst snd]. case_decide as Hi.
  - destruct (Hp r Hr Hi) as (sa' & Hs' & sa & Hs & _ & Hl & _). rewrite Hs, Hs'. lia.
  - rewrite Ho; [lia|]. intros (r' & Hk & Hr')%list_elem_of_fmap. apply in_partition in Hr' as [Hr' Hi'].
    rewrite <- Hi' in Hi. apply Hi. unfold partition_of. by rewrite Hk.
Qed.

Lemma received_total i b0 b1 : pays_partition i b0 b1 ->
  zsum (map (fun r => received (ps_stake_pubkey r) (b0, b1)) R) = total_of (filter (fun r => part r = i) R).
Proof.
  intros Hp. assert (Hin : forall r, r ∈ R -> received (ps_stake_pubkey r) (b0, b1)
    = if decide (part r = i) then ps_stake_reward r else 0) by (intros r Hr; by apply pays_received).
  revert Hin. clear. induction R as [|r l IH]; intros Hin; [done|]. rewrite filter_cons. cbn [map zsum foldr]. change (foldr Z.add 0) with zsum.
  rewrite IH by (intros r' Hr'; apply Hin; by right). rewrite (Hin r) by left. unfold total_of. by case_decide.
Qed.

Lemma run_pays fs : forall i b, Forall (keeps (u64_max - pot)) fs -> (length fs + i <= n)%nat -> paid_until i b ->
  exists t b', distribution_run fs b = Some (t, b') /\ paid_until (length fs + i) b'
  /\ (forall r, r ∈ R -> zsum (map (received (ps_stake_pubkey r)) t)
       = if decide (i <= part r < length fs + i)%nat then ps_stake_reward r else 0)
  /\ Forall (fun bb => capitalization bb.2
       = wrapping_add u64_max (capitalization bb.1) (zsum (map (fun r => received (ps_stake_pubkey r) bb) R))) t
  /\ (forall k, k ∉ map ps_stake_pubkey R -> Forall (fun bb => stakes bb.2 !! k = stakes bb.1 !! k) t)
  /\ (forall k, (k ∈ map ps_stake_pubkey R -> ~ (i <= hash_address_to_partition n h k < length fs + i)%nat) ->
       sa_stake <$> stakes b' !! k = sa_stake <$> stakes b !! k).
Proof.
  induction fs as [|f fs IH]; intros i b Hf Hlen Hb.
  { exists [], b. split; [done|]. split; [done|]. split; [|done]. intros r Hr. by rewrite decide_False by (cbn; lia). }
  apply Forall_cons in Hf as [Hf Hfs]. cbn [length] in Hlen.
  destruct (block_pays i f b ltac:(lia) Hf Hb) as (b1 & E & Hp & Hb1).
  destruct (IH (S i) b1 Hfs ltac:(lia) Hb1) as (t & b' & Et & Hb' & Hr & Hc & Ho & Hk).
  exists ((next_block (f b), b1) :: t), b'. cbn [distribution_run]. rewrite E. cbn [mbind option_bind]. rewrite Et.
  rewrite <- plus_n_Sm in *. cbn [length plus].
  split; [done|]. split; [done|]. split; [|split; [|split]].
  - intros r Hin. cbn [map zsum foldr]. change (foldr Z.add 0) with zsum. rewrite (Hr r Hin), (pays_received i _ _ r Hp Hin).
    repeat case_decide; lia.
  - constructor; [|done]. cbn [fst snd]. rewrite (received_total i _ _ Hp). apply (pp_capitalization _ _ _ Hp).
  - intros k Hk'. constructor; [|by apply Ho]. cbn [fst snd]. apply (pp_others _ _ _ Hp).
    intros (r & -> & Hr')%list_elem_of_fmap. apply Hk', list_elem_of_fmap_2. by apply in_partition in Hr' as [? _].
  - intros k Hk'. rewrite Hk by (intros Hin; specialize (Hk' Hin); lia).
    rewrite (pp_others _ _ _ Hp); [apply (k_stakes _ _ Hf)|].
    intros (r & -> & Hr')%list_elem_of_fmap. apply in_partition in Hr' as [Hin Hr']. unfold partition_of in Hr'.
    specialize (Hk' (list_elem_of_fmap_2 ps_stake_pubkey _ _ Hin)). lia.
Qed.
End blocks.

(** ** From the calculation to the last partition *)

Section epoch.
Context `{!RewardsSdk} `{!HashMapIter}.

(** what a schedule promises of its epochs *)
Record schedule_ok (s : EpochSchedule) : Prop := {
  so_stores : 0 < stake_account_stores_per_block s;
  so_slots : forall e, 32 <= get_slots_in_epoch s e;
  so_normal : forall e, first_normal_epoch s <= e -> get_slots_in_epoch s e = slots_per_epoch s;
  so_warmup : warmup s = false -> first_normal_epoch s = 0
}.

(** one partition per block, in less than an epoch *)
Lemma num_blocks_spec num b : schedule_ok (schedule b) -> 0 <= bank_epoch b ->
  exists n, get_reward_distribution_num_blocks num b = Some (Z.of_nat n) /\ (0 < n)%nat
  /\ Z.of_nat n < get_slots_in_epoch (schedule b) (bank_epoch b).
Proof.
  intros [H1 H2 H3 H4] He. unfold get_reward_distribution_num_blocks. specialize (H2 (bank_epoch b)).
  destruct (warmup (schedule b) && (bank_epoch b <? first_normal_epoch (schedule b))) eqn:Hw; [exists 1%nat; split; [done|lia]|].
  rewrite (proj2 (Z.eqb_neq _ _)) by lia.
  assert (Hs : get_slots_in_epoch (schedule b) (bank_epoch b) = slots_per_epoch (schedule b)).
  { apply H3. apply andb_false_iff in Hw as [Hw|Hw]; [rewrite (H4 Hw); lia|by apply Z.ltb_ge]. }
  set (c := Z.max (num / _ + _) 1). exists (Z.to_nat (Z.min c (Z.max (slots_per_epoch (schedule b) / 10) 1))).
  rewrite Hs in *. pose proof (Z.div_lt (slots_per_epoch (schedule b)) 10 ltac:(lia) ltac:(lia)).
  rewrite Z2Nat.id by lia. split; [done|lia].
Qed.

Lemma calculate_stake_rewards_credits effective_stake epoch s pv bps v c :
  calculate_stake_rewards effective_stake epoch s pv bps v = Some (Some c) ->
  cr_credits_observed c = new_credits_observed (calculate_stake_points_and_credits effective_stake s v).
Proof.
  unfold calculate_stake_rewards. case_if; [by intros [= <-]|]. repeat (case_if; [done|]).
  destruct (checked_mul _ _ _); [|done]. cbn [mbind option_bind]. destruct (try_into_u64 _); [|done]. cbn [mbind option_bind].
  case_if; [done|]. destruct (commission_split _ _) as [[voter staker] is_split]. case_if; [done|]. by intros [= <-].
Qed.

(** the stake a redeemed delegation ends up with *)
Lemma redeem_delegation_stake effective_stake slashing feat cached epoch pv k st x :
  redeem_delegation_rewards effective_stake slashing feat cached epoch pv k st = Some (Some x) ->
  ps_stake_pubkey (dr_stake_reward x) = k /\ exists s, st = StakeActive s
  /\ d_stake (delegation (ps_stake (dr_stake_reward x)))
     = wrapping_add u64_max (d_stake (delegation s)) (ps_stake_reward (dr_stake_reward x))
  /\ exists v, distribution_epoch_vote_accounts cached !! voter_pubkey (delegation s) = Some v
     /\ voter_pubkey (delegation (ps_stake (dr_stake_reward x))) = voter_pubkey (delegation s)
     /\ credits_observed (ps_stake (dr_stake_reward x))
        = new_credits_observed (calculate_stake_points_and_credits effective_stake s v).
Proof.
  unfold redeem_delegation_rewards. destruct st as [| |s|]; try done. cbn [delegation_voter mbind option_bind].
  destruct (distribution_epoch_vote_accounts cached !! _) as [v|] eqn:Ev; [|done]. cbn [mbind option_bind].
  case_if; [done|]. cbn [redeem_rewards mbind option_bind]. unfold redeem_stake_rewards.
  destruct (calculate_stake_rewards _ _ _ _ _ _) as [[c|]|] eqn:Ec; cbn [mbind option_bind ok_or]; [|done|done].
  intros [= <-]. split; [done|]. exists s. split; [done|]. split; [done|]. exists v. split; [done|]. split; [done|].
  cbn [dr_stake_reward ps_stake credits_observed]. by eapply calculate_stake_rewards_credits.
Qed.

(** rewards are for different accounts of the bank, which can take them *)
Definition due (b : Bank) (r : PartitionedStakeReward) : Prop :=
  exists sa, stakes b !! ps_stake_pubkey r = Some sa
  /\ d_stake (delegation (ps_stake r)) = wrapping_add u64_max (d_stake (delegation (sa_stake sa))) (ps_stake_reward r).

Lemma redeemed_due effective_stake slashing feat cached epoch pv least l rs (b : Bank) :
  Forall (fun ks : Pubkey * StakeAccount => stakes b !! ks.1 = Some ks.2) l ->
  redeem_all effective_stake slashing feat cached epoch pv
    (map (fun ks : Pubkey * StakeAccount =>
         match least with
         | Some least => if d_stake (delegation (sa_stake ks.2)) <? least then None else Some (ks.1, StakeActive (sa_stake ks.2))
         | None => Some (ks.1, StakeActive (sa_stake ks.2))
         end) l) = Some rs ->
  Forall (due b) (omap id (map (fmap dr_stake_reward) rs))
  /\ map ps_stake_pubkey (omap id (map (fmap dr_stake_reward) rs)) `sublist_of` l.*1.
Proof.
  intros Hl. revert rs. induction Hl as [|[k sa] l Hk Hl IH]; intros rs.
  { unfold redeem_all. cbn. intros [= <-]. by split; [|constructor]. }
  cbn [map]. intros Hrs. apply mapM_Some in Hrs. apply Forall2_cons_inv_l in Hrs as (x & rs' & Hx & Hrs' & ->).
  destruct (IH rs') as [IH1 IH2]; [by apply mapM_Some|]. destruct x as [x|]; [|by split; [|apply sublist_cons]].
  cbn [fst snd] in *.
  assert (Hx' : redeem_delegation_rewards effective_stake slashing feat cached epoch pv k (StakeActive (sa_stake sa)) = Some (Some x)).
  { destruct least as [z|]; [destruct (_ <? z); done|done]. }
  apply redeem_delegation_stake in Hx' as (Hkey & s & [= <-] & Hst & _).
  change (omap id (map (fmap dr_stake_reward) (Some x :: rs'))) with (dr_stake_reward x :: omap id (map (fmap dr_stake_reward) rs')).
  split; [constructor; [|done]|].
  - exists sa. by rewrite Hkey.
  - cbn [map fmap list_fmap fst]. rewrite Hkey. by apply sublist_skip.
Qed.

(** stake accounts that can take a reward out of [pot] *)
Definition stakes_ok (pot : Z) (m : gmap Pubkey StakeAccount) : Prop :=
  forall k sa, m !! k = Some sa -> storable (u64_max - pot) sa
    /\ 0 <= d_stake (delegation (sa_stake sa)) <= u64_max - pot.

(** a calculation that can be distributed *)
Record distributable (b : Bank) (r : RewardsCalculation) (pv : PointValue) : Prop := {
  di_pot : pv_rewards pv <= i64_max;
  di_stakes : stakes_ok (pv_rewards pv) (stakes b);
  di_keys : NoDup (map ps_stake_pubkey (omap id (stake_rewards r)));
  di_due : Forall (due b) (omap id (stake_rewards r));
  di_nonneg : Forall (fun x => 0 <= ps_stake_reward x) (omap id (stake_rewards r));
  di_commissions : 0 <= total_reward_commission_lamports r;
  di_total : total_stake_rewards r = total_of (omap id (stake_rewards r));
  di_within : total_reward_commission_lamports r + total_stake_rewards r <= pv_rewards pv
}.

Lemma omap_stake_rewards (rs : list (option DelegationRewards)) : omap id (map (fmap dr_stake_reward) rs) = map dr_stake_reward (omap id rs).
Proof.
  induction rs as [|[x|] rs IH]; [done| |]; [|done].
  change (omap id (map (fmap dr_stake_reward) (Some x :: rs))) with (dr_stake_reward x :: omap id (map (fmap dr_stake_reward) rs)).
  by rewrite IH.
Qed.

Lemma calculation_distributable effective_stake vote_program split slashing feat cached epoch pot least b :
  cached_ok vote_program cached -> 0 <= pot <= i64_max -> (forall l, work_items (split l) ≡ₚ l) ->
  zsum (map (delegation_points effective_stake vote_program cached) (filtered_delegations least b)) <= u128_max ->
  Forall (fun d => delegation_points effective_stake vote_program cached d * pot <= u128_max) (filtered_delegations least b) ->
  stakes_ok pot (stakes b) ->
  exists r pv, calculate_rewards_for_partitioning effective_stake vote_program split slashing feat cached epoch pot least b
    = Some (r, pv) /\ pv_rewards pv <= pot
    /\ (total_reward_commission_lamports r = commissions_total (commission_accounts r) /\ commissions_due cached (commission_accounts r))
    /\ distributable b r pv.
Proof.
  intros Hok Hpot Hsplit HP Hmul Hst. unfold calculate_rewards_for_partitioning.
  destruct (validator_rewards_facts effective_stake vote_program split slashing feat cached epoch pot (filtered_delegations least b)
    Hok ltac:(lia) Hsplit HP Hmul) as [[_ E]|(r & rs & Hpos & E & Hrs & Hspec & Hl & _ & Ht & Hc & H1 & H2 & H3 & Hcd)];
    rewrite E; cbn [mbind option_bind default].
  { do 2 eexists. split; [reflexivity|]. split; [cbn; lia|]. split.
    { split; [done|]. split; [constructor|]. by intros k c ?%not_elem_of_nil. }
    split; try done; [|by constructor].
    intros k sa Hk. destruct (Hst k sa Hk) as [((? & ?) & ? & ?) ?]. cbn [pv_rewards]. by repeat split; try lia. }
  do 2 eexists. split; [reflexivity|]. split; [done|]. split; [done|].
  assert (Hin : Forall (fun ks : Pubkey * StakeAccount => stakes b !! ks.1 = Some ks.2) (hm_iter (stakes b))).
  { apply Forall_forall. intros [k sa] Hk. rewrite hm_iter_perm in Hk. by apply elem_of_map_to_list in Hk. }
  destruct (redeemed_due _ _ _ _ _ _ _ _ _ b Hin Hrs) as [Hdue Hsub]. rewrite <- Hl in Hdue, Hsub.
  assert (Hr : Forall reward_ok (omap id rs)) by (eapply rewards_facts; [| |exact Hspec]; cbn; lia).
  assert (Homap : omap id (stake_rewards r) = map dr_stake_reward (omap id rs)) by (rewrite Hl; apply omap_stake_rewards).
  split; cbn [pv_rewards]; try done; try lia.
  - eapply sublist_NoDup; [|exact Hsub]. rewrite hm_iter_perm. apply NoDup_fst_map_to_list.
  - rewrite Homap. apply Forall_map. eapply Forall_impl; [exact Hr|]. by intros x [? _].
  - rewrite Homap, Ht. unfold total_of, stakers_total. by rewrite map_map.
Qed.

(** the vote account of a commission with the commission on top of its balance *)
Definition commission_paid (c : RewardCommission) : VoteAccount :=
  let v := commission_account c in
  {| va_owner := va_owner v; va_lamports := va_lamports v + commission_lamports c;
     va_node_pubkey := va_node_pubkey v; va_commission := va_commission v; va_commission_bps := va_commission_bps v;
     va_credits := va_credits v; va_epoch_credits := va_epoch_credits v |}.

(** every commission is stored, and no other vote account changes *)
Lemma store_commissions_votes l b : NoDup l.*1 ->
  (forall k c, (k, c) ∈ l -> votes (store_commission_accounts_partitioned l b) !! k = Some (commission_paid c))
  /\ (forall k, k ∉ l.*1 -> votes (store_commission_accounts_partitioned l b) !! k = votes b !! k).
Proof.
  unfold store_commission_accounts_partitioned. cbn [with_votes votes]. fold commission_paid. generalize (votes b). clear b.
  induction l as [|[k0 c0] l IH]; intros m Hn; cbn [foldl fst snd fmap list_fmap] in *.
  { split; [by intros k c ?%not_elem_of_nil|done]. }
  apply NoDup_cons in Hn as [Hk0 Hn]. destruct (IH (<[k0 := commission_paid c0]> m) Hn) as [IH1 IH2]. split.
  - intros k c [[= -> ->]|Hin]%elem_of_cons; [|by apply IH1]. by rewrite IH2, lookup_insert_eq by done.
  - intros k [Hne Hk]%not_elem_of_cons. by rewrite IH2, lookup_insert_ne by done.
Qed.

Lemma begin_pays b r pv n ix : distributable b r pv -> 0 <= block_height b -> block_height b + 1 <= u64_max ->
  get_reward_distribution_num_blocks (num_rewards r) b = Some (Z.of_nat n) -> (0 < n)%nat ->
  exists b0, begin_partitioned_rewards r pv b = Some b0
  /\ capitalization b0 = wrapping_add u64_max (capitalization b) (total_reward_commission_lamports r)
  /\ stakes b0 = stakes b /\ votes b0 = votes (store_commission_accounts_partitioned (commission_accounts r) b)
  /\ paid_until (stake_rewards r) (pv_rewards pv) (total_reward_commission_lamports r) (pv_points pv) (block_height b + 1) n
       (last_blockhash b) (bank_epoch b) (schedule b) ix 0 0 b0.
Proof.
  intros [D1 D2 D3 D4 D5 D6 D7 D8] Hh Hh' Hn Hpos. pose proof (total_of_nonneg _ D5) as Ht.
  unfold begin_partitioned_rewards, distribute_reward_commissions. rewrite wrapping_add_small, (proj2 (Z.leb_le _ _)) by lia.
  cbn [mbind option_bind]. unfold get_reward_distribution_num_blocks in *.
  cbn [with_capitalization update_reward_commissions with_rewards store_commission_accounts_partitioned with_votes
       schedule bank_epoch block_height capitalization]. rewrite Hn. cbn [mbind option_bind].
  unfold create_epoch_rewards_sysvar. rewrite (proj2 (Z.leb_le _ _)) by lia. eexists. split; [reflexivity|]. split; [done|]. split; [done|]. split; [done|].
  unfold REWARD_CALCULATION_NUM_BLOCKS. rewrite wrapping_add_small by lia.
  assert (Hnone : forall l, total_of (filter (fun x => partition_of n (last_blockhash b) x < 0)%nat l) = 0).
  { induction l as [|x l IH]; [done|]. by rewrite filter_cons_False by lia. }
  split; cbn [with_sysvar set_epoch_reward_status_calculation with_status with_capitalization update_reward_commissions
    with_rewards store_commission_accounts_partitioned with_votes block_height bank_epoch schedule epoch_reward_status sysvar
    stakes last_blockhash]; try done; [lia| | |].
  - unfold status_at. rewrite decide_True by done. by right.
  - unfold sysvar_at. by rewrite Hnone, Z.add_0_r, bool_decide_true.
  - intros x Hx _. rewrite decide_False by lia. destruct (proj1 (Forall_forall _ _) D4 x Hx) as (sa & Hsa & Hd).
    destruct (D2 _ _ Hsa) as [Hs Hw]. exists sa. split; [done|]. split; [done|].
    assert (ps_stake_reward x <= total_of (omap id (stake_rewards r))).
    { apply zsum_le_elem; [by apply Forall_map|]. by apply in_map, list_elem_of_In. }
    pose proof (proj1 (Forall_forall _ _) D5 x Hx). cbn in *. rewrite Hd, wrapping_add_small by lia. done.
Qed.

(** each reward is part of the pot *)
Lemma rewards_in_range b r pv : distributable b r pv -> Forall (reward_range (pv_rewards pv)) (omap id (stake_rewards r)).
Proof.
  intros [D1 D2 D3 D4 D5 D6 D7 D8]. apply Forall_forall. intros x Hx.
  destruct (proj1 (Forall_forall _ _) D4 x Hx) as (sa & Hsa & Hd). destruct (D2 _ _ Hsa) as [_ Hw].
  assert (ps_stake_reward x <= total_of (omap id (stake_rewards r))).
  { apply zsum_le_elem; [by apply Forall_map|]. by apply in_map, list_elem_of_In. }
  pose proof (proj1 (Forall_forall _ _) D5 x Hx) as Hx0. cbn in Hx0. split; [lia|].
  rewrite Hd, wrapping_add_small by lia. lia.
Qed.

(** the last partition: nothing is left *)
Lemma all_paid rs n h : (0 < n)%nat ->
  filter (fun r => partition_of n h r < n)%nat (omap id rs : list PartitionedStakeReward) = omap id rs.
Proof. intros Hn. apply filter_all, Forall_true. intros r. by apply hash_in_range. Qed.

(** the first block of an epoch, ready to pay [n] partitions *)
Record started (b : Bank) (r : RewardsCalculation) (pv : PointValue) (n : nat) (ix : list (list nat)) (b0 : Bank) : Prop := {
  st_distributable : distributable b r pv;
  st_blocks : get_reward_distribution_num_blocks (num_rewards r) b = Some (Z.of_nat n);
  st_positive : (0 < n)%nat;
  st_slots : Z.of_nat n < get_slots_in_epoch (schedule b) (bank_epoch b);
  st_height : 0 <= block_height b /\ block_height b + get_slots_in_epoch (schedule b) (bank_epoch b) <= u64_max;
  st_partitions : hash_rewards_into_partitions (stake_rewards r) (last_blockhash b) n = Some ix;
  st_begin : begin_partitioned_rewards r pv b = Some b0;
  st_capitalization : capitalization b0 = wrapping_add u64_max (capitalization b) (total_reward_commission_lamports r);
  st_stakes : stakes b0 = stakes b;
  st_paid : paid_until (stake_rewards r) (pv_rewards pv) (total_reward_commission_lamports r) (pv_points pv) (block_height b + 1) n
    (last_blockhash b) (bank_epoch b) (schedule b) ix 0 0 b0;
  st_votes : votes b0 = votes (store_commission_accounts_partitioned (commission_accounts r) b)
}.

Lemma rewards_started b r pv : distributable b r pv -> schedule_ok (schedule b) -> 0 <= bank_epoch b -> 0 <= block_height b ->
  block_height b + get_slots_in_epoch (schedule b) (bank_epoch b) <= u64_max -> exists n ix b0, started b r pv n ix b0.
Proof.
  intros Hd Hsch He Hh Hh'. destruct (num_blocks_spec (num_rewards r) b Hsch He) as (n & En & Hn & Hlt).
  destruct (hash_rewards_spec (stake_rewards r) (last_blockhash b) n Hn) as (ix & Eix & _).
  destruct (begin_pays b r pv n ix Hd Hh ltac:(lia) En Hn) as (b0 & Eb & Hc & Hs & Hv & Hb0). by exists n, ix, b0.
Qed.

(** any number of the blocks that follow *)
Lemma started_run b r pv n ix b0 fs : started b r pv n ix b0 -> (length fs <= n)%nat ->
  Forall (keeps (u64_max - pv_rewards pv)) fs ->
  exists t b', distribution_run fs b0 = Some (t, b')
  /\ paid_until (stake_rewards r) (pv_rewards pv) (total_reward_commission_lamports r) (pv_points pv) (block_height b + 1) n
       (last_blockhash b) (bank_epoch b) (schedule b) ix 0 (length fs) b'
  /\ (forall x, x ∈ omap id (stake_rewards r) -> zsum (map (received (ps_stake_pubkey x)) t)
       = if decide (partition_of n (last_blockhash b) x < length fs)%nat then ps_stake_reward x else 0)
  /\ Forall (fun bb => capitalization bb.2 = wrapping_add u64_max (capitalization bb.1)
       (zsum (map (fun x => received (ps_stake_pubkey x) bb) (omap id (stake_rewards r))))) t
  /\ (forall k, k ∉ map ps_stake_pubkey (omap id (stake_rewards r)) -> Forall (fun bb => stakes bb.2 !! k = stakes bb.1 !! k) t)
  /\ (forall k, (k ∈ map ps_stake_pubkey (omap id (stake_rewards r)) ->
         (length fs <= hash_address_to_partition n (last_blockhash b) k)%nat) ->
       sa_stake <$> stakes b' !! k = sa_stake <$> stakes b !! k).
Proof.
  intros [Hd En Hn Hlt [Hh Hh'] Eix Eb Hc Hs Hb0] Hlen Hfs. pose proof (rewards_in_range b r pv Hd) as Hrange.
  destruct Hd as [D1 D2 D3 D4 D5 D6 D7 D8].
  destruct (run_pays (stake_rewards r) (pv_rewards pv) (total_reward_commission_lamports r) (pv_points pv) (block_height b + 1) n
    (last_blockhash b) (bank_epoch b) (schedule b) ix 0 D3 Hrange D6 ltac:(lia) D1 Hn Hlt ltac:(lia) ltac:(lia) Eix fs 0 b0 Hfs
    ltac:(lia) Hb0) as (t & b' & Et & Hb' & Hr & Hcap & Ho & Hk).
  rewrite Nat.add_0_r in *. exists t, b'. split; [done|]. split; [done|]. split; [|split; [done|split; [done|]]].
  - intros x Hx. rewrite (Hr x Hx). do 2 case_decide; lia.
  - intros k Hk'. rewrite Hk, Hs by (intros Hin; specialize (Hk' Hin); lia). done.
Qed.

(** C9. The rewards of an epoch reach their accounts: from the accounts of the bank, the calculation succeeds; the first
    block of the epoch stores every commission on top of the balance its vote account had when the vote accounts were
    taken for the distribution, which does not overflow, changes no other vote account, and raises the capitalization by
    the sum of the commissions; and the blocks that follow, one partition each and with any transactions in between that
    leave the stake (delegation and credits) of every stake account as it is (as the stake program does while rewards are
    active; balances may change), do not panic, give every stake its reward exactly once and its
    new state, change no other stake account, raise the capitalization in every block by exactly what the accounts receive
    in it, and leave rewards inactive, with all that was distributed accounted for in the sysvar and within the epoch's pot. *)
Theorem epoch_rewards_distributed effective_stake vote_program split slashing feat cached epoch pot least b :
  cached_ok vote_program cached -> 0 <= pot <= i64_max -> (forall l, work_items (split l) ≡ₚ l) ->
  zsum (map (delegation_points effective_stake vote_program cached) (filtered_delegations least b)) <= u128_max ->
  Forall (fun d => delegation_points effective_stake vote_program cached d * pot <= u128_max) (filtered_delegations least b) ->
  stakes_ok pot (stakes b) -> schedule_ok (schedule b) -> 0 <= bank_epoch b -> 0 <= block_height b ->
  block_height b + get_slots_in_epoch (schedule b) (bank_epoch b) <= u64_max ->
  exists r pv n b0,
    calculate_rewards_for_partitioning effective_stake vote_program split slashing feat cached epoch pot least b = Some (r, pv)
  /\ get_reward_distribution_num_blocks (num_rewards r) b = Some (Z.of_nat n)
  /\ begin_partitioned_rewards r pv b = Some b0
  /\ (forall k c, (k, c) ∈ commission_accounts r -> exists v, distribution_epoch_vote_accounts cached !! k = Some v
        /\ votes b0 !! k = Some (commission_paid c) /\ commission_account c = v
        /\ va_lamports (commission_paid c) = va_lamports v + commission_lamports c /\ va_lamports (commission_paid c) <= u64_max)
  /\ (forall k, k ∉ (commission_accounts r).*1 -> votes b0 !! k = votes b !! k)
  /\ capitalization b0 = wrapping_add u64_max (capitalization b) (commissions_total (commission_accounts r))
  /\ forall fs, length fs = n -> Forall (keeps (u64_max - pv_rewards pv)) fs ->
     exists t b', distribution_run fs b0 = Some (t, b')
     /\ (forall x, x ∈ omap id (stake_rewards r) -> zsum (map (received (ps_stake_pubkey x)) t) = ps_stake_reward x
           /\ sa_stake <$> stakes b' !! ps_stake_pubkey x = Some (ps_stake x))
     /\ (forall k, k ∉ map ps_stake_pubkey (omap id (stake_rewards r)) ->
           Forall (fun bb => stakes bb.2 !! k = stakes bb.1 !! k) t)
     /\ Forall (fun bb => capitalization bb.2 = wrapping_add u64_max (capitalization bb.1)
           (zsum (map (fun x => received (ps_stake_pubkey x) bb) (omap id (stake_rewards r))))) t
     /\ epoch_reward_status b' = Inactive
     /\ exists e, sysvar b' = Some e /\ er_active e = false
        /\ er_distributed_rewards e = total_reward_commission_lamports r + total_stake_rewards r
        /\ er_distributed_rewards e <= pot.
Proof.
  intros Hok Hpot Hsplit HP Hmul Hst Hsch He Hh Hh'.
  destruct (calculation_distributable effective_stake vote_program split slashing feat cached epoch pot least b Hok Hpot Hsplit HP Hmul Hst)
    as (r & pv & E & Hpv & [Htot [Hnd Hdue]] & Hd).
  destruct (rewards_started b r pv Hd Hsch He Hh Hh') as (n & ix & b0 & Hst0). pose proof (st_positive _ _ _ _ _ _ Hst0) as Hn.
  destruct (store_commissions_votes (commission_accounts r) b Hnd) as [Hpaid Hother]. rewrite <- (st_votes _ _ _ _ _ _ Hst0) in Hpaid, Hother.
  exists r, pv, n, b0. split; [done|]. split; [apply Hst0|]. split; [apply Hst0|]. split; [|split; [done|split; [rewrite <- Htot; apply Hst0|]]].
  { intros k c Hk. destruct (Hdue k c Hk) as (Hv & _ & Hle). exists (commission_account c). split; [done|]. split; [by apply Hpaid|]. by split. }
  intros fs Hlen Hfs.
  destruct (started_run _ _ _ _ _ _ fs Hst0 ltac:(lia) Hfs) as (t & b' & Et & [P1 P2 P3 P4 P5 P0 P6] & Hr & Hcap & Ho & _).
  destruct Hd as [D1 D2 D3 D4 D5 D6 D7 D8]. rewrite Hlen in *.
  exists t, b'. split; [done|]. split; [|split; [done|split; [done|split]]].
  - intros x Hx. pose proof (hash_in_range n (last_blockhash b) (ps_stake_pubkey x) Hn) as Hin.
    split; [by rewrite (Hr x Hx), decide_True by done|]. specialize (P6 x Hx ltac:(lia)). rewrite decide_True in P6 by done.
    destruct P6 as (sa & Hsa & <-). by rewrite Hsa.
  - unfold status_at in P4. by rewrite decide_False in P4 by lia.
  - rewrite P5, bool_decide_false by lia. eexists. split; [done|]. split; [done|].
    cbn [sysvar_at er_distributed_rewards]. rewrite all_paid, <- D7 by done. split; [done|lia].
Qed.
End epoch.

(** ** The theorem at a concrete input *)

Module RewardsDistributionExamples.
Import EpochRewardsExamples.

(** an account with its state decoded; the partition is the key modulo the number of partitions *)
Record ExAccount := { ex_lamports : Z; ex_owner : Pubkey; ex_len : nat; ex_state : option (unit * Stake * unit) }.

Definition ex_with_lamports (z : Z) (a : ExAccount) : ExAccount := Build_ExAccount z (ex_owner a) (ex_len a) (ex_state a).
Definition ex_set_state (a : ExAccount) (s : unit * Stake * unit) : option ExAccount :=
  if (200 <=? ex_len a)%nat then Some (Build_ExAccount (ex_lamports a) (ex_owner a) (ex_len a) (Some s)) else None.
Definition ex_hash (n : nat) (_ : Hash) (k : Pubkey) : nat := Z.to_nat (k mod Z.of_nat n).
Definition ex_distribute (e : EpochRewards) (z : Z) : option EpochRewards :=
  let z' := saturating_add u64_max (er_distributed_rewards e) z in
  if z' <=? er_total_rewards e then Some (with_distributed z' e) else None.

Lemma ex_with_lamports_spec z a : ex_lamports (ex_with_lamports z a) = z /\ ex_owner (ex_with_lamports z a) = ex_owner a
  /\ ex_len (ex_with_lamports z a) = ex_len a.
Proof. done. Qed.

Lemma ex_set_state_fits a s : (200 <= ex_len a)%nat -> exists a', ex_set_state a s = Some a'.
Proof. intros Hl. unfold ex_set_state. rewrite (proj2 (Nat.leb_le _ _)) by done. by eexists. Qed.

Lemma ex_set_state_spec a s a' : ex_set_state a s = Some a' ->
  ex_state a' = Some s /\ ex_lamports a' = ex_lamports a /\ ex_owner a' = ex_owner a /\ ex_len a' = ex_len a.
Proof. unfold ex_set_state. case_match; [|done]. by intros [= <-]. Qed.

Lemma ex_hash_in_range n h k : (0 < n)%nat -> (ex_hash n h k < n)%nat.
Proof. intros Hn. unfold ex_hash. pose proof (Z.mod_pos_bound k (Z.of_nat n)). lia. Qed.

Lemma ex_distribute_spec e z : 0 <= z -> er_distributed_rewards e + z <= er_total_rewards e -> er_total_rewards e <= u64_max ->
  ex_distribute e z = Some (with_distributed (er_distributed_rewards e + z) e).
Proof. intros H0 H1 H2. unfold ex_distribute, saturating_add. rewrite Z.min_r, (proj2 (Z.leb_le _ _)) by lia. done. Qed.

#[export] Instance ExSdk : RewardsSdk := {|
  AccountSharedData := ExAccount; a_lamports := ex_lamports; a_owner := ex_owner; data_len := ex_len;
  with_lamports := ex_with_lamports; Meta := unit; StakeFlags := unit; stake_program := 44; stake_size := 200%nat;
  stake_state := ex_state; set_state := ex_set_state; hash_address_to_partition := ex_hash; distribute := ex_distribute;
  with_lamports_spec := ex_with_lamports_spec; set_state_fits := ex_set_state_fits; set_state_spec := ex_set_state_spec;
  hash_in_range := ex_hash_in_range; distribute_spec := ex_distribute_spec |}.

Definition stake_account (z : Z) (s : Stake) : StakeAccount :=
  {| sa_account := (Build_ExAccount z 44 200 (Some (tt, s, tt)) : AccountSharedData); sa_meta := (tt : Meta); sa_stake := s;
     sa_flags := (tt : StakeFlags) |}.

Definition first_bank : Bank :=
  {| block_height := 1000; bank_epoch := 10; last_blockhash := 77;
     schedule := {| slots_per_epoch := 432; warmup := false; first_normal_epoch := 0; get_slots_in_epoch := fun _ => 432;
                    stake_account_stores_per_block := 1 |};
     capitalization := 1000000; epoch_reward_status := Inactive; sysvar := None;
     stakes := {[51 := stake_account 6000 (stake_of_voter 1 5000 150); 52 := stake_account 8000 (stake_of_voter 2 7001 200);
                 53 := stake_account 1000 (stake_of_voter 1 900 0)]};
     votes := distribution_epoch_vote_accounts cached; rewards := [] |}.

Definition first_delegations : list (option (Pubkey * StakeStateV2)) :=
  Eval vm_compute in filtered_delegations None first_bank.

(** fees are burned between the blocks *)
Definition burn_fees (b : Bank) : Bank := with_capitalization (capitalization b - 5) b.

Lemma burn_fees_keeps most : keeps most burn_fees.
Proof. split; try done. intros b k sa sa' H1 H2. cbn in H2. by simplify_eq. Qed.

Lemma first_stakes_ok : stakes_ok 1000 (stakes first_bank).
Proof.
  intros k sa Hk. cbn [first_bank stakes] in Hk.
  apply lookup_insert_Some in Hk as [[_ <-]|[_ Hk]]; [repeat split; vm_compute; (discriminate || lia)|].
  apply lookup_insert_Some in Hk as [[_ <-]|[_ Hk]]; [repeat split; vm_compute; (discriminate || lia)|].
  apply lookup_singleton_Some in Hk as [_ <-]. repeat split; vm_compute; (discriminate || lia).
Qed.

(** two stakes are paid, in two blocks; the delegation to the jailed validator is not *)
Lemma epoch_rewards_distributed_witness : exists r pv b0 t b',
  calculate_rewards_for_partitioning full 33 halves jailed_102 features cached 9 1000 None first_bank = Some (r, pv)
  /\ begin_partitioned_rewards r pv first_bank = Some b0
  /\ distribution_run [burn_fees; burn_fees] b0 = Some (t, b')
  /\ zsum (map (received 51) t) = 392 /\ zsum (map (received 53) t) = 140 /\ epoch_reward_status b' = Inactive.
Proof.
  destruct (epoch_rewards_distributed full 33 halves jailed_102 features cached 9 1000 None first_bank)
    as (r & pv & n & b0 & Hr & Hn & Hb & Hc & _ & _ & Hrun).
  - apply cached_example_ok.
  - vm_compute. split; discriminate.
  - intros l. unfold halves. cbn [work_items]. rewrite take_drop. reflexivity.
  - vm_compute. discriminate.
  - assert (E : filtered_delegations None first_bank = first_delegations) by (vm_compute; reflexivity). rewrite E.
    repeat constructor; vm_compute; discriminate.
  - apply first_stakes_ok.
  - split; cbn; intros; lia.
  - vm_compute. discriminate.
  - vm_compute. discriminate.
  - vm_compute. discriminate.
  - exists r, pv, b0.
    pose proof Hr as Hr'. vm_compute in Hr'. injection Hr' as Er Ev. subst r.
    assert (n = 2%nat) as -> by (change (Some 2 = Some (Z.of_nat n)) in Hn; injection Hn as Hn; lia).
    destruct (Hrun [burn_fees; burn_fees]) as (t & b' & Ht & Hx & _ & _ & Hs & _); [done| |].
    { apply Forall_cons; split; [apply burn_fees_keeps|]. apply Forall_cons; split; [apply burn_fees_keeps|]. apply Forall_nil_2. }
    exists t, b'. split; [done|]. split; [done|]. split; [done|]. cbn [stake_rewards] in Hx.
    split; [apply (proj1 (Hx _ ltac:(left)))|]. split; [|done]. apply (proj1 (Hx _ ltac:(right; left))).
Defined.
End RewardsDistributionExamples.
