(* ===== verification/RewardsRecovery.v ===== *)
(** * Restarting in the middle of the distribution

    Models what partitioned_epoch_rewards/calculation.rs does when a validator
    starts from a snapshot while rewards are being paid: the bank has lost its
    reward status, and recalculates the rewards from the sysvar, the vote
    accounts of the epoch and the stake accounts, some of which are already
    paid.  The calculation also reads the slashing state, which a snapshot does
    not contain (runtime/src/bank.rs), and which the banks of all forks share.
    The theorems: with the slashing state of the first calculation a restart is
    invisible, with the one a restarted validator has it is not, and a validator
    jailed on one fork is jailed on all. *)

From stdpp Require Import base numbers list option gmap.
From Stdlib Require Import ZArith Lia.
From S2P Require Import Prelude F64 BftTypes Slashing EpochRewards RewardsDistribution.
Local Open Scope Z_scope.
Local Open Scope trv1_scope.

Section recalculation.
Context `{!RewardsSdk} `{!HashMapIter}.
Context (effective_stake : Delegation -> Z -> Z) (split : list DelegationRewards -> work DelegationRewards)
  (feat : RewardFeatures) (cached : CachedVoteAccounts) (least : option Z).

(** [Bank::new_from_snapshot]: the accounts and the sysvars are in the
    snapshot, the status and the history of the rewards and the slashing state
    are not *)
Definition new_from_snapshot (b : Bank) : Bank * SlashingState := (with_rewards [] (with_status Inactive b), SlashingState_new).

(** [cached] are the vote accounts and [least] the filter of [get_epoch_params_for_recalculation]: the vote accounts are
    those of the epoch stakes, which the snapshot holds, so a recalculation is given the ones of the first calculation *)
Definition recalculate_stake_rewards (slashing : SlashingState) (e : EpochRewards) (b : Bank)
    : option (list (Pubkey * RewardCommission) * list (option PartitionedStakeReward) * list (list nat)) :=
  if er_active e then
    let rewarded_epoch := saturating_sub (bank_epoch b) 1 in
    let pv := {| pv_rewards := er_total_rewards e; pv_points := er_total_points e |} in
    r ← calculate_stake_rewards_and_commissions effective_stake split slashing feat cached rewarded_epoch pv
          (filtered_delegations least b);
    ix ← hash_rewards_into_partitions (stake_rewards r) (er_parent_blockhash e) (Z.to_nat (er_num_partitions e));
    Some (commission_accounts r, stake_rewards r, ix)
  else None.

Definition recalculate_partitioned_rewards_if_active (slashing : SlashingState) (b : Bank) : option Bank :=
  let e := get_epoch_rewards_sysvar b in
  if er_active e then
    '(_, rs, ix) ← recalculate_stake_rewards slashing e b;
    Some (set_epoch_reward_status_distribution (er_distribution_starting_block_height e) rs ix b)
  else Some b.

(** ** The rewards of the accounts *)

(** the delegation of an account, if it passes the filter *)
Definition delegation_of (k : Pubkey) (s : Stake) : option (Pubkey * StakeStateV2) :=
  match least with
  | Some z => if d_stake (delegation s) <? z then None else Some (k, StakeActive s)
  | None => Some (k, StakeActive s)
  end.

Lemma filtered_delegations_eq b : filtered_delegations least b
  = map (fun ks : Pubkey * StakeAccount => delegation_of ks.1 (sa_stake ks.2)) (hm_iter (stakes b)).
Proof. done. Qed.

Lemma in_filtered b d : d ∈ filtered_delegations least b <-> exists k sa, stakes b !! k = Some sa /\ d = delegation_of k (sa_stake sa).
Proof.
  rewrite filtered_delegations_eq. split.
  - intros ([k sa] & -> & Hk)%list_elem_of_fmap. rewrite hm_iter_perm in Hk. apply elem_of_map_to_list in Hk. by exists k, sa.
  - intros (k & sa & Hk & ->). apply (list_elem_of_fmap_2' _ _ (k, sa)); [|done]. rewrite hm_iter_perm. by apply elem_of_map_to_list.
Qed.

Lemma delegation_of_Some k s k' st : delegation_of k s = Some (k', st) -> k' = k /\ st = StakeActive s.
Proof. unfold delegation_of. destruct least; [case_if|]; by intros [= <- <-]. Qed.

(** the reward of an account, without the bookkeeping of the calculation *)
Definition reward_of (slashing : SlashingState) (epoch : Z) (pv : PointValue) (k : Pubkey) (s : Stake)
    (x : PartitionedStakeReward) : Prop :=
  exists y, is_Some (delegation_of k s) /\ dr_stake_reward y = x
  /\ redeem_delegation_rewards effective_stake slashing feat cached epoch pv k (StakeActive s) = Some (Some y).

Lemma redeem_all_elem slashing epoch pv b rs x :
  redeem_all effective_stake slashing feat cached epoch pv (filtered_delegations least b) = Some rs ->
  x ∈ omap id (map (fmap dr_stake_reward) rs)
  <-> exists sa, stakes b !! ps_stake_pubkey x = Some sa /\ reward_of slashing epoch pv (ps_stake_pubkey x) (sa_stake sa) x.
Proof.
  intros Hrs. unfold redeem_all in Hrs. apply mapM_Some in Hrs. rewrite omap_stake_rewards.
  rewrite list_elem_of_fmap. setoid_rewrite list_elem_of_omap. split.
  - intros (y & -> & o & Ho & Hy). cbn in Hy. subst o. apply list_elem_of_lookup in Ho as [j Hj].
    destruct (Forall2_lookup_r _ _ _ _ _ Hrs Hj) as (d & Hd & Hred). destruct d as [[k st]|]; [|done].
    apply list_elem_of_lookup_2, in_filtered in Hd as (k' & sa & Hk & Hd). pose proof Hd as Hd'.
    symmetry in Hd'. apply delegation_of_Some in Hd' as [-> ->].
    destruct (redeem_delegation_stake _ _ _ _ _ _ _ _ _ Hred) as [<- _]. exists sa. split; [done|]. exists y. by rewrite <- Hd.
  - intros (sa & Hk & y & [[k' st] Hd] & Hy & Hred). exists y. split; [done|]. exists (Some y). split; [|done].
    pose proof (delegation_of_Some _ _ _ _ Hd) as [-> ->].
    assert (Hin : Some (ps_stake_pubkey x, StakeActive (sa_stake sa)) ∈ filtered_delegations least b).
    { apply in_filtered. by exists (ps_stake_pubkey x), sa. }
    apply list_elem_of_lookup in Hin as [j Hj]. destruct (Forall2_lookup_l _ _ _ _ _ Hrs Hj) as (o & Ho & Hred').
    rewrite Hred in Hred'. injection Hred' as <-. by eapply list_elem_of_lookup_2.
Qed.

(** ** A restart after [i] partitions *)

Context (slashing : SlashingState) (vote_program : Pubkey) (Hcached : cached_ok vote_program cached).

(** credits only grow, and points fit their width *)
Record credits_ok (m : gmap Pubkey StakeAccount) : Prop := {
  cr_stake : forall d e, 0 <= effective_stake d e;
  cr_history : forall k v, distribution_epoch_vote_accounts cached !! k = Some v -> history_ok v;
  cr_points : forall k sa v, m !! k = Some sa ->
    distribution_epoch_vote_accounts cached !! voter_pubkey (delegation (sa_stake sa)) = Some v ->
    0 <= credits_observed (sa_stake sa)
    /\ points_after effective_stake (delegation (sa_stake sa)) (credits_observed (sa_stake sa)) (va_epoch_credits v) <= u128_max
}.

(** the first calculation *)
Context (b : Bank) (epoch pot : Z) (rs : list (option DelegationRewards)).
Local Abbreviation pts := (zsum (map (delegation_points effective_stake vote_program cached) (filtered_delegations least b))).
Local Abbreviation pv := {| pv_rewards := pot; pv_points := pts |}.
Local Abbreviation R := (omap id (map (fmap dr_stake_reward) rs)).
Context (Hcredits : credits_ok (stakes b)) (Hpts : 0 < pts) (Hpot : 0 <= pot <= i64_max)
  (Hmul : Forall (fun d => delegation_points effective_stake vote_program cached d * pot <= u128_max) (filtered_delegations least b))
  (Hrs : redeem_all effective_stake slashing feat cached epoch pv (filtered_delegations least b) = Some rs).

(** a paid stake has no points left *)
Lemma paid_no_points x d : x ∈ R ->
  delegation_of (ps_stake_pubkey x) (ps_stake x) = d -> delegation_points effective_stake vote_program cached d = 0.
Proof.
  intros Hx Hd. apply (redeem_all_elem slashing epoch pv b rs x Hrs) in Hx as (sa & Hsa & y & _ & <- & Hred).
  destruct (redeem_delegation_stake _ _ _ _ _ _ _ _ _ Hred) as (_ & s & [= <-] & _ & v & Hv & Hvoter & Hc).
  destruct d as [[k st]|]; [|done]. apply delegation_of_Some in Hd as [_ ->].
  unfold delegation_points. cbn [delegation_voter mbind option_bind]. rewrite Hvoter, Hv. cbn [mbind option_bind].
  case_decide; [|done]. cbn [calculate_points]. destruct Hcredits as [C1 C2 C3]. destruct (C3 _ _ _ Hsa Hv) as [C4 C5].
  pose proof (no_points_again effective_stake (sa_stake sa) v (delegation (ps_stake (dr_stake_reward y))) (C2 _ _ Hv) C4 (C1 _) C5 (C1 _)) as Hz.
  rewrite <- Hc in Hz. by destruct (ps_stake (dr_stake_reward y)).
Qed.

(** the accounts after some partitions: each stake is as it was, or paid *)
Context (b1 : Bank) (n i : nat) (h : Hash).
Local Abbreviation hash k := (hash_address_to_partition n h k).
Context (Hsame : forall k, (k ∈ map ps_stake_pubkey R -> (i <= hash k)%nat) -> sa_stake <$> stakes b1 !! k = sa_stake <$> stakes b !! k)
  (Hpaid : forall x, x ∈ R -> (hash (ps_stake_pubkey x) < i)%nat -> sa_stake <$> stakes b1 !! ps_stake_pubkey x = Some (ps_stake x)).

Lemma same_or_paid k sa : stakes b1 !! k = Some sa ->
  (exists sa0, stakes b !! k = Some sa0 /\ sa_stake sa0 = sa_stake sa)
  \/ (exists x, x ∈ R /\ ps_stake_pubkey x = k /\ sa_stake sa = ps_stake x /\ (hash k < i)%nat).
Proof.
  intros Hsa. destruct (decide (k ∈ map ps_stake_pubkey R)) as [Hin|Hout]; [destruct (decide (i <= hash k)%nat) as [Hi|Hi]|].
  2: { right. apply list_elem_of_fmap in Hin as (x & -> & Hx). exists x. split; [done|]. split; [done|].
       pose proof (Hpaid x Hx ltac:(lia)) as E. rewrite Hsa in E. cbn in E. split; [congruence|lia]. }
  all: left; assert (E : sa_stake <$> stakes b !! k = Some (sa_stake sa)) by (rewrite <- Hsame, Hsa; [done|by intros ?]);
    apply fmap_Some in E as (sa0 & Hsa0 & E); by exists sa0.
Qed.

(** what is left to redeem is within the first calculation *)
Lemma recalculated_points d : d ∈ filtered_delegations least b1 ->
  delegation_points effective_stake vote_program cached d <= pts
  /\ delegation_points effective_stake vote_program cached d * pot <= u128_max.
Proof.
  intros (k & sa & Hsa & ->)%in_filtered. destruct (same_or_paid k sa Hsa) as [(sa0 & Hsa0 & E)|(x & Hx & <- & E & _)].
  - assert (Hin : delegation_of k (sa_stake sa) ∈ filtered_delegations least b) by (apply in_filtered; exists k, sa0; by rewrite E).
    split; [|by apply (proj1 (Forall_forall _ _) Hmul)]. apply zsum_le_elem; [|by apply in_map, list_elem_of_In].
    apply Forall_map, Forall_true. intros d. apply delegation_points_nonneg.
  - rewrite E, (paid_no_points x _ Hx eq_refl). lia.
Qed.

Lemma recalculation_succeeds : exists rs1,
  redeem_all effective_stake slashing feat cached epoch pv (filtered_delegations least b1) = Some rs1
  /\ Forall2 (reward_spec effective_stake slashing feat cached vote_program pv) (filtered_delegations least b1) rs1.
Proof.
  apply redeem_all_spec; cbn [pv_rewards pv_points]; [done|done|lia|].
  apply Forall_forall. intros d Hd. by apply recalculated_points.
Qed.

Context (rs1 : list (option DelegationRewards))
  (Hrs1 : redeem_all effective_stake slashing feat cached epoch pv (filtered_delegations least b1) = Some rs1).
Local Abbreviation R1 := (omap id (map (fmap dr_stake_reward) rs1)).

(** what is not paid yet is recalculated as it was *)
Lemma recalculated_unpaid x : (i <= hash (ps_stake_pubkey x))%nat -> x ∈ R1 <-> x ∈ R.
Proof.
  intros Hi. rewrite (redeem_all_elem _ _ _ _ _ _ Hrs1), (redeem_all_elem _ _ _ _ _ _ Hrs).
  pose proof (Hsame (ps_stake_pubkey x) (fun _ => Hi)) as E. split; intros (sa & Hsa & Hr); rewrite Hsa in E; cbn in E.
  - symmetry in E. apply fmap_Some in E as (sa0 & Hsa0 & E). exists sa0. by rewrite <- E.
  - apply fmap_Some in E as (sa0 & Hsa0 & E). exists sa0. by rewrite <- E.
Qed.

(** what is paid is not paid again *)
Lemma recalculated_paid x : x ∈ R1 -> (hash (ps_stake_pubkey x) < i)%nat -> ps_stake_reward x = 0.
Proof.
  intros Hx Hi. pose proof Hx as Hx1. apply (redeem_all_elem _ _ _ _ _ _ Hrs1) in Hx as (sa & Hsa & y & [[k st] Hd] & Hy & Hred).
  pose proof (delegation_of_Some _ _ _ _ Hd) as [-> ->].
  assert (Hin : Some (ps_stake_pubkey x, StakeActive (sa_stake sa)) ∈ filtered_delegations least b1) by (apply in_filtered; eauto).
  destruct (recalculated_points _ Hin) as [Hp1 Hp2].
  destruct (redeem_delegation_spec effective_stake slashing feat cached vote_program epoch pv _ _ Hcached Hpts ltac:(cbn; lia) Hp1 Hp2)
    as (o & Ho & Hspec). rewrite Hred in Ho. injection Ho as <-. destruct Hspec as ([Hr1 Hr2] & _ & Hshare & _).
  assert (Hx0 : exists x0, x0 ∈ R /\ ps_stake_pubkey x0 = ps_stake_pubkey x /\ sa_stake sa = ps_stake x0).
  { destruct (same_or_paid _ _ Hsa) as [(sa0 & Hsa0 & E)|(x0 & Hx0 & Hk & E & _)]; [|by exists x0]. exists x.
    assert (Hin' : x ∈ R) by (apply (redeem_all_elem _ _ _ _ _ _ Hrs); exists sa0; split; [done|]; exists y; rewrite E; eauto).
    split; [done|]. split; [done|]. pose proof (Hpaid x Hin' Hi) as E'. rewrite Hsa in E'. cbn in E'. congruence. }
  destruct Hx0 as (x0 & Hx0 & Hk & E). rewrite E, <- Hk in Hd. pose proof (paid_no_points x0 _ Hx0 Hd) as Hz.
  rewrite Hk, <- E in Hz. unfold share in Hshare. rewrite Hz, Z.mul_0_l, Z.div_0_l in Hshare by (cbn; lia).
  unfold paid in Hshare. rewrite Hy in *. lia.
Qed.

Lemma recalculated_keys : NoDup (map ps_stake_pubkey R1).
Proof.
  assert (Hin : Forall (fun ks : Pubkey * StakeAccount => stakes b1 !! ks.1 = Some ks.2) (hm_iter (stakes b1))).
  { apply Forall_forall. intros [k sa] Hk. rewrite hm_iter_perm in Hk. by apply elem_of_map_to_list in Hk. }
  destruct (redeemed_due _ _ _ _ _ _ _ _ _ b1 Hin Hrs1) as [_ Hsub]. eapply sublist_NoDup; [|exact Hsub].
  rewrite hm_iter_perm. apply NoDup_fst_map_to_list.
Qed.

Lemma recalculated_range : Forall (reward_range pot) R1.
Proof.
  apply Forall_forall. intros x Hx. apply (redeem_all_elem _ _ _ _ _ _ Hrs1) in Hx as (sa & Hsa & y & [[k st] Hd] & <- & Hred).
  pose proof (delegation_of_Some _ _ _ _ Hd) as [-> ->].
  assert (Hin : Some (ps_stake_pubkey (dr_stake_reward y), StakeActive (sa_stake sa)) ∈ filtered_delegations least b1)
    by (apply in_filtered; eauto).
  destruct (recalculated_points _ Hin) as [Hp1 Hp2].
  destruct (redeem_delegation_spec effective_stake slashing feat cached vote_program epoch pv _ _ Hcached Hpts ltac:(cbn; lia) Hp1 Hp2)
    as (o & Ho & Hspec). rewrite Hred in Ho. injection Ho as <-. destruct Hspec as ([Hr1 Hr2] & _ & Hshare & _).
  destruct (redeem_delegation_stake _ _ _ _ _ _ _ _ _ Hred) as (_ & s & _ & Hst & _).
  unfold share, paid in Hshare. cbn [pv_rewards pv_points] in Hshare.
  pose proof (Z.div_le_upper_bound (delegation_points effective_stake vote_program cached
    (Some (ps_stake_pubkey (dr_stake_reward y), StakeActive (sa_stake sa))) * pot) pts pot Hpts ltac:(nia)).
  split; [lia|]. rewrite Hst. unfold wrapping_add. pose proof (Z.mod_pos_bound (d_stake (delegation s) + ps_stake_reward (dr_stake_reward y)) (u64_max + 1)).
  lia.
Qed.

(** the totals of the two calculations *)
Lemma recalculated_totals : NoDup (map ps_stake_pubkey R) ->
  total_of (filter (fun x => partition_of n h x < i)%nat R1) = 0
  /\ total_of (filter (fun x => partition_of n h x < i)%nat R) + total_of R1 = total_of R.
Proof.
  intros Hnd. assert (Hz0 : total_of (filter (fun x => partition_of n h x < i)%nat R1) = 0).
  { assert (Hz : Forall (fun x => ps_stake_reward x = 0) (filter (fun x => partition_of n h x < i)%nat R1)).
    { apply Forall_forall. intros x [Hi Hx]%list_elem_of_filter. by apply recalculated_paid. }
    revert Hz. generalize (filter (fun x => partition_of n h x < i)%nat R1). induction 1 as [|x l Hx Hl IH]; [done|].
    change (total_of (x :: l)) with (ps_stake_reward x + total_of l). lia. }
  split; [done|]. rewrite (total_of_filter (fun x => partition_of n h x < i)%nat R1), Hz0, Z.add_0_l.
  rewrite (total_of_filter (fun x => partition_of n h x < i)%nat R). f_equal. apply total_of_perm, NoDup_Permutation.
  - apply NoDup_filter. eapply NoDup_fmap_1, recalculated_keys.
  - apply NoDup_filter. by eapply NoDup_fmap_1.
  - intros x. rewrite !list_elem_of_filter. unfold partition_of.
    split; intros [Hi Hx]; (split; [done|]); apply recalculated_unpaid; (done || lia).
Qed.

(** the bank after the restart is where the bank before it was *)
Lemma restart_state comm start e sch ix : epoch = saturating_sub e 1 -> NoDup (map ps_stake_pubkey R) -> (i < n)%nat ->
  paid_until (map (fmap dr_stake_reward) rs) pot comm pts start n h e sch ix 0 i b1 ->
  exists ix1 b2, recalculate_partitioned_rewards_if_active slashing (new_from_snapshot b1).1 = Some b2
  /\ hash_rewards_into_partitions (map (fmap dr_stake_reward) rs1) h n = Some ix1
  /\ stakes b2 = stakes b1
  /\ paid_until (map (fmap dr_stake_reward) rs1) pot (comm + total_of (filter (fun x => partition_of n h x < i)%nat R))
       pts start n h e sch ix1 i i b2.
Proof.
  intros He Hnd Hi [P1 P2 P3 P4 P5 _ P6]. rewrite bool_decide_true in P5 by done.
  destruct (hash_rewards_spec (map (fmap dr_stake_reward) rs1) h n ltac:(lia)) as (ix1 & Eix & _).
  destruct (recalculated_totals Hnd) as [Hz _].
  unfold recalculate_partitioned_rewards_if_active, get_epoch_rewards_sysvar.
  change (sysvar (new_from_snapshot b1).1) with (sysvar b1). rewrite P5. cbn [default from_option id].
  unfold recalculate_stake_rewards, calculate_stake_rewards_and_commissions.
  change (filtered_delegations least (new_from_snapshot b1).1) with (filtered_delegations least b1).
  change (bank_epoch (new_from_snapshot b1).1) with (bank_epoch b1).
  cbn [sysvar_at er_active er_total_rewards er_total_points er_parent_blockhash er_num_partitions
       er_distribution_starting_block_height]. rewrite P2, <- He, Hrs1. cbn [mbind option_bind].
  destruct (calculate_commission_accounts _) as [accounts total]. cbn [mbind option_bind stake_rewards]. rewrite Nat2Z.id, Eix.
  cbn [mbind option_bind]. exists ix1. eexists. split; [reflexivity|]. split; [done|]. split; [done|].
  split; cbn [set_epoch_reward_status_distribution new_from_snapshot fst with_rewards with_status block_height bank_epoch schedule
    epoch_reward_status sysvar stakes]; try done.
  - unfold status_at. rewrite decide_True by done. by left.
  - rewrite bool_decide_true by done. rewrite P5. unfold sysvar_at. by rewrite Hz, Z.add_0_r.
  - intros x Hx Hxi. rewrite decide_False by lia. apply recalculated_unpaid in Hx; [|done].
    specialize (P6 x Hx ltac:(lia)). by rewrite decide_False in P6 by lia.
Qed.

Lemma unchanged_received k (t : list (Bank * Bank)) : Forall (fun bb => stakes bb.2 !! k = stakes bb.1 !! k) t ->
  zsum (map (received k) t) = 0.
Proof.
  induction 1 as [|bb t Hbb Ht IH]; [done|]. cbn [map zsum foldr]. change (foldr Z.add 0) with zsum. rewrite IH.
  unfold received, lamports_at. rewrite Hbb. lia.
Qed.

(** the blocks after the restart *)
Lemma resumed_run comm start e sch ix fs : epoch = saturating_sub e 1 -> NoDup (map ps_stake_pubkey R) -> Forall (reward_range pot) R ->
  (i < n)%nat -> 0 <= comm -> comm + total_of R <= pot -> Z.of_nat n < get_slots_in_epoch sch e -> 0 <= start -> start + Z.of_nat n <= u64_max ->
  paid_until (map (fmap dr_stake_reward) rs) pot comm pts start n h e sch ix 0 i b1 ->
  Forall (keeps (u64_max - pot)) fs -> (length fs + i = n)%nat ->
  exists b2 t b', recalculate_partitioned_rewards_if_active slashing (new_from_snapshot b1).1 = Some b2
  /\ distribution_run fs b2 = Some (t, b')
  /\ (forall x, x ∈ R -> zsum (map (received (ps_stake_pubkey x)) t) = (if decide (partition_of n h x < i)%nat then 0 else ps_stake_reward x)
       /\ sa_stake <$> stakes b' !! ps_stake_pubkey x = Some (ps_stake x))
  /\ (forall k, k ∉ map ps_stake_pubkey R -> sa_stake <$> stakes b' !! k = sa_stake <$> stakes b !! k)
  /\ epoch_reward_status b' = Inactive
  /\ exists er, sysvar b' = Some er /\ er_active er = false /\ er_distributed_rewards er = comm + total_of R.
Proof.
  intros He Hnd Hrange Hi Hc Htot Hslots Hs0 Hs1 Hb1 Hfs Hlen.
  destruct (restart_state comm start e sch ix He Hnd Hi Hb1) as (ix1 & b2 & Eb2 & Eix & Hst & Hb2).
  destruct (recalculated_totals Hnd) as [Hz Ht1].
  assert (Hpaid0 : 0 <= total_of (filter (fun x => partition_of n h x < i)%nat R)).
  { apply (total_of_filter_le (map (fmap dr_stake_reward) rs) pot n Hrange ltac:(lia)). }
  set (comm1 := comm + total_of (filter (fun x => partition_of n h x < i)%nat R)) in *.
  destruct (run_pays (map (fmap dr_stake_reward) rs1) pot comm1 pts start n h e sch ix1 i recalculated_keys recalculated_range
    ltac:(unfold comm1; lia) ltac:(unfold comm1; lia) (proj2 Hpot) ltac:(lia) Hslots Hs0 Hs1 Eix fs i b2 Hfs ltac:(lia) Hb2)
    as (t & b' & Et & [_ _ _ Q4 Q5 _ Q6] & Hr & _ & Ho & Hk). rewrite Hlen in *.
  exists b2, t, b'. split; [done|]. split; [done|]. split; [|split; [|split]].
  - intros x Hx. destruct (decide (partition_of n h x < i)%nat) as [Hxi|Hxi].
    + split; [|rewrite Hk, Hst by (intros _; unfold partition_of in Hxi; lia); by apply Hpaid].
      destruct (decide (ps_stake_pubkey x ∈ map ps_stake_pubkey R1)) as [(x1 & Ek & Hx1)%list_elem_of_fmap|Hout];
        [|by apply unchanged_received, Ho].
      rewrite Ek, (Hr x1 Hx1), decide_False; [done|]. unfold partition_of in *. rewrite <- Ek. lia.
    + pose proof Hx as Hx'. apply (recalculated_unpaid x) in Hx'; [|unfold partition_of in Hxi; lia].
      pose proof (hash_in_range n h (ps_stake_pubkey x) ltac:(lia)) as Hin. fold (partition_of n h x) in Hin.
      rewrite (Hr x Hx'), decide_True by lia. split; [done|]. specialize (Q6 x Hx' ltac:(lia)). rewrite decide_True in Q6 by done.
      destruct Q6 as (sa & -> & <-). done.
  - intros k Hk'. rewrite Hk, Hst, Hsame; [done|by intros ?|]. intros (x & -> & Hx)%list_elem_of_fmap Hin.
    apply Hk', list_elem_of_fmap_2, recalculated_unpaid; [lia|done].
  - unfold status_at in Q4. by rewrite decide_False in Q4 by lia.
  - rewrite Q5, bool_decide_false by lia. eexists. split; [done|]. split; [done|].
    cbn [sysvar_at er_distributed_rewards]. rewrite all_paid by lia. unfold comm1. lia.
Qed.
End recalculation.

(** C10. A restart in an epoch with points is invisible as long as the slashing state survives it: a validator that stops
    after any number of partitions but the last, starts from a snapshot and recalculates the rewards with the slashing
    state, the vote accounts and the filter of the first calculation goes on without a panic, pays every stake its reward
    exactly once over the blocks before and after the restart (what was paid is not paid again, what was not is paid as
    calculated), leaves the stake of every other account as it was, and ends with the same totals in the sysvar; with any
    transactions in between that leave the stake of every account as it is.  (Without points it is not: see
    [restart_without_points].) *)
Theorem restart_resumes `{!RewardsSdk} `{!HashMapIter} effective_stake vote_program split split' slashing feat cached pot least b :
  let pts := zsum (map (delegation_points effective_stake vote_program cached) (filtered_delegations least b)) in
  let epoch := saturating_sub (bank_epoch b) 1 in
  cached_ok vote_program cached -> credits_ok effective_stake cached (stakes b) -> 0 <= pot <= i64_max ->
  (forall l, work_items (split l) ≡ₚ l) -> 0 < pts <= u128_max ->
  Forall (fun d => delegation_points effective_stake vote_program cached d * pot <= u128_max) (filtered_delegations least b) ->
  stakes_ok pot (stakes b) -> schedule_ok (schedule b) -> 0 <= bank_epoch b -> 0 <= block_height b ->
  block_height b + get_slots_in_epoch (schedule b) (bank_epoch b) <= u64_max ->
  exists r n b0,
    let pv := {| pv_rewards := pot; pv_points := pts |} in
    calculate_rewards_for_partitioning effective_stake vote_program split slashing feat cached epoch pot least b = Some (r, pv)
  /\ get_reward_distribution_num_blocks (num_rewards r) b = Some (Z.of_nat n)
  /\ begin_partitioned_rewards r pv b = Some b0
  /\ forall fs1 fs2, (length fs1 < n)%nat -> (length fs1 + length fs2 = n)%nat ->
     Forall (keeps (u64_max - pot)) fs1 -> Forall (keeps (u64_max - pot)) fs2 ->
     exists t1 b1 b2 t2 b',
       distribution_run fs1 b0 = Some (t1, b1)
     /\ recalculate_partitioned_rewards_if_active effective_stake split' feat cached least slashing (new_from_snapshot b1).1 = Some b2
     /\ distribution_run fs2 b2 = Some (t2, b')
     /\ (forall x, x ∈ omap id (stake_rewards r) ->
           zsum (map (received (ps_stake_pubkey x)) (t1 ++ t2)) = ps_stake_reward x
           /\ sa_stake <$> stakes b' !! ps_stake_pubkey x = Some (ps_stake x))
     /\ (forall k, k ∉ map ps_stake_pubkey (omap id (stake_rewards r)) ->
           sa_stake <$> stakes b' !! k = sa_stake <$> stakes b !! k)
     /\ epoch_reward_status b' = Inactive
     /\ exists e, sysvar b' = Some e /\ er_active e = false
        /\ er_distributed_rewards e = total_reward_commission_lamports r + total_stake_rewards r.
Proof.
  intros pts epoch Hok Hcr Hpot Hsplit [Hpts HP] Hmul Hst Hsch He Hh Hh'.
  destruct (calculation_distributable effective_stake vote_program split slashing feat cached epoch pot least b Hok Hpot Hsplit HP Hmul Hst)
    as (r & pv & E & _ & _ & Hd).
  assert (Hcalc : exists rs, pv = {| pv_rewards := pot; pv_points := pts |} /\ stake_rewards r = map (fmap dr_stake_reward) rs
    /\ redeem_all effective_stake slashing feat cached epoch pv (filtered_delegations least b) = Some rs).
  { unfold calculate_rewards_for_partitioning in E.
    destruct (validator_rewards_facts effective_stake vote_program split slashing feat cached epoch pot (filtered_delegations least b)
      Hok ltac:(lia) Hsplit HP Hmul) as [[Hz _]|(r' & rs & _ & E' & Hrs & _ & Hl & _)]; [unfold pts in Hpts; lia|].
    rewrite E' in E. cbn [mbind option_bind default] in E. injection E as <- <-. by exists rs. }
  destruct Hcalc as (rs & -> & Hl & Hrs).
  destruct (rewards_started b r _ Hd Hsch He Hh Hh') as (n & ix & b0 & Hst0).
  exists r, n, b0. split; [done|]. split; [apply Hst0|]. split; [apply Hst0|]. intros fs1 fs2 Hlt Hlen Hf1 Hf2.
  destruct (started_run _ _ _ _ _ _ fs1 Hst0 ltac:(lia) Hf1) as (t1 & b1 & Et1 & Hb1 & Hr1 & _ & _ & Hk1).
  pose proof Hst0 as [_ _ Hn Hslots _ _ _ _ _ _]. pose proof (rewards_in_range b r _ Hd) as Hrange. destruct Hd as [D1 _ D3 _ _ D6 D7 D8]. cbn [pv_rewards pv_points] in *. rewrite Hl in *.
  set (h := last_blockhash b) in *. set (i := length fs1) in *. set (R := omap id (map (fmap dr_stake_reward) rs)) in *.
  assert (Hpaid : forall x, x ∈ R -> (hash_address_to_partition n h (ps_stake_pubkey x) < i)%nat ->
    sa_stake <$> stakes b1 !! ps_stake_pubkey x = Some (ps_stake x)).
  { intros x Hx Hxi. pose proof (pu_stakes _ _ _ _ _ _ _ _ _ _ _ _ _ Hb1 x Hx ltac:(lia)) as Hp. rewrite decide_True in Hp by done.
    destruct Hp as (sa & -> & <-). done. }
  destruct (recalculation_succeeds effective_stake feat cached least slashing vote_program Hok b epoch pot rs Hcr Hpts Hpot Hmul Hrs
    b1 n i h Hk1 Hpaid) as (rs1 & Hrs1 & _).
  assert (Hwithin : total_reward_commission_lamports r + total_of R <= pot) by lia.
  destruct (resumed_run effective_stake split' feat cached least slashing vote_program Hok b epoch pot rs Hcr Hpts Hpot Hmul Hrs
    b1 n i h Hk1 Hpaid rs1 Hrs1 (total_reward_commission_lamports r) (block_height b + 1) (bank_epoch b) (schedule b) ix fs2
    eq_refl D3 Hrange Hlt D6 Hwithin Hslots ltac:(lia) ltac:(lia) Hb1 Hf2 ltac:(lia))
    as (b2 & t2 & b' & Eb2 & Et2 & Hx2 & Hk2 & Hinactive & er & Her & Hact & Hdist).
  exists t1, b1, b2, t2, b'. split; [done|]. split; [done|]. split; [done|]. split; [|split; [done|split; [done|]]].
  - intros x Hx. destruct (Hx2 x Hx) as [Hrec Hfin]. split; [|done]. rewrite map_app, zsum_app, (Hr1 x Hx), Hrec.
    case_decide; lia.
  - exists er. split; [done|]. split; [done|]. by rewrite Hdist, D7.
Qed.

(** ** The slashing state of a process

    A bank does not own its slashing state: the field is a shared reference,
    which [new_from_parent] copies.  [Node] has the states that were allocated
    and, for every bank, the one it refers to. *)

Record Node := { states : list SlashingState; banks : list nat }.

(** a process starts from a snapshot with one bank and a new state *)
Definition start_node : Node := {| states := [SlashingState_new]; banks := [0%nat] |}.

Definition bank_new_from_parent (parent : nat) (nd : Node) : option Node :=
  ref ← banks nd !! parent; Some {| states := states nd; banks := banks nd ++ [ref] |}.

Definition trv1_slashing_state (bank : nat) (nd : Node) : option SlashingState := ref ← banks nd !! bank; states nd !! ref.

(** the check of offline validators when [bank] starts an epoch; [last_votes] is what it reads of its own vote accounts *)
Definition jail_offline (bank : nat) (last_votes : list (Pubkey * Z)) (slot epoch : Z) (nd : Node) : option Node :=
  ref ← banks nd !! bank; st ← states nd !! ref;
  Some {| states := <[ref := (check_offline_validators last_votes slot epoch st).2]> (states nd); banks := banks nd |}.

Inductive node_op :=
  | NewBank (parent : nat)
  | NewEpoch (bank : nat) (last_votes : list (Pubkey * Z)) (slot epoch : Z).

Definition node_exec (nd : option Node) (op : node_op) : option Node :=
  nd ← nd;
  match op with
  | NewBank parent => bank_new_from_parent parent nd
  | NewEpoch bank last_votes slot epoch => jail_offline bank last_votes slot epoch nd
  end.

(** the checks of a run, whichever bank made them *)
Definition epoch_check (op : node_op) : option slash_op :=
  match op with NewBank _ => None | NewEpoch _ last_votes slot epoch => Some (EpochBoundary last_votes slot epoch) end.

Lemma node_run_shared ops nd : foldl node_exec (Some start_node) ops = Some nd ->
  states nd = [exec_all SlashingState_new (omap epoch_check ops)] /\ Forall (fun ref => ref = 0%nat) (banks nd).
Proof.
  revert nd. induction ops as [|op ops IH] using rev_ind; intros nd; [intros [= <-]; by repeat constructor|].
  rewrite foldl_snoc. destruct (foldl node_exec (Some start_node) ops) as [nd0|]; [|done].
  destruct (IH nd0 eq_refl) as [IH1 IH2]. cbn [node_exec mbind option_bind]. rewrite omap_app. destruct op as [p|j votes slot e]; cbn.
  - unfold bank_new_from_parent. destruct (banks nd0 !! p) as [ref|] eqn:E; [|done]. intros [= <-]. cbn. rewrite app_nil_r.
    split; [done|]. apply Forall_app. split; [done|]. constructor; [|done]. by eapply (Forall_lookup_1 _ _ _ _ IH2).
  - unfold jail_offline. destruct (banks nd0 !! j) as [ref|] eqn:E; [|done]. cbn [mbind option_bind].
    pose proof (Forall_lookup_1 _ _ _ _ IH2 E) as ->. rewrite IH1. cbn. intros [= <-]. cbn. split; [|done].
    unfold exec_all. by rewrite foldl_app.
Qed.

(** C29. All forks of a process share one slashing state: after any run in which
    banks are created on any fork and start epochs, every bank sees the result
    of the offline checks of all of them, in the order in which the process
    happened to make them, those of abandoned and competing forks included. *)
Theorem forks_share_slashing ops nd bank : foldl node_exec (Some start_node) ops = Some nd -> (bank < length (banks nd))%nat ->
  trv1_slashing_state bank nd = Some (exec_all SlashingState_new (omap epoch_check ops)).
Proof.
  intros [Hs Hb]%node_run_shared Hlt. unfold trv1_slashing_state. destruct (lookup_lt_is_Some_2 _ _ Hlt) as [ref E].
  rewrite E. cbn [mbind option_bind]. by rewrite (Forall_lookup_1 _ _ _ _ Hb E), Hs.
Qed.

(** ** Concrete runs *)

Module RewardsRecoveryExamples.
Import EpochRewardsExamples RewardsDistributionExamples.

(** two competing banks start the epoch; validator 7 has voted on the second only, and is jailed there *)
Definition two_forks : list node_op := [NewBank 0; NewBank 0; NewEpoch 1 [(7, 10)] 300000 2; NewEpoch 2 [(7, 299999)] 300000 2].

Lemma forks_share_slashing_witness : exists nd,
  foldl node_exec (Some start_node) two_forks = Some nd
  /\ trv1_slashing_state 2 nd = Some (exec_all SlashingState_new (omap epoch_check two_forks))
  /\ is_jailed_or_banned 7 (exec_all SlashingState_new (omap epoch_check two_forks)) = true
  /\ is_jailed_or_banned 7 (exec_all SlashingState_new [EpochBoundary [(7, 299999)] 300000 2]) = false.
Proof.
  eexists. split; [reflexivity|]. split; [|split; vm_compute; reflexivity].
  apply forks_share_slashing; [reflexivity|]. vm_compute. repeat constructor.
Defined.

(** every delegation is fully effective *)
Definition effective (d : Delegation) (_ : Z) : Z := Z.max 0 (d_stake d).

(** stake 57 is delegated to the jailed validator 102 *)
Definition epoch_bank : Bank :=
  with_stakes {[50 := stake_account 6000 (stake_of_voter 1 5000 150); 53 := stake_account 1000 (stake_of_voter 1 900 0);
                57 := stake_account 8000 (stake_of_voter 2 7001 200)]} first_bank.

Definition epoch_delegations : list (option (Pubkey * StakeStateV2)) :=
  Eval vm_compute in filtered_delegations None epoch_bank.

Lemma epoch_stakes_ok : stakes_ok 1000 (stakes epoch_bank).
Proof.
  intros k sa Hk. cbn [epoch_bank with_stakes stakes] in Hk.
  apply lookup_insert_Some in Hk as [[_ <-]|[_ Hk]]; [repeat split; vm_compute; (discriminate || lia)|].
  apply lookup_insert_Some in Hk as [[_ <-]|[_ Hk]]; [repeat split; vm_compute; (discriminate || lia)|].
  apply lookup_singleton_Some in Hk as [_ <-]. repeat split; vm_compute; (discriminate || lia).
Qed.

Lemma epoch_credits_ok : credits_ok effective cached (stakes epoch_bank).
Proof.
  assert (Hv : forall k v, distribution_epoch_vote_accounts cached !! k = Some v ->
    va_epoch_credits v = [(7, 100, 0); (8, 200, 100); (9, 300, 200)]).
  { intros k v Hk. cbn [cached distribution_epoch_vote_accounts] in Hk.
    apply lookup_insert_Some in Hk as [[_ <-]|[_ Hk]]; [done|]. by apply lookup_singleton_Some in Hk as [_ <-]. }
  split.
  - intros d e. unfold effective. lia.
  - intros k v Hk. unfold history_ok. rewrite (Hv k v Hk). cbn. lia.
  - intros k sa v Hk Hvk. rewrite (Hv _ v Hvk). clear v Hvk. cbn [epoch_bank with_stakes stakes] in Hk.
    apply lookup_insert_Some in Hk as [[_ <-]|[_ Hk]]; [split; vm_compute; discriminate|].
    apply lookup_insert_Some in Hk as [[_ <-]|[_ Hk]]; [split; vm_compute; discriminate|].
    apply lookup_singleton_Some in Hk as [_ <-]. split; vm_compute; discriminate.
Qed.

Lemma restart_resumes_witness : exists r pv b0 t1 b1 b2 t2 b',
  calculate_rewards_for_partitioning effective 33 halves jailed_102 features cached 9 1000 None epoch_bank = Some (r, pv)
  /\ begin_partitioned_rewards r pv epoch_bank = Some b0
  /\ distribution_run [burn_fees] b0 = Some (t1, b1)
  /\ recalculate_partitioned_rewards_if_active effective halves features cached None jailed_102 (new_from_snapshot b1).1 = Some b2
  /\ distribution_run [burn_fees] b2 = Some (t2, b')
  /\ zsum (map (received 50) (t1 ++ t2)) = 392 /\ zsum (map (received 53) (t1 ++ t2)) = 140
  /\ sa_stake <$> stakes b' !! 57 = Some (stake_of_voter 2 7001 200).
Proof.
  destruct (restart_resumes effective 33 halves halves jailed_102 features cached 1000 None epoch_bank) as (r & n & b0 & Hr & Hn & Hb & Hrun).
  - apply cached_example_ok.
  - apply epoch_credits_ok.
  - vm_compute. split; discriminate.
  - intros l. unfold halves. cbn [work_items]. rewrite take_drop. reflexivity.
  - vm_compute. split; [reflexivity|discriminate].
  - assert (E : filtered_delegations None epoch_bank = epoch_delegations) by (vm_compute; reflexivity). rewrite E.
    repeat constructor; vm_compute; discriminate.
  - apply epoch_stakes_ok.
  - split; cbn; intros; lia.
  - vm_compute. discriminate.
  - vm_compute. discriminate.
  - vm_compute. discriminate.
  - pose proof Hr as Hr'. vm_compute in Hr'. injection Hr' as Er. subst r.
    assert (n = 2%nat) as -> by (change (Some 2 = Some (Z.of_nat n)) in Hn; injection Hn as Hn; lia).
    destruct (Hrun [burn_fees] [burn_fees]) as (t1 & b1 & b2 & t2 & b' & E1 & E2 & E3 & Hx & Ho & _);
      [cbn; lia|reflexivity|apply Forall_singleton, burn_fees_keeps|apply Forall_singleton, burn_fees_keeps|].
    do 2 eexists. exists b0, t1, b1, b2, t2, b'. split; [exact Hr|]. split; [exact Hb|]. split; [exact E1|]. split; [exact E2|].
    split; [exact E3|]. cbn [stake_rewards] in Hx, Ho.
    split; [apply (proj1 (Hx _ ltac:(right; left)))|]. split; [apply (proj1 (Hx _ ltac:(left)))|]. rewrite Ho; [vm_compute; reflexivity|].
    vm_compute. intros H. inversion H; subst. inversion H2; subst. inversion H3.
Defined.

(** without points nothing is calculated at first, while a restart redeems every delegation for nothing and moves its credits *)
Definition idle_bank : Bank := with_stakes {[50 := stake_account 6000 (stake_of_voter 1 0 150)]} first_bank.

Definition is_inactive (b : Bank) : bool := match epoch_reward_status b with Inactive => true | Active _ => false end.
Definition credits_at (k : Pubkey) (b : Bank) : Z := match stakes b !! k with Some sa => credits_observed (sa_stake sa) | None => 0 end.

Definition idle_check : bool :=
  match calculate_rewards_for_partitioning effective 33 halves jailed_102 features cached 9 1000 None idle_bank with
  | None => false
  | Some (r, pv) =>
      match begin_partitioned_rewards r pv idle_bank with
      | None => false
      | Some b0 =>
          match distribution_run [burn_fees] b0,
                recalculate_partitioned_rewards_if_active effective halves features cached None jailed_102 (new_from_snapshot b0).1 with
          | Some (_, b'), Some restored =>
              match distribution_run [burn_fees] restored with
              | Some (_, b'') => (credits_at 50 b' =? 150) && (credits_at 50 b'' =? 300)
              | None => false
              end
          | _, _ => false
          end
      end
  end.

Example restart_without_points : idle_check = true.
Proof. vm_compute. reflexivity. Qed.

(** a validator that restarts and one that does not: both pay to the end, and only the first pays stake 57 *)
Definition jail_check : bool :=
  match calculate_rewards_for_partitioning effective 33 halves jailed_102 features cached 9 1000 None epoch_bank with
  | None => false
  | Some (r, pv) =>
      match begin_partitioned_rewards r pv epoch_bank with
      | None => false
      | Some b0 =>
          match distribution_run [burn_fees] b0 with
          | None => false
          | Some (_, b1) =>
              match distribution_run [burn_fees] b1,
                    recalculate_partitioned_rewards_if_active effective halves features cached None
                      (new_from_snapshot b1).2 (new_from_snapshot b1).1 with
              | Some (_, b'), Some restored =>
                  match distribution_run [burn_fees] restored with
                  | Some (_, b'') => (lamports_at 57 b' =? 8000) && (8000 <? lamports_at 57 b'')
                                     && (capitalization b' <? capitalization b'') && is_inactive b' && is_inactive b''
                  | None => false
                  end
              | _, _ => false
              end
          end
      end
  end.

Lemma jail_check_true : jail_check = true.
Proof. vm_compute. reflexivity. Qed.

Lemma is_inactive_true b : is_inactive b = true -> epoch_reward_status b = Inactive.
Proof. unfold is_inactive. by destruct (epoch_reward_status b). Qed.
End RewardsRecoveryExamples.

Import EpochRewardsExamples RewardsDistributionExamples RewardsRecoveryExamples.

(** C11. A restart in the middle of the distribution forks the chain: while
    validator 102 is jailed, one validator pays both partitions of an epoch and
    leaves the stake delegated to 102 alone; another stops after the first
    partition and starts from a snapshot, has no slashing state, recalculates
    the rewards without the jail, and in the same block pays that stake, so that
    the two end with different accounts and different capitalizations. *)
Theorem restart_forgets_jail : exists r pv b0 t1 b1 t2 b' restored t2' b'',
  calculate_rewards_for_partitioning effective 33 halves jailed_102 features cached 9 1000 None epoch_bank = Some (r, pv)
  /\ begin_partitioned_rewards r pv epoch_bank = Some b0
  /\ distribution_run [burn_fees] b0 = Some (t1, b1)
  /\ distribution_run [burn_fees] b1 = Some (t2, b')
  /\ recalculate_partitioned_rewards_if_active effective halves features cached None
       (new_from_snapshot b1).2 (new_from_snapshot b1).1 = Some restored
  /\ distribution_run [burn_fees] restored = Some (t2', b'')
  /\ lamports_at 57 b' = 8000 /\ 8000 < lamports_at 57 b'' /\ capitalization b' < capitalization b''
  /\ epoch_reward_status b' = Inactive /\ epoch_reward_status b'' = Inactive.
Proof.
  pose proof jail_check_true as Hc. unfold jail_check in Hc.
  destruct (calculate_rewards_for_partitioning _ _ _ _ _ _ _ _ _ _) as [[r pv]|] eqn:E1; [|done].
  destruct (begin_partitioned_rewards r pv epoch_bank) as [b0|] eqn:E2; [|done].
  destruct (distribution_run [burn_fees] b0) as [[t1 b1]|] eqn:E3; [|done].
  destruct (distribution_run [burn_fees] b1) as [[t2 b']|] eqn:E4; [|done].
  destruct (recalculate_partitioned_rewards_if_active _ _ _ _ _ _ _) as [restored|] eqn:E5; [|done].
  destruct (distribution_run [burn_fees] restored) as [[t2' b'']|] eqn:E6; [|done].
  apply andb_true_iff in Hc as [Hc H5]. apply andb_true_iff in Hc as [Hc H4]. apply andb_true_iff in Hc as [Hc H3].
  apply andb_true_iff in Hc as [H1 H2]. exists r, pv, b0, t1, b1, t2, b', restored, t2', b''.
  do 6 (split; [done|]). split; [lia|]. split; [lia|]. split; [lia|]. split; by apply is_inactive_true.
Qed.
